(* ===== verification/_CoqProject ===== *)
-Q . S2P
Prelude.v
Triple.v
Synchronization.v
Job.v
BaseMultiQueue.v
MultiQueue.v
MultiQueueSpec.v
MultiQueueRuns.v
MultiQueueConc.v
MultiQueueSolo.v
MultiQueueLocks.v
MultiQueueSafety.v
MultiQueueLin.v
MultiQueueWake.v
MultiQueueTokens.v
JobTypes.v
Dispatcher.v
Scheduler.v
DStage.v
StageContract.v
ExecutorConc.v
ExecutorLive.v
Throttler.v
ThrottlerInv.v
ThrottlerStats.v
ThrottleJobs.v
ThrottlerTimer.v
ProxyPipe.v
Client.v
ClientInv.v
ClientFetch.v
ClientGet.v
ClientRace.v
ClientSafe.v
ClientOwn.v
ClientStages.v
CommHandler.v
CommHandlerInv.v
CommContract.v
Describe.v
Proxy.v
ProxyLife.v
ProxyFlow.v
ProxyStage.v
ProxyApp.v
ProxyMain.v
