(* ===== verification/Prelude.v ===== *)
(** * DANS: a verification development for the Duplicate Aware Networked Stack

    DANS is a C++ library of staged, prioritised job processing with two programs
    on top of it: a client that fetches an object from several servers at once,
    and a TCP proxy that throttles two classes of connections.  A stage (DStage)
    owns a MultiQueue, a Dispatcher that puts jobs into it, and a Scheduler whose
    worker threads take them out; a job may be duplicated over the priorities, and
    once one duplicate has done the work the others are purged from every queue.
    Sockets are watched by LinuxCommunicationHandler, whose epoll threads run
    callbacks that hand jobs to the next stage.

    ** What models what

    Paths are under common/dstage/ unless another directory is given.

    - Prelude.v: 32-bit integers with their wrap-around, the outcome monad
      ([Done], [Wait] for a thread that blocks, [Crash] for CHECK failures and
      undefined behaviour), mutexes, vectors indexed by priority.  Triple.v:
      pre- and postconditions of computations in that monad.
    - Synchronization.v: PurgeState, Counter, Connection (synchronization.h, .cc).
    - Job.v: Job, JobIdFactory (job.h, priority.h).
    - BaseMultiQueue.v: the abstract class as a type class, and its contract
      [MultiQueueContract], one FIFO per priority (basemultiqueue.h).
    - MultiQueue.v: MultiQueue<T>, each operation run alone (multiqueue.h, .hh).
      MultiQueueSpec.v: its invariant, and the instance of the contract.
      MultiQueueRuns.v: runs of calls.  MultiQueueConc.v: the same operations as
      threads that interleave at every lock operation.  MultiQueueSolo.v: a thread
      that runs alone computes the function of MultiQueue.v.  MultiQueueLocks.v,
      MultiQueueSafety.v, MultiQueueLin.v, MultiQueueWake.v, MultiQueueTokens.v:
      invariants and theorems of the concurrent queue.
    - JobTypes.v: the data of the client's jobs and the wire header (job_types.h).
    - Dispatcher.v: Dispatcher, ForwardingDispatcher, ConnectDispatcher
      (dispatcher.hh, forwarding_dispatcher.hh, client_connect_handler.cc).
    - Scheduler.v: Scheduler (scheduler.hh) and ThreadUtility
      (common/thread/thread_utility.cc).
    - DStage.v: DStage (dstage.hh) and Executor (executor.h, .cc).
      StageContract.v: the abstract class BaseDStage (basedstage.h) as a type
      class, its contract, and the library's stages as instances.
    - ExecutorConc.v: the Executor's workers, its callers and the thread that
      destroys it, as threads that interleave at every lock operation of the
      MultiQueue they share (executor.cc); ExecutorLive.v: their liveness.
    - Throttler.v: Throttler and ThrottleJob (throttler.h, .hh) as operations and
      as an interleaving machine; ThrottlerInv.v: its invariants;
      ThrottlerStats.v: AddStat and the collection of samples; ThrottleJobs.v:
      ThrottleJob from its constructor to the sample its destructor leaves;
      ThrottlerTimer.v: the updater thread of RunEveryT.
    - Client.v: the three client stages (client_connect_handler.cc,
      client_request_handler.cc, client_response_handler.cc); ClientInv.v and
      ClientFetch.v: one call of [done], the fetch of an object; ClientGet.v: a
      request from Dispatch to [done]; ClientRace.v: the same when duplicates fail
      on the way; ClientSafe.v: well-formed states and the faults an operation can
      end in; ClientOwn.v: who holds a Connection and which are left without a holder;
      ClientStages.v: construction of the stages, their workers' loop and their
      destruction.
    - CommHandler.v: LinuxCommunicationHandler (linux_communication_handler.cc)
      and Callback (common/util/callback.hh); CommHandlerInv.v: lifetime of the
      callbacks, accepting connections, shutdown; CommContract.v: the contract of
      CommunicationHandlerInterface and its refinement.
    - Describe.v: the Describe functions of Job, MultiQueue, Throttler and TcpPipe,
      and PrintEpollEvents.
    - ProxyPipe.v: TcpPipe; Proxy.v: ProxyScheduler on one job (proxy_dstage.h,
      .cc): its callbacks, its registrations, the events fetched for it and the
      assignments and deletions of callback pointers; ProxyLife.v: their orders;
      ProxyFlow.v: what a callback does with a pipe's result; ProxyStage.v:
      DStageProxy, ProxyScheduler and DansThrottlingProxy
      (dans_throttling_proxy.cc); ProxyApp.v: from an accepted connection to a
      queued job; ProxyMain.v: dans_proxy.cc, throttling_proxy_example.cc
      (applications/throttling_proxy/), start and end of the proxy.

    Definitions have the names of the functions they translate; constructors are
    [new] or [construct], destructors [destroy...].

    ** What the theorems show

    - MultiQueue: the operations refine the abstract FIFOs
      ([multiqueue_refines_fifos]) and concurrent runs are linearizable
      ([multiqueue_linearizable]); the two translations of the code agree
      ([solo_is_sequential]); no deadlock on the internal locks, no lost wake-up
      and no fault for the callers the code is safe for ([no_lost_wakeup],
      [multi_consumer_safe], [single_consumer_safe]); what ReleaseQueues lets go.
      The callers for which it is not safe are shown by concrete interleavings; for
      any callers, a pop of an empty queue is the only fault there is
      ([only_empty_pop_faults]).
      Size and Empty, which take no lock, agree with the FIFOs
      ([unlocked_reads_agree]).
    - Dispatchers: the fan-out of a job and its inverse, Purge.
    - Stages: the workers a Scheduler starts; Purge takes back exactly what was
      dispatched under its id, on every stage ([stage_purge_selective]).
    - Executor: first come, first served; no task is lost, run twice or invented
      ([executor_conserves_tasks]); the threads come to rest and then every task
      has been run ([executor_runs_every_task]); with one worker no queue operation
      faults, every task is run, and the worker returns or is left at a test of
      the destroyed [_destructing] ([single_worker_shuts_down],
      [executor_reads_dead_flag]).  With several
      workers a fault and a hanging destructor are possible: the executions
      [executor_startup_race] and [executor_shutdown_hangs] of MultiQueueConc.v.
    - Throttler: the live jobs of a priority never exceed the peak of its targets,
      primary jobs are not starved, every ThrottleJob is counted while it lives
      and leaves one sample ([throttle_jobs_accounted]), samples are neither lost
      nor counted twice, the updater stops when told to and there is at most one.
    - Client: [done] is called once per request, with the server's bytes, by
      whichever duplicate gets through ([get_completes]), also when others fail on
      the way with an error ([get_survives_failures]; a connect(2) that answers at
      once aborts the client, [immediate_connect_aborts]); every reachable state is
      well formed and a fault is always the environment's ([client_type_safe]); a
      Connection has at most one holder, never gets a second one and stays open
      while it is held ([connections_owned]); purging walks all stages; stages
      start, and their destructors wake the idle workers, which test a flag that
      may be destroyed by then ([client_shutdown_releases]).
    - Communication handler with one worker: it behaves as a bag of registrations
      each of which is called back at most once, with its own socket
      ([handler_keeps_contract]); a callback is never run after it was freed, which
      rests on EPOLLONESHOT, a served port never goes deaf, which rests on the mask
      it is armed with, and shutdown ends.  With two workers a callback is run
      twice ([shared_event_buffer_race]).
    - Describe: a printed multi-queue determines the ids in its queues and the
      priorities in its map ([multiqueue_describe_faithful]).
    - Proxy: a pipe copies the stream from one of its sockets to the other and
      returns; outside of four races, each shown by a run that uses freed memory,
      no callback of a job dangles, leaks or is freed twice and shutdown(2) is
      called at most once ([proxied_job_lifecycle]); accepted connections become
      queued jobs and a client that leaves is purged.

    ** Modelling choices and bounds

    Steps are sequentially consistent.  A function that holds one mutex from its
    first line to its return is one step; MultiQueue's operations interleave at
    every lock and unlock.  A mutex is a lock word: the code unlocks the "not
    empty" mutexes from threads that do not hold them, which is modelled as a
    store.  The Throttler's decisions run under [_state_lock] and are one step.
    In the proxy, fetching an event, running its callback, storing the pointer
    that Monitor returned and each test-and-delete of such a pointer are steps of
    their own; a callback is one step, and so is a pass of the client's workers;
    what [done] does is a later operation.  Shared and
    unique pointers are references into stores; the proxy's heap and the
    communication handler's callbacks are freed and checked for use after free.
    Answers of the kernel (descriptors, errors, what read and send return, which
    events are ready) and the clock are arguments.

    Fuel: Dequeue's loop needs two passes at most when it runs alone
    (MultiQueueSpec.dequeue_loop_enough), ConnectDispatcher's loop one pass per
    priority and one more (Dispatcher.duplicate_loop_Done), a thread that runs
    alone as many steps as MultiQueueSolo.v states; Pipe, the response stage and
    accept recurse on the script of the kernel's answers, and a script that ends
    is a thread that waits.  [ExecutorLive.fuel] bounds the steps the Executor's
    threads have left.  The other loops are structural.

    ** Not modelled

    Logging calls (VLOG, PLOG) and flag parsing; the pthread and epoll system
    calls beyond the effect stated above; std::thread, std::mutex and the
    containers except through the behaviour the code uses; declarations that have
    no behaviour of their own (abstract classes other than BaseMultiQueue and
    BaseDStage, deleted constructors); the tests.  Of the socket calls, socket(2), setsockopt(2),
    bind(2) and listen(2) are their results: their failures are only logged; the
    ports the proxies serve are not in their state.  Of epoll, the events a
    registration is armed for, EPOLLONESHOT included, decide what is delivered.
    The members of a scheduler are destroyed before its base class joins the
    workers: ExecutorConc.v, ClientStages.v and ProxyStage.v have this as a step,
    after which a worker's test of [_destructing] is a use of freed memory.  The
    theorems on ConnectDispatcher take the argument order in which Dispatch does
    not read a moved-from pointer.  Calls to Submit during or after the destructor are undefined
    in C++; the model lets them go on, and the theorems hold for them too.  Weak
    memory effects and data races are outside of the model: unlocked reads see
    the last write. *)

From stdpp Require Import prelude gmap list.

(** ** Machine integers *)

(** [unsigned] values are [N] below [2^32] with wrap-around written out;
    [int] values are [Z] with the modular conversion of the Linux ABI. *)
Definition u32_mod : N := 4294967296.

Definition UINT_MAX : N := 4294967295.

Definition u32 (x : N) : N := (x mod u32_mod)%N.

Definition u32_add (a b : N) : N := u32 (a + b).

Definition u32_sub (a b : N) : N := u32 (a + u32_mod - b).

Definition is_u32 (x : N) : Prop := (x < u32_mod)%N.

Definition INT_MAX : Z := 2147483647.

Definition INT_MIN : Z := -2147483648.

(** Conversion of a mathematical integer to [int] (modulo [2^32]). *)
Definition i32 (z : Z) : Z := ((z + 2147483648) mod 4294967296 - 2147483648)%Z.

(** Conversion of an [int] to [unsigned]. *)
Definition u32_of_Z (z : Z) : N := Z.to_N (z mod 4294967296).

Definition is_i32 (z : Z) : Prop := (INT_MIN <= z <= INT_MAX)%Z.

Create HintDb dans.

Ltac u32_unfold :=
  unfold u32_add, u32_sub, u32_of_Z, i32, is_i32, is_u32, u32, u32_mod,
    UINT_MAX, INT_MAX, INT_MIN in *.

Lemma u32_small x : is_u32 x -> u32 x = x.
Proof. intros H. apply N.mod_small, H. Qed.

Lemma u32_lt x : is_u32 (u32 x).
Proof. unfold is_u32, u32. apply N.mod_lt. done. Qed.

Lemma u32_add_small a b : is_u32 (a + b) -> u32_add a b = (a + b)%N.
Proof. apply u32_small. Qed.

Lemma u32_sub_le a b : is_u32 a -> (b <= a)%N -> u32_sub a b = (a - b)%N.
Proof.
  unfold u32_sub, u32, is_u32. intros Ha Hb.
  replace (a + u32_mod - b)%N with (a - b + 1 * u32_mod)%N by lia.
  rewrite N.Div0.mod_add. apply N.mod_small. lia.
Qed.

Lemma u32_sub_wrap a b :
  is_u32 b -> (a < b)%N -> u32_sub a b = (a + u32_mod - b)%N.
Proof. unfold u32_sub, u32, is_u32. intros Hb Hab. apply N.mod_small. lia. Qed.

Lemma i32_id z : is_i32 z -> i32 z = z.
Proof. u32_unfold. intros H. rewrite Z.mod_small; lia. Qed.

#[export] Hint Resolve u32_lt u32_small u32_add_small u32_sub_le i32_id : dans.

(** ** Outcomes of C++ code *)

(** What stops a run: a failed glog CHECK (the process aborts), or one of the
    undefined behaviours the translated code can run into; [SystemError] is an
    exception of std::thread that nobody catches. *)
Inductive fault : Type :=
| CheckFailure
| NullDeref
| OutOfRange
| EmptyFront
| BadIterator
| BadOffset
| SignedOverflow
| UseAfterFree
| LengthError
| SystemError.

#[export] Instance fault_eq_dec : EqDecision fault.
Proof. solve_decision. Defined.

(** [Done a s]: the call returned [a] and left the shared state [s].
    [Wait s]: the calling thread is blocked on a mutex, the shared state is [s].
    [Crash e]: the call aborted the process or its behaviour is undefined. *)
Inductive outcome (S A : Type) : Type :=
| Done (a : A) (s : S)
| Wait (s : S)
| Crash (e : fault).

Arguments Done {S A} a s.
Arguments Wait {S A} s.
Arguments Crash {S A} e.

(** State-passing computations with the three outcomes. *)
Definition M (S A : Type) : Type := S -> outcome S A.

#[export] Instance M_ret S : MRet (M S) := fun A a s => Done a s.

#[export] Instance M_bind S : MBind (M S) := fun A B k m s =>
  match m s with
  | Done a s' => k a s'
  | Wait s' => Wait s'
  | Crash e => Crash e
  end.

Definition crash {S A} (e : fault) : M S A := fun _ => Crash e.

Definition get {S} : M S S := fun s => Done s s.

Definition modify {S} (f : S -> S) : M S unit := fun s => Done tt (f s).

(** The thread does not get past this point. *)
Definition block {S A} : M S A := fun s => Wait s.

(** glog's [CHECK(b)]. *)
Definition CHECK {S} (b : bool) : M S unit :=
  if b then mret tt else crash CheckFailure.

(** Reading [o] where the C++ has undefined behaviour [e] when it is absent. *)
Definition need {S A} (e : fault) (o : option A) : M S A :=
  match o with
  | Some a => mret a
  | None => crash e
  end.

(** Runs [m] on one part of a larger state. *)
Definition zoom {S S' A} (view : S -> S') (upd : S' -> S -> S)
    (m : M S' A) : M S A := fun s =>
  match m (view s) with
  | Done a x => Done a (upd x s)
  | Wait x => Wait (upd x s)
  | Crash e => Crash e
  end.

Definition out_state {S A} (o : outcome S A) : option S :=
  match o with
  | Done _ s | Wait s => Some s
  | Crash _ => None
  end.

Definition out_val {S A} (o : outcome S A) : option A :=
  match o with
  | Done a _ => Some a
  | _ => None
  end.

Lemma bind_Done {S A B} (m : M S A) (k : A -> M S B) s a s' :
  m s = Done a s' -> (m ≫= k) s = k a s'.
Proof. intros H. unfold mbind, M_bind. by rewrite H. Qed.

Lemma bind_Wait {S A B} (m : M S A) (k : A -> M S B) s s' :
  m s = Wait s' -> (m ≫= k) s = Wait s'.
Proof. intros H. unfold mbind, M_bind. by rewrite H. Qed.

Lemma bind_Crash {S A B} (m : M S A) (k : A -> M S B) s e :
  m s = Crash e -> (m ≫= k) s = Crash e.
Proof. intros H. unfold mbind, M_bind. by rewrite H. Qed.

Lemma bind_inv {S A B} (m : M S A) (k : A -> M S B) s b s' :
  (m ≫= k) s = Done b s' ->
  exists a s1, m s = Done a s1 /\ k a s1 = Done b s'.
Proof.
  unfold mbind, M_bind. destruct (m s) eqn:E; [|done..]. eauto.
Qed.

Lemma CHECK_true {S} (s : S) b : b = true -> CHECK b s = Done tt s.
Proof. by intros ->. Qed.

Lemma CHECK_false {S} (s : S) b : b = false -> CHECK b s = Crash CheckFailure.
Proof. by intros ->. Qed.

Lemma need_Some {S A} (s : S) e (o : option A) a :
  o = Some a -> need e o s = Done a s.
Proof. by intros ->. Qed.

Lemma bind_assoc {S A B C} (m : M S A) (k : A -> M S B) (h : B -> M S C) s :
  ((m ≫= k) ≫= h) s = (m ≫= (fun a => k a ≫= h)) s.
Proof. unfold mbind, M_bind. by destruct (m s). Qed.

(** Opens the monad's definitions in the goal. *)
Ltac unM :=
  cbv beta iota zeta delta [mbind M_bind mret M_ret get modify CHECK need crash].

(** ** Mutexes *)

(** A [std::mutex] used as a binary semaphore: the lock word, [true] when
    held.  The code unlocks from other threads than the one that locked and
    unlocks words that are not held; on Linux both store "not held". *)
Definition mutex := bool.

Definition unlock (m : mutex) : mutex := false.

(** ** Vectors *)

(** [v[i]] for an [unsigned] index; [None] is out of range. *)
Definition vec_get {A} (v : list A) (i : N) : option A := v !! N.to_nat i.

Definition vec_set {A} (i : N) (x : A) (v : list A) : list A :=
  <[N.to_nat i := x]> v.

Lemma vec_get_lt {A} (v : list A) i :
  (i < N.of_nat (length v))%N -> exists x, vec_get v i = Some x.
Proof. intros H. apply lookup_lt_is_Some_2. lia. Qed.

Lemma vec_get_Some_lt {A} (v : list A) i x :
  vec_get v i = Some x -> (i < N.of_nat (length v))%N.
Proof. intros H%lookup_lt_Some. lia. Qed.

Lemma vec_get_set_eq {A} (v : list A) i x :
  (i < N.of_nat (length v))%N -> vec_get (vec_set i x v) i = Some x.
Proof. intros H. apply list_lookup_insert_eq. lia. Qed.

Lemma vec_get_set_ne {A} (v : list A) i j x :
  i <> j -> vec_get (vec_set i x v) j = vec_get v j.
Proof. intros H. apply list_lookup_insert_ne. lia. Qed.

Lemma length_vec_set {A} (v : list A) i x :
  length (vec_set i x v) = length v.
Proof. apply length_insert. Qed.

Lemma vec_get_set {A} (v : list A) i j x :
  vec_get (vec_set i x v) j =
    if decide (i = j /\ (i < N.of_nat (length v))%N) then Some x else vec_get v j.
Proof.
  case_decide as H.
  - destruct H as [-> H]. by apply vec_get_set_eq.
  - destruct (decide (i = j)) as [->|Hne]; [|by apply vec_get_set_ne].
    unfold vec_get, vec_set. rewrite list_insert_ge; [done|lia].
Qed.

Lemma vec_get_set_inv {A} (v : list A) i x y :
  vec_get (vec_set i x v) i = Some y -> y = x /\ exists z, vec_get v i = Some z.
Proof.
  intros H. assert (i < N.of_nat (length v))%N as Hlt.
  { rewrite <-(length_vec_set v i x). by eapply vec_get_Some_lt. }
  rewrite vec_get_set_eq in H by done. split; [congruence|]. by apply vec_get_lt.
Qed.

Lemma vec_set_id {A} (v : list A) i x :
  vec_get v i = Some x -> vec_set i x v = v.
Proof. apply list_insert_id. Qed.

Create Rewrite HintDb dans_rw.

#[export] Hint Rewrite @length_vec_set : dans_rw.

(** ** Lists *)

(** Removes the first element that satisfies [f]. *)
Fixpoint remove_first {A} (f : A -> bool) (l : list A) : list A :=
  match l with
  | [] => []
  | x :: l' => if f x then l' else x :: remove_first f l'
  end.

Fixpoint find_first {A} (f : A -> bool) (l : list A) : option A :=
  match l with
  | [] => None
  | x :: l' => if f x then Some x else find_first f l'
  end.

Lemma filter_head_find {A} (f : A -> bool) (l : list A) x l' :
  filter f l = x :: l' -> find_first f l = Some x.
Proof.
  induction l as [|y l IH]; [done|]. rewrite filter_cons. simpl.
  destruct (f y); simpl; naive_solver.
Qed.

Lemma filter_remove_first {A} (f : A -> bool) (l : list A) x l' :
  filter f l = x :: l' -> filter f (remove_first f l) = l'.
Proof.
  induction l as [|y l IH]; [done|]. rewrite filter_cons. simpl.
  destruct (f y) eqn:E; simpl.
  - by intros [= -> ->].
  - intros H. rewrite filter_cons, E. simpl. auto.
Qed.

Lemma filter_remove_first_other {A} (f g : A -> bool) (l : list A) :
  (forall x, f x = true -> g x = false) ->
  filter g (remove_first f l) = filter g l.
Proof.
  intros Hfg. induction l as [|y l IH]; [done|]. simpl.
  destruct (f y) eqn:E.
  - rewrite filter_cons, (Hfg y E). done.
  - rewrite !filter_cons. destruct (g y); simpl; by rewrite IH.
Qed.

Lemma elem_of_remove_first {A} (f : A -> bool) (l : list A) x :
  x ∈ remove_first f l -> x ∈ l.
Proof.
  induction l as [|y l IH]; [done|]. simpl.
  destruct (f y); [by right|]. intros [->|?%IH]%elem_of_cons; [left|by right].
Qed.

Lemma find_first_Some {A} (f : A -> bool) (l : list A) x :
  find_first f l = Some x -> x ∈ l /\ f x = true.
Proof.
  induction l as [|y l IH]; [done|]. simpl.
  destruct (f y) eqn:E.
  - intros [= ->]. split; [left|done].
  - intros [??]%IH. split; [by right|done].
Qed.

(** Number of elements that satisfy [f]. *)
Fixpoint count {A} (f : A -> bool) (l : list A) : nat :=
  match l with
  | [] => 0
  | x :: l' => (if f x then 1 else 0) + count f l'
  end.

Definition b2n (b : bool) : nat := if b then 1 else 0.

Lemma count_app {A} (f : A -> bool) l1 l2 :
  count f (l1 ++ l2) = count f l1 + count f l2.
Proof. induction l1 as [|x l1 IH]; simpl; [done|]. rewrite IH. lia. Qed.

Lemma count_insert {A} (f : A -> bool) (l : list A) i x y :
  l !! i = Some x ->
  count f (<[i := y]> l) + (if f x then 1 else 0) =
    count f l + (if f y then 1 else 0).
Proof.
  revert i. induction l as [|z l IH]; intros [|i] H; simpl in *; simplify_eq.
  - destruct (f x), (f y); lia.
  - specialize (IH i H). lia.
Qed.

Lemma count_step {A} (f : A -> bool) (l : list A) i x y :
  l !! i = Some x -> count f (<[i := y]> l) + b2n (f x) = count f l + b2n (f y).
Proof. apply count_insert. Qed.

Lemma count_pos {A} (f : A -> bool) (l : list A) i x :
  l !! i = Some x -> f x = true -> 0 < count f l.
Proof.
  revert i. induction l as [|z l IH]; intros [|i] H Hf; simpl in *; simplify_eq.
  - rewrite Hf. lia.
  - specialize (IH i H Hf). lia.
Qed.

Lemma count_le {A} (f : A -> bool) (l : list A) i x :
  l !! i = Some x -> b2n (f x) <= count f l.
Proof.
  intros H. destruct (f x) eqn:E; simpl; [|lia]. pose proof (count_pos f l i x H E). lia.
Qed.

Lemma count_delete {A} (f : A -> bool) (l : list A) i x :
  l !! i = Some x -> count f (delete i l) + b2n (f x) = count f l.
Proof.
  revert i. induction l as [|y l IH]; intros [|i] H; simpl in *; simplify_eq; [unfold b2n; lia|].
  specialize (IH i H). unfold b2n in *. lia.
Qed.

Lemma count_mono {A} (f h : A -> bool) (l : list A) :
  (forall x, f x = true -> h x = true) -> count f l <= count h l.
Proof.
  intros Hfh. induction l as [|x l IH]; simpl; [lia|]. specialize (Hfh x).
  destruct (f x), (h x); simpl; lia || by specialize (Hfh eq_refl).
Qed.

Lemma count_pos_inv {A} (f : A -> bool) (l : list A) :
  0 < count f l -> exists i x, l !! i = Some x /\ f x = true.
Proof.
  induction l as [|z l IH]; simpl; [lia|]. intros H.
  destruct (f z) eqn:E.
  - by exists 0, z.
  - destruct IH as (i & x & ? & ?); [lia|]. by exists (S i), x.
Qed.

Lemma count_two {A} (f : A -> bool) (l : list A) i j x y :
  l !! i = Some x -> l !! j = Some y -> f x = true -> f y = true -> i <> j ->
  2 <= count f l.
Proof.
  revert i j. induction l as [|z l IH]; intros [|i] [|j] Hi Hj Hx Hy Hij;
    simpl in *; simplify_eq.
  - rewrite Hx. pose proof (count_pos f l j y Hj Hy). lia.
  - rewrite Hy. pose proof (count_pos f l i x Hi Hx). lia.
  - assert (i <> j) by congruence. specialize (IH i j Hi Hj Hx Hy). lia.
Qed.

Lemma count_zero {A} (f : A -> bool) (l : list A) :
  (forall i x, l !! i = Some x -> f x = false) -> count f l = 0.
Proof.
  intros H. destruct (count f l) as [|n] eqn:E; [done|].
  destruct (count_pos_inv f l) as (i & x & Hi & Hx); [lia|].
  specialize (H i x Hi). congruence.
Qed.

Lemma count_zero_inv {A} (f : A -> bool) (l : list A) i x :
  count f l = 0 -> l !! i = Some x -> f x = false.
Proof.
  intros H Hi. destruct (f x) eqn:E; [|done].
  pose proof (count_pos f l i x Hi E). lia.
Qed.

Lemma count_filter {A} (f : A -> bool) (l : list A) :
  length (filter f l) = count f l.
Proof.
  induction l as [|x l IH]; [done|]. rewrite filter_cons. simpl.
  destruct (f x); simpl; lia.
Qed.

Lemma filter_all_true {A} (f : A -> bool) (l : list A) :
  (forall x, x ∈ l -> f x = true) -> filter f l = l.
Proof.
  induction l as [|x l IH]; [done|]. intros H. rewrite filter_cons.
  rewrite (H x) by left. simpl. f_equal. apply IH. intros y Hy. apply H. by right.
Qed.

Lemma filter_all_false {A} (f : A -> bool) (l : list A) :
  (forall x, x ∈ l -> f x = false) -> filter f l = [].
Proof.
  induction l as [|x l IH]; [done|]. intros H. rewrite filter_cons.
  rewrite (H x) by left. simpl. apply IH. intros y Hy. apply H. by right.
Qed.

Lemma filter_ext_in {A} (f g : A -> bool) (l : list A) :
  (forall x, x ∈ l -> f x = g x) -> filter f l = filter g l.
Proof.
  induction l as [|x l IH]; [done|]. intros H. rewrite !filter_cons.
  rewrite (H x) by left. rewrite IH; [done|]. intros y Hy. apply H. by right.
Qed.

Lemma filter_fmap {A B} (f : B -> bool) (g : A -> B) (l : list A) :
  filter f (g <$> l) = g <$> filter (fun x => f (g x)) l.
Proof.
  induction l as [|x l IH]; [done|]. rewrite fmap_cons, !filter_cons, IH.
  by destruct (f (g x)).
Qed.

Lemma elem_of_filter_bool {A} (f : A -> bool) (l : list A) x :
  x ∈ filter f l <-> f x = true /\ x ∈ l.
Proof. by rewrite list_elem_of_filter, Is_true_true. Qed.

Lemma filter_cons_bool {A} (f : A -> bool) x (l : list A) :
  filter f (x :: l) = if f x then x :: filter f l else filter f l.
Proof. rewrite filter_cons. by destruct (f x). Qed.

Lemma NoDup_fst_filter {A B} (f : A * B -> bool) (l : list (A * B)) :
  NoDup l.*1 -> NoDup (filter f l).*1.
Proof.
  induction l as [|x l IH]; [done|]. rewrite fmap_cons, NoDup_cons. intros [Hx Hl].
  rewrite filter_cons_bool. destruct (f x); [|auto].
  rewrite fmap_cons, NoDup_cons. split; [|auto].
  intros (y & Hy & [_ Hin]%elem_of_filter_bool)%list_elem_of_fmap.
  apply Hx. rewrite Hy. by apply list_elem_of_fmap_2.
Qed.

Lemma NoDup_fst_inj {A B} (l : list (A * B)) x y :
  NoDup l.*1 -> x ∈ l -> y ∈ l -> x.1 = y.1 -> x = y.
Proof.
  induction l as [|z l IH]; [set_solver|]. rewrite fmap_cons, NoDup_cons.
  intros [Hz Hl] [->|Hx]%elem_of_cons [->|Hy]%elem_of_cons Heq; auto.
  - destruct Hz. rewrite Heq. by apply list_elem_of_fmap_2.
  - destruct Hz. rewrite <-Heq. by apply list_elem_of_fmap_2.
Qed.

Lemma count_perm {A} (f : A -> bool) (l l' : list A) : l ≡ₚ l' -> count f l = count f l'.
Proof. induction 1; simpl; lia. Qed.

Lemma count_fmap {A B} (f : B -> bool) (g : A -> B) (l : list A) :
  count f (g <$> l) = count (fun x => f (g x)) l.
Proof. induction l as [|x l IH]; [done|]. rewrite fmap_cons. simpl. by rewrite IH. Qed.

Lemma count_split {A} (f : A -> bool) (l : list A) :
  length l = count f l + length (filter (fun x => negb (f x)) l).
Proof.
  induction l as [|x l IH]; [done|]. rewrite filter_cons_bool. simpl.
  destruct (f x); simpl; lia.
Qed.

Lemma count_filter_count {A} (f g : A -> bool) (l : list A) :
  (forall x, f x = true -> g x = true) ->
  count f (filter g l) = count f l.
Proof.
  intros H. induction l as [|x l IH]; [done|]. rewrite filter_cons_bool. simpl.
  destruct (g x) eqn:Eg; simpl; [by rewrite IH|].
  destruct (f x) eqn:Ef; [|done]. by rewrite (H x Ef) in Eg.
Qed.
