(* ===== verification/Triple.v ===== *)
(** * Specifications of computations

    [triple P m Q W E]: from a state with [P], the computation [m] returns with
    [Q], or blocks with [W], or stops with a fault that satisfies [E].  The rules
    follow the monad's constructors, so that a specification is assembled along
    the code. *)

From stdpp Require Import prelude.
From S2P Require Import Prelude.

Definition triple {S A} (P : S -> Prop) (m : M S A) (Q : A -> S -> Prop) (W : S -> Prop)
    (E : fault -> Prop) : Prop :=
  forall s, P s ->
    match m s with
    | Done a s' => Q a s'
    | Wait s' => W s'
    | Crash e => E e
    end.

(** A computation that neither blocks nor stops with a fault. *)
Abbreviation total P m Q := (triple P m Q (fun _ => False) (fun _ => False)) (only parsing).

Section Rules.
Context {S : Type}.
Implicit Types (P W : S -> Prop) (E : fault -> Prop).

Lemma triple_ret {A} (a : A) P Q W E : (forall s, P s -> Q a s) -> triple P (mret a) Q W E.
Proof. intros H s Hs. by apply H. Qed.

Lemma triple_bind {A B} (m : M S A) (k : A -> M S B) P R Q W E :
  triple P m R W E -> (forall a, triple (R a) (k a) Q W E) -> triple P (m ≫= k) Q W E.
Proof.
  intros Hm Hk s Hs. specialize (Hm s Hs). unfold mbind, M_bind.
  destruct (m s) as [a s'|s'|e]; [by apply Hk|done|done].
Qed.

(** The result of [m] does not matter. *)
Lemma triple_seq {A B} (m : M S A) (k : A -> M S B) P R Q W E :
  triple P m (fun _ => R) W E -> (forall a, triple R (k a) Q W E) -> triple P (m ≫= k) Q W E.
Proof. apply triple_bind. Qed.

Lemma triple_conseq {A} (m : M S A) P P' Q Q' W W' E E' :
  triple P' m Q' W' E' -> (forall s, P s -> P' s) -> (forall a s, Q' a s -> Q a s) ->
  (forall s, W' s -> W s) -> (forall e, E' e -> E e) -> triple P m Q W E.
Proof.
  intros Hm HP HQ HW HE s Hs. specialize (Hm s (HP s Hs)). destruct (m s); auto.
Qed.

Lemma triple_pre {A} (m : M S A) P P' Q W E :
  triple P' m Q W E -> (forall s, P s -> P' s) -> triple P m Q W E.
Proof. intros Hm HP. by eapply triple_conseq. Qed.

Lemma triple_get P Q W E : (forall s, P s -> Q s s) -> triple P get Q W E.
Proof. intros H s Hs. by apply H. Qed.

Lemma triple_modify f P Q W E : (forall s, P s -> Q tt (f s)) -> triple P (modify f) Q W E.
Proof. intros H s Hs. by apply H. Qed.

Lemma triple_CHECK b P Q W E :
  (forall s, P s -> b = true -> Q tt s) -> (forall s, P s -> b = false -> E CheckFailure) ->
  triple P (CHECK b) Q W E.
Proof. intros H1 H2 s Hs. unfold CHECK. destruct b; [by apply H1|by eapply H2]. Qed.

Lemma triple_CHECK_keep b P W E :
  (b = false -> E CheckFailure) -> triple P (CHECK b) (fun _ => P) W E.
Proof. intros H. by apply triple_CHECK; [|intros s _; exact H]. Qed.

Lemma triple_need {A} (e : fault) (o : option A) P Q W E :
  (forall s a, P s -> o = Some a -> Q a s) -> (forall s, P s -> o = None -> E e) ->
  triple P (need e o) Q W E.
Proof. intros H1 H2 s Hs. unfold need. destruct o; [by apply H1|by eapply H2]. Qed.

(** A part of the state. *)
Lemma triple_zoom {S' A} (view : S -> S') upd (m : M S' A) P (P' : S' -> Prop) Q' (W' : S' -> Prop) E Q W :
  triple P' m Q' W' E ->
  (forall s, P s -> P' (view s)) ->
  (forall s a x, P s -> Q' a x -> Q a (upd x s)) -> (forall s x, P s -> W' x -> W (upd x s)) ->
  triple P (zoom view upd m) Q W E.
Proof.
  intros Hm HP HQ HW s Hs. specialize (Hm _ (HP s Hs)). unfold zoom.
  destruct (m (view s)); eauto.
Qed.

(** The precondition's existential witness as a parameter. *)
Lemma triple_exists {A X} (m : M S A) (P : X -> S -> Prop) Q W E :
  (forall x, triple (P x) m Q W E) -> triple (fun s => exists x, P x s) m Q W E.
Proof. intros H s [x Hx]. exact (H x s Hx). Qed.

(** What a specification says of the state that is left. *)
Lemma triple_out {A} (m : M S A) P I E s s' :
  triple P m (fun _ => I) I E -> P s -> out_state (m s) = Some s' -> I s'.
Proof. intros H Hs. specialize (H s Hs). destruct (m s); simpl; naive_solver. Qed.

Lemma triple_crash {A} (m : M S A) P Q W E s e :
  triple P m Q W E -> P s -> m s = Crash e -> E e.
Proof. intros H Hs Ee. specialize (H s Hs). by rewrite Ee in H. Qed.
End Rules.
