(* ===== verification/Synchronization.v ===== *)
(** * PurgeState, Connection and Counter (common/dstage/synchronization.h, .cc)

    Each class is a small object guarded by one mutex that every method holds
    from its first line to its return, so a method is one atomic function on
    the object's fields.  System calls are returned as a log, in order. *)

From stdpp Require Import prelude gmap list.
From S2P Require Import Prelude.

(** ** PurgeState *)

Module PurgeState.

Record PurgeState := mkPurgeState { _purged : bool }.

Definition new : PurgeState := mkPurgeState false.

Definition IsPurged (s : PurgeState) : bool := _purged s.

Definition SetPurged (s : PurgeState) : bool * PurgeState :=
  let set := negb (_purged s) in
  (set, mkPurgeState true).

(** The results of [n] calls of SetPurged, in the order the calls take the
    mutex. *)
Fixpoint SetPurged_n (n : nat) (s : PurgeState) : list bool * PurgeState :=
  match n with
  | O => ([], s)
  | S n' =>
      let '(r, s1) := SetPurged s in
      let '(rs, s2) := SetPurged_n n' s1 in
      (r :: rs, s2)
  end.

Lemma SetPurged_n_purged n :
  SetPurged_n n (mkPurgeState true) = (replicate n false, mkPurgeState true).
Proof. induction n as [|n IH]; [done|]. simpl. by rewrite IH. Qed.

(** However many threads race on SetPurged, exactly one call, the first
    to take the mutex, is told that it set the flag; afterwards the job is
    purged. *)
Theorem SetPurged_one_winner (n : nat) :
  SetPurged_n (S n) new = (true :: replicate n false, mkPurgeState true) /\
  IsPurged (SetPurged_n (S n) new).2 = true.
Proof. simpl. by rewrite SetPurged_n_purged. Qed.

End PurgeState.

(** ** Counter *)

Module Counter.

(** The counter's [int]; an increment at INT_MAX (a decrement at INT_MIN) is
    signed overflow. *)
Record Counter := mkCounter { _count : Z }.

Definition Increment : M Counter Z := fun c =>
  if (_count c =? INT_MAX)%Z then Crash SignedOverflow
  else let v := (_count c + 1)%Z in Done v (mkCounter v).

Definition Decrement : M Counter Z := fun c =>
  if (_count c =? INT_MIN)%Z then Crash SignedOverflow
  else let v := (_count c - 1)%Z in Done v (mkCounter v).

Definition Count : M Counter Z := fun c => Done (_count c) c.

Lemma Increment_ok c :
  (_count c < INT_MAX)%Z ->
  Increment c = Done (_count c + 1)%Z (mkCounter (_count c + 1)).
Proof.
  intros H. unfold Increment. destruct (Z.eqb_spec (_count c) INT_MAX); [lia|done].
Qed.

Lemma Decrement_ok c :
  (INT_MIN < _count c)%Z ->
  Decrement c = Done (_count c - 1)%Z (mkCounter (_count c - 1)).
Proof.
  intros H. unfold Decrement. destruct (Z.eqb_spec (_count c) INT_MIN); [lia|done].
Qed.

#[export] Hint Resolve Increment_ok Decrement_ok : dans.

End Counter.

(** ** Connection *)

Module Connection.

Inductive syscall : Type :=
| sys_shutdown (soc : Z)
| sys_close (soc : Z).

#[export] Instance syscall_eq_dec : EqDecision syscall.
Proof. solve_decision. Defined.

Record Connection := mkConnection {
  _socket : Z;
  _closed : bool;
  _shutdown : bool
}.

Definition new (socket : Z) : Connection := mkConnection socket false false.

Definition Socket (c : Connection) : Z := _socket c.

(** The return values of shutdown(2) and close(2) only reach the log file. *)
Definition Shutdown (c : Connection) : Connection * list syscall :=
  if negb (_shutdown c)
  then (mkConnection (_socket c) (_closed c) true, [sys_shutdown (_socket c)])
  else (c, []).

Definition SetShutdown (c : Connection) : Connection :=
  mkConnection (_socket c) (_closed c) true.

Definition Close (c : Connection) : Connection * list syscall :=
  if negb (_closed c)
  then (mkConnection (_socket c) true (_shutdown c), [sys_close (_socket c)])
  else (c, []).

Definition IsClosed (c : Connection) : bool := _closed c.

(** ~Connection: Shutdown then Close. *)
Definition destroy (c : Connection) : Connection * list syscall :=
  let '(c1, l1) := Shutdown c in
  let '(c2, l2) := Close c1 in
  (c2, l1 ++ l2).

(** The public operations, and runs of them. *)
Inductive op : Type := OShutdown | OSetShutdown | OClose.

Definition apply_op (o : op) (c : Connection) : Connection * list syscall :=
  match o with
  | OShutdown => Shutdown c
  | OSetShutdown => (SetShutdown c, [])
  | OClose => Close c
  end.

Fixpoint run (ops : list op) (c : Connection) : Connection * list syscall :=
  match ops with
  | [] => (c, [])
  | o :: ops' =>
      let '(c1, l1) := apply_op o c in
      let '(c2, l2) := run ops' c1 in
      (c2, l1 ++ l2)
  end.

(** The life of a connection: any calls, then the destructor. *)
Definition lifetime (ops : list op) (c : Connection) : list syscall :=
  let '(c1, l1) := run ops c in
  let '(_, l2) := destroy c1 in
  l1 ++ l2.

Definition is_close (soc : Z) (x : syscall) : bool :=
  match x with
  | sys_close s => (s =? soc)%Z
  | _ => false
  end.

Definition is_shutdown (soc : Z) (x : syscall) : bool :=
  match x with
  | sys_shutdown s => (s =? soc)%Z
  | _ => false
  end.

Lemma lifetime_cons o ops c :
  lifetime (o :: ops) c = (apply_op o c).2 ++ lifetime ops (apply_op o c).1.
Proof.
  unfold lifetime. simpl. destruct (apply_op o c) as [c1 l1]. simpl.
  destruct (run ops c1) as [c2 l2]. destruct (destroy c2) as [c3 l3].
  by rewrite app_assoc.
Qed.

(** One pass over the calls, for a connection in any state. *)
Lemma lifetime_counts ops c :
  let l := lifetime ops c in
  count (is_close (_socket c)) l = (if _closed c then 0 else 1) /\
  count (is_shutdown (_socket c)) l <= (if _shutdown c then 0 else 1) /\
  length l = count (is_close (_socket c)) l + count (is_shutdown (_socket c)) l.
Proof.
  revert c. induction ops as [|o ops IH]; intros [soc cl sh]; simpl.
  - destruct cl, sh; unfold lifetime, destroy, Shutdown, Close; simpl;
      rewrite ?Z.eqb_refl; auto with lia.
  - rewrite lifetime_cons, !count_app, length_app.
    destruct o, cl, sh; unfold apply_op, Shutdown, SetShutdown, Close; simpl;
      match goal with |- context [lifetime ops ?c'] => specialize (IH c') end;
      simpl in IH; rewrite ?Z.eqb_refl; lia.
Qed.

(** Over its whole life, whatever calls are made before the destructor,
    a connection closes its descriptor exactly once, shuts it down at most
    once, and makes no other system call. *)
Theorem connection_closed_once (soc : Z) (ops : list op) :
  let l := lifetime ops (new soc) in
  count (is_close soc) l = 1 /\
  count (is_shutdown soc) l <= 1 /\
  length l = count (is_close soc) l + count (is_shutdown soc) l.
Proof. exact (lifetime_counts ops (new soc)). Qed.

End Connection.
