(* ===== verification/Job.v ===== *)
(** * Jobs and job ids (common/dstage/job.h, priority.h) *)

From stdpp Require Import prelude gmap list.
From S2P Require Import Prelude Synchronization.

(** A job: the id shared by its duplicates, the priority of this duplicate
    (0 is the highest), the deprecated duplication count, the creation time
    and the stage's own data. *)
Record Job (T : Type) := mkJob {
  job_id : N;
  priority : N;
  duplication : N;
  start_time : Z;
  job_data : T
}.

Arguments mkJob {T} _ _ _ _ _.
Arguments job_id {T} _.
Arguments priority {T} _.
Arguments duplication {T} _.
Arguments start_time {T} _.
Arguments job_data {T} _.

(** [operator==] and [operator!=] compare ids only. *)
Definition job_eq {T} (a b : Job T) : bool := (job_id a =? job_id b)%N.

Definition job_ne {T} (a b : Job T) : bool := negb (job_eq a b).

(** ** JobIdFactory *)

Module JobIdFactory.

Import Counter.

(** JobIdFactory(unsigned seed): the seed is converted to the counter's int. *)
Definition new (seed : N) : Counter := mkCounter (i32 (Z.of_N seed)).

Definition CreateJobId : M Counter N :=
  _ ← Increment;
  v ← Count;
  mret (u32_of_Z v).

(** The ids of [n] calls, one after the other. *)
Fixpoint CreateJobIds (n : nat) : M Counter (list N) :=
  match n with
  | O => mret []
  | S n' =>
      i ← CreateJobId;
      l ← CreateJobIds n';
      mret (i :: l)
  end.

Lemma CreateJobId_ok c :
  (0 <= _count c < INT_MAX)%Z ->
  CreateJobId c = Done (Z.to_N (_count c + 1)) (mkCounter (_count c + 1)).
Proof.
  intros H. unfold CreateJobId.
  rewrite (bind_Done _ _ _ (_count c + 1)%Z (mkCounter (_count c + 1)))
    by (apply Increment_ok; lia).
  unM. unfold Count. simpl. unfold u32_of_Z. u32_unfold.
  rewrite Z.mod_small; [done|lia].
Qed.

Lemma CreateJobIds_ok n c :
  (0 <= _count c)%Z -> (_count c + Z.of_nat n <= INT_MAX)%Z ->
  exists l,
    CreateJobIds n c = Done l (mkCounter (_count c + Z.of_nat n)) /\
    length l = n /\ NoDup l /\
    Forall (fun i => (_count c < Z.of_N i <= _count c + Z.of_nat n)%Z) l.
Proof.
  revert c. induction n as [|n IH]; intros c Hc Hn.
  - exists []. simpl. rewrite Z.add_0_r. destruct c; simpl.
    split; [done|]. split; [done|]. split; constructor.
  - destruct (IH (mkCounter (_count c + 1))) as (l & Hl & Hlen & Hnd & Hall);
      simpl; [lia..|]. simpl in *.
    exists (Z.to_N (_count c + 1) :: l). split.
    { rewrite (bind_Done _ _ _ _ _ (CreateJobId_ok c ltac:(lia))).
      rewrite (bind_Done _ _ _ _ _ Hl). unM. do 2 f_equal. lia. }
    split; [simpl; by f_equal|]. split.
    + constructor; [|done]. intros Hin.
      rewrite Forall_forall in Hall. specialize (Hall _ Hin). lia.
    + constructor; [lia|]. eapply Forall_impl; [exact Hall|]. simpl. lia.
Qed.

(** Calls that do not overlap hand out pairwise distinct ids, for as long
    as the counter does not reach INT_MAX. *)
Theorem CreateJobIds_distinct (seed : N) (n : nat) :
  (Z.of_N seed + Z.of_nat n <= INT_MAX)%Z ->
  exists l c, CreateJobIds n (new seed) = Done l c /\ length l = n /\ NoDup l.
Proof.
  intros H. unfold new. rewrite i32_id by (u32_unfold; lia).
  destruct (CreateJobIds_ok n (mkCounter (Z.of_N seed))) as (l & Hl & ? & ? & _);
    simpl; [lia..|]. eauto.
Qed.

Lemma CreateJobIds_distinct_witness :
  exists l c, CreateJobIds 3 (new 0) = Done l c /\ length l = 3 /\ NoDup l.
Proof. apply (CreateJobIds_distinct 0 3). vm_compute. discriminate. Defined.

(** *** Overlapping calls

    Increment and Count are two separate critical sections.  A thread in the
    middle of CreateJobId is either before the increment, between the two
    sections, or done with an id. *)
Inductive call : Type :=
| AtIncrement
| AtCount
| Returned (id : N).

Definition step_call (k : call) (c : Counter) : outcome Counter call :=
  match k with
  | AtIncrement =>
      match Increment c with
      | Done _ c' => Done AtCount c'
      | Wait c' => Wait c'
      | Crash e => Crash e
      end
  | AtCount =>
      match Count c with
      | Done v c' => Done (Returned (u32_of_Z v)) c'
      | Wait c' => Wait c'
      | Crash e => Crash e
      end
  | Returned id => Done (Returned id) c
  end.

(** Runs the threads in the order a schedule (a list of thread numbers) gives. *)
Fixpoint run_calls (sched : list nat) (pool : list call) (c : Counter) :
    option (list call * Counter) :=
  match sched with
  | [] => Some (pool, c)
  | t :: sched' =>
      k ← pool !! t;
      match step_call k c with
      | Done k' c' => run_calls sched' (<[t := k']> pool) c'
      | _ => None
      end
  end.

(** Two overlapping calls can return the same id: both increments run
    before either read. *)
Theorem CreateJobId_overlap_duplicate :
  exists sched c,
    run_calls sched [AtIncrement; AtIncrement] (new 0) =
      Some ([Returned 2; Returned 2], c).
Proof. exists [0; 1; 0; 1], (mkCounter 2). vm_compute. reflexivity. Qed.

(** One thread alone runs CreateJobId. *)
Lemma run_calls_alone c :
  (0 <= _count c < INT_MAX)%Z ->
  run_calls [0; 0] [AtIncrement] c =
    match CreateJobId c with
    | Done i c' => Some ([Returned i], c')
    | _ => None
    end.
Proof.
  intros H. rewrite CreateJobId_ok by done. simpl.
  rewrite Increment_ok by lia. simpl. unfold u32_of_Z.
  rewrite Z.mod_small; [done|]. u32_unfold. lia.
Qed.

End JobIdFactory.
