(* ===== verification/BaseMultiQueue.v ===== *)
(** * The multi-queue interface (common/dstage/basemultiqueue.h)

    [BaseMultiQueue] has the operations of the abstract class.
    [MultiQueueContract] says what an implementation promises to the
    dispatchers, schedulers and stages that hold a pointer to one: seen from
    outside it is one FIFO of jobs per priority, from which every duplicate of
    an id can be purged. *)

From stdpp Require Import prelude gmap list.
From S2P Require Import Prelude Synchronization Job.

(** ** The abstract queues *)

Section Abstract.
Context {T : Type}.

Definition abs_enqueue (job : Job T) (A : list (list (Job T))) : list (list (Job T)) :=
  match vec_get A (priority job) with
  | Some q => vec_set (priority job) (q ++ [job]) A
  | None => A
  end.

Definition has_job_id (id : N) (j : Job T) : bool := (job_id j =? id)%N.

Definition abs_purge (id : N) (A : list (list (Job T))) : list (list (Job T)) :=
  filter (fun j => negb (has_job_id id j)) <$> A.

Fixpoint abs_count (id : N) (A : list (list (Job T))) : nat :=
  match A with
  | [] => 0
  | q :: A' => count (has_job_id id) q + abs_count id A'
  end.

Lemma length_abs_enqueue job A : length (abs_enqueue job A) = length A.
Proof. unfold abs_enqueue. case_match; [apply length_vec_set|done]. Qed.

Lemma abs_count_vec_set id A p q q' :
  vec_get A p = Some q ->
  abs_count id (vec_set p q' A) + count (has_job_id id) q =
    abs_count id A + count (has_job_id id) q'.
Proof.
  unfold vec_get, vec_set. generalize (N.to_nat p) as i.
  induction A as [|r A IH]; intros [|i] H; simpl in *; simplify_eq.
  - lia.
  - specialize (IH i H). lia.
Qed.

Lemma abs_count_enqueue id job A :
  (priority job < N.of_nat (length A))%N ->
  abs_count id (abs_enqueue job A) =
    abs_count id A + (if has_job_id id job then 1 else 0).
Proof.
  intros H. unfold abs_enqueue. destruct (vec_get_lt A (priority job) H) as [q Hq].
  rewrite Hq. pose proof (abs_count_vec_set id A (priority job) q (q ++ [job]) Hq) as E.
  rewrite count_app in E. simpl in E. lia.
Qed.

(** After a purge no job with that id is left. *)
Lemma abs_count_purge id A : abs_count id (abs_purge id A) = 0.
Proof.
  induction A as [|q A IH]; simpl; [done|]. rewrite IH, Nat.add_0_r.
  apply count_zero. intros i x Hx%list_elem_of_lookup_2.
  apply list_elem_of_filter in Hx as [Hx _]. by destruct (has_job_id id x).
Qed.

Lemma abs_purge_none id A : abs_count id A = 0 -> abs_purge id A = A.
Proof.
  induction A as [|q A IH]; simpl; [done|]. intros H.
  rewrite IH by lia. f_equal. apply filter_all_true.
  intros x [i Hx]%list_elem_of_lookup.
  assert (has_job_id id x = false) as -> by (eapply count_zero_inv; [|done]; lia).
  done.
Qed.

Lemma filter_insert_same (f : Job T -> bool) (A : list (list (Job T))) i q q' :
  A !! i = Some q -> filter f q' = filter f q ->
  filter f <$> <[i := q']> A = filter f <$> A.
Proof.
  intros Hi Hf. rewrite list_fmap_insert, Hf. apply list_insert_id.
  by rewrite list_lookup_fmap, Hi.
Qed.

(** Purging an id forgets that a job with that id was enqueued. *)
Lemma abs_purge_enqueue id job A :
  has_job_id id job = true -> abs_purge id (abs_enqueue job A) = abs_purge id A.
Proof.
  intros Hid. unfold abs_enqueue, abs_purge. case_match eqn:E; [|done].
  apply (filter_insert_same _ _ _ l); [done|].
  rewrite filter_app. rewrite (filter_all_false _ [job]); [by rewrite app_nil_r|].
  intros x ->%list_elem_of_singleton. by rewrite Hid.
Qed.

Lemma vec_get_enqueue_same job A q :
  vec_get A (priority job) = Some q ->
  vec_get (abs_enqueue job A) (priority job) = Some (q ++ [job]).
Proof.
  intros Hq. unfold abs_enqueue. rewrite Hq. apply vec_get_set_eq. by eapply vec_get_Some_lt.
Qed.

Lemma vec_get_enqueue_other job A p :
  priority job <> p -> vec_get (abs_enqueue job A) p = vec_get A p.
Proof. intros Hp. unfold abs_enqueue. case_match; [by apply vec_get_set_ne|done]. Qed.

(** All the jobs together, whatever their queue. *)
Lemma concat_head (A : list (list (Job T))) p j l :
  vec_get A p = Some (j :: l) -> concat A ≡ₚ j :: concat (vec_set p l A).
Proof.
  unfold vec_get, vec_set. intros H. generalize dependent (N.to_nat p). clear p.
  induction A as [|q A IH]; intros [|i] H; simpl in *; simplify_eq; [done|].
  rewrite (IH i H). by rewrite Permutation_middle.
Qed.

Lemma concat_enqueue (A : list (list (Job T))) j l :
  vec_get A (priority j) = Some l -> concat (abs_enqueue j A) ≡ₚ j :: concat A.
Proof.
  intros H. unfold abs_enqueue. rewrite H. revert H. unfold vec_get, vec_set.
  generalize (N.to_nat (priority j)) as i.
  induction A as [|q A IH]; intros [|i] H; simpl in *; simplify_eq.
  - rewrite <-app_assoc. simpl. by rewrite <-Permutation_middle.
  - rewrite (IH i H). by rewrite Permutation_middle.
Qed.

Lemma concat_purge (A : list (list (Job T))) id : concat (abs_purge id A) ⊆+ concat A.
Proof.
  induction A as [|q A IH]; [done|]. unfold abs_purge in *. rewrite fmap_cons. simpl.
  apply submseteq_app; [|done]. apply sublist_submseteq, sublist_filter.
Qed.

End Abstract.

(** ** Operations and their contract *)

Class BaseMultiQueue (T S : Type) := {
  mq_Enqueue : option (Job T) -> M S unit;
  mq_Dequeue : N -> M S (option (Job T));
  mq_Purge : N -> M S N;
  mq_Size : N -> M S N;
  mq_Empty : N -> M S bool;
  mq_ReleaseQueues : M S unit;
  mq_ReleaseOne : N -> M S unit;
  mq_MaxPriority : S -> N
}.

(** [mq_repr s A]: [s] holds the queues [A], no queue has been released and no
    release is pending. *)
Class MultiQueueContract (T S : Type) `{BaseMultiQueue T S} := {
  mq_repr : S -> list (list (Job T)) -> Prop;
  mq_repr_max s A : mq_repr s A -> N.of_nat (length A) = (mq_MaxPriority s + 1)%N;
  mq_repr_u32 s A : mq_repr s A -> is_u32 (mq_MaxPriority s + 1);
  mq_enqueue_spec s A job :
    mq_repr s A -> (priority job < N.of_nat (length A))%N ->
    exists s', mq_Enqueue (Some job) s = Done tt s' /\
      mq_repr s' (abs_enqueue job A) /\ mq_MaxPriority s' = mq_MaxPriority s;
  mq_enqueue_range s A job :
    mq_repr s A -> (N.of_nat (length A) <= priority job)%N ->
    mq_Enqueue (Some job) s = Crash CheckFailure;
  mq_dequeue_spec s A p j q :
    mq_repr s A -> vec_get A p = Some (j :: q) ->
    exists s', mq_Dequeue p s = Done (Some j) s' /\ mq_repr s' (vec_set p q A);
  mq_dequeue_empty s A p :
    mq_repr s A -> vec_get A p = Some [] ->
    exists s', mq_Dequeue p s = Wait s' /\ mq_repr s' A;
  mq_purge_spec s A id :
    mq_repr s A ->
    exists s', mq_Purge id s = Done (u32 (N.of_nat (abs_count id A))) s' /\
      mq_repr s' (abs_purge id A);
  mq_size_spec s A p q :
    mq_repr s A -> vec_get A p = Some q ->
    mq_Size p s = Done (u32 (N.of_nat (length q))) s
}.
