(* ===== verification/MultiQueue.v ===== *)
(** * MultiQueue (common/dstage/multiqueue.h, multiqueue.hh)

    The state and the operations of MultiQueue<T>, each operation run alone.
    [_purge_shared_mutex], [_pq_mutexes] and [_value_map_mutex] are taken and
    released inside each operation, so they are free between operations and do
    not appear here; MultiQueueConc.v interleaves the same critical sections
    with these locks.  [_not_empty_mutexes] is state that outlives the
    operations and is modelled here. *)

From stdpp Require Import prelude gmap list.
From S2P Require Import Prelude Synchronization Job BaseMultiQueue.

Module MQ.

Section Queue.
Context {T : Type}.

(** The identity of a std::list node, which is what an iterator denotes. *)
Abbreviation node := N (only parsing).

(** A [_priority_qs] element is a list of nodes holding a job id.  [next_node]
    is the allocator: the identity the next inserted node gets. *)
Record MultiQueue := mkMultiQueue {
  _max_prio : N;
  _released : bool;
  _not_empty_mutexes : list mutex;
  _priority_qs : list (list (node * N));
  _release_one : list bool;
  _value_mapper : gmap N (list (Job T * node));
  next_node : node
}.

Definition set_released (b : bool) (mq : MultiQueue) : MultiQueue :=
  mkMultiQueue (_max_prio mq) b (_not_empty_mutexes mq) (_priority_qs mq)
    (_release_one mq) (_value_mapper mq) (next_node mq).

Definition set_not_empty (p : N) (m : mutex) (mq : MultiQueue) : MultiQueue :=
  mkMultiQueue (_max_prio mq) (_released mq)
    (vec_set p m (_not_empty_mutexes mq)) (_priority_qs mq)
    (_release_one mq) (_value_mapper mq) (next_node mq).

Definition set_queues (qs : list (list (node * N))) (mq : MultiQueue) : MultiQueue :=
  mkMultiQueue (_max_prio mq) (_released mq) (_not_empty_mutexes mq) qs
    (_release_one mq) (_value_mapper mq) (next_node mq).

Definition set_queue (p : N) (q : list (node * N)) (mq : MultiQueue) : MultiQueue :=
  set_queues (vec_set p q (_priority_qs mq)) mq.

Definition set_release_one (p : N) (b : bool) (mq : MultiQueue) : MultiQueue :=
  mkMultiQueue (_max_prio mq) (_released mq) (_not_empty_mutexes mq)
    (_priority_qs mq) (vec_set p b (_release_one mq)) (_value_mapper mq)
    (next_node mq).

Definition set_mapper (vm : gmap N (list (Job T * node))) (mq : MultiQueue) :
    MultiQueue :=
  mkMultiQueue (_max_prio mq) (_released mq) (_not_empty_mutexes mq)
    (_priority_qs mq) (_release_one mq) vm (next_node mq).

Definition set_next_node (n : node) (mq : MultiQueue) : MultiQueue :=
  mkMultiQueue (_max_prio mq) (_released mq) (_not_empty_mutexes mq)
    (_priority_qs mq) (_release_one mq) (_value_mapper mq) n.

(** The constructor: every vector has [_max_prio + 1] elements, and the loop
    [for (i = 0; i < _max_prio; i++)] locks all but the last "not empty"
    mutex. *)
Definition new (max_priority : N) : MultiQueue :=
  let size := N.to_nat (u32_add max_priority 1) in
  mkMultiQueue max_priority false
    (imap (fun i _ => (i <? N.to_nat max_priority)%nat) (replicate size false))
    (replicate size []) (replicate size false) ∅ 0%N.

(** ** Enqueue *)

(** Under [_pq_mutexes[prio]]: append a node to the queue. *)
Definition insert_job (prio jid : N) : M MultiQueue node :=
  mq ← get;
  q ← need OutOfRange (vec_get (_priority_qs mq) prio);
  let iter := next_node mq in
  _ ← modify (set_queue prio (q ++ [(iter, jid)]));
  _ ← modify (set_next_node (iter + 1));
  mret iter.

(** If the queue was empty but is not now, unlock its "not empty" mutex. *)
Definition signal_insert (prio : N) : M MultiQueue unit :=
  mq ← get;
  q ← need OutOfRange (vec_get (_priority_qs mq) prio);
  if (length q =? 1)%nat
  then modify (set_not_empty prio (unlock true))
  else mret tt.

(** Under [_value_map_mutex]: record the job and its iterator under its id. *)
Definition map_insert (job : Job T) (iter : node)
    (vm : gmap N (list (Job T * node))) : gmap N (list (Job T * node)) :=
  match vm !! job_id job with
  | None => <[job_id job := [(job, iter)]]> vm
  | Some l => <[job_id job := l ++ [(job, iter)]]> vm
  end.

Definition map_job (job : Job T) (iter : node) : M MultiQueue unit :=
  mq ← get;
  modify (set_mapper (map_insert job iter (_value_mapper mq))).

Definition Enqueue (job_p : option (Job T)) : M MultiQueue unit :=
  match job_p with
  | None => crash CheckFailure
  | Some job =>
      mq ← get;
      _ ← CHECK (priority job <=? _max_prio mq)%N;
      iter ← insert_job (priority job) (job_id job);
      _ ← signal_insert (priority job);
      map_job job iter
  end.

(** ** Dequeue *)

(** [_not_empty_mutexes[prio].lock()]. *)
Definition lock_not_empty (prio : N) : M MultiQueue unit := fun mq =>
  match vec_get (_not_empty_mutexes mq) prio with
  | None => Crash OutOfRange
  | Some true => Wait mq
  | Some false => Done tt (set_not_empty prio true mq)
  end.

(** How one pass of the [while (true)] ends: return nullptr, loop, or break. *)
Inductive gate : Type := ReturnNull | Retry | Break.

(** [if (_release_one[prio]) { ...; return nullptr; }]: true when it returns. *)
Definition take_release (prio : N) : M MultiQueue bool :=
  mq ← get;
  r ← need OutOfRange (vec_get (_release_one mq) prio);
  if (r : bool)
  then _ ← modify (set_release_one prio false); mret true
  else mret false.

(** The tests made once [_purge_shared_mutex] is held. *)
Definition peek_queue (prio : N) : M MultiQueue gate :=
  mq ← get;
  q ← need OutOfRange (vec_get (_priority_qs mq) prio);
  match q with
  | [] => mret (if _released mq then ReturnNull else Retry)
  | _ :: _ => mret Break
  end.

(** [_not_empty_mutexes[prio].unlock()]. *)
Definition unlock_not_empty (prio : N) : M MultiQueue unit :=
  modify (set_not_empty prio (unlock true)).

Definition check_queue (prio : N) : M MultiQueue gate :=
  g ← peek_queue prio;
  match g with
  | ReturnNull => _ ← unlock_not_empty prio; mret ReturnNull
  | _ => mret g
  end.

Definition dequeue_pass (prio : N) : M MultiQueue gate :=
  _ ← lock_not_empty prio;
  r ← take_release prio;
  if (r : bool) then mret ReturnNull else check_queue prio.

(** The loop, at most [fuel] passes; [None] when the fuel runs out. *)
Fixpoint dequeue_loop (fuel : nat) (prio : N) : M MultiQueue (option gate) :=
  match fuel with
  | O => mret None
  | S fuel' =>
      g ← dequeue_pass prio;
      match g with
      | Retry => dequeue_loop fuel' prio
      | _ => mret (Some g)
      end
  end.

(** Under [_pq_mutexes[prio]]: take the first node off the queue. *)
Definition pop_job (prio : N) : M MultiQueue N :=
  mq ← get;
  q ← need OutOfRange (vec_get (_priority_qs mq) prio);
  match q with
  | [] => crash EmptyFront
  | (_, jid) :: q' => _ ← modify (set_queue prio q'); mret jid
  end.

(** If the queue is not empty, unblock one more Dequeue. *)
Definition signal_pop (prio : N) : M MultiQueue unit :=
  mq ← get;
  q ← need OutOfRange (vec_get (_priority_qs mq) prio);
  match q with
  | [] => mret tt
  | _ :: _ => unlock_not_empty prio
  end.

Definition at_prio (prio : N) (e : Job T * node) : bool :=
  (priority e.1 =? prio)%N.

(** Under [_value_map_mutex]: move the first entry of the id at this priority
    out of the map, and drop the id when it was the last one. *)
Definition map_take (prio jid : N) (vm : gmap N (list (Job T * node))) :
    option (Job T * gmap N (list (Job T * node))) :=
  match vm !! jid with
  | None => None
  | Some l =>
      match find_first (at_prio prio) l with
      | None => None
      | Some (job, _) =>
          let l' := remove_first (at_prio prio) l in
          Some (job, match l' with
                     | [] => delete jid vm
                     | _ :: _ => <[jid := l']> vm
                     end)
      end
  end.

Definition take_job (prio jid : N) : M MultiQueue (Job T) :=
  mq ← get;
  x ← need CheckFailure (map_take prio jid (_value_mapper mq));
  let '(job, vm) := x in
  _ ← modify (set_mapper vm);
  mret job.

(** Two passes are enough for a call that runs alone (dequeue_loop_enough). *)
Definition Dequeue (prio : N) : M MultiQueue (option (Job T)) :=
  mq ← get;
  _ ← CHECK (prio <=? _max_prio mq)%N;
  g ← dequeue_loop 2 prio;
  match g with
  | Some Break =>
      jid ← pop_job prio;
      _ ← signal_pop prio;
      job ← take_job prio jid;
      mret (Some job)
  | Some _ => mret None
  | None => fun mq => Wait mq
  end.

(** ** Purge *)

(** [list::erase(iterator)]: undefined when the node is not in the list. *)
Definition erase_node (it : node) (q : list (node * N)) : option (list (node * N)) :=
  if decide (it ∈ q.*1)
  then Some (filter (fun x => negb (x.1 =? it)%N) q)
  else None.

Fixpoint purge_loop (l : list (Job T * node)) (qs : list (list (node * N)))
    (purged : N) : outcome (list (list (node * N))) N :=
  match l with
  | [] => Done purged qs
  | (job, it) :: l' =>
      match vec_get qs (priority job) with
      | None => Crash OutOfRange
      | Some q =>
          match erase_node it q with
          | None => Crash BadIterator
          | Some q' =>
              purge_loop l' (vec_set (priority job) q' qs) (u32_add purged 1)
          end
      end
  end.

Definition Purge (job_id : N) : M MultiQueue N := fun mq =>
  match _value_mapper mq !! job_id with
  | None => Done 0%N mq
  | Some l =>
      match purge_loop l (_priority_qs mq) 0 with
      | Done purged qs =>
          Done purged
            (set_mapper (delete job_id (_value_mapper mq)) (set_queues qs mq))
      | Wait qs => Wait (set_queues qs mq)
      | Crash e => Crash e
      end
  end.

(** ** Size, Empty, release and MaxPriority *)

Definition Size (prio : N) : M MultiQueue N :=
  mq ← get;
  _ ← CHECK (prio <=? _max_prio mq)%N;
  q ← need OutOfRange (vec_get (_priority_qs mq) prio);
  mret (u32 (N.of_nat (length q))).

Definition Empty (prio : N) : M MultiQueue bool :=
  mq ← get;
  _ ← CHECK (prio <=? _max_prio mq)%N;
  q ← need OutOfRange (vec_get (_priority_qs mq) prio);
  mret (match q with [] => true | _ :: _ => false end).

(** The body of the loop of ReleaseQueues. *)
Definition release_queue (p : N) : M MultiQueue unit :=
  mq ← get;
  q ← need OutOfRange (vec_get (_priority_qs mq) p);
  match q with
  | [] => unlock_not_empty p
  | _ :: _ => mret tt
  end.

Fixpoint release_loop (p : N) (left : nat) : M MultiQueue unit :=
  match left with
  | O => mret tt
  | S left' => _ ← release_queue p; release_loop (p + 1) left'
  end.

Definition ReleaseQueues : M MultiQueue unit :=
  _ ← modify (set_released true);
  mq ← get;
  release_loop 0 (N.to_nat (_max_prio mq + 1)).

(** [if (_priority_qs[prio].empty()) _release_one[prio] = true;]: true when the
    mutex is to be unlocked as well. *)
Definition set_release (prio : N) : M MultiQueue bool :=
  mq ← get;
  q ← need OutOfRange (vec_get (_priority_qs mq) prio);
  match q with
  | [] => _ ← modify (set_release_one prio true); mret true
  | _ :: _ => mret false
  end.

Definition ReleaseOne (prio : N) : M MultiQueue unit :=
  r ← set_release prio;
  if (r : bool) then unlock_not_empty prio else mret tt.

Definition MaxPriority (mq : MultiQueue) : N := _max_prio mq.

(** ** The map and the queues agree

    [Q] is the logical content: per priority, the nodes in order, each with the
    job it stands for.  The queues hold the nodes with the job's id; the map
    holds, under each id and for each priority, the same jobs in the same
    order. *)

Definition entries (vm : gmap N (list (Job T * node))) (id : N) :
    list (Job T * node) := default [] (vm !! id).

Definition has_id (id : N) (x : node * Job T) : bool := has_job_id id x.2.

Definition flip_pair (x : node * Job T) : Job T * node := (x.2, x.1).

Definition node_view (x : node * Job T) : node * N := (x.1, job_id x.2).

Definition node_views (q : list (node * Job T)) : list (node * N) :=
  node_view <$> q.

Record vm_rel (vm : gmap N (list (Job T * node)))
    (Q : list (list (node * Job T))) : Prop := mk_vm_rel {
  vr_entries : forall id p q, vec_get Q p = Some q ->
    filter (at_prio p) (entries vm id) = flip_pair <$> filter (has_id id) q;
  vr_range : forall id e, e ∈ entries vm id ->
    (priority e.1 < N.of_nat (length Q))%N;
  vr_nonempty : forall id, vm !! id <> Some []
}.

Lemma entries_insert job it vm id :
  entries (map_insert job it vm) id =
    entries vm id ++ (if has_job_id id job then [(job, it)] else []).
Proof.
  unfold entries, map_insert, has_job_id.
  destruct (N.eqb_spec (job_id job) id) as [<-|Hne].
  - destruct (vm !! job_id job) eqn:E; by rewrite lookup_insert_eq.
  - rewrite app_nil_r. by destruct (vm !! job_id job); rewrite lookup_insert_ne.
Qed.

Lemma vm_rel_insert vm Q job it q :
  vm_rel vm Q -> vec_get Q (priority job) = Some q ->
  vm_rel (map_insert job it vm) (vec_set (priority job) (q ++ [(it, job)]) Q).
Proof.
  intros [He Hr Hn] Hq. split.
  - intros id p q'. rewrite entries_insert, vec_get_set, filter_app.
    case_decide as Hd.
    + destruct Hd as [<- _]. intros [= <-].
      rewrite filter_app, fmap_app, (He id _ _ Hq). f_equal.
      rewrite filter_cons. unfold has_id. simpl.
      destruct (has_job_id id job); simpl; [|done].
      rewrite filter_cons. unfold at_prio. simpl. by rewrite N.eqb_refl.
    + intros Hq'. rewrite <-(He id _ _ Hq').
      rewrite (filter_all_false _ (if has_job_id id job then _ else _)); [apply app_nil_r|].
      intros x Hx. apply N.eqb_neq. intros Hp. apply Hd.
      destruct (has_job_id id job); [|set_solver].
      apply list_elem_of_singleton in Hx as ->. eauto using vec_get_Some_lt.
  - intros id e. rewrite entries_insert, length_vec_set, elem_of_app.
    intros [?|Hin]; [eauto|]. destruct (has_job_id id job); [|set_solver].
    apply list_elem_of_singleton in Hin as ->. by eapply vec_get_Some_lt.
  - intros id. unfold map_insert.
    destruct (vm !! job_id job) as [l|] eqn:E;
      rewrite lookup_insert; case_decide; try done; [|apply Hn..].
    by destruct l.
Qed.

Lemma entries_delete vm id id' :
  entries (delete id vm) id' = if decide (id = id') then [] else entries vm id'.
Proof.
  unfold entries. rewrite lookup_delete. by case_decide.
Qed.

Lemma map_take_spec vm p id job it l' :
  filter (at_prio p) (entries vm id) = (job, it) :: l' ->
  exists vm', map_take p id vm = Some (job, vm') /\
    entries vm' id = remove_first (at_prio p) (entries vm id) /\
    (forall id', id <> id' -> vm' !! id' = vm !! id') /\
    vm' !! id <> Some [].
Proof.
  unfold entries at 1, map_take. destruct (vm !! id) as [l|] eqn:E; simpl; [|done].
  intros Hf. rewrite (filter_head_find _ _ _ _ Hf). eexists. split; [done|].
  unfold entries. rewrite E. simpl.
  destruct (remove_first (at_prio p) l) eqn:El.
  - rewrite lookup_delete_eq. repeat split; [|done]. intros. by rewrite lookup_delete_ne.
  - rewrite lookup_insert_eq. repeat split; [|done]. intros. by rewrite lookup_insert_ne.
Qed.

Lemma vm_rel_take vm Q p it job q :
  vm_rel vm Q -> vec_get Q p = Some ((it, job) :: q) ->
  exists vm', map_take p (job_id job) vm = Some (job, vm') /\
    vm_rel vm' (vec_set p q Q).
Proof.
  intros [He Hr Hn] Hq. pose proof (He (job_id job) p _ Hq) as Hhd.
  rewrite filter_cons in Hhd. unfold has_id, has_job_id in Hhd. simpl in Hhd.
  rewrite N.eqb_refl in Hhd. simpl in Hhd.
  destruct (map_take_spec _ _ _ _ _ _ Hhd) as (vm' & Ht & Hsame & Hother & Hne).
  exists vm'. split; [done|]. split.
  - intros id p' q'. rewrite vec_get_set.
    destruct (decide (job_id job = id)) as [<-|Hid].
    + rewrite Hsame. case_decide as Hd.
      * destruct Hd as [<- _]. intros [= <-].
        by rewrite (filter_remove_first _ _ _ _ Hhd).
      * intros Hq'. rewrite filter_remove_first_other; [by apply He|].
        intros x. unfold at_prio. intros Hx%N.eqb_eq. apply N.eqb_neq.
        intros Hx'. apply Hd. split; [congruence|by eapply vec_get_Some_lt].
    + unfold entries. rewrite Hother by done. case_decide as Hd; [|apply He].
      destruct Hd as [<- _]. intros [= <-].
      pose proof (He id p _ Hq) as Hid'. rewrite filter_cons in Hid'.
      apply N.eqb_neq in Hid as Hb.
      replace (has_id id (it, job)) with false in Hid' by (symmetry; exact Hb). done.
  - intros id e. rewrite length_vec_set. destruct (decide (job_id job = id)) as [<-|Hid].
    + rewrite Hsame. intros ?%elem_of_remove_first. eauto.
    + unfold entries. rewrite Hother by done. apply Hr.
  - intros id. destruct (decide (job_id job = id)) as [<-|Hid]; [done|].
    rewrite Hother by done. apply Hn.
Qed.

Lemma vec_get_fmap {A B} (f : A -> B) (v : list A) i :
  vec_get (f <$> v) i = f <$> vec_get v i.
Proof. apply list_lookup_fmap. Qed.

Lemma vm_rel_purge vm Q id :
  vm_rel vm Q ->
  vm_rel (delete id vm) (filter (fun x => negb (has_id id x)) <$> Q).
Proof.
  intros [He Hr Hn]. split.
  - intros id' p q. rewrite vec_get_fmap. intros (q0 & Hq0 & ->)%fmap_Some.
    rewrite entries_delete. case_decide as Hd.
    + subst id'. rewrite (filter_all_false (has_id id)); [done|].
      intros x [Hx _]%elem_of_filter_bool. by destruct (has_id id x).
    + rewrite (He _ _ _ Hq0). f_equal. rewrite list_filter_filter_l; [done|].
      intros x. unfold has_id, has_job_id. intros Hx.
      apply Is_true_true, N.eqb_eq in Hx. apply Is_true_true, negb_true_iff, N.eqb_neq.
      congruence.
  - intros id' e. rewrite entries_delete, length_fmap. case_decide; [set_solver|]. apply Hr.
  - intros id'. rewrite lookup_delete. by case_decide.
Qed.

End Queue.
End MQ.
