(* ===== verification/MultiQueueSpec.v ===== *)
(** * MultiQueue implements the multi-queue contract

    The representation invariant that ties the queues, the value map, the
    stored iterators and the "not empty" mutexes together, its preservation by
    every operation, and the refinement of the abstract per-priority FIFOs of
    BaseMultiQueue.v.  Then the release operations, whose behaviour is outside
    that contract. *)

From stdpp Require Import prelude gmap list.
From S2P Require Import Prelude Synchronization Job BaseMultiQueue MultiQueue.

Module MQSpec.
Import MQ.

Section Spec.
Context {T : Type}.
Implicit Types (mq : @MultiQueue T) (Q : list (list (N * Job T))).

(** ** The purge loop *)

Definition iters_at (p : N) (l : list (Job T * N)) : list N :=
  (filter (at_prio p) l).*2.

Definition keep_node (its : list N) (x : N * N) : bool :=
  bool_decide (x.1 ∉ its).

Lemma u32_add_assoc n k : u32 (u32_add n 1 + k) = u32 (n + (1 + k)).
Proof.
  unfold u32_add, u32. rewrite N.Div0.add_mod_idemp_l. f_equal. lia.
Qed.

Lemma iters_at_cons p job it l :
  iters_at p ((job, it) :: l) =
    if (priority job =? p)%N then it :: iters_at p l else iters_at p l.
Proof.
  unfold iters_at. rewrite filter_cons_bool. unfold at_prio at 1. simpl.
  by destruct (priority job =? p)%N.
Qed.

Lemma purge_loop_spec (l : list (Job T * N)) qs n :
  is_u32 n ->
  (forall job it, (job, it) ∈ l ->
     exists q, vec_get qs (priority job) = Some q /\ it ∈ q.*1) ->
  (forall p, NoDup (iters_at p l)) ->
  exists qs', purge_loop l qs n = Done (u32 (n + N.of_nat (length l))) qs' /\
    length qs' = length qs /\
    (forall p q, vec_get qs p = Some q ->
       vec_get qs' p = Some (filter (keep_node (iters_at p l)) q)).
Proof.
  revert qs n. induction l as [|[job it] l IH]; intros qs n Hn Hin Hnd.
  - exists qs. cbn [purge_loop length]. rewrite N.add_0_r, u32_small by done.
    split; [done|]. split; [done|]. intros p q Hq. rewrite Hq, filter_all_true; [done|]. intros x _.
    unfold keep_node. by apply bool_decide_eq_true_2, not_elem_of_nil.
  - destruct (Hin job it) as (q & Hq & Hit); [left|]. simpl.
    rewrite Hq. unfold erase_node. rewrite decide_True by done.
    set (q' := filter _ q).
    assert (priority job < N.of_nat (length qs))%N as Hlt by by eapply vec_get_Some_lt.
    destruct (IH (vec_set (priority job) q' qs) (u32_add n 1)) as (qs' & Hqs & Hlen & Hget).
    + apply u32_lt.
    + intros job2 it2 Hin2. destruct (Hin job2 it2) as (q2 & Hq2 & Hit2); [by right|].
      rewrite vec_get_set. case_decide as Hd; [|eauto].
      destruct Hd as [Hp _]. eexists. split; [done|]. simplify_eq.
      specialize (Hnd (priority job)). rewrite iters_at_cons, N.eqb_refl in Hnd.
      apply NoDup_cons in Hnd as [Hni _].
      assert (it2 <> it).
      { intros ->. apply Hni. unfold iters_at. apply list_elem_of_fmap.
        exists (job2, it). split; [done|]. apply elem_of_filter_bool.
        split; [|done]. unfold at_prio. simpl. by apply N.eqb_eq. }
      apply list_elem_of_fmap in Hit2 as ([a b] & -> & Hab). simpl in *.
      apply list_elem_of_fmap. exists (a, b). split; [done|].
      apply elem_of_filter_bool. split; [|congruence]. simpl.
      by apply negb_true_iff, N.eqb_neq.
    + intros p. specialize (Hnd p). rewrite iters_at_cons in Hnd.
      destruct (_ =? p)%N; [by apply NoDup_cons in Hnd as [_ ?]|done].
    + exists qs'. rewrite Hqs. split; [|split].
      * f_equal. rewrite u32_add_assoc. f_equal. simpl. lia.
      * by rewrite Hlen, length_vec_set.
      * intros p r Hr. rewrite iters_at_cons.
        destruct (N.eqb_spec (priority job) p) as [<-|Hne].
        -- rewrite (Hget _ q') by by apply vec_get_set_eq.
           f_equal. unfold q'. simplify_eq. rewrite list_filter_filter.
           apply list_filter_iff. intros x. unfold keep_node.
           rewrite !Is_true_true, !bool_decide_eq_true, negb_true_iff, N.eqb_neq,
             not_elem_of_cons. tauto.
        -- apply Hget. by rewrite vec_get_set_ne.
Qed.

(** ** The representation invariant *)

Record mq_rel mq Q : Prop := mk_mq_rel {
  mr_max : is_u32 (_max_prio mq + 1);
  mr_len : N.of_nat (length Q) = (_max_prio mq + 1)%N;
  mr_len_ne : length (_not_empty_mutexes mq) = length Q;
  mr_len_ro : length (_release_one mq) = length Q;
  mr_qs : _priority_qs mq = node_views <$> Q;
  mr_vm : vm_rel (_value_mapper mq) Q;
  mr_nodes : forall p q, vec_get Q p = Some q ->
    NoDup q.*1 /\ Forall (fun n => (n < next_node mq)%N) q.*1
}.

(** No lost wake-up: a queue with jobs has its "not empty" mutex unlocked. *)
Definition tokens mq Q : Prop :=
  forall p q, vec_get Q p = Some q -> q <> [] ->
    vec_get (_not_empty_mutexes mq) p = Some false.

(** The jobs of the logical content. *)
Definition jobs_of Q : list (list (Job T)) :=
  (fun q : list (N * Job T) => q.*2) <$> Q.

(** Normal operation: nothing has been released. *)
Definition running mq : Prop :=
  _released mq = false /\
  (forall p b, vec_get (_release_one mq) p = Some b -> b = false).

Lemma mq_rel_queue mq Q p q :
  mq_rel mq Q -> vec_get Q p = Some q ->
  vec_get (_priority_qs mq) p = Some (node_views q).
Proof. intros H Hq. by rewrite (mr_qs _ _ H), vec_get_fmap, Hq. Qed.

Lemma mq_rel_in_range mq Q p :
  mq_rel mq Q -> (p <= _max_prio mq)%N <-> exists q, vec_get Q p = Some q.
Proof.
  intros H. pose proof (mr_len _ _ H). split.
  - intros Hp. apply vec_get_lt. lia.
  - intros [q Hq%vec_get_Some_lt]. lia.
Qed.

Lemma vec_set_fmap {A B} (f : A -> B) (v : list A) i x :
  f <$> vec_set i x v = vec_set i (f x) (f <$> v).
Proof. apply list_fmap_insert. Qed.

(** *** Enqueue *)

Lemma Enqueue_Done mq Q job q :
  mq_rel mq Q -> vec_get Q (priority job) = Some q ->
  Enqueue (Some job) mq = Done tt
    (set_mapper (map_insert job (next_node mq) (_value_mapper mq))
      (match q with
       | [] => set_not_empty (priority job) false
       | _ :: _ => id
       end
         (set_next_node (next_node mq + 1)
            (set_queue (priority job)
               (node_views q ++ [(next_node mq, job_id job)]) mq)))).
Proof.
  intros H Hq. unfold Enqueue.
  assert (priority job <= _max_prio mq)%N as Hle.
  { eapply mq_rel_in_range; eauto. }
  apply N.leb_le in Hle. unfold insert_job, signal_insert, map_job. unM.
  rewrite Hle, (mq_rel_queue _ _ _ _ H Hq). simpl.
  assert (priority job < N.of_nat (length (_priority_qs mq)))%N as Hlt
    by (rewrite (mr_qs _ _ H), length_fmap; by eapply vec_get_Some_lt).
  rewrite vec_get_set_eq by done. unfold node_views. rewrite length_app, length_fmap.
  destruct q as [|x q]; [done|]. simpl length. rewrite Nat.add_comm. done.
Qed.

(** A fresh node keeps the nodes of a queue distinct and below the allocator. *)
Lemma fresh_node_ok (l : list N) (n : N) :
  NoDup l -> Forall (fun k => (k < n)%N) l ->
  NoDup (l ++ [n]) /\ Forall (fun k => (k < n + 1)%N) (l ++ [n]).
Proof.
  intros Hnd Hall. split.
  - apply NoDup_app. split; [done|]. split; [|by apply NoDup_singleton].
    intros x Hx ->%list_elem_of_singleton.
    rewrite Forall_forall in Hall. specialize (Hall _ Hx). simpl in Hall. lia.
  - apply Forall_app. split; [|repeat constructor; lia].
    eapply Forall_impl; [exact Hall|]. simpl. lia.
Qed.

Lemma Enqueue_rel mq Q job q mq' :
  mq_rel mq Q -> vec_get Q (priority job) = Some q ->
  Enqueue (Some job) mq = Done tt mq' ->
  mq_rel mq' (vec_set (priority job) (q ++ [(next_node mq, job)]) Q).
Proof.
  intros H Hq. rewrite (Enqueue_Done _ _ _ _ H Hq). intros [= <-].
  assert (priority job < N.of_nat (length Q))%N as Hlt by by eapply vec_get_Some_lt.
  destruct H as [H1 H2 H3 H4 H5 H6 H7].
  split; rewrite ?length_vec_set.
  - by destruct q.
  - by destruct q.
  - destruct q; simpl; by rewrite ?length_vec_set.
  - by destruct q.
  - rewrite vec_set_fmap, <-H5. unfold node_views. rewrite fmap_app.
    by destruct q.
  - destruct q; by apply vm_rel_insert.
  - assert (forall n, n = (next_node mq + 1)%N -> forall p q',
      vec_get (vec_set (priority job) (q ++ [(next_node mq, job)]) Q) p = Some q' ->
      NoDup q'.*1 /\ Forall (fun k => (k < n)%N) q'.*1) as Hgen;
      [|apply Hgen; by destruct q].
    intros n -> p q'. rewrite vec_get_set. case_decide as Hd.
    + destruct Hd as [<- _]. intros [= <-]. destruct (H7 _ _ Hq) as [Hnd Hall].
      rewrite fmap_app. by apply fresh_node_ok.
    + intros Hq'. destruct (H7 _ _ Hq') as [? Hall]. split; [done|].
      eapply Forall_impl; [exact Hall|]. simpl. lia.
Qed.

Lemma Enqueue_tokens mq Q job q mq' :
  mq_rel mq Q -> tokens mq Q -> vec_get Q (priority job) = Some q ->
  Enqueue (Some job) mq = Done tt mq' ->
  tokens mq' (vec_set (priority job) (q ++ [(next_node mq, job)]) Q).
Proof.
  intros H Ht Hq. rewrite (Enqueue_Done _ _ _ _ H Hq). intros [= <-].
  assert (priority job < N.of_nat (length Q))%N as Hlt by by eapply vec_get_Some_lt.
  intros p q'. rewrite vec_get_set. case_decide as Hd.
  - destruct Hd as [<- _]. intros _ _. destruct q as [|x q]; simpl.
    + apply vec_get_set_eq. by rewrite (mr_len_ne _ _ H).
    + by eapply Ht.
  - intros Hq' Hne. destruct q as [|x q]; simpl; [|by eapply Ht].
    rewrite vec_get_set_ne; [by eapply Ht|]. intros Heq. by apply Hd.
Qed.

(** *** Dequeue *)

Lemma set_not_empty_rel mq Q p b : mq_rel mq Q -> mq_rel (set_not_empty p b mq) Q.
Proof. intros []. split; simpl; by rewrite ?length_vec_set. Qed.

Lemma set_release_one_rel mq Q p b :
  mq_rel mq Q -> mq_rel (set_release_one p b mq) Q.
Proof. intros []. split; simpl; by rewrite ?length_vec_set. Qed.

(** The loop ends within two passes: the pass that finds the queue empty has
    itself locked the mutex, so the next one blocks. *)
Lemma dequeue_loop_enough mq p fuel :
  2 <= fuel ->
  dequeue_loop fuel p mq = dequeue_loop 2 p mq /\
  (forall mq', dequeue_loop fuel p mq <> Done None mq').
Proof.
  intros Hf. destruct fuel as [|[|fuel]]; [lia..|].
  cbn [dequeue_loop]. unfold dequeue_pass, lock_not_empty, take_release, check_queue,
    peek_queue, unlock_not_empty.
  unM. destruct (vec_get (_not_empty_mutexes mq) p) as [[]|] eqn:E; [done| |done].
  simpl. destruct (vec_get (_release_one mq) p) as [[]|] eqn:Er; [done| |done].
  simpl. destruct (vec_get (_priority_qs mq) p) as [[|]|] eqn:Eq; [|done..].
  simpl. destruct (_released mq); [done|].
  simpl. rewrite vec_get_set_eq by (by eapply vec_get_Some_lt). done.
Qed.

(** What the loop does on a queue with jobs. *)
Lemma dequeue_loop_break mq p x q :
  vec_get (_not_empty_mutexes mq) p = Some false ->
  vec_get (_release_one mq) p = Some false ->
  vec_get (_priority_qs mq) p = Some (x :: q) ->
  dequeue_loop 2 p mq = Done (Some Break) (set_not_empty p true mq).
Proof.
  intros H1 H2 H3. cbn [dequeue_loop].
  unfold dequeue_pass, lock_not_empty, take_release, check_queue,
    peek_queue, unlock_not_empty. unM.
  rewrite H1. simpl. rewrite H2. simpl. rewrite H3. done.
Qed.

(** The state a Dequeue of the job at the head leaves behind. *)
Definition after_dequeue (p : N) (q : list (N * Job T))
    (vm : gmap N (list (Job T * N))) mq : MultiQueue :=
  set_mapper vm
    (set_not_empty p (match q with [] => true | _ :: _ => false end)
       (set_queue p (node_views q) mq)).

Lemma vec_set_twice {A} (v : list A) i x y :
  vec_set i x (vec_set i y v) = vec_set i x v.
Proof. apply list_insert_insert_eq. Qed.

Lemma Dequeue_Done mq Q p it job q :
  mq_rel mq Q -> vec_get Q p = Some ((it, job) :: q) ->
  vec_get (_not_empty_mutexes mq) p = Some false ->
  vec_get (_release_one mq) p = Some false ->
  exists vm, Dequeue p mq = Done (Some job) (after_dequeue p q vm mq) /\
    vm_rel vm (vec_set p q Q).
Proof.
  intros H Hq Hne Hro. pose proof (mq_rel_queue _ _ _ _ H Hq) as Hqs.
  destruct (vm_rel_take _ _ _ _ _ _ (mr_vm _ _ H) Hq) as (vm & Hvm & Hrel).
  exists vm. split; [|done]. unfold Dequeue.
  assert ((p <=? _max_prio mq)%N = true) as Hle
    by (apply N.leb_le; eapply mq_rel_in_range; eauto).
  rewrite (bind_Done _ _ _ mq mq) by done.
  rewrite (bind_Done _ _ _ tt mq) by by apply CHECK_true.
  rewrite (bind_Done _ _ _ _ _ (dequeue_loop_break _ _ _ _ Hne Hro Hqs)).
  assert (p < N.of_nat (length (_priority_qs mq)))%N as Hlt
    by (by eapply vec_get_Some_lt).
  unfold pop_job, signal_pop, unlock_not_empty, take_job. unM. simpl. rewrite Hqs. simpl.
  rewrite vec_get_set_eq by done.
  unfold after_dequeue, set_mapper, set_not_empty, set_queue, set_queues.
  destruct q as [|y q]; simpl; rewrite Hvm; simpl; rewrite ?vec_set_twice; done.
Qed.

Lemma after_dequeue_rel mq Q p x q vm :
  mq_rel mq Q -> vec_get Q p = Some (x :: q) -> vm_rel vm (vec_set p q Q) ->
  mq_rel (after_dequeue p q vm mq) (vec_set p q Q).
Proof.
  intros [H1 H2 H3 H4 H5 H6 H7] Hq Hvm.
  split; simpl; rewrite ?length_vec_set; try done.
  - by rewrite vec_set_fmap, H5.
  - intros p' q'. rewrite vec_get_set. case_decide as Hd; [|apply H7].
    destruct Hd as [<- _]. intros [= <-]. destruct (H7 _ _ Hq) as [Hnd Hall].
    simpl in Hnd, Hall. by apply NoDup_cons in Hnd as [_ ?];
      apply Forall_cons in Hall as [_ ?].
Qed.

Lemma after_dequeue_tokens mq Q p x q vm :
  mq_rel mq Q -> tokens mq Q -> vec_get Q p = Some (x :: q) ->
  tokens (after_dequeue p q vm mq) (vec_set p q Q).
Proof.
  intros H Ht Hq p' q'. simpl. rewrite !vec_get_set.
  pose proof (vec_get_Some_lt _ _ _ Hq) as Hlt.
  case_decide as Hd.
  - destruct Hd as [<- _]. intros [= <-] Hne.
    rewrite decide_True by (split; [done|by rewrite (mr_len_ne _ _ H)]).
    by destruct q.
  - intros Hq' Hne. rewrite decide_False; [by eapply Ht|].
    intros [-> _]. by apply Hd.
Qed.

Lemma Dequeue_empty mq Q p :
  mq_rel mq Q -> running mq -> vec_get Q p = Some [] ->
  Dequeue p mq = Wait (set_not_empty p true mq).
Proof.
  intros H [Hrel Hro] Hq. pose proof (mq_rel_queue _ _ _ _ H Hq) as Hqs.
  pose proof (vec_get_Some_lt _ _ _ Hq) as Hlt.
  assert ((p <=? _max_prio mq)%N = true) as Hle
    by (apply N.leb_le; eapply mq_rel_in_range; eauto).
  destruct (vec_get_lt (_not_empty_mutexes mq) p) as [b Hb];
    [by rewrite (mr_len_ne _ _ H)|].
  destruct (vec_get_lt (_release_one mq) p) as [r Hr];
    [by rewrite (mr_len_ro _ _ H)|].
  rewrite (Hro _ _ Hr) in Hr. unfold Dequeue. cbn [dequeue_loop].
  unfold dequeue_pass, lock_not_empty, take_release, check_queue,
    peek_queue, unlock_not_empty. unM.
  rewrite Hle, Hb. destruct b; simpl.
  - by unfold set_not_empty; rewrite vec_set_id; [destruct mq|].
  - rewrite Hr. simpl. rewrite Hqs. simpl. rewrite Hrel. simpl.
    rewrite vec_get_set_eq by (by eapply vec_get_Some_lt). done.
Qed.

(** *** Purge *)

Lemma iters_at_entries vm Q id p q :
  vm_rel vm Q -> vec_get Q p = Some q ->
  iters_at p (entries vm id) = (filter (has_id id) q).*1.
Proof.
  intros H Hq. unfold iters_at. rewrite (vr_entries _ _ H _ _ _ Hq).
  by rewrite <-list_fmap_compose.
Qed.

Lemma entry_in_queue vm Q id job it :
  vm_rel vm Q -> (job, it) ∈ entries vm id ->
  exists q, vec_get Q (priority job) = Some q /\ (it, job) ∈ q.
Proof.
  intros H Hin. destruct (vec_get_lt Q (priority job)) as [q Hq];
    [by apply (vr_range _ _ H _ _ Hin)|].
  exists q. split; [done|].
  assert ((job, it) ∈ filter (at_prio (priority job)) (entries vm id)) as Hf.
  { apply elem_of_filter_bool. split; [|done]. unfold at_prio. apply N.eqb_refl. }
  rewrite (vr_entries _ _ H _ _ _ Hq) in Hf.
  apply list_elem_of_fmap in Hf as ([n j] & Heq & [_ ?]%elem_of_filter_bool).
  unfold flip_pair in Heq. by simplify_eq/=.
Qed.

Lemma length_by_priority (l : list (Job T * N)) id Q off :
  (forall e, e ∈ l -> (off <= priority e.1 < off + N.of_nat (length Q))%N) ->
  (forall i q, Q !! i = Some q ->
     count (at_prio (off + N.of_nat i)) l = count (has_id id) q) ->
  length l = abs_count id (jobs_of Q).
Proof.
  revert off l. induction Q as [|q Q IH]; intros off l Hr Hc; simpl.
  - destruct l as [|e l]; [done|]. specialize (Hr e ltac:(left)). simpl in Hr. lia.
  - rewrite (count_split (at_prio off) l), count_fmap. f_equal.
    + specialize (Hc 0 q eq_refl). by rewrite N.add_0_r in Hc.
    + apply (IH (off + 1)%N).
      * intros e [He Hin]%elem_of_filter_bool. specialize (Hr e Hin). simpl in Hr.
        unfold at_prio in He. apply negb_true_iff, N.eqb_neq in He. lia.
      * intros i q' Hi. specialize (Hc (S i) q' Hi).
        rewrite count_filter_count.
        -- rewrite <-Hc. f_equal. f_equal. lia.
        -- unfold at_prio. intros x Hx%N.eqb_eq.
           apply negb_true_iff, N.eqb_neq. lia.
Qed.

Lemma keep_node_view q id (x : N * Job T) :
  NoDup q.*1 -> x ∈ q ->
  keep_node (filter (has_id id) q).*1 (node_view x) = negb (has_id id x).
Proof.
  intros Hnd Hx. unfold keep_node. simpl. apply eq_true_iff_eq.
  rewrite bool_decide_eq_true, negb_true_iff. split.
  - intros Hn. destruct (has_id id x) eqn:E; [|done]. destruct Hn.
    apply list_elem_of_fmap_2. by apply elem_of_filter_bool.
  - intros E (y & Hy & [Hid Hin]%elem_of_filter_bool)%list_elem_of_fmap.
    rewrite (NoDup_fst_inj q x y) in E by done. congruence.
Qed.

Definition purge_content (id : N) Q : list (list (N * Job T)) :=
  filter (fun x => negb (has_id id x)) <$> Q.

(** The map lists as many entries of an id as the queues hold jobs of it. *)
Lemma length_entries vm Q id :
  vm_rel vm Q -> length (entries vm id) = abs_count id (jobs_of Q).
Proof.
  intros H. apply (length_by_priority _ _ _ 0%N).
  - intros e He. pose proof (vr_range _ _ H _ _ He). lia.
  - intros i q Hi. rewrite N.add_0_l, <-!count_filter.
    rewrite (vr_entries _ _ H id (N.of_nat i) q); [by rewrite length_fmap|].
    unfold vec_get. by rewrite Nat2N.id.
Qed.

Lemma purge_content_absent vm Q id :
  vm_rel vm Q -> vm !! id = None -> purge_content id Q = Q.
Proof.
  intros H E. unfold purge_content. rewrite <-(list_fmap_id Q) at 2.
  apply list_fmap_ext. intros i q Hq. apply filter_all_true. intros x Hx.
  apply negb_true_iff. destruct (has_id id x) eqn:Ex; [exfalso|done].
  assert (flip_pair x ∈ flip_pair <$> filter (has_id id) q) as Hin
    by by apply list_elem_of_fmap_2, elem_of_filter_bool.
  rewrite <-(vr_entries _ _ H id (N.of_nat i)) in Hin
    by (unfold vec_get; by rewrite Nat2N.id).
  apply elem_of_filter_bool in Hin as [_ Hin]. unfold entries in Hin.
  rewrite E in Hin. set_solver.
Qed.

Lemma iters_at_NoDup mq Q p id :
  mq_rel mq Q -> NoDup (iters_at p (entries (_value_mapper mq) id)).
Proof.
  intros H. destruct (vec_get Q p) as [q|] eqn:Hq.
  - rewrite (iters_at_entries _ _ _ _ _ (mr_vm _ _ H) Hq).
    apply NoDup_fst_filter, (mr_nodes _ _ H _ _ Hq).
  - unfold iters_at. rewrite filter_all_false; [constructor|].
    intros e He. apply N.eqb_neq. intros Hp.
    destruct (vec_get_lt Q p) as [??]; [|congruence].
    rewrite <-Hp. by apply (vr_range _ _ (mr_vm _ _ H) _ _ He).
Qed.

(** Erasing the iterators the map holds for an id removes exactly the nodes of
    that id. *)
Lemma purged_queues mq Q id qs' :
  mq_rel mq Q -> length qs' = length (_priority_qs mq) ->
  (forall p q, vec_get (_priority_qs mq) p = Some q ->
     vec_get qs' p =
       Some (filter (keep_node (iters_at p (entries (_value_mapper mq) id))) q)) ->
  qs' = node_views <$> purge_content id Q.
Proof.
  intros H Hlen Hget. rewrite (mr_qs _ _ H) in *. unfold purge_content.
  apply list_eq_same_length with (length Q); rewrite ?length_fmap; [done| |].
  { by rewrite Hlen, length_fmap. }
  intros i x y _ Hx Hy. rewrite !list_lookup_fmap in Hy.
  destruct (Q !! i) as [q|] eqn:Hq; simplify_eq/=.
  assert (vec_get Q (N.of_nat i) = Some q) as Hq' by (unfold vec_get; by rewrite Nat2N.id).
  specialize (Hget (N.of_nat i) (node_views q)).
  rewrite vec_get_fmap, Hq' in Hget. specialize (Hget eq_refl).
  unfold vec_get in Hget. rewrite Nat2N.id in Hget. simplify_eq.
  rewrite (iters_at_entries _ _ _ _ _ (mr_vm _ _ H) Hq').
  unfold node_views. rewrite filter_fmap. f_equal. apply filter_ext_in.
  intros z Hz. by apply keep_node_view; [apply (mr_nodes _ _ H _ _ Hq')|].
Qed.

Lemma Purge_Done mq Q id :
  mq_rel mq Q ->
  Purge id mq = Done (u32 (N.of_nat (abs_count id (jobs_of Q))))
    (set_mapper (delete id (_value_mapper mq))
       (set_queues (node_views <$> purge_content id Q) mq)).
Proof.
  intros H. pose proof (length_entries _ _ id (mr_vm _ _ H)) as Hlen. unfold Purge.
  destruct (_value_mapper mq !! id) as [l|] eqn:E.
  - assert (entries (_value_mapper mq) id = l) as Hl by (unfold entries; by rewrite E).
    destruct (purge_loop_spec l (_priority_qs mq) 0%N) as (qs' & -> & Hlen' & Hget).
    + done.
    + intros job it Hin. rewrite <-Hl in Hin.
      destruct (entry_in_queue _ _ _ _ _ (mr_vm _ _ H) Hin) as (q & Hq & Hx).
      exists (node_views q). split; [by apply (mq_rel_queue _ _ _ _ H)|].
      unfold node_views. rewrite <-list_fmap_compose.
      apply list_elem_of_fmap. by exists (it, job).
    + intros p. rewrite <-Hl. by apply (iters_at_NoDup _ Q).
    + rewrite <-Hl in *. by rewrite Hlen, (purged_queues _ _ id _ H Hlen' Hget).
  - rewrite (purge_content_absent _ _ _ (mr_vm _ _ H) E), <-(mr_qs _ _ H).
    unfold entries in Hlen. rewrite E in Hlen. simpl in Hlen. rewrite <-Hlen.
    rewrite delete_id by done. by destruct mq.
Qed.

Lemma Purge_rel mq Q id n mq' :
  mq_rel mq Q -> Purge id mq = Done n mq' -> mq_rel mq' (purge_content id Q).
Proof.
  intros H. rewrite (Purge_Done _ _ _ H). intros [= _ <-].
  destruct H as [H1 H2 H3 H4 H5 H6 H7].
  unfold purge_content. split; simpl; rewrite ?length_fmap; try done.
  - by apply vm_rel_purge.
  - intros p q. rewrite vec_get_fmap. intros (q0 & Hq0 & ->)%fmap_Some.
    destruct (H7 _ _ Hq0) as [Hnd Hall]. split; [by apply NoDup_fst_filter|].
    rewrite Forall_forall in *. intros n' (x & -> & [_ Hx]%elem_of_filter_bool)%list_elem_of_fmap.
    apply Hall. by apply list_elem_of_fmap_2.
Qed.

(** *** The constructor *)

Definition empty_content (max_priority : N) : list (list (N * Job T)) :=
  replicate (N.to_nat (max_priority + 1)) [].

Lemma empty_content_get m p q : vec_get (empty_content m) p = Some q -> q = [].
Proof. unfold vec_get, empty_content. by intros [? _]%lookup_replicate. Qed.

Lemma new_rel (m : N) : (m < UINT_MAX)%N -> mq_rel (new m) (empty_content m).
Proof.
  intros Hm. assert (u32_add m 1 = (m + 1)%N) as E
    by (apply u32_add_small; u32_unfold; lia).
  unfold new, empty_content. rewrite E.
  split; simpl; rewrite ?length_imap, ?length_replicate; try done; try lia.
  - unfold is_u32, u32_mod, UINT_MAX in *. lia.
  - by rewrite fmap_replicate.
  - split; [|set_solver|done]. intros id p q ->%empty_content_get. done.
  - intros p q ->%empty_content_get. split; constructor.
Qed.

Lemma new_running (m : N) : running (@new T m).
Proof. split; [done|]. intros p b. by intros [? _]%lookup_replicate. Qed.

Lemma new_tokens (m : N) : tokens (new m) (empty_content m).
Proof. by intros p q ->%empty_content_get. Qed.

(** ** MultiQueue meets the contract *)

Lemma jobs_of_get Q p A :
  vec_get (jobs_of Q) p = Some A -> exists q, vec_get Q p = Some q /\ q.*2 = A.
Proof. unfold jobs_of. rewrite vec_get_fmap. by intros (q & ? & ->)%fmap_Some; eauto. Qed.

Lemma jobs_of_enqueue Q job q n :
  vec_get Q (priority job) = Some q ->
  jobs_of (vec_set (priority job) (q ++ [(n, job)]) Q) = abs_enqueue job (jobs_of Q).
Proof.
  intros Hq. unfold jobs_of, abs_enqueue. rewrite vec_get_fmap, Hq. simpl.
  by rewrite vec_set_fmap, fmap_app.
Qed.

Lemma jobs_of_purge Q id : jobs_of (purge_content id Q) = abs_purge id (jobs_of Q).
Proof.
  unfold jobs_of, purge_content, abs_purge. rewrite <-!list_fmap_compose.
  apply list_fmap_ext. intros i q _. simpl. symmetry.
  exact (filter_fmap (fun j => negb (has_job_id id j)) snd q).
Qed.

(** The states of normal operation, with the jobs they hold. *)
Definition repr mq (A : list (list (Job T))) : Prop :=
  exists Q, A = jobs_of Q /\ mq_rel mq Q /\ tokens mq Q /\ running mq.

Lemma repr_max mq A :
  repr mq A -> N.of_nat (length A) = (_max_prio mq + 1)%N.
Proof.
  intros (Q & -> & H & _). unfold jobs_of. rewrite length_fmap. apply (mr_len _ _ H).
Qed.

Lemma repr_enqueue mq A job :
  repr mq A -> (priority job < N.of_nat (length A))%N ->
  exists mq', Enqueue (Some job) mq = Done tt mq' /\ repr mq' (abs_enqueue job A) /\
    _max_prio mq' = _max_prio mq.
Proof.
  intros (Q & -> & H & Ht & Hr) Hlt. unfold jobs_of in Hlt. rewrite length_fmap in Hlt.
  destruct (vec_get_lt _ _ Hlt) as [q Hq].
  pose proof (Enqueue_Done _ _ _ _ H Hq) as E. eexists. split; [exact E|].
  split; [|by destruct q].
  eexists. split; [symmetry; by apply jobs_of_enqueue|].
  split; [by eapply Enqueue_rel|]. split; [by eapply Enqueue_tokens|].
  destruct Hr. by destruct q.
Qed.

Lemma repr_dequeue mq A p j q :
  repr mq A -> vec_get A p = Some (j :: q) ->
  exists mq', Dequeue p mq = Done (Some j) mq' /\ repr mq' (vec_set p q A).
Proof.
  intros (Q & -> & H & Ht & Hr) Hq.
  apply jobs_of_get in Hq as ([|[it job] q'] & Hq & Heq); simplify_eq/=.
  pose proof (vec_get_Some_lt _ _ _ Hq) as Hlt.
  destruct (vec_get_lt (_release_one mq) p) as [r Hro];
    [by rewrite (mr_len_ro _ _ H)|].
  rewrite (proj2 Hr _ _ Hro) in Hro.
  destruct (Dequeue_Done _ _ _ _ _ _ H Hq (Ht _ _ Hq ltac:(done)) Hro) as (vm & E & Hvm).
  eexists. split; [exact E|]. exists (vec_set p q' Q).
  split; [unfold jobs_of; by rewrite vec_set_fmap|].
  split; [by eapply after_dequeue_rel|]. split; [by eapply after_dequeue_tokens|done].
Qed.

Lemma repr_dequeue_empty mq A p :
  repr mq A -> vec_get A p = Some [] ->
  exists mq', Dequeue p mq = Wait mq' /\ repr mq' A.
Proof.
  intros (Q & -> & H & Ht & Hr) Hq.
  apply jobs_of_get in Hq as ([|] & Hq & Heq); simplify_eq/=.
  eexists. split; [by eapply Dequeue_empty|]. exists Q. split; [done|].
  split; [by apply set_not_empty_rel|]. split; [|done].
  intros p' q' Hq' Hne. simpl. rewrite vec_get_set_ne; [by eapply Ht|]. congruence.
Qed.

Lemma repr_purge mq A id :
  repr mq A ->
  exists mq', Purge id mq = Done (u32 (N.of_nat (abs_count id A))) mq' /\
    repr mq' (abs_purge id A).
Proof.
  intros (Q & -> & H & Ht & Hr). pose proof (Purge_Done _ _ id H) as E.
  eexists. split; [exact E|]. exists (purge_content id Q).
  split; [by rewrite jobs_of_purge|]. split; [by eapply Purge_rel|]. split; [|done].
  intros p q. unfold purge_content. rewrite vec_get_fmap.
  intros (q0 & Hq0 & ->)%fmap_Some Hne. simpl. eapply Ht; [done|].
  intros ->. by apply Hne.
Qed.

Lemma repr_check mq A p :
  repr mq A -> (p <=? _max_prio mq)%N = bool_decide (p < N.of_nat (length A))%N.
Proof.
  intros H. rewrite (repr_max _ _ H). apply eq_true_iff_eq.
  rewrite N.leb_le, bool_decide_eq_true. lia.
Qed.

Lemma repr_enqueue_range mq A job :
  repr mq A -> (N.of_nat (length A) <= priority job)%N ->
  Enqueue (Some job) mq = Crash CheckFailure.
Proof.
  intros H Hp. unfold Enqueue. unM. rewrite (repr_check _ _ _ H).
  rewrite bool_decide_eq_false_2 by lia. done.
Qed.

Lemma repr_dequeue_range mq A p :
  repr mq A -> (N.of_nat (length A) <= p)%N -> Dequeue p mq = Crash CheckFailure.
Proof.
  intros H Hp. unfold Dequeue. unM. rewrite (repr_check _ _ _ H).
  rewrite bool_decide_eq_false_2 by lia. done.
Qed.

Lemma repr_size mq A p q :
  repr mq A -> vec_get A p = Some q ->
  Size p mq = Done (u32 (N.of_nat (length q))) mq /\
  Empty p mq = Done (bool_decide (q = [])) mq.
Proof.
  intros H Hq. pose proof (vec_get_Some_lt _ _ _ Hq) as Hlt.
  pose proof (repr_check _ _ p H) as Hc. rewrite bool_decide_eq_true_2 in Hc by done.
  destruct H as (Q & -> & H & _). apply jobs_of_get in Hq as (q' & Hq & <-).
  unfold Size, Empty. unM. rewrite Hc, (mq_rel_queue _ _ _ _ H Hq).
  unfold node_views. rewrite !length_fmap. split; [done|].
  by destruct q' as [|[]].
Qed.

Lemma repr_size_range mq A p :
  repr mq A -> (N.of_nat (length A) <= p)%N ->
  Size p mq = Crash CheckFailure /\ Empty p mq = Crash CheckFailure.
Proof.
  intros H Hp. unfold Size, Empty. unM. rewrite (repr_check _ _ _ H).
  rewrite bool_decide_eq_false_2 by lia. done.
Qed.

Lemma repr_new (m : N) :
  (m < UINT_MAX)%N -> repr (new m) (replicate (N.to_nat (m + 1)) []).
Proof.
  intros Hm. exists (empty_content m). split.
  - unfold jobs_of, empty_content. by rewrite fmap_replicate.
  - split; [by apply new_rel|]. split; [apply new_tokens|apply new_running].
Qed.

End Spec.

#[export] Instance multiqueue_ops T : BaseMultiQueue T (@MultiQueue T) := {
  mq_Enqueue := Enqueue;
  mq_Dequeue := Dequeue;
  mq_Purge := Purge;
  mq_Size := Size;
  mq_Empty := Empty;
  mq_ReleaseQueues := ReleaseQueues;
  mq_ReleaseOne := ReleaseOne;
  mq_MaxPriority := MaxPriority
}.

#[export] Instance multiqueue_contract T : MultiQueueContract T (@MultiQueue T).
Proof.
  refine {| mq_repr := repr |}.
  - exact repr_max.
  - intros s A (Q & _ & H & _). apply (mr_max _ _ H).
  - exact repr_enqueue.
  - exact repr_enqueue_range.
  - exact repr_dequeue.
  - exact repr_dequeue_empty.
  - exact repr_purge.
  - intros s A p q H Hq. by apply (repr_size s A p q).
Defined.

End MQSpec.
