(* ===== verification/MultiQueueRuns.v ===== *)
(** * Runs of multi-queue operations

    Sequences of calls on one MultiQueue, and what callers observe of them:
    the equivalence with the abstract FIFOs, memory safety, and the exact
    behaviour of ReleaseOne and ReleaseQueues. *)

From stdpp Require Import prelude gmap list.
From S2P Require Import Prelude Synchronization Job BaseMultiQueue MultiQueue.
From S2P Require Import MultiQueueSpec.

Module MQRuns.
Import MQ MQSpec.

(** What a caller observes of one call. *)
Inductive result (T : Type) : Type :=
| RUnit
| RJob (o : option (Job T))
| RNum (n : N)
| RBool (b : bool).

Arguments RUnit {T}.
Arguments RJob {T} o.
Arguments RNum {T} n.
Arguments RBool {T} b.

Inductive event (T : Type) : Type :=
| Returned (r : result T)
| Blocked
| Crashed (e : fault).

Arguments Returned {T} r.
Arguments Blocked {T}.
Arguments Crashed {T} e.

Inductive mq_op (T : Type) : Type :=
| OpEnqueue (job_p : option (Job T))
| OpDequeue (prio : N)
| OpPurge (id : N)
| OpSize (prio : N)
| OpEmpty (prio : N)
| OpReleaseQueues
| OpReleaseOne (prio : N).

Arguments OpEnqueue {T} job_p.
Arguments OpDequeue {T} prio.
Arguments OpPurge {T} id.
Arguments OpSize {T} prio.
Arguments OpEmpty {T} prio.
Arguments OpReleaseQueues {T}.
Arguments OpReleaseOne {T} prio.

Section Runs.
Context {T : Type}.

Definition ret_as {S A} (f : A -> result T) (m : M S A) : M S (result T) :=
  a ← m; mret (f a).

Definition exec_op (o : mq_op T) : M (@MultiQueue T) (result T) :=
  match o with
  | OpEnqueue j => ret_as (fun _ => RUnit) (Enqueue j)
  | OpDequeue p => ret_as RJob (Dequeue p)
  | OpPurge id => ret_as RNum (Purge id)
  | OpSize p => ret_as RNum (Size p)
  | OpEmpty p => ret_as RBool (Empty p)
  | OpReleaseQueues => ret_as (fun _ => RUnit) ReleaseQueues
  | OpReleaseOne p => ret_as (fun _ => RUnit) (ReleaseOne p)
  end.

(** The same calls on the abstract FIFOs (release calls have no abstract
    counterpart and do not occur in the runs that use this). *)
Definition exec_abs (o : mq_op T) : M (list (list (Job T))) (result T) := fun A =>
  match o with
  | OpEnqueue None => Crash CheckFailure
  | OpEnqueue (Some j) =>
      match vec_get A (priority j) with
      | Some _ => Done RUnit (abs_enqueue j A)
      | None => Crash CheckFailure
      end
  | OpDequeue p =>
      match vec_get A p with
      | Some (j :: q) => Done (RJob (Some j)) (vec_set p q A)
      | Some [] => Wait A
      | None => Crash CheckFailure
      end
  | OpPurge id => Done (RNum (u32 (N.of_nat (abs_count id A)))) (abs_purge id A)
  | OpSize p =>
      match vec_get A p with
      | Some q => Done (RNum (u32 (N.of_nat (length q)))) A
      | None => Crash CheckFailure
      end
  | OpEmpty p =>
      match vec_get A p with
      | Some q => Done (RBool (bool_decide (q = []))) A
      | None => Crash CheckFailure
      end
  | OpReleaseQueues | OpReleaseOne _ => Crash CheckFailure
  end.

(** Runs a list of calls.  A blocked call leaves its thread waiting for the
    mutex, where it holds nothing: when it is woken it behaves as a new call.
    A crash ends the run. *)
Fixpoint run {S} (exec : mq_op T -> M S (result T)) (ops : list (mq_op T)) (s : S) :
    list (event T) :=
  match ops with
  | [] => []
  | o :: ops' =>
      match exec o s with
      | Done r s' => Returned r :: run exec ops' s'
      | Wait s' => Blocked :: run exec ops' s'
      | Crash e => [Crashed e]
      end
  end.

Lemma ret_as_Done {S A} (f : A -> result T) (m : M S A) s a s' :
  m s = Done a s' -> ret_as f m s = Done (f a) s'.
Proof. intros E. exact (bind_Done m _ s a s' E). Qed.

Lemma ret_as_Wait {S A} (f : A -> result T) (m : M S A) s s' :
  m s = Wait s' -> ret_as f m s = Wait s'.
Proof. intros E. exact (bind_Wait m _ s s' E). Qed.

Lemma run_Done {S} (exec : mq_op T -> M S (result T)) o ops s r s' :
  exec o s = Done r s' -> run exec (o :: ops) s = Returned r :: run exec ops s'.
Proof. intros E. simpl. by rewrite E. Qed.

Lemma run_Wait {S} (exec : mq_op T -> M S (result T)) o ops s s' :
  exec o s = Wait s' -> run exec (o :: ops) s = Blocked :: run exec ops s'.
Proof. intros E. simpl. by rewrite E. Qed.

Definition not_release (o : mq_op T) : bool :=
  match o with
  | OpReleaseQueues | OpReleaseOne _ => false
  | _ => true
  end.

Lemma vec_get_None_ge {A} (v : list A) p :
  vec_get v p = None -> (N.of_nat (length v) <= p)%N.
Proof. intros H%lookup_ge_None. lia. Qed.

(** One call simulates the abstract one. *)
Lemma exec_simulates o mq A :
  not_release o = true -> repr mq A ->
  match exec_op o mq, exec_abs o A with
  | Done r mq', Done r' A' => r = r' /\ repr mq' A'
  | Wait mq', Wait A' => repr mq' A'
  | Crash e, Crash e' => e = e'
  | _, _ => False
  end.
Proof.
  intros Ho H. destruct o as [[j|]|p|id|p|p| |p]; try done;
    unfold exec_op, exec_abs, ret_as, mbind, M_bind, mret, M_ret.
  - destruct (vec_get A (priority j)) as [q|] eqn:E.
    + destruct (repr_enqueue mq A j H) as (mq' & -> & ? & _);
        [by eapply vec_get_Some_lt|done].
    + by rewrite (repr_enqueue_range mq A j H) by by apply vec_get_None_ge.
  - destruct (vec_get A p) as [[|j q]|] eqn:E.
    + by destruct (repr_dequeue_empty mq A p H E) as (mq' & -> & ?).
    + by destruct (repr_dequeue mq A p j q H E) as (mq' & -> & ?).
    + by rewrite (repr_dequeue_range mq A p H) by by apply vec_get_None_ge.
  - by destruct (repr_purge mq A id H) as (mq' & -> & ?).
  - destruct (vec_get A p) as [q|] eqn:E.
    + by destruct (repr_size mq A p q H E) as [-> _].
    + destruct (repr_size_range mq A p H) as [-> _]; [by apply vec_get_None_ge|done].
  - destruct (vec_get A p) as [q|] eqn:E.
    + by destruct (repr_size mq A p q H E) as [_ ->].
    + destruct (repr_size_range mq A p H) as [_ ->]; [by apply vec_get_None_ge|done].
Qed.

Lemma run_simulates ops mq A :
  Forall (fun o => not_release o = true) ops -> repr mq A ->
  run exec_op ops mq = run exec_abs ops A.
Proof.
  intros Hops. revert mq A. induction Hops as [|o ops Ho _ IH]; intros mq A H; [done|].
  pose proof (exec_simulates o mq A Ho H) as Hs. simpl.
  destruct (exec_op o mq), (exec_abs o A); try done.
  - destruct Hs as [-> Hs]. f_equal. by apply IH.
  - f_equal. by apply IH.
  - by subst.
Qed.

(** C2. MultiQueue refines one FIFO per priority: for every sequence of
    Enqueue, Dequeue, Purge, Size and Empty calls on a new queue, callers get
    exactly the results (values, blocking, CHECK failures) of the abstract
    FIFOs, where Purge removes every duplicate of the id and returns how many
    there were. *)
Theorem multiqueue_refines_fifos (max_priority : N) (ops : list (mq_op T)) :
  (max_priority < UINT_MAX)%N ->
  Forall (fun o => not_release o = true) ops ->
  run exec_op ops (new max_priority) =
    run exec_abs ops (replicate (N.to_nat (max_priority + 1)) []).
Proof. intros Hm Hops. by apply run_simulates; [|apply repr_new]. Qed.

(** ** Memory safety of every call *)

(** The arguments the callers have to supply: a job, and priorities up to the
    maximum. *)
Definition op_in_range (max_priority : N) (o : mq_op T) : Prop :=
  match o with
  | OpEnqueue (Some j) => (priority j <= max_priority)%N
  | OpEnqueue None => False
  | OpDequeue p | OpSize p | OpEmpty p | OpReleaseOne p => (p <= max_priority)%N
  | OpPurge _ | OpReleaseQueues => True
  end.

Implicit Types (mq : @MultiQueue T) (Q : list (list (N * Job T))).

(** Every way a Dequeue can go, in any state that satisfies the invariant. *)
Lemma Dequeue_any mq Q p q b r :
  mq_rel mq Q -> vec_get Q p = Some q ->
  vec_get (_not_empty_mutexes mq) p = Some b ->
  vec_get (_release_one mq) p = Some r ->
  match b, r, q with
  | true, _, _ => Dequeue p mq = Wait mq
  | false, true, _ =>
      Dequeue p mq = Done None (set_release_one p false (set_not_empty p true mq))
  | false, false, [] =>
      Dequeue p mq =
        if _released mq then Done None (set_not_empty p false (set_not_empty p true mq))
        else Wait (set_not_empty p true mq)
  | false, false, (it, job) :: q' =>
      exists vm, Dequeue p mq = Done (Some job) (after_dequeue p q' vm mq) /\
        vm_rel vm (vec_set p q' Q)
  end.
Proof.
  intros H Hq Hb Hr. pose proof (mq_rel_queue _ _ _ _ H Hq) as Hqs.
  assert ((p <=? _max_prio mq)%N = true) as Hle
    by (apply N.leb_le; eapply mq_rel_in_range; eauto).
  destruct b; [|destruct r; [|destruct q as [|[it job] q]]].
  4: by eapply Dequeue_Done.
  all: unfold Dequeue; cbn [dequeue_loop];
    unfold dequeue_pass, lock_not_empty, take_release, check_queue,
      peek_queue, unlock_not_empty; unM;
    rewrite Hle, Hb; simpl; try done.
  - by rewrite Hr.
  - rewrite Hr. simpl. rewrite Hqs. simpl. destruct (_released mq); [done|]. simpl.
    rewrite vec_get_set_eq by (by eapply vec_get_Some_lt). done.
Qed.

Definition empty_at Q (k : N) : bool :=
  match vec_get Q k with
  | Some [] => true
  | _ => false
  end.

Lemma release_loop_spec mq Q p left :
  mq_rel mq Q -> (p + N.of_nat left <= N.of_nat (length Q))%N ->
  exists mq', release_loop p left mq = Done tt mq' /\ mq_rel mq' Q /\
    _max_prio mq' = _max_prio mq /\ _released mq' = _released mq /\
    _release_one mq' = _release_one mq /\
    (forall k, vec_get (_not_empty_mutexes mq') k =
       if (p <=? k)%N && (k <? p + N.of_nat left)%N && empty_at Q k
       then Some false else vec_get (_not_empty_mutexes mq) k).
Proof.
  revert p mq. induction left as [|left IH]; intros p mq H Hlt.
  - exists mq. split; [done|]. do 4 (split; [done|]). intros k.
    destruct (N.leb_spec p k), (N.ltb_spec k (p + N.of_nat 0)); [lia|done..].
  - cbn [release_loop]. destruct (vec_get_lt Q p) as [q Hq]; [lia|].
    pose proof (mq_rel_queue _ _ _ _ H Hq) as Hqs.
    pose proof (vec_get_Some_lt _ _ _ Hq) as Hp.
    set (mq1 := match q with [] => set_not_empty p false mq | _ => mq end).
    assert (release_queue p mq = Done tt mq1) as E.
    { unfold release_queue, unlock_not_empty. unM. rewrite Hqs. by destruct q. }
    rewrite (bind_Done _ _ _ _ _ E).
    assert (mq_rel mq1 Q) as H1.
    { destruct q; simpl; [by apply set_not_empty_rel|done]. }
    destruct (IH (p + 1)%N mq1 H1 ltac:(lia)) as (mq' & -> & Hr & Hm & Hre & Hro & Hk).
    exists mq'. split; [done|]. split; [done|].
    split; [rewrite Hm; by destruct q|]. split; [rewrite Hre; by destruct q|].
    split; [rewrite Hro; by destruct q|]. intros k. rewrite Hk.
    destruct (N.leb_spec (p + 1) k), (N.leb_spec p k), (N.ltb_spec k (p + 1 + N.of_nat left)),
      (N.ltb_spec k (p + N.of_nat (S left))); try lia; simpl.
    + destruct (empty_at Q k); [done|]. unfold mq1. destruct q; [|done].
      simpl. rewrite vec_get_set_ne; [done|lia].
    + unfold mq1. destruct q; [|done]. simpl. rewrite vec_get_set_ne; [done|lia].
    + assert (k = p) as -> by lia. unfold empty_at. rewrite Hq.
      unfold mq1. destruct q; [|done]. simpl. apply vec_get_set_eq.
      by rewrite (mr_len_ne _ _ H).
    + unfold mq1. destruct q; [|done]. simpl. rewrite vec_get_set_ne; [done|lia].
Qed.

Lemma ReleaseQueues_spec mq Q :
  mq_rel mq Q ->
  exists mq', ReleaseQueues mq = Done tt mq' /\ mq_rel mq' Q /\
    _max_prio mq' = _max_prio mq /\ _released mq' = true /\
    _release_one mq' = _release_one mq /\
    (forall k, vec_get (_not_empty_mutexes mq') k =
       if empty_at Q k then Some false
       else vec_get (_not_empty_mutexes mq) k).
Proof.
  intros H. unfold ReleaseQueues.
  assert (mq_rel (set_released true mq) Q) as H1 by by destruct H.
  pose proof (mr_len _ _ H) as Hlen.
  destruct (release_loop_spec _ _ 0%N (N.to_nat (_max_prio mq + 1)) H1)
    as (mq' & E & Hr & Hm & Hre & Hro & Hk); [lia|].
  exists mq'. split; [exact E|]. do 4 (split; [done|]). intros k. rewrite Hk.
  destruct (empty_at Q k) eqn:Ek; [|by rewrite andb_false_r].
  unfold empty_at in Ek. destruct (vec_get Q k) eqn:Hq; [|done].
  pose proof (vec_get_Some_lt _ _ _ Hq).
  destruct (N.leb_spec 0 k), (N.ltb_spec k (0 + N.of_nat (N.to_nat (_max_prio mq + 1))));
    (done || lia).
Qed.

Lemma ReleaseOne_spec mq Q p q :
  mq_rel mq Q -> vec_get Q p = Some q ->
  ReleaseOne p mq = Done tt
    (match q with
     | [] => set_not_empty p false (set_release_one p true mq)
     | _ :: _ => mq
     end).
Proof.
  intros H Hq. unfold ReleaseOne, set_release, unlock_not_empty. unM. rewrite (mq_rel_queue _ _ _ _ H Hq).
  by destruct q.
Qed.

(** One call keeps the invariant and does not crash. *)
Lemma exec_safe o mq Q :
  mq_rel mq Q -> op_in_range (_max_prio mq) o ->
  exists mq' Q', mq_rel mq' Q' /\ _max_prio mq' = _max_prio mq /\
    (exec_op o mq = Wait mq' \/ exists r, exec_op o mq = Done r mq').
Proof.
  intros H Ho. pose proof (fun p => proj1 (mq_rel_in_range mq Q p H)) as Hin.
  destruct o as [[j|]|p|id|p|p| |p]; simpl in Ho; try done;
    unfold exec_op, ret_as, mbind, M_bind, mret, M_ret;
    try (destruct (Hin p Ho) as [q Hq]; pose proof (vec_get_Some_lt _ _ _ Hq) as Hlt).
  - destruct (Hin _ Ho) as [q Hq]. pose proof (Enqueue_Done _ _ _ _ H Hq) as E.
    rewrite E. eexists _, _. split; [by eapply Enqueue_rel|]. split; [by destruct q|eauto].
  - destruct (vec_get_lt (_not_empty_mutexes mq) p) as [b Hb];
      [by rewrite (mr_len_ne _ _ H)|].
    destruct (vec_get_lt (_release_one mq) p) as [r Hr]; [by rewrite (mr_len_ro _ _ H)|].
    pose proof (Dequeue_any _ _ _ _ _ _ H Hq Hb Hr) as E.
    destruct b; [|destruct r; [|destruct q as [|[it job] q]]].
    + rewrite E. exists mq, Q. auto.
    + rewrite E. exists (set_release_one p false (set_not_empty p true mq)), Q.
      split; [by apply set_release_one_rel, set_not_empty_rel|eauto].
    + rewrite E. destruct (_released mq).
      * exists (set_not_empty p false (set_not_empty p true mq)), Q.
        split; [by repeat apply set_not_empty_rel|eauto].
      * exists (set_not_empty p true mq), Q. split; [by apply set_not_empty_rel|eauto].
    + destruct E as (vm & -> & Hvm). eexists _, _.
      split; [by eapply after_dequeue_rel|eauto].
  - pose proof (Purge_Done _ _ id H) as E. rewrite E. eexists _, _.
    split; [by eapply Purge_rel|eauto].
  - unfold Size. unM. apply N.leb_le in Ho. rewrite Ho, (mq_rel_queue _ _ _ _ H Hq).
    eauto 10.
  - unfold Empty. unM. apply N.leb_le in Ho. rewrite Ho, (mq_rel_queue _ _ _ _ H Hq).
    eauto 10.
  - destruct (ReleaseQueues_spec _ _ H) as (mq' & -> & ? & ? & _). eauto 10.
  - rewrite (ReleaseOne_spec _ _ _ _ H Hq). destruct q.
    + exists (set_not_empty p false (set_release_one p true mq)), Q.
      split; [by apply set_not_empty_rel, set_release_one_rel|eauto].
    + exists mq, Q. eauto.
Qed.

Lemma run_safe ops mq Q e :
  mq_rel mq Q -> Forall (op_in_range (_max_prio mq)) ops ->
  Crashed e ∉ run exec_op ops mq.
Proof.
  revert mq Q. induction ops as [|o ops IH]; intros mq Q H Hops; simpl; [set_solver|].
  apply Forall_cons in Hops as [Ho Hops].
  destruct (exec_safe o mq Q H Ho) as (mq' & Q' & H' & Hm & [->|[r ->]]);
    rewrite <-Hm in Hops; intros [?|Hin]%elem_of_cons; try done;
    by apply (IH _ _ H' Hops).
Qed.

(** C38. Memory safety of calls that run one after the other: in every state
    that a sequence of completed calls can reach, releases included, with
    in-range arguments no call ever dereferences the front of an empty queue,
    erases a stale iterator, indexes out of range, or fails one of the CHECKs
    that the job popped from a queue is found in the map.  Overlapping calls are
    not covered: see [only_empty_pop_faults] and [single_consumer_safe]. *)
Theorem multiqueue_never_crashes (max_priority : N) (ops : list (mq_op T)) (e : fault) :
  (max_priority < UINT_MAX)%N ->
  Forall (op_in_range max_priority) ops ->
  Crashed e ∉ run exec_op ops (new max_priority).
Proof. intros Hm Hops. by eapply run_safe; [apply new_rel|]. Qed.

(** ** ReleaseQueues and ReleaseOne *)

Lemma released_dequeue mq Q p n :
  mq_rel mq Q -> _released mq = true -> vec_get Q p = Some [] ->
  vec_get (_not_empty_mutexes mq) p = Some false ->
  vec_get (_release_one mq) p = Some false ->
  run exec_op (replicate n (OpDequeue p)) mq = replicate n (Returned (RJob None)).
Proof.
  intros H Hr Hq Hb Hro. induction n as [|n IH]; [done|].
  pose proof (Dequeue_any _ _ _ _ _ _ H Hq Hb Hro) as E. simpl in E. rewrite Hr in E.
  cbn [replicate]. rewrite (run_Done exec_op (OpDequeue p) _ _ _ _ (ret_as_Done RJob _ _ _ _ E)).
  f_equal. rewrite <-IH. f_equal. destruct mq. simpl in *. unfold set_not_empty. simpl.
  by rewrite vec_set_twice, vec_set_id.
Qed.

(** After ReleaseQueues every Dequeue on a queue that was empty returns
    nullptr, however often it is called: waiting threads are let go and are not
    blocked again. *)
Theorem release_queues_frees_empty (mq : @MultiQueue T) (Q : list (list (N * Job T)))
    (p : N) (n : nat) :
  mq_rel mq Q -> vec_get Q p = Some [] ->
  vec_get (_release_one mq) p = Some false ->
  run exec_op (OpReleaseQueues :: replicate n (OpDequeue p)) mq =
    Returned RUnit :: replicate n (Returned (RJob None)).
Proof.
  intros H Hq Hro. destruct (ReleaseQueues_spec _ _ H) as (mq' & E & H' & _ & Hr & Hro' & Hne).
  rewrite (run_Done exec_op OpReleaseQueues _ _ _ _ (ret_as_Done _ _ _ _ _ E)). f_equal.
  eapply released_dequeue; try done.
  - rewrite Hne. unfold empty_at. by rewrite Hq.
  - by rewrite Hro'.
Qed.

(** A queue whose "not empty" mutex is locked although it holds [n] jobs. *)
Definition stuck mq (p : N) (n : nat) : Prop :=
  exists Q q, mq_rel mq Q /\ vec_get Q p = Some q /\ length q = n /\ 0 < n /\
    vec_get (_not_empty_mutexes mq) p = Some true.

Lemma stuck_dequeue mq p n : stuck mq p n -> Dequeue p mq = Wait mq.
Proof.
  intros (Q & q & H & Hq & _ & _ & Hb).
  destruct (vec_get_lt (_release_one mq) p) as [r Hr];
    [rewrite (mr_len_ro _ _ H); by eapply vec_get_Some_lt|].
  exact (Dequeue_any _ _ _ _ _ _ H Hq Hb Hr).
Qed.

Lemma stuck_size mq p n : stuck mq p n -> Size p mq = Done (u32 (N.of_nat n)) mq.
Proof.
  intros (Q & q & H & Hq & <- & _ & _). unfold Size. unM.
  assert ((p <=? _max_prio mq)%N = true) as ->
    by (apply N.leb_le; eapply mq_rel_in_range; eauto).
  rewrite (mq_rel_queue _ _ _ _ H Hq). unfold node_views. by rewrite length_fmap.
Qed.

Lemma stuck_enqueue mq n job :
  stuck mq (priority job) n ->
  exists mq', Enqueue (Some job) mq = Done tt mq' /\ stuck mq' (priority job) (S n).
Proof.
  intros (Q & q & H & Hq & Hn & Hpos & Hb).
  pose proof (Enqueue_Done _ _ _ _ H Hq) as E. eexists. split; [exact E|].
  destruct q as [|x q]; [simpl in Hn; lia|].
  eexists _, _. split; [by eapply Enqueue_rel|].
  split; [apply vec_get_set_eq; by eapply vec_get_Some_lt|].
  rewrite length_app. simpl in *. split; [lia|]. split; [lia|done].
Qed.

Lemma run_stuck_enqueues mq p n more ops :
  stuck mq p n -> Forall (fun j => priority j = p) more ->
  exists mq', stuck mq' p (n + length more) /\
    run exec_op ((OpEnqueue ∘ Some <$> more) ++ ops) mq =
      replicate (length more) (Returned RUnit) ++ run exec_op ops mq'.
Proof.
  intros H Hmore. revert mq n H. induction Hmore as [|j more Hj _ IH]; intros mq n H.
  - exists mq. simpl. by rewrite Nat.add_0_r.
  - subst p. destruct (stuck_enqueue mq n j H) as (mq1 & E & H1).
    destruct (IH _ _ H1) as (mq' & H' & Hrun). exists mq'.
    split; [simpl; rewrite Nat.add_succ_r; exact H'|].
    rewrite fmap_cons. cbn [app length replicate].
    rewrite (run_Done exec_op (OpEnqueue (Some j)) _ _ _ _ (ret_as_Done _ _ _ _ _ E)).
    f_equal. exact Hrun.
Qed.

Lemma release_enqueue_dequeue mq Q job :
  mq_rel mq Q -> vec_get Q (priority job) = Some [] ->
  exists mq1 mq2 mq3, ReleaseOne (priority job) mq = Done tt mq1 /\
    Enqueue (Some job) mq1 = Done tt mq2 /\
    Dequeue (priority job) mq2 = Done None mq3 /\ stuck mq3 (priority job) 1.
Proof.
  intros H0 Hq. set (p := priority job) in *.
  pose proof (vec_get_Some_lt _ _ _ Hq) as Hlt.
  pose proof (ReleaseOne_spec _ _ _ _ H0 Hq) as E1. simpl in E1.
  set (mq1 := set_not_empty _ _ _) in E1.
  assert (mq_rel mq1 Q) as H1 by by apply set_not_empty_rel, set_release_one_rel.
  pose proof (Enqueue_Done _ _ _ _ H1 Hq) as E2. simpl in E2.
  set (mq2 := set_mapper _ _) in E2.
  pose proof (Enqueue_rel _ _ _ _ _ H1 Hq E2) as H2. simpl in H2.
  pose proof (vec_get_set_eq Q p [(next_node mq, job)] Hlt) as Hq2.
  assert (vec_get (_not_empty_mutexes mq2) p = Some false) as Hb.
  { apply vec_get_set_eq. simpl. by rewrite length_vec_set, (mr_len_ne _ _ H0). }
  assert (vec_get (_release_one mq2) p = Some true) as Hr.
  { apply vec_get_set_eq. by rewrite (mr_len_ro _ _ H0). }
  pose proof (Dequeue_any mq2 _ p _ false true H2 Hq2 Hb Hr) as E3. simpl in E3.
  eexists mq1, mq2, _. split; [exact E1|]. split; [exact E2|]. split; [exact E3|].
  eexists _, _. split; [by apply set_release_one_rel, set_not_empty_rel|].
  split; [exact Hq2|]. split; [done|]. split; [lia|].
  apply vec_get_set_eq. by eapply vec_get_Some_lt.
Qed.

(** A wake-up is lost: if a job is enqueued between ReleaseOne and the
    Dequeue it releases, that Dequeue returns nullptr with the queue's mutex
    locked and the job in the queue.  Enqueueing any number of further jobs
    never unlocks it, so Dequeue blocks while the queue is not empty. *)
Theorem release_one_loses_wakeup (mq : @MultiQueue T) (Q : list (list (N * Job T)))
    (job : Job T) (more : list (Job T)) :
  mq_rel mq Q -> vec_get Q (priority job) = Some [] ->
  Forall (fun j => priority j = priority job) more ->
  run exec_op
    ([OpReleaseOne (priority job); OpEnqueue (Some job); OpDequeue (priority job)] ++
     (OpEnqueue ∘ Some <$> more) ++
     [OpDequeue (priority job); OpSize (priority job)]) mq =
  [Returned RUnit; Returned RUnit; Returned (RJob None)] ++
  replicate (length more) (Returned RUnit) ++
  [Blocked; Returned (RNum (u32 (N.of_nat (1 + length more))))].
Proof.
  intros H0 Hq Hmore.
  destruct (release_enqueue_dequeue _ _ _ H0 Hq) as (mq1 & mq2 & mq3 & E1 & E2 & E3 & Hst).
  destruct (run_stuck_enqueues _ _ _ more [OpDequeue (priority job); OpSize (priority job)]
    Hst Hmore) as (mq4 & H4 & Hrun).
  cbn [app].
  rewrite (run_Done exec_op (OpReleaseOne _) _ _ _ _ (ret_as_Done _ _ _ _ _ E1)).
  rewrite (run_Done exec_op (OpEnqueue _) _ _ _ _ (ret_as_Done _ _ _ _ _ E2)).
  rewrite (run_Done exec_op (OpDequeue _) _ _ _ _ (ret_as_Done RJob _ _ _ _ E3)).
  do 3 f_equal. rewrite Hrun. f_equal.
  rewrite (run_Wait exec_op (OpDequeue _) _ _ _ (ret_as_Wait RJob _ _ _ (stuck_dequeue _ _ _ H4))).
  f_equal. exact (run_Done exec_op (OpSize _) _ _ _ _ (ret_as_Done RNum _ _ _ _ (stuck_size _ _ _ H4))).
Qed.

(** A queue that still holds one job when ReleaseQueues is called is not
    released: the next Dequeue takes the job and leaves the mutex locked, and
    every Dequeue after it blocks. *)
Theorem release_queues_blocks_after_last (mq : @MultiQueue T)
    (Q : list (list (N * Job T))) (p it : N) (job : Job T) (n : nat) :
  mq_rel mq Q -> tokens mq Q -> vec_get Q p = Some [(it, job)] ->
  vec_get (_release_one mq) p = Some false ->
  run exec_op (OpReleaseQueues :: OpDequeue p :: replicate n (OpDequeue p)) mq =
    Returned RUnit :: Returned (RJob (Some job)) :: replicate n Blocked.
Proof.
  intros H Ht Hq Hro.
  destruct (ReleaseQueues_spec _ _ H) as (mq1 & E1 & H1 & _ & Hr & Hro1 & Hne).
  pose proof (vec_get_Some_lt _ _ _ Hq) as Hlt.
  destruct (Dequeue_Done mq1 Q p it job [] H1 Hq) as (vm & E2 & Hvm).
  { rewrite Hne. unfold empty_at. rewrite Hq. by eapply Ht. }
  { by rewrite Hro1. }
  pose proof (after_dequeue_rel _ _ _ _ _ _ H1 Hq Hvm) as H2.
  set (mq2 := after_dequeue p [] vm mq1) in *.
  assert (vec_get (_not_empty_mutexes mq2) p = Some true) as Hb2.
  { apply vec_get_set_eq. simpl. by rewrite (mr_len_ne _ _ H1). }
  assert (Dequeue p mq2 = Wait mq2) as E3.
  { refine (Dequeue_any mq2 _ p [] true false H2 _ Hb2 _).
    - by apply vec_get_set_eq.
    - simpl. by rewrite Hro1. }
  rewrite (run_Done exec_op OpReleaseQueues _ _ _ _ (ret_as_Done _ _ _ _ _ E1)).
  rewrite (run_Done exec_op (OpDequeue _) _ _ _ _ (ret_as_Done RJob _ _ _ _ E2)).
  do 2 f_equal. clear -E3. induction n as [|n IH]; [done|]. cbn [replicate].
  rewrite (run_Wait exec_op (OpDequeue _) _ _ _ (ret_as_Wait RJob _ _ _ E3)). by rewrite IH.
Qed.

End Runs.

(** ** The calls at concrete inputs *)

Definition sample_job (id prio : N) : Job unit := mkJob id prio 0 0 tt.

Definition legacy_ops : list (mq_op unit) :=
  [OpPurge 1; OpEnqueue (Some (sample_job 1 0)); OpEnqueue (Some (sample_job 1 1));
   OpEnqueue (Some (sample_job 2 0)); OpEnqueue (Some (sample_job 2 1));
   OpPurge 1; OpDequeue 0; OpDequeue 1; OpEmpty 0; OpDequeue 0; OpDequeue 5].

Lemma multiqueue_refines_fifos_witness :
  run exec_op legacy_ops (new 1) = run exec_abs legacy_ops [[]; []] /\
  run exec_op legacy_ops (new 1) =
    [Returned (RNum 0); Returned RUnit; Returned RUnit; Returned RUnit; Returned RUnit;
     Returned (RNum 2); Returned (RJob (Some (sample_job 2 0)));
     Returned (RJob (Some (sample_job 2 1))); Returned (RBool true); Blocked;
     Crashed CheckFailure].
Proof.
  split; [|vm_compute; reflexivity].
  apply (multiqueue_refines_fifos 1 legacy_ops); [done|repeat constructor].
Defined.

Definition release_ops : list (mq_op unit) :=
  [OpReleaseOne 1; OpDequeue 1; OpEnqueue (Some (sample_job 7 1)); OpReleaseQueues;
   OpDequeue 1; OpDequeue 0; OpPurge 7].

Lemma multiqueue_never_crashes_witness :
  Crashed EmptyFront ∉ run exec_op release_ops (new 1).
Proof.
  apply (multiqueue_never_crashes 1 release_ops EmptyFront); [done|].
  repeat constructor; simpl; lia.
Defined.

Lemma release_queues_frees_empty_witness :
  run exec_op (OpReleaseQueues :: replicate 3 (OpDequeue 0)) (@new unit 1) =
    Returned RUnit :: replicate 3 (Returned (RJob None)).
Proof.
  apply (release_queues_frees_empty (new 1) (empty_content 1) 0 3);
    [by apply new_rel|done..].
Defined.

Lemma release_one_loses_wakeup_witness :
  run exec_op [OpReleaseOne 1; OpEnqueue (Some (sample_job 1 1)); OpDequeue 1;
               OpEnqueue (Some (sample_job 2 1)); OpDequeue 1; OpSize 1] (new 1) =
    [Returned RUnit; Returned RUnit; Returned (RJob None); Returned RUnit; Blocked;
     Returned (RNum 2)].
Proof.
  apply (release_one_loses_wakeup (new 1) (empty_content 1) (sample_job 1 1)
    [sample_job 2 1]); [by apply new_rel|done|repeat constructor].
Defined.

(** One job enqueued on a new queue. *)
Definition one_job : @MultiQueue unit :=
  match Enqueue (Some (sample_job 3 0)) (new 1) with
  | Done _ mq => mq
  | _ => new 1
  end.

Lemma release_queues_blocks_after_last_witness :
  run exec_op [OpReleaseQueues; OpDequeue 0; OpDequeue 0] one_job =
    [Returned RUnit; Returned (RJob (Some (sample_job 3 0))); Blocked].
Proof.
  pose proof (@new_rel unit 1 ltac:(done)) as H.
  assert (vec_get (@empty_content unit 1) (priority (sample_job 3 0)) = Some []) as Hq by done.
  assert (Enqueue (Some (sample_job 3 0)) (new 1) = Done tt one_job) as E
    by (vm_compute; reflexivity).
  apply (release_queues_blocks_after_last one_job
    (vec_set 0 [(0%N, sample_job 3 0)] (empty_content 1)) 0 0 (sample_job 3 0) 1).
  - exact (Enqueue_rel _ _ _ _ _ H Hq E).
  - exact (Enqueue_tokens _ _ _ _ _ H (new_tokens 1) Hq E).
  - done.
  - done.
Defined.

End MQRuns.
