(* ===== verification/MultiQueueConc.v ===== *)
(** * Concurrent runs of MultiQueue (common/dstage/multiqueue.hh)

    Threads interleave the critical sections of Enqueue, Dequeue, Purge,
    ReleaseQueues and ReleaseOne under the locks the code takes:
    [_purge_shared_mutex] (shared or exclusive), one [_pq_mutexes] entry per
    priority, [_value_map_mutex], and the "not empty" mutexes.  A program
    point stands before the next lock acquisition or the next access to shared
    data; a lock guard is released by the last step of its scope.  Steps are
    sequentially consistent. *)

From stdpp Require Import prelude gmap list.
From S2P Require Import Prelude Synchronization Job BaseMultiQueue MultiQueue.
From S2P Require Import MultiQueueSpec MultiQueueRuns.

Module MQConc.
Import MQ MQSpec MQRuns.

Section Conc.
Context {T : Type}.

(** ** Threads and shared state *)

Inductive pc : Type :=
| Idle
| EShared (job : Job T)
| ELockPq (job : Job T)
| EInsert (job : Job T)
| ESignal (job : Job T) (iter : N)
| ELockVm (job : Job T) (iter : N)
| EMap (job : Job T) (iter : N)
| DWait (p : N)
| DRelease (p : N)
| DShared (p : N)
| DCheck (p : N)
| DNull (p : N)
| DLockPq (p : N)
| DPop (p : N)
| DSignal (p jid : N)
| DLockVm (p jid : N)
| DTake (p jid : N)
| PLock (id : N)
| PBody (id : N)
| RQLock
| RQSet
| RQLoop (p : N) (n : nat)
| ROLock (p : N)
| ROLockPq (p : N)
| ROSet (p : N)
| ROUnlock (p : N)
| Finished (r : result T)
| Faulted (e : fault).

Record shared := mkShared {
  queue : @MultiQueue T;
  readers : nat;
  writer : bool;
  pq_mutexes : list bool;
  vm_mutex : bool
}.

Definition set_data (mq : MultiQueue) (g : shared) : shared :=
  mkShared mq (readers g) (writer g) (pq_mutexes g) (vm_mutex g).

Definition set_readers (n : nat) (g : shared) : shared :=
  mkShared (queue g) n (writer g) (pq_mutexes g) (vm_mutex g).

Definition set_writer (b : bool) (g : shared) : shared :=
  mkShared (queue g) (readers g) b (pq_mutexes g) (vm_mutex g).

Definition set_pq (p : N) (b : bool) (g : shared) : shared :=
  mkShared (queue g) (readers g) (writer g) (vec_set p b (pq_mutexes g)) (vm_mutex g).

Definition set_vm (b : bool) (g : shared) : shared :=
  mkShared (queue g) (readers g) (writer g) (pq_mutexes g) b.

(** A shared_lock of [_purge_shared_mutex]; [None] is blocked. *)
Definition lock_shared (k : pc) (g : shared) : option (pc * shared) :=
  if writer g then None else Some (k, set_readers (S (readers g)) g).

Definition release_shared (g : shared) : shared := set_readers (pred (readers g)) g.

(** A unique_lock of [_purge_shared_mutex]. *)
Definition lock_exclusive (k : pc) (g : shared) : option (pc * shared) :=
  if writer g || (0 <? readers g)%nat then None else Some (k, set_writer true g).

Definition lock_pq (p : N) (k : pc) (g : shared) : option (pc * shared) :=
  match vec_get (pq_mutexes g) p with
  | None => Some (Faulted OutOfRange, g)
  | Some true => None
  | Some false => Some (k, set_pq p true g)
  end.

(** Takes [_value_map_mutex] and leaves the scope of the guard of
    [_pq_mutexes[p]]. *)
Definition lock_vm_release_pq (p : N) (k : pc) (g : shared) : option (pc * shared) :=
  if vm_mutex g then None else Some (k, set_pq p false (set_vm true g)).

(** An access to the queue's data. *)
Definition act {A} (m : M MultiQueue A) (k : A -> pc * (shared -> shared))
    (g : shared) : option (pc * shared) :=
  match m (queue g) with
  | Done a mq => Some ((k a).1, (k a).2 (set_data mq g))
  | Wait _ => None
  | Crash e => Some (Faulted e, g)
  end.

(** The next step of a thread at [k]; [None] when it is blocked or has no step. *)
Definition tstep (k : pc) (g : shared) : option (pc * shared) :=
  match k with
  | Idle | Finished _ | Faulted _ => None
  (* Enqueue *)
  | EShared job => lock_shared (ELockPq job) g
  | ELockPq job =>
      if (priority job <=? _max_prio (queue g))%N
      then lock_pq (priority job) (EInsert job) g
      else Some (Faulted CheckFailure, g)
  | EInsert job =>
      act (insert_job (priority job) (job_id job)) (fun it => (ESignal job it, id)) g
  | ESignal job it =>
      act (signal_insert (priority job)) (fun _ => (ELockVm job it, id)) g
  | ELockVm job it => lock_vm_release_pq (priority job) (EMap job it) g
  | EMap job it =>
      act (map_job job it)
        (fun _ => (Finished RUnit, fun g => set_vm false (release_shared g))) g
  (* Dequeue *)
  | DWait p =>
      if (p <=? _max_prio (queue g))%N
      then act (lock_not_empty p) (fun _ => (DRelease p, id)) g
      else Some (Faulted CheckFailure, g)
  | DRelease p =>
      act (take_release p)
        (fun r : bool => (if r then Finished (RJob None) else DShared p, id)) g
  | DShared p => lock_shared (DCheck p) g
  | DCheck p =>
      act (peek_queue p)
        (fun r => match r with
                  | ReturnNull => (DNull p, id)
                  | Retry => (DWait p, release_shared)
                  | Break => (DLockPq p, id)
                  end) g
  | DNull p =>
      act (unlock_not_empty p) (fun _ => (Finished (RJob None), release_shared)) g
  | DLockPq p => lock_pq p (DPop p) g
  | DPop p => act (pop_job p) (fun jid => (DSignal p jid, id)) g
  | DSignal p jid => act (signal_pop p) (fun _ => (DLockVm p jid, id)) g
  | DLockVm p jid => lock_vm_release_pq p (DTake p jid) g
  | DTake p jid =>
      act (take_job p jid)
        (fun job => (Finished (RJob (Some job)),
                     fun g => set_vm false (release_shared g))) g
  (* Purge *)
  | PLock id => lock_exclusive (PBody id) g
  | PBody i => act (Purge i) (fun n => (Finished (RNum n), set_writer false)) g
  (* ReleaseQueues *)
  | RQLock => lock_exclusive RQSet g
  | RQSet =>
      act (modify (set_released true))
        (fun _ => (RQLoop 0 (N.to_nat (_max_prio (queue g) + 1)), id)) g
  | RQLoop p O => Some (Finished RUnit, set_writer false g)
  | RQLoop p (S n) => act (release_queue p) (fun _ => (RQLoop (p + 1) n, id)) g
  (* ReleaseOne *)
  | ROLock p => lock_exclusive (ROLockPq p) g
  | ROLockPq p => lock_pq p (ROSet p) g
  | ROSet p =>
      act (set_release p)
        (fun r : bool => if r then (ROUnlock p, id)
                  else (Finished RUnit, fun g => set_pq p false (set_writer false g))) g
  | ROUnlock p =>
      act (unlock_not_empty p)
        (fun _ => (Finished RUnit, fun g => set_pq p false (set_writer false g))) g
  end.

(** The first program point of a call. *)
Definition entry (o : mq_op T) : option pc :=
  match o with
  | OpEnqueue (Some job) => Some (EShared job)
  | OpEnqueue None => Some (Faulted CheckFailure)
  | OpDequeue p => Some (DWait p)
  | OpPurge id => Some (PLock id)
  | OpReleaseQueues => Some RQLock
  | OpReleaseOne p => Some (ROLock p)
  | OpSize _ | OpEmpty _ => None
  end.

Definition conf : Type := shared * list pc.

Definition is_faulted (k : pc) : bool :=
  match k with Faulted _ => true | _ => false end.

(** One move of the system: a thread that is not in a call starts one, or a
    thread takes its next step.  After a fault nothing moves. *)
Inductive action : Type :=
| Start (t : nat) (o : mq_op T)
| Step (t : nat).

Definition may_start (k : pc) : bool :=
  match k with Idle | Finished _ => true | _ => false end.

Definition cstep (a : action) (c : conf) : option conf :=
  let '(g, pool) := c in
  if (0 <? count is_faulted pool)%nat then None else
  match a with
  | Start t o =>
      k ← pool !! t;
      if may_start k then k' ← entry o; Some (g, <[t := k']> pool) else None
  | Step t =>
      k ← pool !! t;
      r ← tstep k g;
      Some (r.2, <[t := r.1]> pool)
  end.

Fixpoint crun (l : list action) (c : conf) : option conf :=
  match l with
  | [] => Some c
  | a :: l' => c' ← cstep a c; crun l' c'
  end.

Definition init (max_priority : N) (threads : nat) : conf :=
  (mkShared (new max_priority) 0 false
     (replicate (N.to_nat (u32_add max_priority 1)) false) false,
   replicate threads Idle).

(** ** Which locks a program point holds *)

Definition holds_shared (k : pc) : bool :=
  match k with
  | ELockPq _ | EInsert _ | ESignal _ _ | ELockVm _ _ | EMap _ _
  | DCheck _ | DNull _ | DLockPq _ | DPop _ | DSignal _ _ | DLockVm _ _
  | DTake _ _ => true
  | _ => false
  end.

Definition holds_exclusive (k : pc) : bool :=
  match k with
  | PBody _ | RQSet | RQLoop _ _ | ROLockPq _ | ROSet _ | ROUnlock _ => true
  | _ => false
  end.

Definition holds_pq (p : N) (k : pc) : bool :=
  match k with
  | EInsert job | ESignal job _ | ELockVm job _ => (priority job =? p)%N
  | DPop p' | DSignal p' _ | DLockVm p' _ | ROSet p' | ROUnlock p' => (p' =? p)%N
  | _ => false
  end.

Definition holds_vm (k : pc) : bool :=
  match k with
  | EMap _ _ | DTake _ _ => true
  | _ => false
  end.

(** The priorities a program point works on are below [n]. *)
Definition pc_range (n : N) (k : pc) : Prop :=
  match k with
  | EShared job | ELockPq job | EInsert job | ESignal job _ | ELockVm job _
  | EMap job _ => (priority job < n)%N
  | DWait p | DRelease p | DShared p | DCheck p | DNull p | DLockPq p | DPop p
  | DSignal p _ | DLockVm p _ | DTake p _
  | ROLock p | ROLockPq p | ROSet p | ROUnlock p => (p < n)%N
  | RQLoop p m => (p + N.of_nat m <= n)%N
  | _ => True
  end.

End Conc.
Arguments pc T : clear implicits.
Arguments shared T : clear implicits.
Arguments conf T : clear implicits.
Arguments action T : clear implicits.

(** ** Two executions that go wrong *)

Definition pool_job (id prio : N) : Job unit := mkJob id prio 0 0 tt.

Definition faults (c : option (conf unit)) : list fault :=
  match c with
  | Some (_, pool) => omap (fun k => match k with Faulted e => Some e | _ => None end) pool
  | None => []
  end.

(** Thread 0 enqueues one job; threads 1 and 2 dequeue, as the two workers of
    an Executor do.  Thread 1 passes the mutex the constructor left unlocked,
    the enqueue unlocks it again, thread 2 passes it too, and both find the
    queue non-empty. *)
Definition startup_race : list (action unit) :=
  [Start 1 (OpDequeue 0); Step 1; Step 1;
   Start 0 (OpEnqueue (Some (pool_job 1 0)));
   Step 0; Step 0; Step 0; Step 0; Step 0; Step 0;
   Start 2 (OpDequeue 0); Step 2; Step 2;
   Step 1; Step 1; Step 2; Step 2;
   Step 1; Step 1; Step 1; Step 1; Step 1;
   Step 2; Step 2].

(** The off-by-one in the constructor is observable: with two dequeuing
    threads on the lowest priority (an Executor has one priority and several
    workers) a single Enqueue can let both through, and the second one reads
    the front of an empty list. *)
Theorem executor_startup_race :
  exists l : list (action unit),
    faults (crun l (init 0 3)) = [EmptyFront] /\
    count (fun a => match a with Start _ (OpEnqueue _) => true | _ => false end) l = 1 /\
    Forall (fun a => match a with
                     | Start _ (OpPurge _) | Start _ OpReleaseQueues
                     | Start _ (OpReleaseOne _) => False
                     | _ => True
                     end) l.
Proof.
  exists startup_race. split; [vm_compute; reflexivity|].
  split; [reflexivity|repeat constructor].
Qed.

(** On any other priority the race needs a Purge (or a release) between a
    dequeuer's two locks: the purge empties the queue, the next enqueue signals
    again although the first dequeuer still holds the signal. *)
Definition purge_race : list (action unit) :=
  [Start 0 (OpEnqueue (Some (pool_job 1 0)));
   Step 0; Step 0; Step 0; Step 0; Step 0; Step 0;
   Start 1 (OpDequeue 0); Step 1; Step 1;
   Start 0 (OpPurge 1); Step 0; Step 0;
   Start 0 (OpEnqueue (Some (pool_job 2 0)));
   Step 0; Step 0; Step 0; Step 0; Step 0; Step 0;
   Start 2 (OpDequeue 0); Step 2; Step 2;
   Step 1; Step 1; Step 2; Step 2;
   Step 1; Step 1; Step 1; Step 1; Step 1;
   Step 2; Step 2].

(** Two dequeuers on one priority are not safe against Purge, on any
    priority. *)
Theorem purge_two_dequeuers_race :
  exists l : list (action unit), faults (crun l (init 1 3)) = [EmptyFront].
Proof. exists purge_race. vm_compute. reflexivity. Qed.

(** Two workers wait, one task is submitted, and the queues are released before
    a worker reacts: ReleaseQueues leaves the mutex of the non-empty queue
    alone, and the worker that takes the last job does not unlock it. *)
Definition shutdown_run : list (action unit) :=
  [Start 1 (OpDequeue 0); Step 1; Step 1; Step 1; Step 1;
   Start 2 (OpDequeue 0);
   Start 0 (OpEnqueue (Some (pool_job 1 0)));
   Step 0; Step 0; Step 0; Step 0; Step 0; Step 0;
   Start 0 OpReleaseQueues; Step 0; Step 0; Step 0; Step 0;
   Step 1; Step 1; Step 1; Step 1; Step 1; Step 1; Step 1; Step 1; Step 1].

(** Shutting down an Executor with a queued task can hang: after
    ReleaseQueues has returned and one worker has taken the task, the other
    worker stays blocked in Dequeue and nothing is left that could wake it, so
    the destructor's join does not return. *)
Theorem executor_shutdown_hangs :
  exists (l : list (action unit)) c, crun l (init 0 3) = Some c /\
    _released (queue c.1) = true /\
    c.2 = [Finished RUnit; Finished (RJob (Some (pool_job 1 0))); DWait 0] /\
    forall k, k ∈ c.2 -> tstep k c.1 = None.
Proof.
  exists shutdown_run. eexists. split; [vm_compute; reflexivity|].
  split; [reflexivity|]. split; [reflexivity|].
  intros k [-> | [-> | [-> | []%elem_of_nil]%elem_of_cons]%elem_of_cons]%elem_of_cons;
    reflexivity.
Qed.

End MQConc.
