(* ===== verification/MultiQueueSolo.v ===== *)
(** * A call that runs alone

    The program points of MultiQueueConc.v and the functions of MultiQueue.v are
    two translations of multiqueue.hh.  A thread that nobody disturbs goes
    through its program points to exactly what the function computes. *)

From stdpp Require Import prelude gmap list.
From S2P Require Import Prelude Synchronization Job BaseMultiQueue MultiQueue.
From S2P Require Import MultiQueueSpec MultiQueueRuns MultiQueueConc.

Module MQSolo.
Import MQ MQSpec MQRuns MQConc.

Section Solo.
Context {T : Type}.
Implicit Types (mq : @MultiQueue T).

(** Runs the thread at [k] until it returns, faults or blocks; [None] when the
    fuel ends before that.  [Wait] is the answer only of a thread that has no
    step: one that a locked mutex holds back. *)
Fixpoint solo (fuel : nat) (k : pc T) (g : shared T)
  : option (outcome (shared T) (result T)) :=
  match k with
  | Finished r => Some (Done r g)
  | Faulted e => Some (Crash e)
  | _ =>
      match fuel with
      | O => None
      | S fuel' =>
          match tstep k g with
          | None => Some (Wait g)
          | Some (k', g') => solo fuel' k' g'
          end
      end
  end.

(** No lock is held; [n] priorities. *)
Definition calm (n : nat) mq : shared T := mkShared mq 0 false (replicate n false) false.

Definition lift (n : nat) (o : outcome MultiQueue (result T)) : outcome (shared T) (result T) :=
  match o with
  | Done r mq => Done r (calm n mq)
  | Wait mq => Wait (calm n mq)
  | Crash e => Crash e
  end.

Lemma solo_finished fuel r g : solo fuel (Finished r) g = Some (Done r g).
Proof. by destruct fuel. Qed.

Lemma solo_faulted fuel e g : solo fuel (Faulted e) g = Some (Crash e).
Proof. by destruct fuel. Qed.

Lemma solo_step fuel k g k' g' :
  tstep k g = Some (k', g') -> solo (S fuel) k g = solo fuel k' g'.
Proof. intros H. destruct k; try discriminate H; cbn [solo]; by rewrite H. Qed.

Lemma solo_blocked fuel k g :
  tstep k g = None -> is_faulted k = false -> may_start k = false ->
  solo (S fuel) k g = Some (Wait g).
Proof.
  intros H Hf Hs. destruct k; try discriminate Hf; try discriminate Hs; cbn [solo];
    by rewrite ?H.
Qed.

Lemma solo_act {A} fuel k g mq0 (m : M MultiQueue A) c :
  queue g = mq0 -> tstep k g = act m c g -> is_faulted k = false -> may_start k = false ->
  solo (S fuel) k g =
    match m mq0 with
    | Done a mq => solo fuel (c a).1 ((c a).2 (set_data mq g))
    | Wait _ => Some (Wait g)
    | Crash e => Some (Crash e)
    end.
Proof.
  intros <- H Hf Hs. unfold act in H. destruct (m (queue g)) as [a mq|mq|e].
  - by apply solo_step.
  - by apply solo_blocked.
  - rewrite (solo_step _ _ _ _ _ H). apply solo_faulted.
Qed.

(** The critical sections do not block. *)
Definition never_waits {A} (m : M (@MultiQueue T) A) : Prop := forall mq mq', m mq <> Wait mq'.

Ltac no_wait := intros ? ?; unM; repeat (case_match; simpl); done.

Lemma insert_job_nw p jid : never_waits (insert_job p jid).
Proof. unfold insert_job. no_wait. Qed.
Lemma signal_insert_nw p : never_waits (signal_insert p).
Proof. unfold signal_insert. no_wait. Qed.
Lemma take_release_nw p : never_waits (take_release p).
Proof. unfold take_release. no_wait. Qed.
Lemma peek_queue_nw p : never_waits (peek_queue p).
Proof. unfold peek_queue. no_wait. Qed.
Lemma pop_job_nw p : never_waits (pop_job p).
Proof. unfold pop_job. no_wait. Qed.
Lemma signal_pop_nw p : never_waits (signal_pop p).
Proof. unfold signal_pop, unlock_not_empty. no_wait. Qed.
Lemma take_job_nw p jid : never_waits (take_job p jid).
Proof. unfold take_job. no_wait. Qed.
Lemma set_release_nw p : never_waits (set_release p).
Proof. unfold set_release. no_wait. Qed.
Lemma release_queue_nw p : never_waits (release_queue p).
Proof. unfold release_queue, unlock_not_empty. no_wait. Qed.

Lemma Purge_nw id : never_waits (Purge id).
Proof.
  intros mq mq'. unfold Purge. destruct (_ !! id) as [l|]; [|done].
  assert (forall l qs m qs', purge_loop (T := T) l qs m <> Wait qs') as Hl.
  { clear. induction l as [|[j it] l IH]; intros qs m qs'; simpl; [done|].
    destruct (vec_get qs _); [|done]. destruct (erase_node _ _); [|done]. apply IH. }
  specialize (Hl l (_priority_qs mq) 0%N). destruct (purge_loop _ _ _); try done. by destruct (Hl s).
Qed.

Lemma lock_not_empty_wait p mq mq' : lock_not_empty p mq = Wait mq' -> mq' = mq.
Proof. unfold lock_not_empty. repeat case_match; congruence. Qed.

Lemma pq_back n p : vec_set p false (vec_set p true (replicate n false)) = replicate n false.
Proof.
  unfold vec_set. rewrite list_insert_insert_eq. apply list_eq. intros i.
  destruct (decide (N.to_nat p = i)) as [<-|Hne].
  - destruct (decide (N.to_nat p < n)).
    + rewrite list_lookup_insert_eq by (by rewrite length_replicate). by rewrite lookup_replicate_2.
    + rewrite list_insert_ge by (rewrite length_replicate; lia). done.
  - by rewrite list_lookup_insert_ne.
Qed.

Lemma pq_free n p : (p < N.of_nat n)%N -> vec_get (replicate n false) p = Some false.
Proof. intros H. unfold vec_get. apply lookup_replicate_2. lia. Qed.

(** ** Each call *)

Context (mq : @MultiQueue T) (Q : list (list (N * Job T))).
Context (Hmq : mq_rel mq Q).

Let n : nat := length Q.

Lemma in_range p : (p <=? _max_prio mq)%N = true -> (p < N.of_nat n)%N.
Proof using Hmq. intros H%N.leb_le. pose proof (mr_len _ _ Hmq). unfold n. lia. Qed.

Arguments solo : simpl never.

(** The access [m] on [mq0], on both sides. *)
Ltac both m mq0 nw :=
  erewrite (solo_act _ _ _ mq0 m) by reflexivity;
  let E := fresh "E" in
  destruct (m mq0) eqn:E; [|exfalso; by eapply nw|done]; cbn [fst snd id].

(** The locks are free again. *)
Ltac settle :=
  unfold calm, set_vm, release_shared, set_data, set_pq, set_readers, set_writer; simpl;
  by rewrite ?pq_back.

Lemma solo_enqueue job :
  solo 8 (EShared job) (calm n mq) = Some (lift n (exec_op (OpEnqueue (Some job)) mq)).
Proof using Hmq.
  unfold exec_op, ret_as, Enqueue. unM. erewrite solo_step by reflexivity.
  destruct (priority job <=? _max_prio mq)%N eqn:Ep; last first.
  { erewrite solo_step by (simpl; by rewrite Ep). by rewrite solo_faulted. }
  erewrite solo_step; last first.
  { simpl. rewrite Ep. unfold lock_pq. simpl. rewrite pq_free by (by apply in_range). reflexivity. }
  both (@insert_job T (priority job) (job_id job)) mq insert_job_nw.
  both (@signal_insert T (priority job)) s signal_insert_nw.
  erewrite solo_step by reflexivity. erewrite (solo_act _ _ _ s0) by reflexivity. simpl.
  rewrite solo_finished. settle.
Qed.

Lemma solo_purge id : solo 3 (PLock id) (calm n mq) = Some (lift n (exec_op (OpPurge id) mq)).
Proof.
  unfold exec_op, ret_as. unM. erewrite solo_step by reflexivity. both (@Purge T id) mq Purge_nw.
  by rewrite solo_finished.
Qed.

Lemma solo_release_one p :
  solo 5 (ROLock p) (calm n mq) = Some (lift n (exec_op (OpReleaseOne p) mq)).
Proof using Hmq.
  unfold exec_op, ret_as, ReleaseOne. unM. erewrite solo_step by reflexivity.
  destruct (decide (p < N.of_nat n)%N) as [Hp|Hp].
  - erewrite solo_step; last first.
    { simpl. unfold lock_pq. simpl. rewrite pq_free by done. reflexivity. }
    both (@set_release T p) mq set_release_nw. destruct a; simpl.
    + erewrite (solo_act _ _ _ s) by reflexivity. simpl. rewrite solo_finished. settle.
    + rewrite solo_finished. settle.
  - assert (forall A (l : list A), length l = n -> vec_get l p = None) as Hno.
    { intros A l Hl. apply lookup_ge_None_2. lia. }
    erewrite solo_step; last first.
    { simpl. unfold lock_pq. simpl. rewrite Hno by apply length_replicate. reflexivity. }
    rewrite solo_faulted. unfold set_release. unM. rewrite (Hno _ (_priority_qs mq)); [done|].
    rewrite (mr_qs _ _ Hmq). apply length_fmap.
Qed.

Lemma solo_release_loop left p mq' :
  solo (S left) (RQLoop p left) (mkShared mq' 0 true (replicate n false) false) =
    Some (lift n (ret_as (fun _ => RUnit) (release_loop p left) mq')).
Proof.
  unfold ret_as. revert p mq'. induction left as [|left IH]; intros p mq'.
  - erewrite solo_step by reflexivity. by rewrite solo_finished.
  - erewrite (solo_act _ _ _ mq') by reflexivity. unM. cbn [release_loop]. unM. simpl.
    destruct (release_queue p mq') as [[] mq1|mq1|e] eqn:E; simpl; [|by apply release_queue_nw in E|done].
    exact (IH (p + 1)%N mq1).
Qed.

Lemma solo_release_queues :
  solo (3 + n) RQLock (calm n mq) = Some (lift n (exec_op OpReleaseQueues mq)).
Proof using Hmq.
  change (3 + n) with (S (S (S n))). erewrite solo_step by reflexivity.
  erewrite (solo_act _ _ _ mq) by reflexivity. simpl. unfold ret_as, ReleaseQueues. unM. simpl.
  assert (N.to_nat (_max_prio mq + 1) = n) as -> by (pose proof (mr_len _ _ Hmq); unfold n; lia).
  exact (solo_release_loop n 0 (set_released true mq)).
Qed.

(** The end of Dequeue once the queue has been found not empty. *)
Definition pop_front (p : N) : M (@MultiQueue T) (option (Job T)) :=
  jid ← pop_job p;
  _ ← signal_pop p;
  job ← take_job p jid;
  mret (Some job).

Lemma solo_pop fuel p mq' : (p < N.of_nat n)%N ->
  solo (6 + fuel) (DLockPq p) (mkShared mq' 1 false (replicate n false) false) =
    Some (lift n (ret_as RJob (pop_front p) mq')).
Proof.
  intros Hp. unfold ret_as, pop_front. unM. cbn [Nat.add]. erewrite solo_step; last first.
  { simpl. unfold lock_pq. simpl. rewrite pq_free by done. reflexivity. }
  both (@pop_job T p) mq' pop_job_nw. both (@signal_pop T p) s signal_pop_nw.
  erewrite solo_step by reflexivity. both (@take_job T p a) s0 take_job_nw.
  rewrite solo_finished. settle.
Qed.

(** One pass of Dequeue's loop. *)
Lemma solo_pass fuel p mq' : (p <=? _max_prio mq')%N = true ->
  solo (5 + fuel) (DWait p) (calm n mq') =
    match dequeue_pass p mq' with
    | Done Break mq1 =>
        solo (1 + fuel) (DLockPq p) (mkShared mq1 1 false (replicate n false) false)
    | Done Retry mq1 => solo (1 + fuel) (DWait p) (calm n mq1)
    | Done ReturnNull mq1 => Some (Done (RJob None) (calm n mq1))
    | Wait mq1 => Some (Wait (calm n mq1))
    | Crash e => Some (Crash e)
    end.
Proof.
  intros Hp. unfold dequeue_pass, check_queue. unM. cbn [Nat.add].
  erewrite (solo_act _ _ _ mq' (lock_not_empty p) (fun _ => (DRelease p, id)));
    [|done|simpl; by rewrite Hp|done..].
  destruct (lock_not_empty p mq') as [[] s|s|e] eqn:E0;
    [|by rewrite (lock_not_empty_wait _ _ _ E0)|done]. cbn [fst snd id].
  both (@take_release T p) s take_release_nw. destruct a; cbn [fst snd id]; [by rewrite solo_finished|].
  erewrite solo_step by reflexivity. both (@peek_queue T p) s0 peek_queue_nw.
  destruct a; cbn [fst snd id]; [|done..].
  erewrite (solo_act _ _ _ s1) by reflexivity. simpl. by rewrite solo_finished.
Qed.

(** A pass that goes round again has locked the mutex it will wait for. *)
Lemma retry_blocks p mq1 : dequeue_pass p mq = Done Retry mq1 ->
  dequeue_pass p mq1 = Wait mq1 /\ _max_prio mq1 = _max_prio mq.
Proof.
  unfold dequeue_pass, lock_not_empty, take_release, check_queue, peek_queue, unlock_not_empty.
  unM. destruct (vec_get (_not_empty_mutexes mq) p) as [[]|] eqn:E; [done| |done].
  simpl. destruct (vec_get (_release_one mq) p) as [[]|] eqn:Er; [done| |done].
  simpl. destruct (vec_get (_priority_qs mq) p) as [[|]|] eqn:Eq; [|done..].
  simpl. destruct (_released mq); [done|]. simpl. intros [= <-].
  simpl. by rewrite vec_get_set_eq by (by eapply vec_get_Some_lt).
Qed.

Lemma solo_dequeue p :
  solo 14 (DWait p) (calm n mq) = Some (lift n (exec_op (OpDequeue p) mq)).
Proof using Hmq.
  unfold exec_op, ret_as, Dequeue. unM.
  destruct (p <=? _max_prio mq)%N eqn:Ep; last first.
  { erewrite solo_step by (simpl; by rewrite Ep). by rewrite solo_faulted. }
  pose proof (in_range p Ep) as Hp. change 14 with (5 + 9). rewrite solo_pass by done.
  cbn [dequeue_loop]. unM. destruct (dequeue_pass p mq) as [[| |] mq1|mq1|e] eqn:E; try done.
  - destruct (retry_blocks p mq1 E) as [E1 Hm]. rewrite E1. change (1 + 9) with (5 + 5).
    rewrite solo_pass by (by rewrite Hm). by rewrite E1.
  - change (1 + 9) with (6 + 4). rewrite solo_pop by done. unfold ret_as, pop_front. unM.
    by repeat case_match.
Qed.

End Solo.

(** C3. The concurrent model runs alone as the sequential one: from any state in
    which no lock is held, a thread that nobody disturbs takes a call from its
    first program point to exactly the result and the queue that the function of
    the same name computes; it stands before a locked mutex, or aborts, exactly
    when the function does, and holds no lock afterwards.  A run that is cut
    short for want of fuel counts as none of the three. *)
Theorem solo_is_sequential {T} (mq : @MultiQueue T) Q o k :
  mq_rel mq Q -> entry o = Some k ->
  exists fuel, solo fuel k (calm (length Q) mq) = Some (lift (length Q) (exec_op o mq)).
Proof.
  intros Hmq He. destruct o as [[job|]|p|id|p|p| |p]; simpl in He; simplify_eq.
  - exists 8. by apply solo_enqueue.
  - exists 0. done.
  - exists 14. by apply solo_dequeue.
  - exists 3. by apply solo_purge.
  - exists (3 + length Q). by apply solo_release_queues.
  - exists 5. by apply solo_release_one.
Qed.

Lemma solo_is_sequential_witness : exists fuel,
  solo (T := unit) fuel (DWait 0) (calm 2 (new 1)) = Some (lift 2 (exec_op (OpDequeue 0) (new 1))).
Proof.
  apply (solo_is_sequential (new 1) [[]; []] (OpDequeue 0)); [|reflexivity].
  by apply (new_rel 1).
Defined.

End MQSolo.
