(* ===== verification/MultiQueueLocks.v ===== *)
(** * Invariants of the concurrent MultiQueue

    Lock accounting, the relation between the queues and the value map while
    operations are in flight, and the absence of faults. *)

From stdpp Require Import prelude gmap list.
From S2P Require Import Prelude Synchronization Job BaseMultiQueue MultiQueue.
From S2P Require Import MultiQueueSpec MultiQueueRuns MultiQueueConc.

Module MQLocks.
Import MQ MQSpec MQRuns MQConc.

Section Locks.
Context {T : Type}.
Implicit Types (g : shared T) (pool : list (pc T)) (k : pc T).
Implicit Types (Q L : list (list (N * Job T))).

(** ** Lock accounting *)

Record locks_ok g pool : Prop := mk_locks_ok {
  lo_shared : count holds_shared pool = readers g;
  lo_excl : count holds_exclusive pool = b2n (writer g);
  lo_rw : writer g = true -> readers g = 0;
  lo_pq : forall p b, vec_get (pq_mutexes g) p = Some b ->
    count (holds_pq p) pool = b2n b;
  lo_vm : count holds_vm pool = b2n (vm_mutex g);
  lo_len : N.of_nat (length (pq_mutexes g)) = (_max_prio (queue g) + 1)%N;
  lo_range : forall t k, pool !! t = Some k ->
    pc_range (N.of_nat (length (pq_mutexes g))) k
}.

(** A step of thread [t] from [k] to [k'] that moves every lock by what the
    two program points hold. *)
Lemma locks_update g pool t k k' g' :
  pool !! t = Some k -> locks_ok g pool ->
  _max_prio (queue g') = _max_prio (queue g) ->
  length (pq_mutexes g') = length (pq_mutexes g) ->
  readers g' + b2n (holds_shared k) = readers g + b2n (holds_shared k') ->
  b2n (writer g') + b2n (holds_exclusive k) = b2n (writer g) + b2n (holds_exclusive k') ->
  (writer g' = true -> readers g' = 0) ->
  (forall p b b', vec_get (pq_mutexes g) p = Some b ->
     vec_get (pq_mutexes g') p = Some b' ->
     b2n b' + b2n (holds_pq p k) = b2n b + b2n (holds_pq p k')) ->
  b2n (vm_mutex g') + b2n (holds_vm k) = b2n (vm_mutex g) + b2n (holds_vm k') ->
  pc_range (N.of_nat (length (pq_mutexes g))) k' ->
  locks_ok g' (<[t := k']> pool).
Proof.
  intros Ht [H1 H2 H3 H4 H5 H6 H7] Hm Hl Hr Hw Hrw Hp Hv Hk. split.
  - pose proof (count_step holds_shared pool t k k' Ht). lia.
  - pose proof (count_step holds_exclusive pool t k k' Ht). lia.
  - done.
  - intros p b' Hb'. pose proof (count_step (holds_pq p) pool t k k' Ht).
    destruct (vec_get_lt (pq_mutexes g) p) as [b Hb];
      [rewrite <-Hl; by eapply vec_get_Some_lt|].
    specialize (H4 p b Hb). specialize (Hp p b b' Hb Hb'). lia.
  - pose proof (count_step holds_vm pool t k k' Ht). lia.
  - by rewrite Hl, Hm.
  - intros t' k0. rewrite Hl. destruct (decide (t = t')) as [<-|Hne].
    + rewrite list_lookup_insert_eq by (by eapply lookup_lt_Some). by intros [= <-].
    + rewrite list_lookup_insert_ne by done. apply H7.
Qed.

(** The data accesses leave [_max_prio] alone. *)
Definition keeps_max {A} (m : M (@MultiQueue T) A) : Prop :=
  forall mq a mq', m mq = Done a mq' -> _max_prio mq' = _max_prio mq.

Ltac keeps_max_tac :=
  intros mq a mq'; unM;
  repeat (case_match; simplify_eq/=; try done); intros; by simplify_eq.

Lemma keeps_max_insert p i : keeps_max (insert_job p i).
Proof. unfold insert_job. keeps_max_tac. Qed.

Lemma keeps_max_signal_insert p : keeps_max (signal_insert p).
Proof. unfold signal_insert. keeps_max_tac. Qed.

Lemma keeps_max_map j i : keeps_max (map_job j i).
Proof. unfold map_job. keeps_max_tac. Qed.

Lemma keeps_max_lock p : keeps_max (lock_not_empty p).
Proof. unfold lock_not_empty. keeps_max_tac. Qed.

Lemma keeps_max_release p : keeps_max (take_release p).
Proof. unfold take_release. keeps_max_tac. Qed.

Lemma keeps_max_peek p : keeps_max (peek_queue p).
Proof. unfold peek_queue. keeps_max_tac. Qed.

Lemma keeps_max_unlock p : keeps_max (unlock_not_empty p).
Proof. unfold unlock_not_empty. keeps_max_tac. Qed.

Lemma keeps_max_pop p : keeps_max (pop_job p).
Proof. unfold pop_job. keeps_max_tac. Qed.

Lemma keeps_max_signal_pop p : keeps_max (signal_pop p).
Proof. unfold signal_pop, unlock_not_empty. keeps_max_tac. Qed.

Lemma keeps_max_take p i : keeps_max (take_job p i).
Proof. unfold take_job. keeps_max_tac. Qed.

Lemma keeps_max_purge i : keeps_max (Purge i).
Proof. unfold Purge. keeps_max_tac. Qed.

Lemma keeps_max_set_released b : keeps_max (modify (set_released b)).
Proof. keeps_max_tac. Qed.

Lemma keeps_max_release_queue p : keeps_max (release_queue p).
Proof. unfold release_queue, unlock_not_empty. keeps_max_tac. Qed.

Lemma keeps_max_set_release p : keeps_max (set_release p).
Proof. unfold set_release. keeps_max_tac. Qed.

Create HintDb keeps_max.
Hint Resolve keeps_max_insert keeps_max_signal_insert keeps_max_map keeps_max_lock
  keeps_max_release keeps_max_peek keeps_max_unlock keeps_max_pop keeps_max_signal_pop
  keeps_max_take keeps_max_purge keeps_max_set_released keeps_max_release_queue
  keeps_max_set_release : keeps_max.

Lemma act_inv {A} (m : M MultiQueue A) K g k' g' :
  act m K g = Some (k', g') -> is_faulted k' = false ->
  exists a mq, m (queue g) = Done a mq /\ k' = (K a).1 /\ g' = (K a).2 (set_data mq g).
Proof. unfold act. destruct (m (queue g)) eqn:E; [naive_solver..|]. by intros [= <- <-]. Qed.

Lemma lock_shared_inv k g k' g' :
  lock_shared k g = Some (k', g') ->
  writer g = false /\ k' = k /\ g' = set_readers (S (readers g)) g.
Proof. unfold lock_shared. destruct (writer g); naive_solver. Qed.

Lemma lock_exclusive_inv k g k' g' :
  lock_exclusive k g = Some (k', g') ->
  writer g = false /\ readers g = 0 /\ k' = k /\ g' = set_writer true g.
Proof.
  unfold lock_exclusive. destruct (writer g), (Nat.ltb_spec 0 (readers g)); simpl;
    intros; simplify_eq; repeat split; lia.
Qed.

Lemma lock_pq_inv p k g k' g' :
  lock_pq p k g = Some (k', g') -> is_faulted k' = false ->
  vec_get (pq_mutexes g) p = Some false /\ k' = k /\ g' = set_pq p true g.
Proof.
  unfold lock_pq. destruct (vec_get (pq_mutexes g) p) as [[]|];
    intros; simplify_eq; done.
Qed.

Lemma lock_vm_inv p k g k' g' :
  lock_vm_release_pq p k g = Some (k', g') ->
  vm_mutex g = false /\ k' = k /\ g' = set_pq p false (set_vm true g).
Proof. unfold lock_vm_release_pq. destruct (vm_mutex g); naive_solver. Qed.

Lemma range_check_inv (b : bool) (x : option (pc T * shared T)) e y k' g' :
  (if b then x else Some (Faulted e, y)) = Some (k', g') -> is_faulted k' = false ->
  b = true /\ x = Some (k', g').
Proof. destruct b; [done|]. by intros [= <- <-]. Qed.

(** Taking apart one step of one thread. *)
Ltac step_inv :=
  repeat match goal with
  | H : (if (_ <=? _)%N then _ else _) = Some _ |- _ =>
      apply range_check_inv in H as [? H]; [|assumption]
  | H : act _ _ _ = Some _ |- _ =>
      apply act_inv in H as (? & ? & ? & -> & ->); [|assumption]
  | H : lock_shared _ _ = Some _ |- _ => apply lock_shared_inv in H as (? & -> & ->)
  | H : lock_exclusive _ _ = Some _ |- _ =>
      apply lock_exclusive_inv in H as (? & ? & -> & ->)
  | H : lock_pq _ _ _ = Some _ |- _ =>
      apply lock_pq_inv in H as (? & -> & ->); [|assumption]
  | H : lock_vm_release_pq _ _ _ = Some _ |- _ => apply lock_vm_inv in H as (? & -> & ->)
  | H : Some _ = Some _ |- _ => injection H as <- <-
  end.

(** Closes the per-mutex accounting of a step. *)
Ltac pq_case :=
  let p := fresh "p" in let b := fresh "b" in let b' := fresh "b'" in
  let Hb := fresh "Hb" in let Hb' := fresh "Hb'" in
  intros p b b' Hb Hb'; simpl in *;
  repeat match goal with Hp : forall p b, vec_get _ p = Some b -> _ |- _ =>
    specialize (Hp p b Hb); simpl in Hp end;
  rewrite ?vec_get_set in Hb';
  repeat match goal with
  | H : context [decide ?P] |- _ => destruct (decide P) as [[? ?]|?]
  | |- context [(?x =? ?y)%N] => destruct (N.eqb_spec x y)
  end; simplify_eq/=; try (destruct b; simpl in *; lia);
  try (match goal with H : ~ (_ /\ _) |- _ =>
    destruct H; split; [done|by eapply vec_get_Some_lt] end).

Lemma tstep_locks g pool t k k' g' :
  pool !! t = Some k -> locks_ok g pool ->
  tstep k g = Some (k', g') -> is_faulted k' = false ->
  locks_ok g' (<[t := k']> pool).
Proof.
  intros Ht Hl Hstep Hf.
  pose proof (count_le holds_shared _ _ _ Ht) as Hs. rewrite (lo_shared _ _ Hl) in Hs.
  pose proof (count_le holds_exclusive _ _ _ Ht) as He. rewrite (lo_excl _ _ Hl) in He.
  pose proof (count_le holds_vm _ _ _ Ht) as Hv. rewrite (lo_vm _ _ Hl) in Hv.
  pose proof (lo_range _ _ Hl _ _ Ht) as Hr. pose proof (lo_rw _ _ Hl) as Hrw.
  pose proof (lo_len _ _ Hl) as Hlen.
  assert (forall p b, vec_get (pq_mutexes g) p = Some b -> b2n (holds_pq p k) <= b2n b) as Hp.
  { intros p b Hb. rewrite <-(lo_pq _ _ Hl _ _ Hb). by apply (count_le _ _ t). }
  destruct k as [| | | | | | | | | | | | | | | | | | | | |p [|n]| | | | | |];
    simpl in Hstep; try done; step_inv; simpl in *;
    repeat match goal with x : bool |- _ => destruct x | x : gate |- _ => destruct x end;
    simpl in *.
  all: eapply (locks_update _ pool t _ _ _ Ht Hl); simpl; rewrite ?length_vec_set; try done.
  all: try (match goal with H : ?m (queue _) = Done _ ?x |- _max_prio ?x = _ =>
    let K := fresh in assert (keeps_max m) as K by eauto with keeps_max; exact (K _ _ _ H) end).
  all: try lia.
  all: try pq_case.
  all: try (intros Hw; first [congruence|specialize (Hrw Hw); lia]).
  all: try (destruct (vm_mutex g); simpl in *; lia).
  all: destruct (writer g); simpl in *; lia.
Qed.

(** ** Operations in flight

    Between its access to a queue and its access to the value map an operation
    is pending: the thread that holds [_value_map_mutex] comes first, then the
    thread that holds the queue's mutex. *)

Inductive pending : Type :=
| PEnq (x : N * Job T)
| PDeq (jid : N).

(** What the pending operation does to a queue's logical content. *)
Definition apply_pending (e : pending) (q : list (N * Job T)) : option (list (N * Job T)) :=
  match e with
  | PEnq x => Some (q ++ [x])
  | PDeq jid =>
      match q with
      | x :: q' => if (job_id x.2 =? jid)%N then Some q' else None
      | [] => None
      end
  end.

Definition pend_vm (p : N) k : option pending :=
  match k with
  | EMap job it => if (priority job =? p)%N then Some (PEnq (it, job)) else None
  | DTake p' jid => if (p' =? p)%N then Some (PDeq jid) else None
  | _ => None
  end.

Definition pend_pq (p : N) k : option pending :=
  match k with
  | ESignal job it | ELockVm job it =>
      if (priority job =? p)%N then Some (PEnq (it, job)) else None
  | DSignal p' jid | DLockVm p' jid => if (p' =? p)%N then Some (PDeq jid) else None
  | _ => None
  end.

(** [b] is [a] after the operation that [f] finds pending in the pool, if any. *)
Definition stage pool (f : pc T -> option pending) (a b : list (N * Job T)) : Prop :=
  (exists t k e, pool !! t = Some k /\ f k = Some e /\ apply_pending e a = Some b) \/
  ((forall t k, pool !! t = Some k -> f k = None) /\ a = b).

(** Map content [q] and queue content [l] of priority [p]. *)
Definition link pool (p : N) (q l : list (N * Job T)) : Prop :=
  exists mid, stage pool (pend_vm p) q mid /\ stage pool (pend_pq p) mid l.

Lemma pool_lookup_cases pool t k k' t' k0 :
  pool !! t = Some k -> <[t := k']> pool !! t' = Some k0 ->
  (t' = t /\ k0 = k') \/ (t' <> t /\ pool !! t' = Some k0).
Proof.
  intros Ht. destruct (decide (t = t')) as [<-|Hne].
  - rewrite list_lookup_insert_eq by (by eapply lookup_lt_Some). naive_solver.
  - rewrite list_lookup_insert_ne by done. auto.
Qed.

(** A step that does not change what is pending. *)
Lemma stage_same pool t k k' f a b :
  pool !! t = Some k -> f k' = f k -> stage pool f a b -> stage (<[t := k']> pool) f a b.
Proof.
  intros Ht Hf [(t' & k0 & e & Ht' & Hk & He)|[Hn ->]].
  - left. destruct (decide (t = t')) as [<-|Hne].
    + simplify_eq. exists t, k', e. split; [|by rewrite Hf].
      apply list_lookup_insert_eq. by eapply lookup_lt_Some.
    + exists t', k0, e. by rewrite list_lookup_insert_ne.
  - right. split; [|done]. intros t' k0 H.
    destruct (pool_lookup_cases _ _ _ _ _ _ Ht H) as [[-> ->]|[_ ?]]; [|eauto].
    rewrite Hf. eauto.
Qed.

(** Nobody but [t] has something pending for [f]. *)
Definition alone pool (t : nat) (f : pc T -> option pending) : Prop :=
  forall t' k, t' <> t -> pool !! t' = Some k -> f k = None.

Lemma stage_none pool t k f a b :
  pool !! t = Some k -> f k = None -> alone pool t f -> stage pool f a b -> a = b.
Proof.
  intros Ht Hf Hal [(t' & k0 & e & Ht' & Hk & _)|[_ ?]]; [|done].
  destruct (decide (t' = t)) as [->|Hne]; [by simplify_eq|].
  by rewrite (Hal t' k0 Hne Ht') in Hk.
Qed.

Lemma stage_some pool t k f e a b :
  pool !! t = Some k -> f k = Some e -> alone pool t f -> stage pool f a b ->
  apply_pending e a = Some b.
Proof.
  intros Ht Hf Hal [(t' & k0 & e' & Ht' & Hk & He)|[Hn _]].
  - destruct (decide (t' = t)) as [->|Hne]; [by simplify_eq|].
    by rewrite (Hal t' k0 Hne Ht') in Hk.
  - by rewrite (Hn t k Ht) in Hf.
Qed.

Lemma stage_set_some pool t k k' f e a b :
  pool !! t = Some k -> f k' = Some e -> apply_pending e a = Some b ->
  stage (<[t := k']> pool) f a b.
Proof.
  intros Ht Hf He. left. exists t, k', e. split; [|done].
  apply list_lookup_insert_eq. by eapply lookup_lt_Some.
Qed.

Lemma stage_set_none pool t k k' f a :
  pool !! t = Some k -> f k' = None -> alone pool t f -> stage (<[t := k']> pool) f a a.
Proof.
  intros Ht Hf Hal. right. split; [|done]. intros t' k0 H.
  destruct (pool_lookup_cases _ _ _ _ _ _ Ht H) as [[-> ->]|[Hne ?]]; eauto.
Qed.

(** Pending operations belong to lock holders, and a mutex has one holder. *)
Lemma pend_vm_holds p k : pend_vm p k <> None -> holds_vm k = true.
Proof. by destruct k. Qed.

Lemma pend_pq_holds p k : pend_pq p k <> None -> holds_pq p k = true.
Proof. destruct k; simpl; try done; by destruct (_ =? p)%N. Qed.

Lemma pend_shared p k : pend_vm p k <> None \/ pend_pq p k <> None -> holds_shared k = true.
Proof. destruct k; simpl; try done; tauto. Qed.

Lemma alone_holder (h : pc T -> bool) (f : pc T -> option pending) pool t k :
  (forall k, f k <> None -> h k = true) ->
  count h pool <= 1 -> pool !! t = Some k -> h k = true -> alone pool t f.
Proof.
  intros Hfh Hc Ht Hk t' k' Hne Ht'. destruct (f k') eqn:E; [|done].
  pose proof (count_two h pool t t' k k' Ht Ht' Hk) as H2.
  specialize (H2 (Hfh k' ltac:(congruence)) ltac:(congruence)). lia.
Qed.

Lemma alone_nobody (h : pc T -> bool) (f : pc T -> option pending) pool t :
  (forall k, f k <> None -> h k = true) -> count h pool = 0 -> alone pool t f.
Proof.
  intros Hfh Hc t' k' _ Ht'. destruct (f k') eqn:E; [|done].
  pose proof (count_zero_inv h pool t' k' Hc Ht') as Hz.
  by rewrite (Hfh k' ltac:(congruence)) in Hz.
Qed.

(** ** The data invariant *)

Record data_ok (mq : @MultiQueue T) pool Q L : Prop := mk_data_ok {
  do_max : is_u32 (_max_prio mq + 1);
  do_len : N.of_nat (length L) = (_max_prio mq + 1)%N;
  do_lenQ : length Q = length L;
  do_ne : length (_not_empty_mutexes mq) = length L;
  do_ro : length (_release_one mq) = length L;
  do_qs : _priority_qs mq = node_views <$> L;
  do_vm : vm_rel (_value_mapper mq) Q;
  do_nodes : forall p l, vec_get L p = Some l ->
    NoDup l.*1 /\ Forall (fun n => (n < next_node mq)%N) l.*1;
  do_link : forall p q l, vec_get Q p = Some q -> vec_get L p = Some l -> link pool p q l
}.

(** Steps that touch neither queues nor map nor what is pending. *)
Lemma data_frame mq mq' pool t k k' Q L :
  pool !! t = Some k -> data_ok mq pool Q L ->
  _max_prio mq' = _max_prio mq ->
  length (_not_empty_mutexes mq') = length (_not_empty_mutexes mq) ->
  length (_release_one mq') = length (_release_one mq) ->
  _priority_qs mq' = _priority_qs mq -> _value_mapper mq' = _value_mapper mq ->
  next_node mq' = next_node mq ->
  (forall p, pend_vm p k' = pend_vm p k) -> (forall p, pend_pq p k' = pend_pq p k) ->
  data_ok mq' (<[t := k']> pool) Q L.
Proof.
  intros Ht [H1 H2 H3 H4 H5 H6 H7 H8 H9] E1 E2 E3 E4 E5 E6 Hv Hp.
  split; rewrite ?E1, ?E2, ?E3, ?E4, ?E5, ?E6; try done.
  intros p q l Hq Hl. destruct (H9 p q l Hq Hl) as (mid & Hs1 & Hs2).
  exists mid. split; by eapply stage_same.
Qed.

(** When nobody holds a lock of the data, map and queues agree. *)
Lemma data_quiet mq pool Q L :
  data_ok mq pool Q L -> count holds_shared pool = 0 -> mq_rel mq L /\ Q = L.
Proof.
  intros [H1 H2 H3 H4 H5 H6 H7 H8 H9] Hc.
  assert (forall p f a b, (f = pend_vm p \/ f = pend_pq p) -> stage pool f a b -> a = b) as Hst.
  { intros p f a b Hf [(t & k & e & Ht & Hk & _)|[_ ?]]; [|done].
    pose proof (count_zero_inv _ _ _ _ Hc Ht) as Hz.
    rewrite (pend_shared p k) in Hz; [done|].
    destruct Hf as [-> | ->]; [left|right]; congruence. }
  assert (Q = L) as ->.
  { apply list_eq_same_length with (length L); [done|done|].
    intros i q l _ Hq Hl.
    destruct (H9 (N.of_nat i) q l) as (mid & Hs1 & Hs2);
      [unfold vec_get; by rewrite Nat2N.id..|].
    apply (Hst (N.of_nat i)) in Hs1; [|auto]. apply (Hst (N.of_nat i)) in Hs2; [|auto].
    congruence. }
  by split; [split|].
Qed.

(** ** The steps that change the data *)

Lemma pq_alone g pool t k p :
  locks_ok g pool -> pool !! t = Some k -> holds_pq p k = true ->
  (p < N.of_nat (length (pq_mutexes g)))%N -> alone pool t (pend_pq p).
Proof.
  intros Hl Ht Hk Hlt. destruct (vec_get_lt _ _ Hlt) as [b Hb].
  apply (alone_holder (holds_pq p) _ _ _ k); auto using pend_pq_holds.
  rewrite (lo_pq _ _ Hl _ _ Hb). destruct b; simpl; lia.
Qed.

Lemma vm_alone g pool t k p :
  locks_ok g pool -> pool !! t = Some k -> holds_vm k = true \/ vm_mutex g = false ->
  alone pool t (pend_vm p).
Proof.
  intros Hl Ht [Hk|Hk].
  - apply (alone_holder holds_vm _ _ _ k); auto; [apply pend_vm_holds|].
    rewrite (lo_vm _ _ Hl). destruct (vm_mutex g); simpl; lia.
  - apply (alone_nobody holds_vm); [apply pend_vm_holds|].
    by rewrite (lo_vm _ _ Hl), Hk.
Qed.

(** A queue's content changes by the operation that becomes pending. *)
Lemma data_queue_step g mq' pool t k k' p e l l' Q L :
  pool !! t = Some k -> locks_ok g pool -> data_ok (queue g) pool Q L ->
  vec_get L p = Some l -> holds_pq p k = true ->
  (forall p', pend_vm p' k = None) -> (forall p', pend_pq p' k = None) ->
  (forall p', pend_vm p' k' = None) ->
  (forall p', pend_pq p' k' = if (p =? p')%N then Some e else None) ->
  apply_pending e l = Some l' ->
  _max_prio mq' = _max_prio (queue g) ->
  length (_not_empty_mutexes mq') = length (_not_empty_mutexes (queue g)) ->
  length (_release_one mq') = length (_release_one (queue g)) ->
  _priority_qs mq' = vec_set p (node_views l') (_priority_qs (queue g)) ->
  _value_mapper mq' = _value_mapper (queue g) ->
  (next_node (queue g) <= next_node mq')%N ->
  NoDup l'.*1 /\ Forall (fun n => (n < next_node mq')%N) l'.*1 ->
  data_ok mq' (<[t := k']> pool) Q (vec_set p l' L).
Proof.
  intros Ht Hlk [H1 H2 H3 H4 H5 H6 H7 H8 H9] Hl Hh Hv Hp Hv' Hp' He E1 E2 E3 E4 E5 E6 Hn.
  assert (p < N.of_nat (length (pq_mutexes g)))%N as Hlt.
  { rewrite (lo_len _ _ Hlk), <-H2. by eapply vec_get_Some_lt. }
  split; rewrite ?length_vec_set, ?E1, ?E2, ?E3, ?E4, ?E5; try done.
  - by rewrite vec_set_fmap, H6.
  - intros p0 l0. rewrite vec_get_set. case_decide as Hd; [by intros [= <-]|].
    intros Hl0. destruct (H8 _ _ Hl0) as [Hnd Hall]. split; [done|].
    eapply Forall_impl; [exact Hall|]. simpl. lia.
  - intros p0 q l0 Hq. rewrite vec_get_set. case_decide as Hd.
    + destruct Hd as [<- _]. intros [= <-].
      destruct (H9 p q l Hq Hl) as (mid & Hs1 & Hs2). exists mid.
      split; [apply (stage_same _ t k k'); [done|by rewrite Hv', Hv|done]|].
      rewrite (stage_none _ _ _ _ _ _ Ht (Hp p) (pq_alone _ _ _ _ _ Hlk Ht Hh Hlt) Hs2).
      eapply stage_set_some; [done|by rewrite Hp', N.eqb_refl|done].
    + intros Hl0. destruct (H9 p0 q l0 Hq Hl0) as (mid & Hs1 & Hs2). exists mid.
      split; apply (stage_same _ t k k'); rewrite ?Hv', ?Hv, ?Hp', ?Hp; try done.
      destruct (N.eqb_spec p p0) as [<-|]; [|done].
      destruct Hd. split; [done|by eapply vec_get_Some_lt].
Qed.

(** Taking [_value_map_mutex] moves the pending operation from the queue's
    holder to the map's holder. *)
Lemma data_transfer g pool t k k' p e Q L :
  pool !! t = Some k -> locks_ok g pool -> data_ok (queue g) pool Q L ->
  vm_mutex g = false -> holds_pq p k = true ->
  (p < N.of_nat (length (pq_mutexes g)))%N ->
  (forall p', pend_vm p' k = None) ->
  (forall p', pend_pq p' k = if (p =? p')%N then Some e else None) ->
  (forall p', pend_vm p' k' = if (p =? p')%N then Some e else None) ->
  (forall p', pend_pq p' k' = None) ->
  data_ok (queue g) (<[t := k']> pool) Q L.
Proof.
  intros Ht Hlk [H1 H2 H3 H4 H5 H6 H7 H8 H9] Hvm Hh Hlt Hv Hp Hv' Hp'. split; try done.
  intros p0 q l Hq Hl. destruct (H9 p0 q l Hq Hl) as (mid & Hs1 & Hs2).
  destruct (N.eqb_spec p p0) as [<-|Hne].
  - pose proof (vm_alone g pool t k p Hlk Ht (or_intror Hvm)) as Hva.
    pose proof (pq_alone _ _ _ _ _ Hlk Ht Hh Hlt) as Hpa.
    rewrite (stage_none _ _ _ _ _ _ Ht (Hv p) Hva Hs1) in *.
    assert (pend_pq p k = Some e) as Hpk by by rewrite Hp, N.eqb_refl.
    pose proof (stage_some _ _ _ _ _ _ _ Ht Hpk Hpa Hs2) as He.
    exists l. split.
    + eapply stage_set_some; [done|by rewrite Hv', N.eqb_refl|done].
    + eapply stage_set_none; done.
  - apply N.eqb_neq in Hne. exists mid.
    split; apply (stage_same _ t k k'); rewrite ?Hv, ?Hp, ?Hv', ?Hp', ?Hne; done.
Qed.

(** The map catches up with the operation its holder has pending. *)
Lemma data_map_step g mq' pool t k k' p e q q' Q L :
  pool !! t = Some k -> locks_ok g pool -> data_ok (queue g) pool Q L ->
  vec_get Q p = Some q -> holds_vm k = true ->
  (forall p', pend_vm p' k = if (p =? p')%N then Some e else None) ->
  (forall p', pend_pq p' k = None) -> (forall p', pend_vm p' k' = None) ->
  (forall p', pend_pq p' k' = None) ->
  apply_pending e q = Some q' ->
  vm_rel (_value_mapper mq') (vec_set p q' Q) ->
  _max_prio mq' = _max_prio (queue g) ->
  _not_empty_mutexes mq' = _not_empty_mutexes (queue g) ->
  _release_one mq' = _release_one (queue g) ->
  _priority_qs mq' = _priority_qs (queue g) -> next_node mq' = next_node (queue g) ->
  data_ok mq' (<[t := k']> pool) (vec_set p q' Q) L.
Proof.
  intros Ht Hlk [H1 H2 H3 H4 H5 H6 H7 H8 H9] Hq Hh Hv Hp Hv' Hp' He Hvm E1 E2 E3 E4 E5.
  split; rewrite ?length_vec_set, ?E1, ?E2, ?E3, ?E4, ?E5; try done.
  intros p0 q0 l. rewrite vec_get_set. case_decide as Hd.
  - destruct Hd as [<- _]. intros [= <-] Hl.
    destruct (H9 p q l Hq Hl) as (mid & Hs1 & Hs2).
    pose proof (vm_alone g pool t k p Hlk Ht (or_introl Hh)) as Hva.
    assert (pend_vm p k = Some e) as Hvk by by rewrite Hv, N.eqb_refl.
    pose proof (stage_some _ _ _ _ _ _ _ Ht Hvk Hva Hs1) as He'. simplify_eq.
    exists q'. split; [by eapply stage_set_none|].
    apply (stage_same _ t k k'); rewrite ?Hp', ?Hp; done.
  - intros Hq0 Hl. destruct (H9 p0 q0 l Hq0 Hl) as (mid & Hs1 & Hs2).
    assert ((p =? p0)%N = false) as Hne.
    { apply N.eqb_neq. intros <-. destruct Hd. split; [done|by eapply vec_get_Some_lt]. }
    exists mid. split; apply (stage_same _ t k k'); rewrite ?Hv', ?Hv, ?Hp', ?Hp, ?Hne; done.
Qed.

(** Accesses to the mutexes and flags only. *)
Definition frames {A} (m : M (@MultiQueue T) A) : Prop :=
  forall mq a mq', m mq = Done a mq' ->
    length (_not_empty_mutexes mq') = length (_not_empty_mutexes mq) /\
    length (_release_one mq') = length (_release_one mq) /\
    _priority_qs mq' = _priority_qs mq /\ _value_mapper mq' = _value_mapper mq /\
    next_node mq' = next_node mq.

Ltac frames_tac :=
  intros mq a mq'; unM;
  repeat (case_match; simplify_eq/=; try done); intros; simplify_eq/=;
  rewrite ?length_vec_set; done.

Lemma frames_signal_insert p : frames (signal_insert p).
Proof. unfold signal_insert. frames_tac. Qed.

Lemma frames_lock p : frames (lock_not_empty p).
Proof. unfold lock_not_empty. frames_tac. Qed.

Lemma frames_release p : frames (take_release p).
Proof. unfold take_release. frames_tac. Qed.

Lemma frames_peek p : frames (peek_queue p).
Proof. unfold peek_queue. frames_tac. Qed.

Lemma frames_unlock p : frames (unlock_not_empty p).
Proof. unfold unlock_not_empty. frames_tac. Qed.

Lemma frames_signal_pop p : frames (signal_pop p).
Proof. unfold signal_pop, unlock_not_empty. frames_tac. Qed.

Lemma frames_set_released b : frames (modify (set_released b)).
Proof. frames_tac. Qed.

Lemma frames_release_queue p : frames (release_queue p).
Proof. unfold release_queue, unlock_not_empty. frames_tac. Qed.

Lemma frames_set_release p : frames (set_release p).
Proof. unfold set_release. frames_tac. Qed.

Hint Resolve frames_signal_insert frames_lock frames_release frames_peek frames_unlock
  frames_signal_pop frames_set_released frames_release_queue frames_set_release : keeps_max.

Lemma data_frame_act {A} (m : M MultiQueue A) mq mq' a pool t k k' Q L :
  frames m -> keeps_max m -> m mq = Done a mq' ->
  pool !! t = Some k -> data_ok mq pool Q L ->
  (forall p, pend_vm p k' = pend_vm p k) -> (forall p, pend_pq p k' = pend_pq p k) ->
  data_ok mq' (<[t := k']> pool) Q L.
Proof.
  intros Hf Hm E Ht Hd Hv Hp. destruct (Hf _ _ _ E) as (?&?&?&?&?).
  eapply data_frame; eauto.
Qed.

Lemma data_queue_get mq pool Q L p :
  data_ok mq pool Q L -> (p < N.of_nat (length L))%N ->
  exists q l, vec_get Q p = Some q /\ vec_get L p = Some l /\
    vec_get (_priority_qs mq) p = Some (node_views l).
Proof.
  intros H Hlt. destruct (vec_get_lt L p Hlt) as [l Hl].
  destruct (vec_get_lt Q p) as [q Hq]; [by rewrite (do_lenQ _ _ _ _ H)|].
  exists q, l. by rewrite (do_qs _ _ _ _ H), vec_get_fmap, Hl.
Qed.

(** What a step from [k] to [k'] does to the map content [Q] and the queue
    content [L]. *)
Definition effect k k' Q L Q' L' : Prop :=
  match k with
  | EInsert job => exists it l, k' = ESignal job it /\ vec_get L (priority job) = Some l /\
      Q' = Q /\ L' = vec_set (priority job) (l ++ [(it, job)]) L
  | EMap job it => exists q, k' = Finished RUnit /\ vec_get Q (priority job) = Some q /\
      Q' = vec_set (priority job) (q ++ [(it, job)]) Q /\ L' = L
  | DPop p => exists x l, k' = DSignal p (job_id x.2) /\ vec_get L p = Some (x :: l) /\
      Q' = Q /\ L' = vec_set p l L
  | DTake p jid => exists x q, k' = Finished (RJob (Some x.2)) /\ job_id x.2 = jid /\
      vec_get Q p = Some (x :: q) /\ Q' = vec_set p q Q /\ L' = L
  | PBody i => k' = Finished (RNum (u32 (N.of_nat (abs_count i (jobs_of L))))) /\
      Q = L /\ Q' = purge_content i L /\ L' = purge_content i L
  | _ => Q' = Q /\ L' = L
  end.

(** Insert, pop, map update, map removal and purge, one lemma each. *)
Lemma data_insert g pool t job it mq' Q L :
  pool !! t = Some (EInsert job) -> locks_ok g pool -> data_ok (queue g) pool Q L ->
  (priority job < N.of_nat (length L))%N ->
  insert_job (priority job) (job_id job) (queue g) = Done it mq' ->
  exists l, vec_get L (priority job) = Some l /\
    data_ok mq' (<[t := ESignal job it]> pool) Q (vec_set (priority job) (l ++ [(it, job)]) L).
Proof.
  intros Ht Hlk Hd Hr E.
  destruct (data_queue_get _ _ _ _ _ Hd Hr) as (q & l & Hq & Hl & Hqs).
  unfold insert_job in E. revert E. unM. rewrite Hqs. intros [= <- <-]. exists l. split; [done|].
  destruct (do_nodes _ _ _ _ Hd _ _ Hl) as [Hnd Hall].
  eapply (data_queue_step g _ pool t _ _ (priority job)
    (PEnq (next_node (queue g), job)) l); try done.
  - simpl. by rewrite N.eqb_refl.
  - simpl. unfold node_views. by rewrite fmap_app.
  - simpl. lia.
  - rewrite fmap_app. by apply fresh_node_ok.
Qed.

Lemma data_pop g pool t p jid mq' Q L :
  pool !! t = Some (DPop p) -> locks_ok g pool -> data_ok (queue g) pool Q L ->
  (p < N.of_nat (length L))%N -> pop_job p (queue g) = Done jid mq' ->
  exists x l, jid = job_id x.2 /\ vec_get L p = Some (x :: l) /\
    data_ok mq' (<[t := DSignal p jid]> pool) Q (vec_set p l L).
Proof.
  intros Ht Hlk Hd Hr E.
  destruct (data_queue_get _ _ _ _ _ Hd Hr) as (q & l & Hq & Hl & Hqs).
  unfold pop_job in E. revert E. unM. rewrite Hqs.
  destruct l as [|[n j] l]; simpl; [done|]. intros [= <- <-].
  exists (n, j), l. do 2 (split; [done|]).
  destruct (do_nodes _ _ _ _ Hd _ _ Hl) as [Hnd Hall].
  eapply (data_queue_step g _ pool t _ _ p (PDeq (job_id j)) ((n, j) :: l) l); try done.
  - simpl. by rewrite N.eqb_refl.
  - simpl. by rewrite N.eqb_refl.
  - simpl in Hnd, Hall. by apply NoDup_cons in Hnd as [_ ?];
      apply Forall_cons in Hall as [_ ?].
Qed.

Lemma data_map g pool t job it mq' Q L :
  pool !! t = Some (EMap job it) -> locks_ok g pool -> data_ok (queue g) pool Q L ->
  (priority job < N.of_nat (length L))%N -> map_job job it (queue g) = Done tt mq' ->
  exists q, vec_get Q (priority job) = Some q /\
    data_ok mq' (<[t := Finished RUnit]> pool) (vec_set (priority job) (q ++ [(it, job)]) Q) L.
Proof.
  intros Ht Hlk Hd Hr E.
  destruct (data_queue_get _ _ _ _ _ Hd Hr) as (q & l & Hq & _ & _).
  revert E. unfold map_job. unM. intros [= <-]. exists q. split; [done|].
  eapply (data_map_step g _ pool t _ _ (priority job) (PEnq (it, job)) q); try done.
  simpl. apply vm_rel_insert; [apply (do_vm _ _ _ _ Hd)|done].
Qed.

(** The map holder finds the job it popped. *)
Lemma data_take_found g pool t p jid Q L :
  pool !! t = Some (DTake p jid) -> locks_ok g pool -> data_ok (queue g) pool Q L ->
  (p < N.of_nat (length L))%N ->
  exists n j q vm, vec_get Q p = Some ((n, j) :: q) /\ job_id j = jid /\
    map_take p jid (_value_mapper (queue g)) = Some (j, vm) /\ vm_rel vm (vec_set p q Q).
Proof.
  intros Ht Hlk Hd Hr.
  destruct (data_queue_get _ _ _ _ _ Hd Hr) as (q & l & Hq & Hl & _).
  destruct (do_link _ _ _ _ Hd _ _ _ Hq Hl) as (mid & Hs1 & _).
  pose proof (vm_alone g pool t _ p Hlk Ht (or_introl eq_refl)) as Hva.
  assert (pend_vm p (DTake p jid) = Some (PDeq jid)) as Hvk by (simpl; by rewrite N.eqb_refl).
  pose proof (stage_some _ _ _ _ _ _ _ Ht Hvk Hva Hs1) as He. simpl in He.
  destruct q as [|[n j] q]; [done|]. simpl in He.
  destruct (N.eqb_spec (job_id j) jid) as [<-|]; [|done].
  destruct (vm_rel_take _ _ _ _ _ _ (do_vm _ _ _ _ Hd) Hq) as (vm & Hvm & Hrel).
  exists n, j, q, vm. done.
Qed.

Lemma data_take g pool t p jid job mq' Q L :
  pool !! t = Some (DTake p jid) -> locks_ok g pool -> data_ok (queue g) pool Q L ->
  (p < N.of_nat (length L))%N -> take_job p jid (queue g) = Done job mq' ->
  exists n q, vec_get Q p = Some ((n, job) :: q) /\ job_id job = jid /\
    data_ok mq' (<[t := Finished (RJob (Some job))]> pool) (vec_set p q Q) L.
Proof.
  intros Ht Hlk Hd Hr E.
  destruct (data_take_found _ _ _ _ _ _ _ Ht Hlk Hd Hr) as (n & j & q & vm & Hq & <- & Hvm & Hrel).
  revert E. unfold take_job. unM. rewrite Hvm. intros [= <- <-].
  exists n, q. do 2 (split; [done|]).
  eapply (data_map_step g _ pool t _ _ p (PDeq (job_id j)) ((n, j) :: q) q); try done.
  simpl. by rewrite N.eqb_refl.
Qed.

(** The exclusive lock keeps everybody else out of the data. *)
Lemma exclusive_quiet g pool t k :
  locks_ok g pool -> pool !! t = Some k -> holds_exclusive k = true ->
  count holds_shared pool = 0.
Proof.
  intros Hlk Ht Hk. rewrite (lo_shared _ _ Hlk). apply (lo_rw _ _ Hlk).
  pose proof (count_le holds_exclusive _ _ _ Ht) as He.
  rewrite (lo_excl _ _ Hlk), Hk in He. destruct (writer g); simpl in He; [done|lia].
Qed.

Lemma data_purge g pool t i n mq' Q L :
  pool !! t = Some (PBody i) -> locks_ok g pool -> data_ok (queue g) pool Q L ->
  Purge i (queue g) = Done n mq' ->
  n = u32 (N.of_nat (abs_count i (jobs_of L))) /\ Q = L /\
  data_ok mq' (<[t := Finished (RNum n)]> pool) (purge_content i L) (purge_content i L).
Proof.
  intros Ht Hlk Hd E.
  pose proof (exclusive_quiet _ _ _ _ Hlk Ht eq_refl) as Hc.
  destruct (data_quiet _ _ _ _ Hd Hc) as [Hrel ->].
  pose proof (Purge_rel _ _ _ _ _ Hrel E) as [R1 R2 R3 R4 R5 R6 R7].
  rewrite (Purge_Done _ _ _ Hrel) in E. injection E as <- _. do 2 (split; [done|]).
  split; try done. intros p q l Hq Hl. rewrite Hq in Hl. injection Hl as <-. exists q.
  split; right; (split; [|done]); intros t' k0 Hk0;
    destruct (pool_lookup_cases _ _ _ _ _ _ Ht Hk0) as [[-> ->]|[_ Hk]]; try done;
    pose proof (count_zero_inv _ _ _ _ Hc Hk) as Hz.
  - destruct (pend_vm p k0) eqn:Ep; [|done].
    by rewrite (pend_shared p k0) in Hz by (left; congruence).
  - destruct (pend_pq p k0) eqn:Ep; [|done].
    by rewrite (pend_shared p k0) in Hz by (right; congruence).
Qed.

Lemma data_len_pq g pool Q L :
  locks_ok g pool -> data_ok (queue g) pool Q L -> length (pq_mutexes g) = length L.
Proof.
  intros Hlk Hd. pose proof (lo_len _ _ Hlk). pose proof (do_len _ _ _ _ Hd). lia.
Qed.

Lemma tstep_data g pool t k k' g' Q L :
  pool !! t = Some k -> locks_ok g pool -> data_ok (queue g) pool Q L ->
  tstep k g = Some (k', g') -> is_faulted k' = false ->
  exists Q' L', data_ok (queue g') (<[t := k']> pool) Q' L' /\ effect k k' Q L Q' L'.
Proof.
  intros Ht Hlk Hd Hstep Hf.
  pose proof (lo_range _ _ Hlk _ _ Ht) as Hr.
  pose proof (data_len_pq _ _ _ _ Hlk Hd) as Hlen. rewrite Hlen in Hr.
  destruct k as [| | | | | | | | | | | | | | | | | | | | |p [|n]| | | | | |];
    simpl in Hstep; try done; step_inv; simpl in *;
    repeat match goal with x : bool |- _ => destruct x | x : gate |- _ => destruct x
                         | x : unit |- _ => destruct x end; simpl in *.
  all: try (by exists Q, L; split; [eapply data_frame; try done|]).
  all: try (by exists Q, L; split; [eapply data_frame_act; try done; eauto with keeps_max|]).
  - destruct (data_insert _ _ _ _ _ _ _ _ Ht Hlk Hd Hr ltac:(done)) as (l & Hl & ?).
    eexists _, _. split; [done|]. eauto 10.
  - exists Q, L. split; [|done]. rewrite <-Hlen in Hr.
    eapply (data_transfer g pool t _ _ (priority job)); try done; simpl.
    by rewrite N.eqb_refl.
  - destruct (data_map _ _ _ _ _ _ _ _ Ht Hlk Hd Hr ltac:(done)) as (q & Hq & ?).
    eexists _, _. split; [done|]. eauto 10.
  - destruct (data_pop _ _ _ _ _ _ _ _ Ht Hlk Hd Hr ltac:(done)) as (y & l & -> & Hl & ?).
    eexists _, _. split; [done|]. eauto 10.
  - exists Q, L. split; [|done]. rewrite <-Hlen in Hr.
    eapply (data_transfer g pool t _ _ p); try done; simpl.
    by rewrite N.eqb_refl.
  - edestruct data_take as (n & q & Hq & Hj & ?); eauto.
    eexists _, _. split; [done|]. eexists (n, _), q. done.
  - destruct (data_purge _ _ _ _ _ _ _ _ Ht Hlk Hd ltac:(done)) as (-> & -> & ?). eauto 10.
Qed.

(** ** No faults *)

Definition queue_nonempty g (p : N) : Prop :=
  forall q, vec_get (_priority_qs (queue g)) p = Some q -> q <> [].

Lemma act_no_fault {A} (m : M MultiQueue A) K g k' g' :
  act m K g = Some (k', g') -> (forall e, m (queue g) <> Crash e) ->
  (forall a, is_faulted (K a).1 = false) -> is_faulted k' = false.
Proof.
  unfold act. intros H Hm HK. destruct (m (queue g)) eqn:E; simplify_eq; [done|].
  by destruct (Hm e).
Qed.

(** With in-range priorities the only fault left is popping an empty queue. *)
Lemma tstep_no_fault g pool t k k' g' Q L :
  pool !! t = Some k -> locks_ok g pool -> data_ok (queue g) pool Q L ->
  (forall p, k = DPop p -> queue_nonempty g p) -> is_faulted k = false ->
  tstep k g = Some (k', g') -> is_faulted k' = false.
Proof.
  intros Ht Hlk Hd Hne Hnf Hstep.
  pose proof (lo_range _ _ Hlk _ _ Ht) as Hr. pose proof (lo_len _ _ Hlk) as Hlen.
  pose proof (data_len_pq _ _ _ _ Hlk Hd) as HlenL. rewrite HlenL in *.
  assert (forall p, (p < N.of_nat (length L))%N ->
    exists q ne ro pq, vec_get (_priority_qs (queue g)) p = Some q /\
    vec_get (_not_empty_mutexes (queue g)) p = Some ne /\
    vec_get (_release_one (queue g)) p = Some ro /\
    vec_get (pq_mutexes g) p = Some pq) as Hget.
  { intros p Hp.
    destruct (vec_get_lt (_priority_qs (queue g)) p) as [q Hq];
      [by rewrite (do_qs _ _ _ _ Hd), length_fmap|].
    destruct (vec_get_lt (_not_empty_mutexes (queue g)) p) as [ne Hn];
      [by rewrite (do_ne _ _ _ _ Hd)|].
    destruct (vec_get_lt (_release_one (queue g)) p) as [ro Hro];
      [by rewrite (do_ro _ _ _ _ Hd)|].
    destruct (vec_get_lt (pq_mutexes g) p) as [pq Hpq]; [by rewrite HlenL|].
    by exists q, ne, ro, pq. }
  destruct k as [| | | | | | | | | | | | | | | | | | | | |p [|n]| | | | | |];
    simpl in *; try done.
  all: try (match goal with
    | Hr : (?p < N.of_nat (length _))%N |- _ => destruct (Hget p Hr) as (q & ne & ro & pq & Hq & Hn & Hro & Hpq)
    | Hr : (?p + N.pos _ <= N.of_nat (length _))%N |- _ => destruct (Hget p ltac:(lia)) as (q & ne & ro & pq & Hq & Hn & Hro & Hpq)
    end).
  all: rewrite ?(proj2 (N.leb_le _ _)) in Hstep by lia.
  all: try (revert Hstep; unfold lock_shared, lock_exclusive, lock_pq, lock_vm_release_pq,
    act, insert_job, signal_insert, map_job, lock_not_empty, take_release, peek_queue,
    unlock_not_empty, pop_job, signal_pop, release_queue, set_release; unM;
    rewrite ?Hq, ?Hn, ?Hro, ?Hpq;
    repeat (case_match; simpl); intros; simplify_eq/=; done).
  - destruct q as [|[n i] q]; [by destruct (Hne p eq_refl _ Hq)|].
    revert Hstep. unfold act, pop_job. unM. rewrite Hq. by intros [= <- <-].
  - destruct (data_take_found _ _ _ _ _ _ _ Ht Hlk Hd Hr) as (n & j & q' & vm & _ & _ & Hvm & _).
    revert Hstep. unfold act, take_job. unM. rewrite Hvm. by intros [= <- <-].
  - destruct (data_quiet _ _ _ _ Hd (exclusive_quiet _ _ _ _ Hlk Ht eq_refl)) as [Hrel _].
    revert Hstep. unfold act. rewrite (Purge_Done _ _ id Hrel). by intros [= <- <-].
  - destruct (Hget p ltac:(lia)) as (q & _ & _ & _ & Hq & _).
    revert Hstep. unfold act, release_queue, unlock_not_empty. unM. rewrite Hq.
    by destruct q; intros [= <- <-].
Qed.

End Locks.
End MQLocks.
