(* ===== verification/MultiQueueSafety.v ===== *)
(** * Safety and progress of the concurrent MultiQueue

    Reachable configurations, single-consumer safety, the token discipline of
    the "not empty" mutexes, and absence of deadlock. *)

From stdpp Require Import prelude gmap list.
From S2P Require Import Prelude Synchronization Job BaseMultiQueue MultiQueue.
From S2P Require Import MultiQueueSpec MultiQueueRuns MultiQueueConc MultiQueueLocks.

Module MQSafety.
Import MQ MQSpec MQRuns MQConc MQLocks.

(** Every outcome of one step. *)
Ltac step_cases :=
  unfold lock_shared, lock_exclusive, lock_pq, lock_vm_release_pq,
    act, insert_job, signal_insert, map_job, lock_not_empty, take_release, peek_queue,
    pop_job, signal_pop, take_job, release_queue, set_release, unlock_not_empty; unM;
  repeat (case_match; simpl); intros; simplify_eq/=.

Section Safety.
Context {T : Type}.
Implicit Types (g : shared T) (pool : list (pc T)) (k : pc T) (c : conf T).
Implicit Types (Q L : list (list (N * Job T))).

(** Configurations reached by moves that [ok] allows. *)
Inductive reach (ok : conf T -> action T -> Prop) (c0 : conf T) : conf T -> Prop :=
| reach_refl : reach ok c0 c0
| reach_step c a c' :
    reach ok c0 c -> ok c a -> cstep a c = Some c' -> reach ok c0 c'.

(** ** The part of the invariant every client keeps *)

Record base_ok c : Prop := mk_base_ok {
  bo_locks : locks_ok c.1 c.2;
  bo_data : exists Q L, data_ok (queue c.1) c.2 Q L;
  bo_fault : forall t k, c.2 !! t = Some k -> is_faulted k = false
}.

Lemma pool_lookup_replicate n t k :
  replicate n (@Idle T) !! t = Some k -> k = Idle.
Proof. by intros [? _]%lookup_replicate_1. Qed.

Lemma data_init m n : (m < UINT_MAX)%N ->
  data_ok (queue (@init T m n).1) (init m n).2 (empty_content m) (empty_content m).
Proof.
  intros Hm. destruct (new_rel (T:=T) m Hm) as [R1 R2 R3 R4 R5 R6 R7]. split; try done.
  intros p q l Hq Hl. assert (q = l) as -> by congruence. exists l.
  split; right; (split; [|done]); intros t k Hk; by rewrite (pool_lookup_replicate _ _ _ Hk).
Qed.

Lemma base_init m n : (m < UINT_MAX)%N -> base_ok (init m n).
Proof.
  intros Hm. assert (u32_add m 1 = (m + 1)%N) as E
    by (apply u32_add_small; u32_unfold; lia).
  assert (forall f : pc T -> bool, f Idle = false -> count f (replicate n Idle) = 0) as Hc.
  { intros f Hf. apply count_zero. intros i x Hx. by rewrite (pool_lookup_replicate _ _ _ Hx). }
  split; simpl.
  - split; simpl; rewrite ?length_replicate, ?E; try (by apply Hc); try done; [| lia |].
    + intros p b Hb. rewrite Hc by done.
      unfold vec_get in Hb. by apply lookup_replicate_1 in Hb as [-> _].
    + intros t k Hk. by rewrite (pool_lookup_replicate _ _ _ Hk).
  - eexists _, _. by apply data_init.
  - intros t k Hk. by rewrite (pool_lookup_replicate _ _ _ Hk).
Qed.

(** A call starts with in-range arguments. *)
Definition start_ok c (a : action T) : Prop :=
  match a with
  | Start _ o => op_in_range (_max_prio (queue c.1)) o
  | Step _ => True
  end.

(** The two shapes of a move. *)
Lemma cstep_inv a g pool c' :
  cstep a (g, pool) = Some c' ->
  exists t k k' g', pool !! t = Some k /\ c' = (g', <[t := k']> pool) /\
    match a with
    | Start t' o => t' = t /\ may_start k = true /\ entry o = Some k' /\ g' = g
    | Step t' => t' = t /\ tstep k g = Some (k', g')
    end.
Proof.
  unfold cstep. destruct (0 <? _)%nat; [done|]. destruct a as [t o|t]; intros H.
  - apply bind_Some in H as (k & Hk & H). destruct (may_start k) eqn:Em; [|done].
    apply bind_Some in H as (k' & He & [= <-]). by exists t, k, k', g.
  - apply bind_Some in H as (k & Hk & H). apply bind_Some in H as ([k' g'] & Hs & [= <-]).
    by exists t, k, k', g'.
Qed.

Lemma entry_facts o k' max : entry o = Some k' -> op_in_range max o ->
  (holds_shared k' = false /\ holds_exclusive k' = false /\ holds_vm k' = false /\
   (forall p, holds_pq p k' = false) /\ (forall p, pend_vm p k' = None) /\
   (forall p, pend_pq p k' = None)) /\ pc_range (max + 1) k' /\ is_faulted k' = false.
Proof.
  destruct o as [[j|]|p|i|p|p| |p]; simpl; intros [= <-] Hr; simpl; try done;
    repeat split; try done; lia.
Qed.

Lemma may_start_facts k : may_start k = true ->
  holds_shared k = false /\ holds_exclusive k = false /\ holds_vm k = false /\
  (forall p, holds_pq p k = false) /\ (forall p, pend_vm p k = None) /\
  (forall p, pend_pq p k = None).
Proof. by destruct k. Qed.

(** Starting a call touches no lock and no data. *)
Lemma start_locks g pool t k k' o :
  pool !! t = Some k -> may_start k = true -> entry o = Some k' ->
  op_in_range (_max_prio (queue g)) o -> locks_ok g pool -> locks_ok g (<[t := k']> pool).
Proof.
  intros Ht Hm He Ho Hl.
  destruct (may_start_facts _ Hm) as (A1 & A2 & A3 & A4 & _).
  destruct (entry_facts _ _ _ He Ho) as ((B1 & B2 & B3 & B4 & _) & Hr & _).
  eapply (locks_update g pool t k k' g Ht Hl); rewrite ?A1, ?A2, ?A3, ?B1, ?B2, ?B3;
    try done; [apply (lo_rw _ _ Hl)| |by rewrite (lo_len _ _ Hl)].
  intros p b b' Hb Hb'. rewrite A4, B4. congruence.
Qed.

Lemma start_data g pool t k k' o Q L :
  pool !! t = Some k -> may_start k = true -> entry o = Some k' ->
  op_in_range (_max_prio (queue g)) o -> locks_ok g pool -> data_ok (queue g) pool Q L ->
  locks_ok g (<[t := k']> pool) /\ data_ok (queue g) (<[t := k']> pool) Q L /\
  is_faulted k' = false.
Proof.
  intros Ht Hm He Ho Hl Hd.
  destruct (may_start_facts _ Hm) as (A1 & A2 & A3 & A4 & A5 & A6).
  destruct (entry_facts _ _ _ He Ho) as ((B1 & B2 & B3 & B4 & B5 & B6) & Hr & Hnf).
  split; [by eapply start_locks|split; [|done]].
  eapply data_frame; try done; intros p; by rewrite ?A5, ?A6, ?B5, ?B6.
Qed.

Lemma start_base g pool t k k' o :
  pool !! t = Some k -> may_start k = true -> entry o = Some k' ->
  op_in_range (_max_prio (queue g)) o -> base_ok (g, pool) ->
  base_ok (g, <[t := k']> pool).
Proof.
  intros Ht Hm He Ho [Hl (Q & L & Hd) Hf]. simpl in *.
  destruct (start_data _ _ _ _ _ _ _ _ Ht Hm He Ho Hl Hd) as (Hl' & Hd' & Hnf).
  split; simpl; [done|by eexists _, _|].
  intros t' k0 H. destruct (pool_lookup_cases _ _ _ _ _ _ Ht H) as [[-> ->]|[_ ?]]; eauto.
Qed.

(** A step that does not fault. *)
Lemma sound_step_base g pool t k k' g' :
  pool !! t = Some k -> tstep k g = Some (k', g') -> is_faulted k' = false ->
  base_ok (g, pool) -> base_ok (g', <[t := k']> pool).
Proof.
  intros Ht Hs Hnf [Hl (Q & L & Hd) Hf]. simpl in *. split; simpl.
  - by eapply tstep_locks.
  - destruct (tstep_data _ _ _ _ _ _ _ _ Ht Hl Hd Hs Hnf) as (Q' & L' & ? & _). eauto.
  - intros t' k0 H. destruct (pool_lookup_cases _ _ _ _ _ _ Ht H) as [[-> ->]|[_ ?]]; eauto.
Qed.

(** A step of a thread that does not pop an empty queue. *)
Lemma step_base g pool t k k' g' :
  pool !! t = Some k -> tstep k g = Some (k', g') ->
  (forall p, k = DPop p -> queue_nonempty g p) -> base_ok (g, pool) ->
  is_faulted k' = false /\ base_ok (g', <[t := k']> pool).
Proof.
  intros Ht Hs Hne Hb. pose proof Hb as [Hl (Q & L & Hd) Hf]. simpl in *.
  pose proof (tstep_no_fault _ _ _ _ _ _ _ _ Ht Hl Hd Hne (Hf _ _ Ht) Hs) as Hnf.
  split; [done|]. by eapply sound_step_base.
Qed.

(** The only step that faults is the pop of an empty queue. *)
Lemma step_fault g pool t k e g' :
  pool !! t = Some k -> tstep k g = Some (Faulted e, g') -> base_ok (g, pool) ->
  e = EmptyFront /\ g' = g /\
  exists p, k = DPop p /\ vec_get (_priority_qs (queue g)) p = Some [].
Proof.
  intros Ht Hs Hb. assert (forall p, k = DPop p ->
    e = EmptyFront /\ g' = g /\ vec_get (_priority_qs (queue g)) p = Some []) as Hpop.
  { intros p ->. pose proof (lo_range _ _ (bo_locks _ Hb) _ _ Ht) as Hr.
    pose proof (lo_len _ _ (bo_locks _ Hb)) as Hlen. destruct (bo_data _ Hb) as (Q & L & Hd).
    pose proof (do_len _ _ _ _ Hd) as HL. simpl in *.
    destruct (vec_get_lt (_priority_qs (queue g)) p) as [q Hq];
      [rewrite (do_qs _ _ _ _ Hd), length_fmap; lia|].
    revert Hs. unfold act, pop_job. unM. rewrite Hq. destruct q as [|[] q]; [|done].
    by intros [= <- <-]. }
  assert ((exists p, k = DPop p) \/ ~ exists p, k = DPop p) as [[p ->]|Hno]
    by (destruct k; eauto; right; by intros [? ?]).
  - destruct (Hpop p eq_refl) as (-> & -> & ?). eauto 6.
  - assert (is_faulted (@Faulted T e) = false) as H; [|done].
    refine (proj1 (step_base _ _ _ _ _ _ Ht Hs _ Hb)). intros p ->. by destruct Hno; exists p.
Qed.

(** Which steps change the queues. *)
Definition changes_queue (p : N) k : bool :=
  match k with
  | EInsert job => (priority job =? p)%N
  | DPop p' => (p' =? p)%N
  | PBody _ => true
  | _ => false
  end.

Lemma vec_get_set_other {A} (v : list A) i j x :
  (i =? j)%N = false -> vec_get (vec_set i x v) j = vec_get v j.
Proof. intros ?%N.eqb_neq. by apply vec_get_set_ne. Qed.

Lemma tstep_queue_same g k k' g' p :
  tstep k g = Some (k', g') -> changes_queue p k = false ->
  vec_get (_priority_qs (queue g')) p = vec_get (_priority_qs (queue g)) p.
Proof.
  intros Hs Hc. revert Hs.
  destruct k as [| | | | | | | | | | | | | | | | | | | | |? [|n]| | | | | |];
    simpl in *; try done; step_cases; try done; by apply vec_get_set_other.
Qed.

(** An append leaves a queue non-empty. *)
Lemma tstep_append g job k' g' p :
  tstep (EInsert job) g = Some (k', g') -> is_faulted k' = false ->
  (priority job = p) -> queue_nonempty g' p.
Proof.
  simpl. intros Hs Hf <-. revert Hs. step_cases; try done.
  intros q Hq. simpl in Hq. rewrite vec_get_set_eq in Hq by (by eapply vec_get_Some_lt).
  injection Hq as <-. intros [_ ?]%app_eq_nil. done.
Qed.

(** ** One consumer per priority *)

Definition dequeuing (p : N) k : bool :=
  match k with
  | DWait p' | DRelease p' | DShared p' | DCheck p' | DNull p' | DLockPq p' | DPop p'
  | DSignal p' _ | DLockVm p' _ | DTake p' _ => (p' =? p)%N
  | _ => false
  end.

(** Past the last emptiness test, before the pop. *)
Definition past_check (p : N) k : bool :=
  match k with DLockPq p' | DPop p' => (p' =? p)%N | _ => false end.

(** Moves of a client that keeps one consumer per priority; producers, Purge
    and the releases are unrestricted. *)
Definition one_consumer c (a : action T) : Prop :=
  start_ok c a /\
  match a with
  | Start _ (OpDequeue p) => count (dequeuing p) c.2 = 0
  | _ => True
  end.

Record consumer_ok c : Prop := mk_consumer_ok {
  co_base : base_ok c;
  co_one : forall p, count (dequeuing p) c.2 <= 1;
  co_past : forall t k p, c.2 !! t = Some k -> past_check p k = true ->
    queue_nonempty c.1 p
}.

Lemma past_check_facts p k : past_check p k = true ->
  dequeuing p k = true /\ holds_shared k = true.
Proof. by destruct k. Qed.

Lemma tstep_dequeuing g k k' g' p :
  tstep k g = Some (k', g') -> dequeuing p k' = true -> dequeuing p k = true.
Proof.
  destruct k as [| | | | | | | | | | | | | | | | | | | | |? [|n]| | | | | |];
    simpl; try done; step_cases; done.
Qed.

Lemma tstep_past g k k' g' p :
  tstep k g = Some (k', g') -> past_check p k' = true ->
  changes_queue p k = false /\
  (past_check p k = true \/ queue_nonempty g p).
Proof.
  destruct k as [| | | | | | | | | | | | | | | | | | | | |? [|n]| | | | | |];
    simpl; try done; step_cases; try done; (split; [done|]); auto.
  right. repeat match goal with H : (_ =? _)%N = true |- _ => apply N.eqb_eq in H as -> end.
  intros q Hq. by simplify_eq.
Qed.

(** A step of one thread keeps the queue of another that is past its test. *)
Lemma step_keeps_nonempty g pool t k k' g' t' k0 p :
  pool !! t = Some k -> tstep k g = Some (k', g') -> is_faulted k' = false ->
  base_ok (g, pool) -> count (dequeuing p) pool <= 1 ->
  t' <> t -> pool !! t' = Some k0 -> past_check p k0 = true ->
  queue_nonempty g p -> queue_nonempty g' p.
Proof.
  intros Ht Hs Hf Hb Hone Hne Ht' Hp Hq. destruct (past_check_facts _ _ Hp) as [Hd Hsh].
  destruct (changes_queue p k) eqn:Ec.
  - destruct k; simpl in Ec; try done; try apply N.eqb_eq in Ec as <-.
    + by eapply tstep_append.
    + pose proof (count_two (dequeuing p0) pool t' t k0 _ Ht' Ht Hd) as H2.
      simpl in H2. specialize (H2 (N.eqb_refl p0) Hne). lia.
    + pose proof (exclusive_quiet _ _ _ _ (bo_locks _ Hb) Ht eq_refl) as Hc.
      by rewrite (count_zero_inv _ _ _ _ Hc Ht') in Hsh.
  - intros q. rewrite (tstep_queue_same _ _ _ _ _ Hs Ec). apply Hq.
Qed.

Lemma consumer_step c a c' :
  consumer_ok c -> one_consumer c a -> cstep a c = Some c' -> consumer_ok c'.
Proof.
  destruct c as [g pool]. intros [Hb Hone Hpast] [Hst Hoc] Hs. simpl in *.
  destruct (cstep_inv _ _ _ _ Hs) as (t & k & k' & g' & Ht & -> & Ha).
  destruct a as [t0 o|t0].
  - destruct Ha as (-> & Hm & He & ->). split; simpl.
    + by eapply start_base.
    + intros p. pose proof (count_step (dequeuing p) pool t k k' Ht) as Hc.
      specialize (Hone p). destruct (dequeuing p k') eqn:Ed; simpl in Hc; [|lia].
      destruct o as [[j|]|p'|i|p'|p'| |p']; simpl in He; simplify_eq/=.
      apply N.eqb_eq in Ed as ->. lia.
    + intros t' k0 p H Hp. destruct (pool_lookup_cases _ _ _ _ _ _ Ht H) as [[-> ->]|[_ ?]];
        [|eauto]. by destruct o as [[j|]|p'|i|p'|p'| |p']; simpl in He; simplify_eq/=.
  - destruct Ha as [-> Hts].
    destruct (step_base _ _ _ _ _ _ Ht Hts) as [Hnf Hb']; [|done|].
    { intros p ->. apply (Hpast t _ p Ht). apply N.eqb_refl. }
    split; simpl; [done| |].
    + intros p. pose proof (count_step (dequeuing p) pool t k k' Ht) as Hc.
      specialize (Hone p). destruct (dequeuing p k') eqn:Ed; simpl in Hc; [|lia].
      rewrite (tstep_dequeuing _ _ _ _ _ Hts Ed) in Hc. simpl in Hc. lia.
    + intros t' k0 p H Hp. destruct (pool_lookup_cases _ _ _ _ _ _ Ht H) as [[-> ->]|[Hne H']].
      * destruct (tstep_past _ _ _ _ _ Hts Hp) as [Ec Hor].
        intros q. rewrite (tstep_queue_same _ _ _ _ _ Hts Ec).
        destruct Hor as [Hp0|Hq]; [|apply Hq]. by apply (Hpast t k p Ht).
      * eapply (step_keeps_nonempty g pool t k k' g' t' k0 p); eauto.
Qed.

Lemma reach_inv (I : conf T -> Prop) ok c0 c :
  (forall c a c', I c -> ok c a -> cstep a c = Some c' -> I c') ->
  I c0 -> reach ok c0 c -> I c.
Proof. intros Hstep H0. induction 1; eauto. Qed.

Lemma consumer_init m n : (m < UINT_MAX)%N -> consumer_ok (init m n).
Proof.
  intros Hm. split; [by apply base_init| |].
  - intros p. simpl. rewrite count_zero; [lia|].
    intros i x Hx. by rewrite (pool_lookup_replicate _ _ _ Hx).
  - intros t k p Hk. by rewrite (pool_lookup_replicate _ _ _ Hk).
Qed.


(** ** Executions as witnesses *)

(** [ok] allows every move of the run. *)
Fixpoint run_ok (ok : conf T -> action T -> Prop) (l : list (action T)) c : Prop :=
  match l with
  | [] => True
  | a :: l' => ok c a /\ match cstep a c with Some c' => run_ok ok l' c' | None => False end
  end.

Lemma reach_run ok l c0 c c' :
  reach ok c0 c -> run_ok ok l c -> crun l c = Some c' -> reach ok c0 c'.
Proof.
  revert c. induction l as [|a l IH]; intros c Hr; simpl; [by intros _ [= <-]|].
  intros [Ha Hl] Hrun. destruct (cstep a c) as [c1|] eqn:E; [|done].
  apply (IH c1); [by eapply reach_step|done|done].
Qed.

(** ** No deadlock on the internal locks *)

(** Why a thread cannot step. *)
Definition blocked_by k g : Prop :=
  match k with
  | Idle | Finished _ | Faulted _ | DWait _ => True
  | EShared _ | DShared _ => writer g = true
  | ELockPq job => vec_get (pq_mutexes g) (priority job) = Some true
  | DLockPq p | ROLockPq p => vec_get (pq_mutexes g) p = Some true
  | ELockVm _ _ | DLockVm _ _ => vm_mutex g = true
  | PLock _ | RQLock | ROLock _ => writer g = true \/ 0 < readers g
  | _ => False
  end.

Lemma purge_loop_no_wait (l : list (Job T * N)) qs n s : purge_loop l qs n <> Wait s.
Proof.
  revert qs n. induction l as [|[j it] l IH]; intros qs n; simpl; [done|].
  repeat case_match; try done; apply IH.
Qed.

Lemma blocked_reason k g : tstep k g = None -> blocked_by k g.
Proof.
  destruct k as [| | | | | | | | | | | | | | | | | | | | |? [|n]| | | | | |];
    simpl; try done; try (step_cases; done).
  all: try (unfold lock_exclusive;
    destruct (writer g), (Nat.ltb_spec 0 (readers g)); simpl; auto; done).
  unfold act, Purge. destruct (_ !! _) as [l|]; simpl; [|done].
  destruct (purge_loop l _ _) eqn:E; simpl; try done. by apply purge_loop_no_wait in E.
Qed.

(** If nobody can step, every thread is outside a call or waits for a job. *)
Lemma only_wait_blocks g pool :
  locks_ok g pool -> (forall t k, pool !! t = Some k -> tstep k g = None) ->
  forall t k, pool !! t = Some k -> blocked_by k g ->
  may_start k = true \/ is_faulted k = true \/ exists p, k = DWait p.
Proof.
  intros Hl Hall.
  assert (forall t k, pool !! t = Some k -> blocked_by k g) as Hb
    by (intros t k Hk; by apply blocked_reason, (Hall t)).
  assert (vm_mutex g = false) as Hvm.
  { pose proof (lo_vm _ _ Hl) as H. destruct (vm_mutex g); [|done]. simpl in H.
    destruct (count_pos_inv holds_vm pool) as (t & k & Hk & Hh); [lia|].
    specialize (Hb t k Hk). by destruct k. }
  assert (forall p, vec_get (pq_mutexes g) p <> Some true) as Hpq.
  { intros p Hp. pose proof (lo_pq _ _ Hl _ _ Hp) as H. simpl in H.
    destruct (count_pos_inv (holds_pq p) pool) as (t & k & Hk & Hh); [lia|].
    specialize (Hb t k Hk). destruct k; simpl in *; congruence. }
  assert (writer g = false) as Hw.
  { pose proof (lo_excl _ _ Hl) as H. destruct (writer g) eqn:E; [|done]. simpl in H.
    destruct (count_pos_inv holds_exclusive pool) as (t & k & Hk & Hh); [lia|].
    specialize (Hb t k Hk). destruct k; simpl in *; try done. by apply Hpq in Hb. }
  assert (readers g = 0) as Hr.
  { rewrite <-(lo_shared _ _ Hl). apply count_zero. intros t k Hk. specialize (Hb t k Hk).
    destruct k; simpl in *; try done; try (by apply Hpq in Hb); congruence. }
  intros t k Hk Hbk. destruct k; simpl in *; eauto; try done;
    try (by apply Hpq in Hbk); try congruence; destruct Hbk; [congruence|lia|congruence|lia|congruence|lia].
Qed.

(** The base invariant holds as long as nobody has faulted, however many
    threads dequeue. *)
Lemma cstep_sound a c c' : cstep a c = Some c' ->
  forall t k, c.2 !! t = Some k -> is_faulted k = false.
Proof.
  destruct c as [g pool]. unfold cstep. destruct (0 <? count is_faulted pool)%nat eqn:E; [done|].
  intros _ t k Hk. apply Nat.ltb_ge in E. apply (count_zero_inv is_faulted pool t k); [lia|done].
Qed.

Lemma reach_base m n c : (m < UINT_MAX)%N -> reach start_ok (init m n) c ->
  (forall t k, c.2 !! t = Some k -> is_faulted k = false) -> base_ok c.
Proof.
  intros Hm Hr. induction Hr as [|[g pool] a c' Hr IH Ha Hc]; intros Hf; [by apply base_init|].
  pose proof (IH (cstep_sound _ _ _ Hc)) as Hb.
  destruct (cstep_inv _ _ _ _ Hc) as (t & k & k' & g' & Ht & -> & Hcase). destruct a as [t0 o|t0].
  - destruct Hcase as (-> & Hs & He & ->). by eapply start_base.
  - destruct Hcase as [-> Hs]. eapply sound_step_base; try done. apply (Hf t).
    apply list_lookup_insert_eq. by eapply lookup_lt_Some.
Qed.

(** C39. What concurrent use can break is exactly one thing.  Let any number of
    threads make calls whose priorities are in range, in any interleaving, any
    number of them dequeuing from the same priority.  If a thread has faulted,
    which ends the run, the fault is that the front of an empty queue was taken,
    some queue is empty and no other thread has faulted: no call ever erases a
    stale iterator, indexes out of range, or fails the CHECK that a popped job is
    found in the map. *)
Theorem only_empty_pop_faults (m : N) (n : nat) c t e :
  (m < UINT_MAX)%N -> reach start_ok (init m n) c -> c.2 !! t = Some (Faulted e) ->
  e = EmptyFront /\
  (exists p, vec_get (_priority_qs (queue c.1)) p = Some []) /\
  (forall t' k, c.2 !! t' = Some k -> is_faulted k = true -> t' = t).
Proof.
  intros Hm Hr Ht. destruct Hr as [|[g pool] a c' Hr Ha Hc].
  { by apply pool_lookup_replicate in Ht. }
  pose proof (cstep_sound _ _ _ Hc) as Hf. pose proof (reach_base _ _ _ Hm Hr Hf) as Hb.
  destruct (cstep_inv _ _ _ _ Hc) as (t0 & k & k' & g' & Hk & -> & Hcase). simpl in *.
  destruct (pool_lookup_cases _ _ _ _ _ _ Hk Ht) as [[-> <-]|[_ Ho]];
    [|by pose proof (Hf _ _ Ho)].
  destruct a as [t1 o|t1].
  { destruct Hcase as (-> & _ & He & ->). by destruct (entry_facts _ _ _ He Ha) as (_ & _ & ?). }
  destruct Hcase as [-> Hs]. destruct (step_fault _ _ _ _ _ _ Hk Hs Hb) as (-> & -> & p & _ & Hq).
  split; [done|]. split; [by exists p|]. intros t' k' Hk' Hfk.
  destruct (pool_lookup_cases _ _ _ _ _ _ Hk Hk') as [[-> _]|[_ Ho]]; [done|].
  by rewrite (Hf _ _ Ho) in Hfk.
Qed.

(** C21. No deadlock among the internal locks: in every configuration that any
    number of threads can reach with calls whose priorities are in range, any
    number of them dequeuing from one priority, and in which no thread has
    faulted, if no thread can take a step then every thread is outside a call or
    waits in Dequeue for its queue's "not empty" mutex.  Nobody ever waits for
    good on the purge lock, a queue's mutex or the value map's mutex. *)
Theorem internal_locks_never_deadlock (m : N) (n : nat) c :
  (m < UINT_MAX)%N -> reach start_ok (init m n) c ->
  (forall t k, c.2 !! t = Some k -> is_faulted k = false) ->
  (forall t k, c.2 !! t = Some k -> tstep k c.1 = None) ->
  forall t k, c.2 !! t = Some k -> may_start k = true \/ exists p, k = DWait p.
Proof.
  intros Hm Hr Hf Hall t k Hk.
  destruct (only_wait_blocks _ _ (bo_locks _ (reach_base _ _ _ Hm Hr Hf)) Hall t k Hk) as [?|[H|?]]; auto.
  - by apply blocked_reason, (Hall t).
  - by rewrite (Hf t k Hk) in H.
Qed.

End Safety.
(** A producer, one consumer of priority 0 and a purger; the consumer waits
    for a second job at the end. *)
Definition one_consumer_run : list (action unit) :=
  [Start 0 (OpEnqueue (Some (pool_job 1 0)));
   Start 1 (OpDequeue 0);
   Step 0; Step 0; Step 0; Step 0;
   Step 1; Step 1; Step 1; Step 1;
   Start 2 (OpPurge 7);
   Step 0; Step 0;
   Step 1; Step 1; Step 1; Step 1; Step 1;
   Step 2; Step 2;
   Start 1 (OpDequeue 0)].

Definition one_consumer_end : conf unit :=
  default (init 1 3) (crun one_consumer_run (init 1 3)).

Lemma one_consumer_reach : reach one_consumer (init 1 3) one_consumer_end.
Proof.
  apply (reach_run _ one_consumer_run _ (init 1 3)); [apply reach_refl| |vm_compute; reflexivity].
  vm_compute. repeat split; congruence.
Qed.


(** Two threads dequeue from priority 0 while one job is enqueued and another
    purged: one gets the job, the other waits. *)
Definition two_consumer_run : list (action unit) :=
  [Start 1 (OpDequeue 0); Start 2 (OpDequeue 0);
   Start 0 (OpEnqueue (Some (pool_job 1 0)));
   Step 0; Step 0; Step 0; Step 0; Step 0; Step 0;
   Step 2; Step 2; Step 2; Step 2; Step 2; Step 2; Step 2; Step 2; Step 2;
   Start 0 (OpPurge 7); Step 0; Step 0].

Definition two_consumer_end : conf unit :=
  default (init 1 3) (crun two_consumer_run (init 1 3)).

Lemma internal_locks_never_deadlock_witness :
  two_consumer_end.2 =
    [Finished (RNum 0); DWait 0; Finished (RJob (Some (pool_job 1 0)))] /\
  (may_start (T := unit) (DWait 0) = true \/ exists p, DWait (T := unit) 0 = DWait p).
Proof.
  split; [vm_compute; reflexivity|].
  apply (internal_locks_never_deadlock 1 3 two_consumer_end) with (t := 1).
  - reflexivity.
  - apply (reach_run _ two_consumer_run _ (init 1 3)); [apply reach_refl| |vm_compute; reflexivity].
    vm_compute. repeat split; congruence.
  - intros [|[|[|t]]] k Hk; vm_compute in Hk; simplify_eq; reflexivity.
  - intros [|[|[|t]]] k Hk; vm_compute in Hk; simplify_eq; reflexivity.
  - reflexivity.
Defined.

Definition purge_race_end : conf unit := default (init 1 3) (crun purge_race (init 1 3)).

Lemma only_empty_pop_faults_witness :
  purge_race_end.2 !! 2 = Some (Faulted EmptyFront) /\
  exists p, vec_get (_priority_qs (queue purge_race_end.1)) p = Some [].
Proof.
  split; [vm_compute; reflexivity|].
  apply (only_empty_pop_faults 1 3 purge_race_end 2 EmptyFront);
    [reflexivity| |vm_compute; reflexivity].
  apply (reach_run _ purge_race _ (init 1 3)); [apply reach_refl| |vm_compute; reflexivity].
  vm_compute. repeat split; congruence.
Defined.

End MQSafety.
