(* ===== verification/MultiQueueLin.v ===== *)
(** * Linearizability of MultiQueue (common/dstage/multiqueue.hh)

    Every concurrent run explains its results by a sequential run of the
    abstract FIFOs: each call takes effect at one step between its start and
    its return, and returns what the FIFOs return at that moment. *)

From stdpp Require Import prelude gmap list.
From S2P Require Import Prelude Synchronization Job BaseMultiQueue MultiQueue.
From S2P Require Import MultiQueueSpec MultiQueueRuns MultiQueueConc MultiQueueLocks.
From S2P Require Import MultiQueueSafety.

Module MQLin.
Import MQ MQSpec MQRuns MQConc MQLocks MQSafety.

Section Lin.
Context {T : Type}.
Implicit Types (g : shared T) (pool : list (pc T)) (k : pc T) (c : conf T).
Implicit Types (Q L : list (list (N * Job T))).

(** ** The sequential specification *)

(** The abstract calls: those of the FIFOs, the releases, and a Dequeue that
    returns nullptr, which only a release permits. *)
Inductive abs_call : Type :=
| ACall (o : mq_op T)
| ANull.

Record spec := mkSpec {
  fifos : list (list (Job T));
  some_release : bool
}.

Definition exec_spec (o : abs_call) (s : spec) : option (result T * spec) :=
  match o with
  | ACall OpReleaseQueues | ACall (OpReleaseOne _) => Some (RUnit, mkSpec (fifos s) true)
  | ACall o =>
      match exec_abs o (fifos s) with
      | Done r A => Some (r, mkSpec A (some_release s))
      | _ => None
      end
  | ANull => if some_release s then Some (RJob None, s) else None
  end.

(** ** Linearization points *)

(** The call that takes effect when a thread moves from [k] to [k']. *)
Definition lin_point k k' : option abs_call :=
  match k with
  | EInsert job => Some (ACall (OpEnqueue (Some job)))
  | DPop p => Some (ACall (OpDequeue p))
  | PBody id => Some (ACall (OpPurge id))
  | RQSet => Some (ACall OpReleaseQueues)
  | ROSet p => Some (ACall (OpReleaseOne p))
  | DRelease _ | DNull _ =>
      match k' with Finished (RJob None) => Some ANull | _ => None end
  | _ => None
  end.

(** The specification's state, and for each thread the result its current call
    was given when it took effect. *)
Record ghost := mkGhost {
  abs : spec;
  given : list (option (result T))
}.

(** One move of the run, replayed on the specification.  [None] when a call
    takes effect twice or the specification has no such step. *)
Definition gstep (a : action T) c (c' : conf T) (s : ghost) : option ghost :=
  match a with
  | Start t _ => Some (mkGhost (abs s) (<[t := None]> (given s)))
  | Step t =>
      k ← c.2 !! t;
      k' ← c'.2 !! t;
      match lin_point k k' with
      | None => Some s
      | Some o =>
          match given s !! t with
          | Some None =>
              r ← exec_spec o (abs s);
              Some (mkGhost r.2 (<[t := Some r.1]> (given s)))
          | _ => None
          end
      end
  end.

Fixpoint replay (l : list (action T)) c (s : ghost) : option ghost :=
  match l with
  | [] => Some s
  | a :: l' => c' ← cstep a c; s' ← gstep a c c' s; replay l' c' s'
  end.

Definition ghost_init (max_priority : N) (threads : nat) : ghost :=
  mkGhost (mkSpec (replicate (N.to_nat (max_priority + 1)) []) false)
    (replicate threads None).

(** ** What the replay maintains *)

(** A program point of a call that has taken effect. *)
Definition effective k : bool :=
  match k with
  | ESignal _ _ | ELockVm _ _ | EMap _ _ | DSignal _ _ | DLockVm _ _ | DTake _ _
  | RQLoop _ _ | ROUnlock _ | Finished _ => true
  | _ => false
  end.

(** The result a thread will return, or has returned; for a job that was popped
    it is the job at the front of what the map will hold when the thread's turn
    comes. *)
Definition owes pool Q k (r : result T) : Prop :=
  match k with
  | ESignal _ _ | ELockVm _ _ | EMap _ _ | RQLoop _ _ | ROUnlock _ => r = RUnit
  | DSignal p _ | DLockVm p _ => exists q x mid, vec_get Q p = Some q /\
      stage pool (pend_vm p) q (x :: mid) /\ r = RJob (Some x.2)
  | DTake p _ => exists x q, vec_get Q p = Some (x :: q) /\ r = RJob (Some x.2)
  | Finished r' => r = r'
  | _ => True
  end.

(** The flags behind a nullptr are only set by a release. *)
Definition release_seen g pool (b : bool) : Prop :=
  b = false ->
  _released (queue g) = false /\
  (forall p x, vec_get (_release_one (queue g)) p = Some x -> x = false) /\
  forall t k, pool !! t = Some k -> forall p, k <> DNull p.

Record lin_ok c (s : ghost) Q L : Prop := mk_lin_ok {
  li_abs : fifos (abs s) = jobs_of L;
  li_len : length (given s) = length c.2;
  li_given : forall t k, c.2 !! t = Some k ->
    if effective k then exists r, given s !! t = Some (Some r) /\ owes c.2 Q k r
    else k = Idle \/ given s !! t = Some None;
  li_seen : release_seen c.1 c.2 (some_release (abs s))
}.

(** ** How a step relates to the linearization point *)

Lemma tstep_before k g k' g' o :
  tstep k g = Some (k', g') -> is_faulted k' = false -> lin_point k k' = Some o ->
  effective k = false /\ effective k' = true.
Proof.
  destruct k as [| | | | | | | | | | | | | | | | | | | | |p [|n]| | | | | |];
    simpl; try done; step_cases; done.
Qed.

Lemma tstep_flow k g k' g' :
  tstep k g = Some (k', g') -> is_faulted k' = false -> lin_point k k' = None ->
  effective k' = effective k.
Proof.
  destruct k as [| | | | | | | | | | | | | | | | | | | | |p [|n]| | | | | |];
    simpl; try done; step_cases; done.
Qed.

Lemma effect_no_lin k k' Q L Q' L' :
  effect k k' Q L Q' L' -> lin_point k k' = None -> L' = L.
Proof.
  destruct k; simpl; try done; try (by intros [_ ->]).
  - by intros (q & _ & _ & _ & ->).
  - by intros (x & q & _ & _ & _ & _ & ->).
Qed.

(** Only a release sets the flags that make a Dequeue return nullptr. *)
Definition is_release k : bool :=
  match k with RQSet | ROSet _ => true | _ => false end.

Lemma Purge_flags id (mq : @MultiQueue T) n mq' :
  Purge id mq = Done n mq' ->
  _released mq' = _released mq /\ _release_one mq' = _release_one mq.
Proof. unfold Purge. repeat case_match; by intros [= <- <-]. Qed.

Lemma seen_step g pool t k k' g' :
  pool !! t = Some k -> tstep k g = Some (k', g') -> is_release k = false ->
  release_seen g pool false -> release_seen g' (<[t := k']> pool) false.
Proof.
  intros Ht Hs Hk Hr _. destruct (Hr eq_refl) as (R1 & R2 & R3).
  assert (_released (queue g') = _released (queue g) /\
    (forall p x, vec_get (_release_one (queue g')) p = Some x ->
       x = false \/ vec_get (_release_one (queue g)) p = Some x) /\
    (forall p, k' = DNull p -> _released (queue g) = true)) as (E1 & E2 & E3).
  { revert Hs. destruct k as [| | | | | | | | | | | | | | | | | | | | |p [|n]| | | | | |];
      simpl in *; try done; step_cases; repeat split; try done; auto.
    all: intros; rewrite ?vec_get_set in *; repeat case_match; simplify_eq; eauto.
    all: match goal with H : Purge _ _ = _ |- _ => destruct (Purge_flags _ _ _ _ H) end; congruence || (right; congruence). }
  split; [congruence|]. split; [intros p x Hx; destruct (E2 p x Hx) as [?|?]; eauto|].
  intros t' k0 H p ->. destruct (pool_lookup_cases _ _ _ _ _ _ Ht H) as [[-> ?]|[_ ?]].
  - rewrite (E3 p) in R1 by done. done.
  - by eapply R3.
Qed.

(** ** What other threads are owed *)

(** A mutex has one holder. *)
Lemma pq_one_holder g pool t t' k k0 p :
  locks_ok g pool -> pool !! t = Some k -> pool !! t' = Some k0 -> t' <> t ->
  holds_pq p k = true -> holds_pq p k0 = true -> (p < N.of_nat (length (pq_mutexes g)))%N ->
  False.
Proof.
  intros Hl Ht Ht' Hne Hk Hk0 Hlt. destruct (vec_get_lt _ _ Hlt) as [b Hb].
  pose proof (count_two (holds_pq p) pool t t' k k0 Ht Ht' Hk Hk0 ltac:(congruence)).
  rewrite (lo_pq _ _ Hl _ _ Hb) in *. destruct b; simpl in *; lia.
Qed.

Lemma vm_one_holder g pool t t' k k0 :
  locks_ok g pool -> pool !! t = Some k -> pool !! t' = Some k0 -> t' <> t ->
  holds_vm k = true -> holds_vm k0 = true -> False.
Proof.
  intros Hl Ht Ht' Hne Hk Hk0.
  pose proof (count_two holds_vm pool t t' k k0 Ht Ht' Hk Hk0 ltac:(congruence)).
  rewrite (lo_vm _ _ Hl) in *. destruct (vm_mutex g); simpl in *; lia.
Qed.

Lemma purge_alone g pool t t' i k0 :
  locks_ok g pool -> pool !! t = Some (PBody i) -> pool !! t' = Some k0 ->
  holds_shared k0 = true -> False.
Proof.
  intros Hl Ht Ht' Hk. pose proof (exclusive_quiet _ _ _ _ Hl Ht eq_refl) as Hc.
  by rewrite (count_zero_inv _ _ _ _ Hc Ht') in Hk.
Qed.

(** How a step of another thread moves the content the map will have once its
    holder is done. *)
Lemma mid_other g pool t k k' g' t' k0 p q b Q L Q' L' :
  pool !! t = Some k -> pool !! t' = Some k0 -> t' <> t -> locks_ok g pool ->
  holds_pq p k0 = true -> holds_shared k0 = true ->
  (p < N.of_nat (length (pq_mutexes g)))%N ->
  tstep k g = Some (k', g') -> is_faulted k' = false -> effect k k' Q L Q' L' ->
  vec_get Q p = Some q -> stage pool (pend_vm p) q b ->
  exists q', vec_get Q' p = Some q' /\ stage (<[t := k']> pool) (pend_vm p) q' b.
Proof.
  intros Ht Ht' Hne Hl Hpq Hsh Hlt Hs Hf He Hq Hst.
  assert (forall f, f k' = f k -> Q' = Q -> f = pend_vm p ->
    exists q', vec_get Q' p = Some q' /\ stage (<[t := k']> pool) (pend_vm p) q' b) as Hsame.
  { intros f Hfk -> ->. exists q. split; [done|]. by apply (stage_same _ t k). }
  assert (forall e p' q0 q1, holds_vm k = true -> pend_vm p k' = None ->
    (forall p0, pend_vm p0 k = if (p' =? p0)%N then Some e else None) ->
    vec_get Q p' = Some q0 -> apply_pending e q0 = Some q1 -> Q' = vec_set p' q1 Q ->
    exists q', vec_get Q' p = Some q' /\ stage (<[t := k']> pool) (pend_vm p) q' b) as Hmap.
  { intros e p' q0 q1 Hv Hk' Hp' Hq0 He0 ->.
    pose proof (vm_alone g pool t k p Hl Ht (or_introl Hv)) as Hva.
    specialize (Hp' p). destruct (N.eqb_spec p' p) as [->|Hn].
    - assert (q0 = q) as -> by congruence.
      pose proof (stage_some _ _ _ _ _ _ _ Ht Hp' Hva Hst) as Hb.
      assert (b = q1) as -> by congruence. exists q1. rewrite vec_get_set_eq by (by eapply vec_get_Some_lt). split; [done|].
      by eapply stage_set_none.
    - exists q. rewrite vec_get_set_ne by done. split; [done|].
      apply (stage_same _ t k); congruence. }
  destruct k as [| | | | | | | | | | | | | | | | | | | | |p1 [|n1]| | | | | |];
    simpl in He; try done.
  all: try (destruct He as [HQ _]; apply (Hsame (pend_vm p)); [|done|done];
    revert Hs Hf; simpl; step_cases; done).
  - destruct He as (it & l & -> & _ & HQ & _). by apply (Hsame (pend_vm p)).
  - destruct He as [HQ _]. apply (Hsame (pend_vm p)); [|done|done].
    simpl in Hs. unfold lock_vm_release_pq in Hs. case_match; [done|]. injection Hs as <- _.
    simpl. destruct (N.eqb_spec (priority job) p) as [Hp|]; [|done].
    destruct (pq_one_holder g pool t t' _ k0 p Hl Ht Ht' Hne); [|done|done].
    simpl. by apply N.eqb_eq.
  - destruct He as (q0 & -> & Hq0 & HQ & _).
    by apply (Hmap (PEnq (iter, job)) (priority job) q0 (q0 ++ [(iter, job)])).
  - destruct He as (x & l & -> & _ & HQ & _). by apply (Hsame (pend_vm p)).
  - destruct He as [HQ _]. apply (Hsame (pend_vm p)); [|done|done].
    simpl in Hs. unfold lock_vm_release_pq in Hs. case_match; [done|]. injection Hs as <- _.
    simpl. destruct (N.eqb_spec p0 p) as [Hp|]; [|done].
    destruct (pq_one_holder g pool t t' _ k0 p Hl Ht Ht' Hne); [|done|done].
    simpl. by apply N.eqb_eq.
  - destruct He as (x & q0 & -> & Hj & Hq0 & HQ & _).
    apply (Hmap (PDeq jid) p0 (x :: q0) q0); try done. simpl. by rewrite Hj, N.eqb_refl.
  - by destruct (purge_alone g pool t t' id k0).
Qed.

Lemma owes_other g pool t k k' g' t' k0 Q L Q' L' r :
  pool !! t = Some k -> pool !! t' = Some k0 -> t' <> t -> locks_ok g pool ->
  tstep k g = Some (k', g') -> is_faulted k' = false -> effect k k' Q L Q' L' ->
  owes pool Q k0 r -> owes (<[t := k']> pool) Q' k0 r.
Proof.
  intros Ht Ht' Hne Hl Hs Hf He Ho.
  pose proof (lo_range _ _ Hl _ _ Ht') as Hr.
  assert (forall p, holds_pq p k0 = true -> holds_shared k0 = true ->
    (p < N.of_nat (length (pq_mutexes g)))%N ->
    (exists q x mid, vec_get Q p = Some q /\ stage pool (pend_vm p) q (x :: mid) /\
      r = RJob (Some x.2)) ->
    exists q x mid, vec_get Q' p = Some q /\
      stage (<[t := k']> pool) (pend_vm p) q (x :: mid) /\ r = RJob (Some x.2)) as Hpq.
  { intros p Hh Hsh Hlt (q & x & mid & Hq & Hst & ->).
    destruct (mid_other g pool t k k' g' t' k0 p q (x :: mid) Q L Q' L') as (q' & ? & ?);
      eauto 10. }
  destruct k0; simpl in *; try done; try (apply Hpq; try done; by apply N.eqb_refl).
  destruct Ho as (x & q & Hq & ->). exists x, q. split; [|done].
  destruct k; simpl in He;
    try (by destruct He as [-> _]); try (by destruct (purge_alone g pool t t' id (DTake p jid)));
    try (by destruct (vm_one_holder g pool t t' _ _ Hl Ht Ht' Hne));
    by destruct He as (? & ? & _ & _ & -> & _).
Qed.

(** ** A thread's own steps *)

(** After the linearization point the result is fixed. *)
Lemma owes_own g pool t k k' g' Q L Q' L' r :
  pool !! t = Some k -> locks_ok g pool -> tstep k g = Some (k', g') ->
  is_faulted k' = false -> effect k k' Q L Q' L' -> effective k = true ->
  owes pool Q k r -> owes (<[t := k']> pool) Q' k' r.
Proof.
  intros Ht Hl Hs Hf He Hk Ho.
  destruct k as [| | | | | | | | | | | | | | | | | | | | |p1 [|n1]| | | | | |];
    simpl in Hk; try done; simpl in Ho, He.
  all: try (subst r; revert Hs Hf; simpl; step_cases; done).
  - destruct Ho as (q & x & mid & Hq & Hst & ->). destruct He as [-> _].
    assert (k' = DLockVm p jid) as -> by (revert Hs Hf; simpl; step_cases; done).
    exists q, x, mid. split; [done|]. split; [|done]. by apply (stage_same _ t (DSignal p jid)).
  - destruct Ho as (q & x & mid & Hq & Hst & ->). destruct He as [-> _].
    simpl in Hs. unfold lock_vm_release_pq in Hs. destruct (vm_mutex g) eqn:Hvm; [done|].
    injection Hs as <- _.
    pose proof (vm_alone g pool t _ p Hl Ht (or_intror Hvm)) as Hva.
    rewrite (stage_none _ _ _ _ _ _ Ht eq_refl Hva Hst) in Hq. by exists x, mid.
  - destruct Ho as (x & q & Hq & ->). destruct He as (x' & q' & -> & _ & Hq' & _).
    simpl. congruence.
Qed.

(** At its linearization point a call does what the specification does. *)
Lemma lin_own g pool t k k' g' Q L Q' L' o s :
  pool !! t = Some k -> locks_ok g pool -> data_ok (queue g) pool Q L ->
  tstep k g = Some (k', g') -> is_faulted k' = false -> effect k k' Q L Q' L' ->
  lin_point k k' = Some o -> fifos s = jobs_of L ->
  release_seen g pool (some_release s) ->
  exists r s', exec_spec o s = Some (r, s') /\ fifos s' = jobs_of L' /\
    owes (<[t := k']> pool) Q' k' r /\
    release_seen g' (<[t := k']> pool) (some_release s').
Proof.
  intros Ht Hl Hd Hs Hf He Ho HA Hseen.
  assert (is_release k = false -> some_release s = false ->
    release_seen g' (<[t := k']> pool) (some_release s)) as Hkeep.
  { intros Hk E. rewrite E in *. by apply (seen_step g pool t k). }
  assert (is_release k = false -> release_seen g' (<[t := k']> pool) (some_release s)) as Hkeep'.
  { intros Hk. destruct (some_release s) eqn:E; [done|]. by apply Hkeep. }
  destruct k as [| | | | | | | | | | | | | | | | | | | | |p1 [|n1]| | | | | |];
    simpl in Ho; try done; simpl in He.
  - destruct He as (it & l & -> & Hl0 & -> & ->). injection Ho as <-.
    simpl. rewrite HA. unfold jobs_of at 1. rewrite vec_get_fmap, Hl0. simpl.
    eexists _, _. split; [done|]. simpl. rewrite jobs_of_enqueue by done. eauto.
  - destruct He as [-> ->]. assert (some_release s = true) as Hrel.
    { destruct (some_release s) eqn:E; [done|]. destruct (Hseen eq_refl) as (_ & R2 & _).
      revert Hs Ho. simpl. step_cases. by specialize (R2 _ _ ltac:(eassumption)). }
    repeat case_match; simplify_eq. simpl. rewrite Hrel. eexists _, s. eauto.
  - destruct He as [-> ->]. assert (some_release s = true) as Hrel.
    { destruct (some_release s) eqn:E; [done|]. destruct (Hseen eq_refl) as (_ & _ & R3).
      by destruct (R3 _ _ Ht p). }
    repeat case_match; simplify_eq. simpl. rewrite Hrel. eexists _, s. eauto.
  - destruct He as (x & l & -> & Hx & -> & ->). injection Ho as <-.
    simpl. rewrite HA. unfold jobs_of at 1. rewrite vec_get_fmap, Hx. simpl.
    eexists _, _. split; [done|]. simpl. split; [|split; [|by apply Hkeep']].
    + unfold jobs_of. by rewrite vec_set_fmap.
    + assert (p < N.of_nat (length (pq_mutexes g)))%N as Hlt
        by (rewrite (data_len_pq _ _ _ _ Hl Hd); by eapply vec_get_Some_lt).
      destruct (vec_get_lt Q p) as [q Hq];
        [rewrite (do_lenQ _ _ _ _ Hd); by eapply vec_get_Some_lt|].
      destruct (do_link _ _ _ _ Hd _ _ _ Hq Hx) as (mid & Hs1 & Hs2).
      pose proof (pq_alone _ _ _ _ _ Hl Ht (N.eqb_refl p) Hlt) as Hpa.
      rewrite (stage_none _ _ _ _ _ _ Ht eq_refl Hpa Hs2) in Hs1.
      exists q, x, l. split; [done|]. split; [|done]. by apply (stage_same _ t (DPop p)).
  - destruct He as (-> & -> & -> & ->). injection Ho as <-. simpl.
    eexists _, _. split; [done|]. simpl. rewrite HA, jobs_of_purge. eauto.
  - destruct He as [-> ->]. injection Ho as <-. eexists _, _. split; [done|]. simpl.
    split; [done|]. split; [|done]. revert Hs Hf. simpl. by step_cases.
  - destruct He as [-> ->]. injection Ho as <-. eexists _, _. split; [done|]. simpl.
    split; [done|]. split; [|done]. revert Hs Hf. simpl. by step_cases.
Qed.

(** ** The simulation *)

Lemma lin_init m n : (m < UINT_MAX)%N ->
  lin_ok (init m n) (ghost_init m n) (empty_content m) (empty_content (T := T) m).
Proof.
  intros Hm. split; simpl.
  - unfold jobs_of, empty_content. by rewrite fmap_replicate.
  - by rewrite !length_replicate.
  - intros t k Hk. rewrite (pool_lookup_replicate _ _ _ Hk). simpl. by left.
  - intros _. split; [done|]. split.
    + intros p x Hx. unfold vec_get in Hx. by apply lookup_replicate_1 in Hx as [-> _].
    + intros t k Hk p. by rewrite (pool_lookup_replicate _ _ _ Hk).
Qed.

Definition unfaulted c : Prop := forall t k, c.2 !! t = Some k -> is_faulted k = false.

Lemma given_other (l : list (option (result T))) t t' x y :
  t' <> t -> l !! t' = x -> <[t := y]> l !! t' = x.
Proof. intros Hne <-. by rewrite list_lookup_insert_ne by done. Qed.

Lemma lin_start g pool t k k' o s Q L :
  pool !! t = Some k -> may_start k = true -> entry o = Some k' ->
  is_faulted k' = false -> lin_ok (g, pool) s Q L ->
  lin_ok (g, <[t := k']> pool) (mkGhost (abs s) (<[t := None]> (given s))) Q L.
Proof.
  intros Ht Hm He Hf [L1 L2 L3 L4]. simpl in *.
  assert (effective k' = false /\ (forall p, k' <> DNull p) /\ (forall p, pend_vm p k' = None))
    as (Hk & Hn & Hv) by (destruct o as [[?|]| | | | | |]; simplify_eq/=; done).
  split; simpl; rewrite ?length_insert; try done.
  - intros t' k0 H. destruct (pool_lookup_cases _ _ _ _ _ _ Ht H) as [[-> ->]|[Hne H']].
    + rewrite Hk. right. apply list_lookup_insert_eq. rewrite L2. by eapply lookup_lt_Some.
    + specialize (L3 t' k0 H'). destruct (effective k0).
      * destruct L3 as (r & Hr & Ho). exists r. split; [by apply given_other|].
        destruct k0; simpl in *; try done;
          destruct Ho as (q & x & mid & Hq & Hst & ->); exists q, x, mid;
          (split; [done|]; split; [|done]); apply (stage_same _ t k); try done;
          by rewrite Hv; destruct k.
      * destruct L3 as [?|?]; [by left|right; by apply given_other].
  - intros Hb. destruct (L4 Hb) as (R1 & R2 & R3). split; [done|]. split; [done|].
    intros t' k0 H. destruct (pool_lookup_cases _ _ _ _ _ _ Ht H) as [[-> ->]|[_ ?]]; eauto.
Qed.

Lemma lin_tstep g pool t k k' g' s Q L Q' L' :
  pool !! t = Some k -> locks_ok g pool -> data_ok (queue g) pool Q L ->
  tstep k g = Some (k', g') -> is_faulted k' = false -> effect k k' Q L Q' L' ->
  lin_ok (g, pool) s Q L ->
  exists s', gstep (Step t) (g, pool) (g', <[t := k']> pool) s = Some s' /\
    lin_ok (g', <[t := k']> pool) s' Q' L'.
Proof.
  intros Ht Hl Hd Hs Hf He Hok. pose proof Hok as [L1 L2 L3 L4]. simpl in *.
  rewrite Ht. simpl. rewrite list_lookup_insert_eq by (by eapply lookup_lt_Some). simpl.
  assert (forall t' k0, t' <> t -> pool !! t' = Some k0 ->
    if effective k0 then exists r, given s !! t' = Some (Some r) /\
      owes (<[t := k']> pool) Q' k0 r
    else k0 = Idle \/ given s !! t' = Some None) as Hother.
  { intros t' k0 Hne H. specialize (L3 t' k0 H). destruct (effective k0); [|done].
    destruct L3 as (r & Hr & Ho). exists r. split; [done|]. by eapply owes_other. }
  destruct (lin_point k k') as [o|] eqn:Elin.
  - destruct (lin_own _ _ _ _ _ _ _ _ _ _ _ _ Ht Hl Hd Hs Hf He Elin L1 L4)
      as (r & s' & Hex & HA & Hr & Hseen).
    destruct (tstep_before _ _ _ _ _ Hs Hf Elin) as [Hb Ha].
    pose proof (L3 t k Ht) as Hg. rewrite Hb in Hg.
    destruct Hg as [->|Hg]; [done|]. rewrite Hg, Hex. simpl. eexists. split; [done|].
    split; simpl; rewrite ?length_insert; try done.
    intros t' k0 H. destruct (pool_lookup_cases _ _ _ _ _ _ Ht H) as [[-> ->]|[Hne H']].
    + rewrite Ha. exists r. split; [|done]. apply list_lookup_insert_eq.
      rewrite L2. by eapply lookup_lt_Some.
    + specialize (Hother t' k0 Hne H'). destruct (effective k0).
      * destruct Hother as (r0 & ? & ?). exists r0. split; [by apply given_other|done].
      * destruct Hother as [?|?]; [by left|right; by apply given_other].
  - exists s. split; [done|]. pose proof (tstep_flow _ _ _ _ Hs Hf Elin) as Hfl.
    split; simpl; rewrite ?length_insert; try done.
    + by rewrite (effect_no_lin _ _ _ _ _ _ He Elin).
    + intros t' k0 H. destruct (pool_lookup_cases _ _ _ _ _ _ Ht H) as [[-> ->]|[Hne H']];
        [|by apply Hother]. rewrite Hfl. specialize (L3 t k Ht).
      destruct (effective k) eqn:Ek.
      * destruct L3 as (r & Hr & Ho). exists r. split; [done|]. by eapply owes_own.
      * destruct L3 as [->|?]; [done|by right].
    + destruct (some_release (abs s)) eqn:E; [done|]. apply (seen_step g pool t k); try done.
      by destruct k.
Qed.

Lemma tstep_max (k k' : pc T) g g' :
  tstep k g = Some (k', g') -> _max_prio (queue g') = _max_prio (queue g).
Proof.
  destruct k as [| | | | | | | | | | | | | | | | | | | | |p [|n]| | | | | |];
    simpl; try done; try (by step_cases).
  unfold act. intros H. destruct (Purge id (queue g)) eqn:E; simplify_eq/=; [|done].
  by apply (keeps_max_purge _ _ _ _ E).
Qed.

Lemma crun_max l c c' : crun l c = Some c' -> _max_prio (queue c'.1) = _max_prio (queue c.1).
Proof.
  revert c. induction l as [|a l IH]; simpl; [by intros c [= <-]|].
  intros [g pool] (c1 & Hc & Hr)%bind_Some. rewrite (IH _ Hr).
  destruct (cstep_inv _ _ _ _ Hc) as (t & k & k' & g' & _ & -> & Ha). simpl.
  destruct a; [by destruct Ha as (_ & _ & _ & ->)|destruct Ha as [_ Hs]; by eapply tstep_max].
Qed.

(** A run that goes on has no faulted thread. *)
Lemma crun_unfaulted l c c' : crun l c = Some c' -> unfaulted c' -> unfaulted c.
Proof.
  destruct l as [|a l]; simpl; [by intros [= <-]|].
  intros (c1 & Hc & _)%bind_Some _ t k Hk. unfold cstep in Hc. destruct c as [g pool].
  destruct (0 <? count is_faulted pool)%nat eqn:E; [done|]. apply Nat.ltb_ge in E.
  apply (count_zero_inv is_faulted pool t k); [lia|done].
Qed.

Lemma replay_run l c s Q L c' :
  locks_ok c.1 c.2 -> data_ok (queue c.1) c.2 Q L -> lin_ok c s Q L ->
  run_ok start_ok l c -> crun l c = Some c' -> unfaulted c' ->
  exists s' Q' L', replay l c s = Some s' /\ data_ok (queue c'.1) c'.2 Q' L' /\
    lin_ok c' s' Q' L'.
Proof.
  revert c s Q L. induction l as [|a l IH]; intros c s Q L Hl Hd Hok Hrun Hc Hf; simpl in *.
  { injection Hc as <-. by exists s, Q, L. }
  destruct Hrun as [Ha Hrun]. apply bind_Some in Hc as (c1 & Hc1 & Hc).
  rewrite Hc1 in *. simpl. pose proof (crun_unfaulted _ _ _ Hc Hf) as Hf1.
  destruct c as [g pool]. destruct (cstep_inv _ _ _ _ Hc1) as (t & k & k' & g' & Ht & -> & Hcase).
  assert (is_faulted k' = false) as Hk'.
  { apply (Hf1 t k'). apply list_lookup_insert_eq. by eapply lookup_lt_Some. }
  simpl in Hl, Hd. destruct a as [t0 o|t0].
  - destruct Hcase as (-> & Hm & He & ->).
    destruct (start_data _ _ _ _ _ _ _ _ Ht Hm He Ha Hl Hd) as (Hl' & Hd' & _). simpl.
    eapply IH; eauto. by eapply lin_start.
  - destruct Hcase as [-> Hs].
    destruct (tstep_data _ _ _ _ _ _ _ _ Ht Hl Hd Hs Hk') as (Q' & L' & Hd' & He).
    destruct (lin_tstep _ _ _ _ _ _ _ _ _ _ _ Ht Hl Hd Hs Hk' He Hok) as (s' & Hg & Hok').
    rewrite Hg. simpl. eapply IH; eauto. by eapply tstep_locks.
Qed.

(** The queues hold the ids of the FIFOs. *)
Lemma lin_ids c s Q L :
  data_ok (queue c.1) c.2 Q L -> lin_ok c s Q L ->
  (fun q : list (N * N) => q.*2) <$> _priority_qs (queue c.1) =
    (fun q => job_id <$> q) <$> fifos (abs s).
Proof.
  intros Hd Hok. rewrite (li_abs _ _ _ _ Hok), (do_qs _ _ _ _ Hd). unfold jobs_of.
  rewrite <-!list_fmap_compose. apply list_fmap_ext. intros i q _. simpl.
  unfold node_views. by rewrite <-!list_fmap_compose.
Qed.

(** C1. MultiQueue is linearizable.  Take any run of any number of threads that
    call Enqueue, Dequeue, Purge, ReleaseQueues and ReleaseOne, with their steps
    interleaved at every lock operation, in which no thread has faulted.
    Replaying it on the sequential FIFOs, each call exactly once and at a step
    between its start and its return, succeeds; every call that has returned
    returned what the FIFOs gave it, a Dequeue returns nullptr only after a
    release, and the queues hold the ids of the FIFOs. *)
Theorem multiqueue_linearizable (m : N) (n : nat) l c :
  (m < UINT_MAX)%N -> run_ok start_ok l (init m n) -> crun l (init m n) = Some c ->
  unfaulted c ->
  exists s, replay l (init m n) (ghost_init m n) = Some s /\
    (forall t r, c.2 !! t = Some (Finished r) -> given s !! t = Some (Some r)) /\
    (fun q : list (N * N) => q.*2) <$> _priority_qs (queue c.1) =
      (fun q => job_id <$> q) <$> fifos (abs s).
Proof.
  intros Hm Hrun Hc Hf.
  destruct (replay_run l (init m n) (ghost_init m n) (empty_content m) (empty_content m) c)
    as (s & Q & L & Hs & Hd & [L1 L2 L3 L4]);
    try done; [by apply base_init|by apply data_init|by apply lin_init|].
  exists s. split; [done|]. split.
  - intros t r Hr. destruct (L3 t _ Hr) as (r' & ? & ->). done.
  - by eapply (lin_ids c s); [|split].
Qed.

(** Size and Empty, which take no lock, return what they would return on the
    FIFOs of that moment, whatever the other threads are doing. *)
Theorem unlocked_reads_agree (m : N) (n : nat) l c :
  (m < UINT_MAX)%N -> run_ok start_ok l (init m n) -> crun l (init m n) = Some c ->
  unfaulted c ->
  exists s, replay l (init m n) (ghost_init m n) = Some s /\
    forall p, (p <= m)%N -> exists q, vec_get (fifos (abs s)) p = Some q /\
      Size p (queue c.1) = Done (u32 (N.of_nat (length q))) (queue c.1) /\
      Empty p (queue c.1) = Done (bool_decide (q = [])) (queue c.1).
Proof.
  intros Hm Hrun Hc Hf.
  destruct (replay_run l (init m n) (ghost_init m n) (empty_content m) (empty_content m) c)
    as (s & Q & L & Hs & Hd & Hok);
    try done; [by apply base_init|by apply data_init|by apply lin_init|].
  exists s. split; [done|]. intros p Hp.
  assert (_max_prio (queue c.1) = m) as Emax by (by apply (crun_max l (init m n))).
  destruct (vec_get_lt L p) as [q Hq]; [rewrite (do_len _ _ _ _ Hd); lia|].
  exists q.*2. rewrite (li_abs _ _ _ _ Hok). unfold jobs_of. rewrite vec_get_fmap, Hq.
  split; [done|]. unfold Size, Empty. unM. rewrite Emax. destruct (N.leb_spec p m); [|lia].
  rewrite (do_qs _ _ _ _ Hd), vec_get_fmap, Hq. simpl. unfold node_views.
  rewrite !length_fmap. split; [done|]. by destruct q.
Qed.

End Lin.

(** Two producers and a consumer: the second producer overtakes the first, and
    the consumer gets the second producer's job. *)
Definition overtaking_run : list (action unit) :=
  [Start 0 (OpEnqueue (Some (pool_job 1 0))); Start 1 (OpEnqueue (Some (pool_job 2 0)));
   Start 2 (OpDequeue 0);
   Step 0; Step 1; Step 1; Step 1; Step 1; Step 2; Step 2; Step 2; Step 1; Step 0; Step 1;
   Step 0; Step 0; Step 0; Step 2; Step 0; Step 2; Step 2; Step 2; Step 2; Step 2].

Definition overtaking_end : conf unit :=
  default (init 1 3) (crun overtaking_run (init 1 3)).

Lemma multiqueue_linearizable_witness : exists s,
  crun overtaking_run (init 1 3) = Some overtaking_end /\
  replay overtaking_run (init 1 3) (ghost_init 1 3) = Some s /\
  given s !! 2 = Some (Some (RJob (Some (pool_job 2 0)))).
Proof.
  assert (unfaulted overtaking_end) as Hf
    by (intros [|[|[|t]]] k Hk; vm_compute in Hk; simplify_eq; reflexivity).
  assert (run_ok start_ok overtaking_run (init 1 3)) as Hok by (vm_compute; repeat split; discriminate).
  assert (crun overtaking_run (init 1 3) = Some overtaking_end) as Hc
    by (vm_compute; reflexivity).
  destruct (multiqueue_linearizable 1 3 overtaking_run overtaking_end eq_refl Hok Hc Hf)
    as (s & Hs & Hg & _).
  exists s. split; [exact Hc|]. split; [exact Hs|]. apply Hg. vm_compute. reflexivity.
Defined.

End MQLin.
