(* ===== verification/MultiQueueWake.v ===== *)
(** * A queue that holds a job has somebody to take it

    A wake-up of the concurrent MultiQueue is never lost while nobody calls
    ReleaseOne or Purge, for any number of producers and consumers, on every priority (the
    lowest one included, whose mutex the constructor leaves unlocked), with
    ReleaseQueues: as long as a queue holds a job, its "not empty" mutex is
    unlocked, or a consumer has just taken it, or a thread is about to unlock
    it. *)

From stdpp Require Import prelude gmap list.
From S2P Require Import Prelude Synchronization Job BaseMultiQueue MultiQueue.
From S2P Require Import MultiQueueSpec MultiQueueRuns MultiQueueConc MultiQueueLocks.
From S2P Require Import MultiQueueSafety.

Module MQWake.
Import MQ MQSpec MQRuns MQConc MQLocks MQSafety.

Section Wake.
Context {T : Type}.
Implicit Types (g : shared T) (pool : list (pc T)) (k : pc T).

(** A thread that will look at the queue of [p] or unlock its mutex, when the
    queue has [n] jobs. *)
Definition wakes (p : N) (n : nat) k : bool :=
  match k with
  | DRelease p' | DShared p' | DCheck p' | DNull p' | DLockPq p' | DPop p' | DSignal p' _ =>
      (p' =? p)%N
  | ESignal job _ => (priority job =? p)%N && (n =? 1)
  | _ => false
  end.

Definition awake g pool (p : N) : Prop :=
  forall q, vec_get (_priority_qs (queue g)) p = Some q -> q <> [] ->
    vec_get (_not_empty_mutexes (queue g)) p = Some false \/
    exists t k, pool !! t = Some k /\ wakes p (length q) k = true.

(** No flag of ReleaseOne is set. *)
Definition no_release_one g : Prop :=
  forall p b, vec_get (_release_one (queue g)) p = Some b -> b = false.

(** Program points of Purge and ReleaseOne. *)
Definition disturbs k : bool :=
  match k with PBody _ | ROLock _ | ROLockPq _ | ROSet _ | ROUnlock _ => true | _ => false end.

(** Who may wake does not depend on the length, inserting threads apart, and
    those hold the queue's mutex. *)
Lemma wakes_length p n n' k : wakes p n k = true -> wakes p n' k = true \/ holds_pq p k = true.
Proof. destruct k; simpl; auto. intros [-> _]%andb_prop. by right. Qed.

Lemma wakes_shared p n k : wakes p n k = true ->
  holds_shared k = true \/ k = DRelease p \/ k = DShared p.
Proof. destruct k; simpl; auto; intros ->%N.eqb_eq; auto. Qed.

(** The mutex of a queue only gets locked by a consumer that becomes a waker. *)
Lemma tstep_mutex g k k' g' p :
  tstep k g = Some (k', g') ->
  vec_get (_not_empty_mutexes (queue g)) p = Some false ->
  vec_get (_not_empty_mutexes (queue g')) p = Some false \/ k' = DRelease p.
Proof.
  destruct k as [| | | | | | | | | | | | | | | | | | | | |p0 [|n]| | | | | |]; simpl; try done;
    step_cases; auto; rewrite ?vec_get_set; repeat case_decide; auto; try (by left);
    try (destruct_and?; subst; by right).
  all: unfold Purge in *; repeat case_match; simplify_eq/=; auto.
Qed.

Lemma no_release_one_step g k k' g' :
  tstep k g = Some (k', g') -> disturbs k = false -> no_release_one g -> no_release_one g'.
Proof.
  intros Hs Hd Hn p b. revert Hs.
  destruct k as [| | | | | | | | | | | | | | | | | | | | |p0 [|n]| | | | | |]; simpl in *; try done;
    step_cases; try (by eapply Hn).
  match goal with H : vec_get (vec_set _ _ _) _ = Some _ |- _ => revert H end.
  rewrite vec_get_set. case_decide; [congruence|apply Hn].
Qed.

(** The waker's own step unlocks the mutex or leaves it a waker. *)
Lemma waker_step g k k' g' p q :
  tstep k g = Some (k', g') -> is_faulted k' = false -> no_release_one g ->
  changes_queue p k = false -> vec_get (_priority_qs (queue g)) p = Some q -> q <> [] ->
  N.of_nat (length (_priority_qs (queue g))) = N.of_nat (length (_not_empty_mutexes (queue g))) ->
  wakes p (length q) k = true ->
  vec_get (_not_empty_mutexes (queue g')) p = Some false \/ wakes p (length q) k' = true.
Proof.
  intros Hs Hf Hn Hc Hq Hne Hlen. pose proof (vec_get_Some_lt _ _ _ Hq) as Hlt. revert Hs.
  destruct k as [| | | | | | | | | | | | | | | | | | | | |p0 [|n]| | | | | |]; simpl in *; try done;
    intros Hs; [intros [<-%N.eqb_eq Hn1]%andb_prop|intros ->%N.eqb_eq..]; revert Hs;
    step_cases; rewrite ?N.eqb_refl; auto; try (left; rewrite vec_get_set_eq; [done|lia]).
  all: try (match goal with H : vec_get (_release_one _) _ = Some true |- _ => by apply Hn in H end).
  all: simplify_eq; try done; try congruence.
Qed.

Lemma insert_wakes g job k' g' :
  tstep (EInsert job) g = Some (k', g') -> is_faulted k' = false ->
  exists q x, vec_get (_priority_qs (queue g)) (priority job) = Some q /\
    vec_get (_priority_qs (queue g')) (priority job) = Some (q ++ [x]) /\
    _not_empty_mutexes (queue g') = _not_empty_mutexes (queue g) /\
    exists it, k' = ESignal job it.
Proof.
  simpl. step_cases; try done. eexists _, _. split; [done|].
  rewrite vec_get_set_eq by (by eapply vec_get_Some_lt). eauto.
Qed.

Lemma awake_step g pool t k k' g' p :
  pool !! t = Some k -> tstep k g = Some (k', g') -> is_faulted k' = false ->
  disturbs k = false -> locks_ok g pool -> no_release_one g ->
  length (_priority_qs (queue g)) = length (_not_empty_mutexes (queue g)) ->
  length (_priority_qs (queue g)) = length (pq_mutexes g) ->
  awake g pool p -> awake g' (<[t := k']> pool) p.
Proof.
  intros Ht Hs Hf Hd Hl Hn Hlen Hlen' Ha q' Hq' Hne'.
  assert (<[t := k']> pool !! t = Some k') as Hk'
    by (apply list_lookup_insert_eq; by eapply lookup_lt_Some).
  destruct (changes_queue p k) eqn:Hc.
  - destruct k; simpl in Hc, Hd; try done; apply N.eqb_eq in Hc as <-.
    + pose proof (insert_wakes _ _ _ _ Hs Hf) as (q & x & Hq & Eq & Eg & it & ->).
      rewrite Eq in Hq'. injection Hq' as <-. destruct q as [|y q].
      { right. exists t, (ESignal job it). split; [done|]. simpl. by rewrite N.eqb_refl. }
      destruct (Ha _ Hq) as [Hfree|(t0 & k0 & Ht0 & Hw)]; [done|left; by rewrite Eg|].
      right. exists t0, k0. destruct (decide (t0 = t)) as [->|Hne]; [by simplify_eq/=|].
      split; [by rewrite list_lookup_insert_ne|].
      destruct (wakes_length _ _ (length ((y :: q) ++ [x])) _ Hw) as [?|Hh]; [done|].
      exfalso. destruct (vec_get_lt (pq_mutexes g) (priority job)) as [b Hb].
      { rewrite <-Hlen'. by eapply vec_get_Some_lt. }
      pose proof (count_two _ _ _ _ _ _ Ht Ht0 (N.eqb_refl (priority job) : holds_pq _ (EInsert job) = true) Hh
        ltac:(congruence)) as H2.
      rewrite (lo_pq _ _ Hl _ _ Hb) in H2. destruct b; simpl in H2; lia.
    + right. exists t, k'. split; [done|]. revert Hs. simpl. step_cases; try done.
      by rewrite N.eqb_refl.
  - rewrite (tstep_queue_same _ _ _ _ _ Hs Hc) in Hq'.
    destruct (Ha _ Hq' Hne') as [Hfree|(t0 & k0 & Ht0 & Hw)].
    + destruct (tstep_mutex _ _ _ _ _ Hs Hfree) as [?| ->]; [by left|].
      right. exists t, (DRelease p). split; [done|]. simpl. apply N.eqb_refl.
    + destruct (decide (t0 = t)) as [->|Hne].
      * assert (k0 = k) as -> by congruence.
        destruct (waker_step _ _ _ _ _ _ Hs Hf Hn Hc Hq' Hne' ltac:(lia) Hw) as [?|?]; [by left|].
        right. by exists t, k'.
      * right. exists t0, k0. by rewrite list_lookup_insert_ne.
Qed.

End Wake.
End MQWake.
