(* ===== verification/MultiQueueTokens.v ===== *)
(** * The signal of the "not empty" mutexes

    Producers and any number of consumers, without Purge and releases, on the
    priorities whose mutex the constructor locks: a queue has exactly one
    permit to dequeue while it holds a job, whoever carries it. *)

From stdpp Require Import prelude gmap list.
From S2P Require Import Prelude Synchronization Job BaseMultiQueue MultiQueue.
From S2P Require Import MultiQueueSpec MultiQueueRuns MultiQueueConc MultiQueueLocks.
From S2P Require Import MultiQueueSafety.

Module MQTokens.
Import MQ MQSpec MQRuns MQConc MQLocks MQSafety.

Section Tokens.
Context {T : Type}.
Implicit Types (g : shared T) (pool : list (pc T)) (k : pc T) (c : conf T).

(** A thread that took the mutex and has not handed the permit on. *)
Definition carries (p : N) k : bool :=
  match k with
  | DRelease p' | DShared p' | DCheck p' | DNull p' | DLockPq p' | DPop p'
  | DSignal p' _ => (p' =? p)%N
  | _ => false
  end.

(** An enqueuer between its insertion and its unlock. *)
Definition inserting (p : N) k : bool :=
  match k with ESignal job _ => (priority job =? p)%N | _ => false end.

(** A dequeuer between its pop and its unlock. *)
Definition popping (p : N) k : bool :=
  match k with DSignal p' _ => (p' =? p)%N | _ => false end.

Definition some_job {A} (q : list A) : bool :=
  match q with [] => false | _ :: _ => true end.

(** The permits of queue [p]: the unlocked mutex, the threads that carry it and
    the enqueuer that is about to unlock it. *)
Definition permits (p : N) (ne : mutex) (q : list (N * N)) pool : nat :=
  b2n (negb ne) + count (carries p) pool +
  (if (length q =? 1)%nat then count (inserting p) pool else 0).

Definition permit_ok (p : N) g pool : Prop :=
  forall ne q, vec_get (_not_empty_mutexes (queue g)) p = Some ne ->
    vec_get (_priority_qs (queue g)) p = Some q ->
    permits p ne q pool = b2n (some_job q || (0 <? count (popping p) pool)%nat).

(** Calls of producers and consumers on the priorities below [_max_prio]. *)
Definition worker_op (max : N) (o : mq_op T) : Prop :=
  match o with
  | OpEnqueue (Some job) => (priority job < max)%N
  | OpDequeue p => (p < max)%N
  | _ => False
  end.

Definition producer_consumer c (a : action T) : Prop :=
  match a with
  | Start _ o => worker_op (_max_prio (queue c.1)) o
  | Step _ => True
  end.

Definition worker_pc (max : N) k : Prop :=
  match k with
  | Idle | Finished _ => True
  | EShared job | ELockPq job | EInsert job | ESignal job _ | ELockVm job _
  | EMap job _ => (priority job < max)%N
  | DWait p | DRelease p | DShared p | DCheck p | DLockPq p | DPop p
  | DSignal p _ | DLockVm p _ | DTake p _ => (p < max)%N
  | _ => False
  end.

Record permits_ok c : Prop := mk_permits_ok {
  po_base : base_ok c;
  po_released : _released (queue c.1) = false;
  po_release_one : forall p b, vec_get (_release_one (queue c.1)) p = Some b -> b = false;
  po_worker : forall t k, c.2 !! t = Some k -> worker_pc (_max_prio (queue c.1)) k;
  po_permit : forall p, (p < _max_prio (queue c.1))%N -> permit_ok p c.1 c.2
}.

(** ** Counting under a mutex *)

Lemma count_sub (f h : pc T -> bool) pool t k :
  (forall k, f k = true -> h k = true) -> count h pool <= 1 ->
  pool !! t = Some k -> h k = true -> count f pool = b2n (f k).
Proof.
  intros Hfh Hc Ht Hk. destruct (f k) eqn:E; simpl.
  - pose proof (count_pos f pool t k Ht E).
    pose proof (count_mono f h pool Hfh).
    lia.
  - apply count_zero. intros i x Hx. destruct (f x) eqn:Ex; [|done].
    assert (i <> t) as Hne by (intros ->; congruence).
    pose proof (count_two h pool i t x k Hx Ht (Hfh x Ex) Hk Hne). lia.
Qed.

Lemma pq_count_le g pool p b :
  locks_ok g pool -> vec_get (pq_mutexes g) p = Some b -> count (holds_pq p) pool <= 1.
Proof. intros Hl Hb. rewrite (lo_pq _ _ Hl _ _ Hb). destruct b; simpl; lia. Qed.

Lemma inserting_holds p k : inserting p k = true -> holds_pq p k = true.
Proof. by destruct k. Qed.

Lemma popping_holds p k : popping p k = true -> holds_pq p k = true.
Proof. by destruct k. Qed.

Lemma popping_carries p k : popping p k = true -> carries p k = true.
Proof. by destruct k. Qed.

(** The mutex of a queue admits one insertion or one pop at a time. *)
Lemma pq_holder_counts g pool t k p :
  locks_ok g pool -> pool !! t = Some k -> holds_pq p k = true ->
  (p < N.of_nat (length (pq_mutexes g)))%N ->
  count (inserting p) pool = b2n (inserting p k) /\
  count (popping p) pool = b2n (popping p k).
Proof.
  intros Hl Ht Hk Hlt. destruct (vec_get_lt _ _ Hlt) as [b Hb].
  pose proof (pq_count_le _ _ _ _ Hl Hb) as Hc.
  split; apply (count_sub _ (holds_pq p) _ t); auto using inserting_holds, popping_holds.
Qed.

(** ** A thread past the mutex finds a job *)
Lemma carrier_nonempty g pool t k p :
  base_ok (g, pool) -> permit_ok p g pool -> (p < _max_prio (queue g))%N ->
  pool !! t = Some k -> carries p k = true -> popping p k = false ->
  queue_nonempty g p.
Proof.
  intros [Hl (Q & L & Hd) _] Hp Hlt Ht Hc Hpk q Hq ->. simpl in *.
  destruct (vec_get_lt (_not_empty_mutexes (queue g)) p) as [ne Hne].
  { rewrite (do_ne _ _ _ _ Hd), (do_len _ _ _ _ Hd). lia. }
  specialize (Hp ne [] Hne Hq). unfold permits in Hp. simpl in Hp.
  pose proof (count_pos _ _ _ _ Ht Hc) as Hpos.
  destruct (Nat.ltb_spec 0 (count (popping p) pool)) as [H|H]; simpl in Hp; [|lia].
  destruct (count_pos_inv _ _ H) as (t' & k' & Ht' & Hk').
  assert (t' <> t) as Hne' by (intros ->; congruence).
  pose proof (count_two (carries p) pool t' t k' k Ht' Ht (popping_carries _ _ Hk') Hc Hne').
  lia.
Qed.

(** ** Steps *)

Lemma permit_frame p g g' pool t k k' :
  pool !! t = Some k -> permit_ok p g pool ->
  vec_get (_not_empty_mutexes (queue g')) p = vec_get (_not_empty_mutexes (queue g)) p ->
  vec_get (_priority_qs (queue g')) p = vec_get (_priority_qs (queue g)) p ->
  carries p k' = carries p k -> inserting p k' = inserting p k ->
  popping p k' = popping p k -> permit_ok p g' (<[t := k']> pool).
Proof.
  intros Ht Hp E1 E2 C1 C2 C3 ne q. rewrite E1, E2. intros Hne Hq.
  specialize (Hp ne q Hne Hq). unfold permits in *.
  pose proof (count_step (carries p) pool t k k' Ht) as S1.
  pose proof (count_step (inserting p) pool t k k' Ht) as S2.
  pose proof (count_step (popping p) pool t k k' Ht) as S3.
  rewrite C1 in S1. rewrite C2 in S2. rewrite C3 in S3.
  replace (count (carries p) _) with (count (carries p) pool) by lia.
  replace (count (inserting p) (<[_:=_]> _)) with (count (inserting p) pool) by lia.
  replace (count (popping p) _) with (count (popping p) pool) by lia. done.
Qed.

(** The counters of [p] after thread [t] moved from [k] to [k']. *)
Ltac permit_counts p pool t k k' Ht :=
  pose proof (count_step (carries p) pool t k k' Ht);
  pose proof (count_step (inserting p) pool t k k' Ht);
  pose proof (count_step (popping p) pool t k k' Ht);
  simpl in *; rewrite ?N.eqb_refl in *; simpl in *.

Ltac bool_lia :=
  repeat match goal with
  | |- context [(0 <? ?n)%nat] => destruct (Nat.ltb_spec 0 n)
  | H : context [(0 <? ?n)%nat] |- _ => destruct (Nat.ltb_spec 0 n)
  | b : mutex |- _ => destruct b
  end; rewrite ?orb_true_r, ?orb_false_r in *; simpl in *; try lia.

Lemma permit_insert g pool t job it g' p :
  base_ok (g, pool) -> pool !! t = Some (EInsert job) -> priority job = p ->
  tstep (EInsert job) g = Some (ESignal job it, g') -> permit_ok p g pool ->
  permit_ok p g' (<[t := ESignal job it]> pool).
Proof.
  intros Hb Ht <- Hs Hp ne q' Hne Hq'. pose proof (bo_locks _ Hb) as Hl. simpl in Hl.
  destruct (pq_holder_counts _ _ _ _ (priority job) Hl Ht (N.eqb_refl _)
    (lo_range _ _ Hl _ _ Ht)) as [Hi Hpop].
  permit_counts (priority job) pool t (EInsert job) (ESignal job it) Ht.
  revert Hs. step_cases.
  match goal with H : vec_get (_priority_qs (queue g)) _ = Some ?l |- _ =>
    rename l into q, H into Hq end.
  simpl in Hne, Hq'. rewrite vec_get_set_eq in Hq' by (by eapply vec_get_Some_lt).
  injection Hq' as <-. specialize (Hp ne q Hne Hq).
  unfold permits in *.
  rewrite length_app. simpl. destruct q as [|x q]; simpl in *.
  - bool_lia.
  - rewrite (proj2 (Nat.eqb_neq _ 0)) by lia. destruct (length q); bool_lia.
Qed.

Lemma permit_signal g pool t job it g' p :
  base_ok (g, pool) -> pool !! t = Some (ESignal job it) -> priority job = p ->
  tstep (ESignal job it) g = Some (ELockVm job it, g') -> permit_ok p g pool ->
  permit_ok p g' (<[t := ELockVm job it]> pool).
Proof.
  intros Hb Ht <- Hs Hp ne q' Hne Hq'. pose proof (bo_locks _ Hb) as Hl. simpl in Hl.
  destruct (pq_holder_counts _ _ _ _ (priority job) Hl Ht (N.eqb_refl _)
    (lo_range _ _ Hl _ _ Ht)) as [Hi Hpop].
  permit_counts (priority job) pool t (ESignal job it) (ELockVm job it) Ht.
  revert Hs. step_cases; simpl in Hne, Hq'; simplify_eq.
  - apply vec_get_set_inv in Hne as [-> [ne0 E0]]. specialize (Hp ne0 _ E0 Hq'). unfold permits in *.
    destruct q' as [|x [|y q]]; simpl in *; try done. bool_lia.
  - specialize (Hp ne _ Hne Hq'). unfold permits in *.
    match goal with H : (length _ =? 1)%nat = false |- _ => rewrite H in * end. bool_lia.
Qed.

Lemma permit_lock g pool t p g' :
  pool !! t = Some (DWait p) -> tstep (DWait p) g = Some (DRelease p, g') ->
  permit_ok p g pool -> permit_ok p g' (<[t := DRelease p]> pool).
Proof.
  intros Ht Hs Hp ne q Hne Hq. permit_counts p pool t (@DWait T p) (@DRelease T p) Ht.
  revert Hs. step_cases. simpl in Hne, Hq.
  apply vec_get_set_inv in Hne as [-> [ne0 E0]]. specialize (Hp ne0 q E0 Hq). unfold permits in *.
  simplify_eq. simpl in *. destruct (length q =? 1)%nat; bool_lia.
Qed.

Lemma permit_pop g pool t p jid g' :
  base_ok (g, pool) -> pool !! t = Some (DPop p) ->
  tstep (DPop p) g = Some (DSignal p jid, g') -> permit_ok p g pool ->
  permit_ok p g' (<[t := DSignal p jid]> pool).
Proof.
  intros Hb Ht Hs Hp ne q' Hne Hq'. pose proof (bo_locks _ Hb) as Hl. simpl in Hl.
  destruct (pq_holder_counts _ _ _ _ p Hl Ht (N.eqb_refl _)
    (lo_range _ _ Hl _ _ Ht)) as [Hi Hpop].
  permit_counts p pool t (@DPop T p) (@DSignal T p jid) Ht.
  revert Hs. step_cases. simpl in Hne, Hq'.
  apply vec_get_set_inv in Hq' as [-> [q E]].
  specialize (Hp ne q Hne E). unfold permits in *. simplify_eq. simpl in *.
  repeat case_match; bool_lia.
Qed.

Lemma permit_pass g pool t p jid g' :
  base_ok (g, pool) -> pool !! t = Some (DSignal p jid) ->
  tstep (DSignal p jid) g = Some (DLockVm p jid, g') -> permit_ok p g pool ->
  permit_ok p g' (<[t := DLockVm p jid]> pool).
Proof.
  intros Hb Ht Hs Hp ne q' Hne Hq'. pose proof (bo_locks _ Hb) as Hl. simpl in Hl.
  destruct (pq_holder_counts _ _ _ _ p Hl Ht (N.eqb_refl _)
    (lo_range _ _ Hl _ _ Ht)) as [Hi Hpop].
  permit_counts p pool t (@DSignal T p jid) (@DLockVm T p jid) Ht.
  revert Hs. step_cases; simpl in Hne, Hq'; simplify_eq.
  - specialize (Hp ne _ Hne Hq'). unfold permits in *. simpl in *. bool_lia.
  - apply vec_get_set_inv in Hne as [-> [ne0 E0]]. specialize (Hp ne0 _ E0 Hq'). unfold permits in *.
    simpl in *. repeat case_match; bool_lia.
Qed.

(** The priority a program point works on, and the steps that move its permit. *)
Definition moves_permit (p : N) k : bool :=
  match k with
  | EInsert job | ESignal job _ => (priority job =? p)%N
  | DWait p' | DRelease p' | DCheck p' | DPop p' | DSignal p' _ => (p' =? p)%N
  | _ => false
  end.

Lemma tstep_permit_same max g k k' g' p :
  tstep k g = Some (k', g') -> is_faulted k' = false -> worker_pc max k ->
  moves_permit p k = false ->
  vec_get (_not_empty_mutexes (queue g')) p = vec_get (_not_empty_mutexes (queue g)) p /\
  vec_get (_priority_qs (queue g')) p = vec_get (_priority_qs (queue g)) p /\
  carries p k' = carries p k /\ inserting p k' = inserting p k /\
  popping p k' = popping p k.
Proof.
  intros Hs Hf Hw Hm. revert Hs Hf.
  destruct k; simpl in *; try done; step_cases; try done;
    repeat split; simpl; rewrite ?Hm; try done; by apply vec_get_set_other.
Qed.

(** The flags that only the releases set. *)
Lemma tstep_flags max g k k' g' :
  tstep k g = Some (k', g') -> worker_pc max k ->
  (forall p b, vec_get (_release_one (queue g)) p = Some b -> b = false) ->
  _released (queue g') = _released (queue g) /\
  _release_one (queue g') = _release_one (queue g) /\
  _max_prio (queue g') = _max_prio (queue g).
Proof.
  intros Hs Hw Hr. revert Hs. destruct k; simpl in *; try done; step_cases; try done.
  by specialize (Hr _ _ ltac:(eassumption)).
Qed.

Lemma tstep_worker g pool t k k' g' :
  permits_ok (g, pool) -> pool !! t = Some k -> tstep k g = Some (k', g') ->
  is_faulted k' = false -> worker_pc (_max_prio (queue g)) k'.
Proof.
  intros [Hb Hr Hro Hw Hp] Ht Hs Hf. simpl in *. specialize (Hw t k Ht). revert Hs Hf.
  destruct k; simpl in *; try done; step_cases; try done.
Qed.

Lemma permit_step g pool t k k' g' p :
  permits_ok (g, pool) -> pool !! t = Some k -> tstep k g = Some (k', g') ->
  is_faulted k' = false -> (p < _max_prio (queue g))%N ->
  permit_ok p g' (<[t := k']> pool).
Proof.
  intros [Hb Hr Hro Hw Hp] Ht Hs Hf Hlt. simpl in *. specialize (Hw t k Ht).
  specialize (Hp p Hlt). destruct (moves_permit p k) eqn:Em.
  - destruct k; simpl in Em; try done; apply N.eqb_eq in Em.
    + assert (exists it, k' = ESignal job it) as [it ->]
        by (revert Hs Hf; simpl; step_cases; eauto; done).
      by eapply permit_insert.
    + assert (k' = ELockVm job iter) as ->
        by (revert Hs Hf; simpl; step_cases; done).
      by eapply permit_signal.
    + subst. assert (k' = DRelease p) as ->
        by (revert Hs Hf; simpl; step_cases; done).
      by eapply permit_lock.
    + subst. assert (k' = DShared p /\ queue g' = queue g) as [-> Hg].
      { revert Hs Hf. simpl. step_cases; try done. by specialize (Hro _ _ ltac:(eassumption)). }
      eapply permit_frame; try done; by rewrite Hg.
    + subst. pose proof (carrier_nonempty _ _ _ _ _ Hb Hp Hlt Ht (N.eqb_refl _) eq_refl) as Hne.
      assert (k' = DLockPq p /\ queue g' = queue g) as [-> Hg].
      { revert Hs Hf. simpl. step_cases; try done; by destruct (Hne [] ltac:(assumption)). }
      eapply permit_frame; try done; by rewrite Hg.
    + subst. assert (exists jid, k' = DSignal p jid) as [jid ->]
        by (revert Hs Hf; simpl; step_cases; eauto; done).
      by eapply permit_pop.
    + subst. assert (k' = DLockVm p jid) as ->
        by (revert Hs Hf; simpl; step_cases; done).
      by eapply permit_pass.
  - destruct (tstep_permit_same _ _ _ _ _ _ Hs Hf Hw Em) as (A & B & C & D & E).
    by eapply permit_frame.
Qed.

Lemma worker_op_in_range max o : worker_op max o -> op_in_range max o.
Proof. destruct o as [[j|]|p|i|p|p| |p]; simpl; try done; lia. Qed.

Lemma entry_worker max o k' : entry o = Some k' -> worker_op max o ->
  worker_pc max k' /\ forall p, carries p k' = false /\ inserting p k' = false /\
    popping p k' = false.
Proof. destruct o as [[j|]|p|i|p|p| |p]; simpl; intros [= <-] Hr; done. Qed.

Lemma permits_step c a c' :
  permits_ok c -> producer_consumer c a -> cstep a c = Some c' -> permits_ok c'.
Proof.
  destruct c as [g pool]. intros Hok Ha Hs.
  pose proof Hok as [Hb Hr Hro Hw Hp]. simpl in *.
  destruct (cstep_inv _ _ _ _ Hs) as (t & k & k' & g' & Ht & -> & Hm).
  destruct a as [t0 o|t0].
  - destruct Hm as (-> & Hm & He & ->). destruct (entry_worker _ _ _ He Ha) as [Hw' Hk'].
    split; simpl; try done.
    + eapply start_base; eauto using worker_op_in_range.
    + intros t' k0 H. destruct (pool_lookup_cases _ _ _ _ _ _ Ht H) as [[-> ->]|[_ ?]]; eauto.
    + intros p Hlt. destruct (Hk' p) as (E1 & E2 & E3).
      eapply permit_frame; try done; [by apply Hp|by destruct k..].
  - destruct Hm as [-> Hts]. simpl in Hb.
    destruct (step_base _ _ _ _ _ _ Ht Hts) as [Hnf Hb']; [|done|].
    { intros p ->. pose proof (Hw t _ Ht) as Hlt. simpl in Hlt.
      by apply (carrier_nonempty _ _ _ _ _ Hb (Hp p Hlt) Hlt Ht (N.eqb_refl _)). }
    destruct (tstep_flags _ _ _ _ _ Hts (Hw t k Ht) Hro) as (F1 & F2 & F3).
    split; simpl; rewrite ?F1, ?F2, ?F3; try done.
    + intros t' k0 H. destruct (pool_lookup_cases _ _ _ _ _ _ Ht H) as [[-> ->]|[_ ?]]; [|eauto].
      by eapply tstep_worker.
    + intros p Hlt. by eapply permit_step.
Qed.

Lemma new_locked m p : (p < m)%N -> (m < UINT_MAX)%N ->
  vec_get (_not_empty_mutexes (@new T m)) p = Some true.
Proof.
  intros Hp Hm. unfold new, vec_get. simpl. rewrite list_lookup_imap.
  rewrite u32_add_small by (u32_unfold; lia). rewrite lookup_replicate_2 by lia. simpl.
  f_equal. apply Nat.ltb_lt. lia.
Qed.

Lemma permits_init m n : (m < UINT_MAX)%N -> permits_ok (init m n).
Proof.
  intros Hm. split; [by apply base_init|done| | |].
  - intros p b Hb. simpl in Hb. unfold vec_get in Hb. by apply lookup_replicate_1 in Hb as [-> _].
  - intros t k Hk. by rewrite (pool_lookup_replicate _ _ _ Hk).
  - intros p Hlt ne q Hne Hq. change (vec_get (_not_empty_mutexes (@new T m)) p = Some ne) in Hne.
    rewrite new_locked in Hne by done. simpl in *. injection Hne as <-.
    unfold vec_get in Hq. apply lookup_replicate_1 in Hq as [-> _].
    unfold permits. simpl. rewrite !count_zero; [done|..];
      intros i x Hx; by rewrite (pool_lookup_replicate _ _ _ Hx).
Qed.

Lemma permits_reach m n c :
  (m < UINT_MAX)%N -> reach producer_consumer (init m n) c -> permits_ok c.
Proof.
  intros Hm. apply reach_inv; [apply permits_step|by apply permits_init].
Qed.

(** C5. Multi-consumer safety: any number of producers and consumers on the
    priorities below [_max_prio] (those whose mutex the constructor locks),
    with no Purge and no release, never fault, in any interleaving. *)
Theorem multi_consumer_safe (m : N) (n : nat) c t k :
  (m < UINT_MAX)%N -> reach producer_consumer (init m n) c ->
  c.2 !! t = Some k -> is_faulted k = false.
Proof. intros Hm Hr. apply bo_fault, po_base. by eapply permits_reach. Qed.

(** C4. No lost wake-up: when such producers and consumers have come to a
    standstill, every thread is outside a call or waits in Dequeue on a queue
    that is empty.  A job is never left in a queue with its consumers asleep. *)
Theorem no_lost_wakeup (m : N) (n : nat) c :
  (m < UINT_MAX)%N -> reach producer_consumer (init m n) c ->
  (forall t k, c.2 !! t = Some k -> tstep k c.1 = None) ->
  forall t k, c.2 !! t = Some k ->
  may_start k = true \/
  exists p, k = DWait p /\ vec_get (_priority_qs (queue c.1)) p = Some [].
Proof.
  intros Hm Hr Hall t k Hk. pose proof (permits_reach _ _ _ Hm Hr) as [Hb _ _ Hw Hp].
  pose proof Hb as [Hl (Q & L & Hd) Hf].
  assert (forall t k, c.2 !! t = Some k -> may_start k = true \/ exists p, k = DWait p) as Hst.
  { intros t' k' Hk'. destruct (only_wait_blocks _ _ Hl Hall t' k' Hk') as [?|[H|?]]; auto.
    - by apply blocked_reason, (Hall t').
    - by rewrite (Hf t' k' Hk') in H. }
  destruct (Hst t k Hk) as [?|[p ->]]; [by left|]. right. exists p. split; [done|].
  pose proof (Hw t _ Hk) as Hlt. simpl in Hlt.
  destruct (vec_get_lt (_not_empty_mutexes (queue c.1)) p) as [ne Hne];
    [rewrite (do_ne _ _ _ _ Hd), (do_len _ _ _ _ Hd); lia|].
  destruct (vec_get_lt (_priority_qs (queue c.1)) p) as [q Hq];
    [rewrite (do_qs _ _ _ _ Hd), length_fmap, (do_len _ _ _ _ Hd); lia|].
  assert (ne = true) as ->.
  { specialize (Hall t _ Hk). revert Hall. simpl. rewrite (proj2 (N.leb_le _ _)) by lia.
    unfold act, lock_not_empty. rewrite Hne. by destruct ne. }
  specialize (Hp p Hlt true q Hne Hq). unfold permits in Hp.
  assert (forall f : pc T -> bool, (forall k, may_start k = true -> f k = false) ->
    (forall p, f (DWait p) = false) -> count f c.2 = 0) as Hz.
  { intros f H1 H2. apply count_zero. intros t' k' Hk'.
    destruct (Hst t' k' Hk') as [?|[? ->]]; auto. }
  rewrite !Hz in Hp by (try done; by intros []). rewrite Hq.
  destruct q; [done|]. simpl in Hp. by repeat case_match.
Qed.

End Tokens.
(** Two consumers of priority 0 and one producer; one consumer is served, the
    other waits on the empty queue. *)
Definition two_consumer_run : list (action unit) :=
  [Start 1 (OpDequeue 0); Start 2 (OpDequeue 0);
   Start 0 (OpEnqueue (Some (pool_job 1 0)));
   Step 0; Step 0; Step 0; Step 0;
   Step 2; Step 2; Step 2; Step 2;
   Step 0; Step 0;
   Step 2; Step 2; Step 2; Step 2; Step 2].

Definition two_consumer_end : conf unit :=
  default (init 1 3) (crun two_consumer_run (init 1 3)).

Lemma two_consumer_reach : reach producer_consumer (init 1 3) two_consumer_end.
Proof.
  apply (reach_run _ two_consumer_run _ (init 1 3)); [apply reach_refl| |vm_compute; reflexivity].
  vm_compute. repeat split.
Qed.

Lemma multi_consumer_safe_witness : exists k,
  two_consumer_end.2 !! 2 = Some k /\ is_faulted k = false.
Proof.
  exists (Finished (RJob (Some (pool_job 1 0)))). split; [reflexivity|].
  apply (multi_consumer_safe 1 3 two_consumer_end 2);
    [reflexivity|exact two_consumer_reach|reflexivity].
Defined.

Lemma no_lost_wakeup_witness :
  two_consumer_end.2 !! 1 = Some (DWait 0) /\
  (may_start (T := unit) (DWait 0) = true \/
    exists p, DWait (T := unit) 0 = DWait p /\
      vec_get (_priority_qs (queue two_consumer_end.1)) p = Some []).
Proof.
  split; [reflexivity|].
  apply (no_lost_wakeup 1 3 two_consumer_end) with (t := 1);
    [reflexivity|exact two_consumer_reach| |reflexivity].
  intros [|[|[|t]]] k Hk; vm_compute in Hk; simplify_eq; reflexivity.
Defined.

End MQTokens.
