(* ===== verification/JobTypes.v ===== *)
(** * The data of the client's stages (common/dstage/job_types.h)

    Shared pointers are references: [purge_ref] is an index into the store of
    PurgeStates, [conn_ref] into the store of Connections, [done_ref] names a
    ClientCallback3. *)

From stdpp Require Import prelude gmap list strings.
From S2P Require Import Prelude Synchronization Job.

Definition purge_ref := nat.
Definition conn_ref := nat.
Definition done_ref := nat.

Definition REQUEST_GETFILE : Z := 1.
Definition REQUEST_PURGE : Z := 2.
Definition REQUEST_ACCEPT : Z := 11.
Definition REQUEST_REJECT : Z := 12.
Definition REQUEST_NOTFOUND : Z := 13.

(** The header exchanged with the server; every field is an [int]. *)
Record Protocol := mkProtocol {
  p_type : Z;
  p_priority : Z;
  p_object_id : Z;
  p_start_idx : Z;
  p_size_bytes : Z
}.

Record ConnectData := mkConnectData {
  ip_addresses : list string;
  cd_object_id : Z;
  cd_done : done_ref
}.

Record ConnectDataInternal := mkConnectDataInternal {
  ci_ip : string;
  ci_object_id : Z;
  ci_done : done_ref;
  ci_purge_state : purge_ref
}.

Record RequestData := mkRequestData {
  rq_connection : conn_ref;
  rq_object_id : Z;
  rq_done : done_ref;
  rq_purge_state : purge_ref
}.

(** [rs_object] is [None] until the server's header has been read. *)
Record ResponseData := mkResponseData {
  rs_connection : conn_ref;
  rs_object_id : Z;
  rs_index : N;
  rs_object : option (list Z);
  rs_done : done_ref;
  rs_purge_state : purge_ref
}.

(** [CommunicationHandlerInterface::ReadyFor]. *)
Record ReadyFor := mkReadyFor {
  rf_in : bool;
  rf_out : bool;
  rf_events : N;
  rf_err : Z
}.
