(* ===== verification/Dispatcher.v ===== *)
(** * Dispatchers (common/dstage/dispatcher.hh, forwarding_dispatcher.hh and
      ConnectDispatcher of client_connect_handler.cc)

    Everything here is proved against the interface of BaseMultiQueue.v, for
    any queue that keeps its contract. *)

From stdpp Require Import prelude gmap list strings.
From S2P Require Import Prelude Synchronization Job BaseMultiQueue JobTypes MultiQueue.
From S2P Require Import MultiQueueSpec.

Module Dispatcher.

(** [_multi_q_p] is [nullptr] or points to the queue of the stage. *)
Record Dispatcher := mkDispatcher {
  _running : bool;
  _max_priority : N;
  _multi_q_p : option unit
}.

Definition new (max_priority : N) : Dispatcher := mkDispatcher false max_priority None.

(** The arguments of a call are evaluated in an unspecified order: the moved
    [unique_ptr] may be initialised before or after [job_p->priority] is read. *)
Inductive arg_order : Type := MoveFirst | MoveLast.

Section Dispatch.
(** [W] is what the stage's virtual [DuplicateAndEnqueue] works on. *)
Context {I W : Type}.
Context (DuplicateAndEnqueue : Job I -> N -> N -> M (Dispatcher * W) unit).

(** The lowest appropriate priority, in [unsigned] arithmetic. *)
Definition max_prio_of (d : Dispatcher) (prio requested_duplication : N) : N :=
  if (_max_priority d <? u32_add prio requested_duplication)%N
  then _max_priority d
  else u32_add prio requested_duplication.

Definition Dispatch (order : arg_order) (job_p : option (Job I))
    (requested_duplication : N) : M (Dispatcher * W) unit :=
  s ← get;
  _ ← CHECK (_running s.1);
  match job_p with
  | None => mret tt
  | Some job =>
      _ ← CHECK (priority job <=? _max_priority s.1)%N;
      let max_prio := max_prio_of s.1 (priority job) requested_duplication in
      match order with
      | MoveFirst => crash NullDeref
      | MoveLast => DuplicateAndEnqueue job max_prio (u32_sub max_prio (priority job))
      end
  end.

Definition LinkMultiQ (multi_q_p : option unit) : M (Dispatcher * W) unit :=
  s ← get;
  match multi_q_p with
  | None => crash CheckFailure
  | Some _ => modify (fun s => (mkDispatcher true (_max_priority s.1) multi_q_p, s.2))
  end.

(** What DuplicateAndEnqueue is called with. *)
Lemma Dispatch_calls d w job req :
  _running d = true -> (priority job <= _max_priority d)%N ->
  is_u32 (priority job + req) -> is_u32 (_max_priority d) ->
  Dispatch MoveLast (Some job) req (d, w) =
    DuplicateAndEnqueue job (N.min (priority job + req) (_max_priority d))
      (N.min req (_max_priority d - priority job)) (d, w).
Proof.
  intros Hr Hp Hu Hm. unfold Dispatch, max_prio_of. unM. simpl.
  rewrite Hr, (proj2 (N.leb_le _ _) Hp). rewrite u32_add_small by done.
  destruct (N.ltb_spec (_max_priority d) (priority job + req)) as [H|H].
  - rewrite (N.min_r (priority job + req)) by lia. rewrite (N.min_r req) by lia.
    by rewrite u32_sub_le by done.
  - rewrite (N.min_l (priority job + req)) by lia. rewrite (N.min_l req) by lia.
    rewrite u32_sub_le by (done || lia). f_equal. lia.
Qed.

(** Under the other evaluation order the call reads through a moved-from
    pointer, for every job it would accept. *)
Lemma dispatch_move_first_null d w job req :
  _running d = true -> (priority job <= _max_priority d)%N ->
  Dispatch MoveFirst (Some job) req (d, w) = Crash NullDeref.
Proof.
  intros Hr Hp. unfold Dispatch. unM. simpl. by rewrite Hr, (proj2 (N.leb_le _ _) Hp).
Qed.

End Dispatch.

(** The queue of the stage, seen from the dispatcher. *)
Definition on_queue {S W A} (view : W -> S) (upd : S -> W -> W) (m : M S A) :
    M (Dispatcher * W) A :=
  s ← get;
  match _multi_q_p s.1 with
  | None => crash NullDeref
  | Some _ => zoom (fun s => view s.2) (fun q s => (s.1, upd q s.2)) m
  end.

Lemma on_queue_Done {S W A} (view : W -> S) (upd : S -> W -> W) (m : M S A) d w a q :
  _multi_q_p d = Some tt -> m (view w) = Done a q ->
  on_queue view upd m (d, w) = Done a (d, upd q w).
Proof. intros Hl Hm. unfold on_queue. unM. simpl. rewrite Hl. unfold zoom. simpl. by rewrite Hm. Qed.

(** A dispatcher of the stage whose queue is [q], linked. *)
Definition linked {T S} `{BaseMultiQueue T S} (d : Dispatcher) (q : S) : Prop :=
  _running d = true /\ _multi_q_p d = Some tt /\ _max_priority d = mq_MaxPriority q.

End Dispatcher.

Module ForwardingDispatcher.
Import Dispatcher.

Section Forwarding.
Context {T S : Type} `{MultiQueueContract T S}.

Definition DuplicateAndEnqueue (job_in : Job T) (max_prio duplication : N) :
    M (Dispatcher * S) unit :=
  on_queue id (fun q _ => q) (mq_Enqueue (Some job_in)).

(** Dispatch of a forwarding stage. *)
Definition Forward (order : arg_order) := Dispatch DuplicateAndEnqueue order.

Lemma forward_enqueues d q A job req :
  linked d q -> mq_repr q A -> (priority job <= _max_priority d)%N ->
  is_u32 (priority job + req) ->
  exists q', Forward MoveLast (Some job) req (d, q) = Done tt (d, q') /\
    mq_repr q' (abs_enqueue job A) /\ linked d q'.
Proof.
  intros (Hr & Hl & Hm) HA Hp Hu. pose proof (mq_repr_max _ _ HA) as Hlen.
  pose proof (mq_repr_u32 _ _ HA) as Hu32.
  destruct (mq_enqueue_spec q A job HA) as (q' & E & HA' & Hmx); [lia|].
  exists q'. split; [|split; [done|]].
  - unfold Forward. rewrite Dispatch_calls by (done || (u32_unfold; lia)).
    by apply (on_queue_Done id (fun q _ => q)).
  - repeat split; congruence.
Qed.

(** A forwarding stage puts the job at the end of the queue of its own
    priority, once and unchanged, whatever duplication was asked for. *)
Theorem forward_dispatch_enqueues d q A job req :
  linked d q -> mq_repr q A -> (priority job <= _max_priority d)%N ->
  is_u32 (priority job + req) ->
  exists q', Forward MoveLast (Some job) req (d, q) = Done tt (d, q') /\
    mq_repr q' (abs_enqueue job A).
Proof.
  intros Hl HA Hp Hu. destruct (forward_enqueues d q A job req Hl HA Hp Hu) as (q' & ? & ? & _).
  eauto.
Qed.

End Forwarding.
End ForwardingDispatcher.

Module ConnectDispatcher.
Import Dispatcher PurgeState.

Section Connect.
Context {S : Type} `{MultiQueueContract ConnectDataInternal S}.
(** The clock's reading when the duplicate number [i] is built. *)
Context (now : nat -> Z).

(** The queue and the PurgeStates that [make_shared] has allocated. *)
Definition world : Type := S * list PurgeState.

Definition duplicate (job_in : Job ConnectData) (duplication : N) (purge_state : purge_ref)
    (ip : string) (i : nat) (prio : N) : Job ConnectDataInternal :=
  mkJob (job_id job_in) prio duplication (now i)
    (mkConnectDataInternal ip (cd_object_id (job_data job_in))
       (cd_done (job_data job_in)) purge_state).

(** [for (i = 0, prio = job_in->priority; prio <= max_prio; i++, prio++)]. *)
Fixpoint duplicate_loop (fuel : nat) (job_in : Job ConnectData) (max_prio duplication : N)
    (purge_state : purge_ref) (i : nat) (prio : N) : M (Dispatcher * world) unit :=
  if (prio <=? max_prio)%N then
    match fuel with
    | O => fun s => Wait s
    | Datatypes.S fuel' =>
        ip ← need OutOfRange (ip_addresses (job_data job_in) !! i);
        _ ← on_queue fst (fun q w => (q, w.2))
              (mq_Enqueue (Some (duplicate job_in duplication purge_state ip i prio)));
        duplicate_loop fuel' job_in max_prio duplication purge_state
          (i + 1) (u32_add prio 1)
    end
  else mret tt.

Definition make_purge_state : M (Dispatcher * world) purge_ref :=
  s ← get;
  _ ← modify (fun s => (s.1, (s.2.1, s.2.2 ++ [PurgeState.new])));
  mret (length s.2.2).

(** One iteration more than there are priorities from the job's to [max_prio]
    is enough fuel (duplicate_loop_Done). *)
Definition DuplicateAndEnqueue (job_in : Job ConnectData) (max_prio duplication : N) :
    M (Dispatcher * world) unit :=
  let ips := N.of_nat (length (ip_addresses (job_data job_in))) in
  _ ← CHECK (duplication <? ips)%N;
  s ← get;
  _ ← CHECK (ips =? u32_add (_max_priority s.1) 1)%N;
  purge_state ← make_purge_state;
  duplicate_loop (N.to_nat (max_prio - priority job_in) + 1) job_in max_prio duplication
    purge_state 0 (priority job_in).

Definition Connect (order : arg_order) := Dispatch DuplicateAndEnqueue order.

(** The duplicates, one per priority from the job's own. *)
Fixpoint duplicates (n : nat) (job_in : Job ConnectData) (duplication : N) (ps : purge_ref)
    (i : nat) (prio : N) : list (Job ConnectDataInternal) :=
  match n, ip_addresses (job_data job_in) !! i with
  | Datatypes.S n', Some ip =>
      duplicate job_in duplication ps ip i prio ::
        duplicates n' job_in duplication ps (i + 1) (prio + 1)
  | _, _ => []
  end.

Definition enqueue_all (l : list (Job ConnectDataInternal)) A :=
  fold_left (fun A job => abs_enqueue job A) l A.

Lemma duplicate_loop_Done n job_in max_prio dup ps i prio d q heap A :
  linked d q -> mq_repr q A -> (max_prio <= _max_priority d)%N ->
  (prio + N.of_nat n = max_prio + 1)%N ->
  i + n <= length (ip_addresses (job_data job_in)) ->
  exists q', duplicate_loop n job_in max_prio dup ps i prio (d, (q, heap)) =
      Done tt (d, (q', heap)) /\
    mq_repr q' (enqueue_all (duplicates n job_in dup ps i prio) A) /\ linked d q'.
Proof.
  revert i prio q A. induction n as [|n IH]; intros i prio q A Hl HA Hmax Hn Hi; simpl.
  - rewrite (proj2 (N.leb_gt _ _)) by lia. exists q. done.
  - rewrite (proj2 (N.leb_le _ _)) by lia.
    destruct (lookup_lt_is_Some_2 (ip_addresses (job_data job_in)) i) as [ip Hip]; [lia|].
    destruct Hl as (Hr & Hlk & Hm). pose proof (mq_repr_max _ _ HA) as Hlen.
    pose proof (mq_repr_u32 _ _ HA) as Hu.
    destruct (mq_enqueue_spec q A (duplicate job_in dup ps ip i prio) HA) as (q1 & E & HA' & Hmx);
      [simpl; lia|].
    rewrite Hip. erewrite bind_Done by (by apply need_Some).
    rewrite (bind_Done _ _ _ tt (d, (q1, heap)))
      by (by apply (on_queue_Done fst (fun q w => (q, w.2)) _ d (q, heap))).
    rewrite u32_add_small by (u32_unfold; lia).
    destruct (IH (i + 1) (prio + 1)%N q1 (abs_enqueue (duplicate job_in dup ps ip i prio) A))
      as (q' & E' & HA'' & Hl'); [repeat split; congruence|done|done|lia|lia|].
    exists q'. by rewrite E'.
Qed.

Definition ready (d : Dispatcher) (job : Job ConnectData) (req : N) : Prop :=
  (priority job <= _max_priority d)%N /\ is_u32 (priority job + req) /\
  N.of_nat (length (ip_addresses (job_data job))) = (_max_priority d + 1)%N.

(** The number of duplicates of a job. *)
Definition fan_out (d : Dispatcher) (job : Job ConnectData) (req : N) : N :=
  (N.min req (_max_priority d - priority job) + 1)%N.

Lemma connect_enqueues d q heap A job req :
  linked d q -> mq_repr q A -> ready d job req ->
  exists q', Connect MoveLast (Some job) req (d, (q, heap)) =
      Done tt (d, (q', heap ++ [PurgeState.new])) /\
    mq_repr q' (enqueue_all (duplicates (N.to_nat (fan_out d job req)) job
      (fan_out d job req - 1) (length heap) 0 (priority job)) A) /\ linked d q'.
Proof.
  intros Hl HA (Hp & Hu & Hips). pose proof Hl as (Hr & Hlk & Hm).
  pose proof (mq_repr_u32 _ _ HA) as Hu32. rewrite <-Hm in Hu32.
  unfold Connect. rewrite Dispatch_calls by (done || (u32_unfold; lia)).
  unfold DuplicateAndEnqueue, fan_out. rewrite Hips.
  rewrite (bind_Done _ _ _ tt (d, (q, heap))) by (apply CHECK_true, N.ltb_lt; lia).
  rewrite (bind_Done _ _ _ (d, (q, heap)) (d, (q, heap))) by done. simpl fst.
  rewrite u32_add_small by done.
  rewrite (bind_Done _ _ _ tt (d, (q, heap))) by (apply CHECK_true, N.eqb_refl).
  rewrite (bind_Done _ _ _ (length heap) (d, (q, heap ++ [PurgeState.new]))) by done.
  set (mp := N.min (priority job + req) (_max_priority d)).
  assert (mp = (priority job + N.min req (_max_priority d - priority job))%N) as Emp by lia.
  replace (N.to_nat (mp - priority job) + 1)
    with (N.to_nat (N.min req (_max_priority d - priority job) + 1)) by lia.
  replace (N.min req (_max_priority d - priority job) + 1 - 1)%N
    with (N.min req (_max_priority d - priority job)) by lia.
  apply duplicate_loop_Done; try done; lia.
Qed.

(** ** What the duplicates do to the queues *)

Lemma length_enqueue_all l A : length (enqueue_all l A) = length A.
Proof.
  revert A. induction l as [|j l IH]; intros A; simpl; [done|].
  rewrite IH. apply length_abs_enqueue.
Qed.

Lemma purge_enqueue_all id l A :
  Forall (fun j => has_job_id id j = true) l -> abs_purge id (enqueue_all l A) = abs_purge id A.
Proof.
  intros Hl. revert A. induction Hl as [|j l Hj Hl IH]; intros A; simpl; [done|].
  by rewrite IH, abs_purge_enqueue.
Qed.

Lemma count_enqueue_all id l A :
  Forall (fun j => has_job_id id j = true /\ (priority j < N.of_nat (length A))%N) l ->
  abs_count id (enqueue_all l A) = abs_count id A + length l.
Proof.
  revert A. induction l as [|j l IH]; intros A Hl; simpl; [lia|].
  apply Forall_cons in Hl as [[Hj Hp] Hl].
  rewrite IH by (by rewrite length_abs_enqueue).
  rewrite abs_count_enqueue by done. rewrite Hj. lia.
Qed.

Lemma duplicates_ids n job dup ps i prio max :
  (prio + N.of_nat n <= max)%N ->
  Forall (fun j => has_job_id (job_id job) j = true /\ (priority j < max)%N)
    (duplicates n job dup ps i prio).
Proof.
  revert i prio. induction n as [|n IH]; intros i prio Hn; simpl; [done|].
  destruct (_ !! i); [|done]. constructor.
  - split; [apply N.eqb_refl|simpl; lia].
  - apply IH. lia.
Qed.

Lemma length_duplicates n job dup ps i prio :
  i + n <= length (ip_addresses (job_data job)) ->
  length (duplicates n job dup ps i prio) = n.
Proof.
  revert i prio. induction n as [|n IH]; intros i prio Hi; simpl; [done|].
  destruct (lookup_lt_is_Some_2 (ip_addresses (job_data job)) i) as [ip ->]; [lia|].
  simpl. rewrite IH; lia.
Qed.

Lemma get_enqueue_all_below n job dup ps i prio A p :
  (p < prio)%N ->
  vec_get (enqueue_all (duplicates n job dup ps i prio) A) p = vec_get A p.
Proof.
  revert i prio A. induction n as [|n IH]; intros i prio A Hp; simpl; [done|].
  destruct (_ !! i); [|done]. simpl. rewrite IH by lia.
  apply vec_get_enqueue_other. simpl. lia.
Qed.

Lemma get_enqueue_all_above n job dup ps i prio A p :
  (prio + N.of_nat n <= p)%N ->
  vec_get (enqueue_all (duplicates n job dup ps i prio) A) p = vec_get A p.
Proof.
  revert i prio A. induction n as [|n IH]; intros i prio A Hp; simpl; [done|].
  destruct (_ !! i); [|done]. simpl. rewrite IH by lia.
  apply vec_get_enqueue_other. simpl. lia.
Qed.

Lemma get_enqueue_all_in n job dup ps i prio A k ip q :
  (prio + N.of_nat n <= N.of_nat (length A))%N -> k < n ->
  i + n <= length (ip_addresses (job_data job)) ->
  ip_addresses (job_data job) !! (i + k) = Some ip ->
  vec_get A (prio + N.of_nat k) = Some q ->
  vec_get (enqueue_all (duplicates n job dup ps i prio) A) (prio + N.of_nat k) =
    Some (q ++ [duplicate job dup ps ip (i + k) (prio + N.of_nat k)]).
Proof.
  revert i prio A k. induction n as [|n IH]; intros i prio A k Hlen Hk Hi Hip Hq; simpl; [lia|].
  destruct (lookup_lt_is_Some_2 (ip_addresses (job_data job)) i) as [ip0 Hip0]; [lia|].
  rewrite Hip0. simpl. destruct k as [|k].
  - rewrite Nat.add_0_r, N.add_0_r in *. rewrite get_enqueue_all_below by lia.
    assert (ip0 = ip) as -> by congruence. by apply vec_get_enqueue_same.
  - replace (prio + N.of_nat (Datatypes.S k))%N with (prio + 1 + N.of_nat k)%N in * by lia.
    replace (i + Datatypes.S k) with (i + 1 + k) in * by lia.
    apply IH; rewrite ?length_abs_enqueue; try done; try lia.
    rewrite vec_get_enqueue_other by (simpl; lia). done.
Qed.

(** C34. Fan-out of ConnectDispatcher, for a job with one address per priority
    ([max + 1] of them, which the dispatcher CHECKs), whose priority plus
    requested duplication does not leave 32 bits, on a compiler that moves the
    job after it has evaluated the other arguments of the call in dispatcher.hh
    ([MoveLast]).  A job of priority [p] with requested duplication [d] reaches
    exactly the queues [p .. min(p+d, max)]: each gets, at its end, one duplicate
    with the job's id, the address of its own index and the one PurgeState
    allocated for the job; the other queues keep their content.  (Otherwise:
    [connect_dispatch_overflow], [dispatch_move_first_null].) *)
Theorem connect_dispatch_fan_out d q heap A job req :
  linked d q -> mq_repr q A -> ready d job req ->
  exists q' A', Connect MoveLast (Some job) req (d, (q, heap)) =
      Done tt (d, (q', heap ++ [PurgeState.new])) /\ mq_repr q' A' /\
    (forall k ip l, (N.of_nat k < fan_out d job req)%N ->
       ip_addresses (job_data job) !! k = Some ip ->
       vec_get A (priority job + N.of_nat k) = Some l ->
       vec_get A' (priority job + N.of_nat k) =
         Some (l ++ [duplicate job (fan_out d job req - 1) (length heap) ip k
                       (priority job + N.of_nat k)])) /\
    (forall p, (p < priority job)%N \/ (priority job + fan_out d job req <= p)%N ->
       vec_get A' p = vec_get A p).
Proof.
  intros Hl HA Hr. destruct (connect_enqueues d q heap A job req Hl HA Hr) as (q' & E & HA' & _).
  pose proof (mq_repr_max _ _ HA) as Hlen. destruct Hl as (_ & _ & Hm).
  destruct Hr as (Hp & _ & Hips).
  assert (priority job + fan_out d job req <= N.of_nat (length A))%N as Hfan
    by (unfold fan_out; lia).
  eexists q', _. split; [exact E|]. split; [exact HA'|]. split.
  - intros k ip l Hk Hip Hq. apply (get_enqueue_all_in _ _ _ _ 0); try done; lia.
  - intros p [Hlt|Hge]; [by apply get_enqueue_all_below|apply get_enqueue_all_above; lia].
Qed.

(** C33. Dispatch and Purge are inverse on a fresh id: purging the id right
    after the dispatch returns the number of duplicates and restores every
    queue.  As for the fan-out, the job has an address per priority, priority
    plus requested duplication stays within 32 bits, and the argument that moves
    the job is evaluated last. *)
Theorem connect_dispatch_purge d q heap A job req :
  linked d q -> mq_repr q A -> ready d job req -> abs_count (job_id job) A = 0 ->
  exists q' q'', Connect MoveLast (Some job) req (d, (q, heap)) =
      Done tt (d, (q', heap ++ [PurgeState.new])) /\
    mq_Purge (job_id job) q' = Done (fan_out d job req) q'' /\ mq_repr q'' A.
Proof.
  intros Hl HA Hr Hz. destruct (connect_enqueues d q heap A job req Hl HA Hr) as (q' & E & HA' & _).
  destruct (mq_purge_spec _ _ (job_id job) HA') as (q'' & Ep & HA'').
  pose proof (mq_repr_max _ _ HA) as Hlen. pose proof (mq_repr_u32 _ _ HA) as Hu.
  destruct Hl as (_ & _ & Hm). destruct Hr as (Hp & _ & Hips).
  assert (fan_out d job req <= _max_priority d + 1 - priority job)%N as Hfan
    by (unfold fan_out; lia).
  pose proof (fun dup ps => duplicates_ids (N.to_nat (fan_out d job req)) job dup ps 0
    (priority job) (N.of_nat (length A)) ltac:(lia)) as Hids.
  exists q', q''. split; [exact E|]. split.
  - rewrite Ep. f_equal. rewrite count_enqueue_all by done.
    rewrite length_duplicates by lia. rewrite Hz, u32_small by (u32_unfold; lia). lia.
  - rewrite purge_enqueue_all in HA'' by (eapply Forall_impl; [apply Hids|by intros ? []]).
    by rewrite abs_purge_none in HA''.
Qed.

(** The clamp of Dispatch is computed in 32 bits: when priority plus
    requested duplication wraps around, the connect stage does not use the
    lowest priority, it aborts on its check of the address count. *)
Theorem connect_dispatch_overflow d (w : world) job req :
  _running d = true -> is_u32 (_max_priority d + 1) -> (priority job <= _max_priority d)%N ->
  is_u32 req -> (u32_mod <= priority job + req)%N ->
  N.of_nat (length (ip_addresses (job_data job))) = (_max_priority d + 1)%N ->
  (_max_priority d < req)%N ->
  Connect MoveLast (Some job) req (d, w) = Crash CheckFailure.
Proof.
  intros Hr Hu Hp Hq Hov Hips Hreq. unfold Connect, Dispatch, max_prio_of. unM. simpl.
  rewrite Hr, (proj2 (N.leb_le _ _) Hp).
  assert (u32_add (priority job) req = (priority job + req - u32_mod)%N) as E.
  { unfold u32_add, u32. symmetry. apply (N.mod_unique _ _ 1); u32_unfold; lia. }
  rewrite E. rewrite (proj2 (N.ltb_ge _ _)) by (u32_unfold; lia).
  rewrite u32_sub_wrap by (u32_unfold; lia).
  unfold DuplicateAndEnqueue. unM. rewrite Hips.
  rewrite (proj2 (N.ltb_ge _ _)) by (u32_unfold; lia). done.
Qed.

End Connect.
End ConnectDispatcher.

(** ** Concrete stages *)
Module DispatchExamples.
Import MQSpec Dispatcher ForwardingDispatcher ConnectDispatcher.

Definition linked_dispatcher (max : N) : Dispatcher := mkDispatcher true max (Some tt).

Definition plain_job (id prio : N) : Job unit := mkJob id prio 0 0 tt.

Definition get_job (id prio : N) : Job ConnectData :=
  mkJob id prio 0 0 (mkConnectData ["10.0.0.1"%string; "10.0.0.2"%string] 7 0).

Lemma forward_dispatch_enqueues_witness :
  exists q', Forward MoveLast (Some (plain_job 4 1)) 0
      (linked_dispatcher 1, MQ.new 1) = Done tt (linked_dispatcher 1, q') /\
    mq_repr q' (abs_enqueue (plain_job 4 1) [[]; []]).
Proof.
  apply (forward_dispatch_enqueues (linked_dispatcher 1) (MQ.new 1) [[]; []]);
    [repeat split; reflexivity|apply (MQSpec.repr_new 1); reflexivity|discriminate|reflexivity].
Defined.

Lemma connect_dispatch_fan_out_witness :
  exists q' A', Connect (fun _ => 0%Z) MoveLast (Some (get_job 4 0)) 5
      (linked_dispatcher 1, (MQ.new 1, [])) =
        Done tt (linked_dispatcher 1, (q', [PurgeState.new])) /\ mq_repr q' A' /\
    vec_get A' 1 = Some [duplicate (fun _ => 0%Z) (get_job 4 0) 1 0 "10.0.0.2"%string 1 1].
Proof.
  destruct (connect_dispatch_fan_out (fun _ => 0%Z) (linked_dispatcher 1) (MQ.new 1) []
    [[]; []] (get_job 4 0) 5) as (q' & A' & E & HA & Hin & _);
    [repeat split; reflexivity|apply (MQSpec.repr_new 1); reflexivity
    |repeat split; discriminate|].
  exists q', A'. split; [exact E|]. split; [exact HA|].
  exact (Hin 1 "10.0.0.2"%string [] eq_refl eq_refl eq_refl).
Defined.

Lemma connect_dispatch_purge_witness :
  exists q' q'', Connect (fun _ => 0%Z) MoveLast (Some (get_job 4 0)) 1
      (linked_dispatcher 1, (MQ.new 1, [])) =
        Done tt (linked_dispatcher 1, (q', [PurgeState.new])) /\
    mq_Purge 4 q' = Done 2%N q'' /\ mq_repr q'' [[]; []].
Proof.
  apply (connect_dispatch_purge (fun _ => 0%Z) (linked_dispatcher 1) (MQ.new 1) []
    [[]; []] (get_job 4 0) 1);
    [repeat split; reflexivity|apply (MQSpec.repr_new 1); reflexivity
    |repeat split; discriminate|reflexivity].
Defined.

Lemma connect_dispatch_overflow_witness :
  Connect (S := @MQ.MultiQueue ConnectDataInternal) (fun _ => 0%Z) MoveLast
    (Some (get_job 4 1)) UINT_MAX (linked_dispatcher 1, (MQ.new 1, [])) = Crash CheckFailure.
Proof.
  apply connect_dispatch_overflow; try reflexivity; discriminate.
Defined.

End DispatchExamples.
