(* ===== verification/Scheduler.v ===== *)
(** * Scheduler (common/dstage/scheduler.hh) and ThreadUtility
      (common/thread/thread_utility.cc)

    Threads are named by the priority they serve; creating, prioritising and
    joining them are calls recorded in order. *)

From stdpp Require Import prelude gmap list strings.
From S2P Require Import Prelude.

Module ThreadUtility.

(** The policies of sched.h on Linux. *)
Definition SCHED_OTHER : Z := 0.
Definition SCHED_FIFO : Z := 1.
Definition SCHED_RR : Z := 2.

Definition PolicyToString (policy : Z) : string :=
  if (policy =? SCHED_FIFO)%Z then "SCHED_FIFO"
  else if (policy =? SCHED_RR)%Z then "SCHED_RR"
  else if (policy =? SCHED_OTHER)%Z then "SCHED_OTHER" else "???".

(** The priorities pthread_setschedparam accepts for SCHED_RR. *)
Definition rr_priority (z : Z) : bool := ((1 <=? z) && (z <=? 99))%Z.

(** The scheduling of a thread, and what SetPriority logs at level ERROR. *)
Record sched := mkSched { policy : Z; sched_priority : Z }.

Inductive sched_error : Type := GetFailed | SetFailed.

(** pthread_getschedparam succeeds or not; pthread_setschedparam changes the
    thread exactly when it accepts policy and priority.  Failures are logged and
    nothing else. *)
Definition SetPriority (get_ok : bool) (accepts : Z -> Z -> bool) (policy priority : Z)
    (t : sched) : sched * list sched_error :=
  let gets := if get_ok then [] else [GetFailed] in
  if accepts policy priority then (mkSched policy priority, gets)
  else (t, gets ++ [SetFailed]).

End ThreadUtility.

Module Scheduler.
Import ThreadUtility.

Inductive thread_call : Type :=
| Spawn (p : N)
| SetPriority (p : N) (policy priority : Z)
| Join (p : N).

Record Scheduler := mkScheduler {
  _set_thread_priority : bool;
  _running : bool;
  _max_priority : N;
  _multi_q_p : option unit;
  _threads_per_prio : list N;
  _workers : list (list N);
  calls : list thread_call
}.

Definition kSchedule : Z := SCHED_RR.

(** The constructor: [size() - 1] is taken before the emptiness check. *)
Definition new (threads_per_prio : list N) (set_thread_priority : bool) : option Scheduler :=
  let s := mkScheduler set_thread_priority false
    (u32_sub (u32 (N.of_nat (length threads_per_prio))) 1) None threads_per_prio [] [] in
  match threads_per_prio with
  | [] => None
  | _ :: _ => Some s
  end.

Definition LinkMultiQ (multi_q_p : option unit) : M Scheduler unit :=
  match multi_q_p with
  | None => crash CheckFailure
  | Some _ => modify (fun s => mkScheduler (_set_thread_priority s) (_running s)
      (_max_priority s) multi_q_p (_threads_per_prio s) (_workers s) (calls s))
  end.

(** Scheduler<T>::Purge ignores its argument. *)
Definition Purge (job_id : N) : N := 0.

Definition set_running (s : Scheduler) : Scheduler :=
  mkScheduler (_set_thread_priority s) true (_max_priority s) (_multi_q_p s)
    (_threads_per_prio s) (_workers s) (calls s).

Definition push_pool (s : Scheduler) : Scheduler :=
  mkScheduler (_set_thread_priority s) (_running s) (_max_priority s) (_multi_q_p s)
    (_threads_per_prio s) (_workers s ++ [[]]) (calls s).

Definition push_worker (p : N) (s : Scheduler) : Scheduler :=
  mkScheduler (_set_thread_priority s) (_running s) (_max_priority s) (_multi_q_p s)
    (_threads_per_prio s)
    (alter (fun l => l ++ [p]) (length (_workers s) - 1) (_workers s))
    (calls s ++ [Spawn p]).

Definition add_call (c : thread_call) (s : Scheduler) : Scheduler :=
  mkScheduler (_set_thread_priority s) (_running s) (_max_priority s) (_multi_q_p s)
    (_threads_per_prio s) (_workers s) (calls s ++ [c]).

(** [int new_prio = 90 - (p * 30) < 1 ? 1 : 90 - (p * 30)]: [p] is unsigned, so
    the subtraction and the comparison are unsigned and the result is converted
    to int. *)
Definition new_prio (p : N) : Z :=
  let v := u32_sub 90 (u32 (p * 30)) in
  i32 (Z.of_N (if (v <? 1)%N then 1 else v)).

Fixpoint spawn_loop (n : nat) (p : N) : M Scheduler unit :=
  match n with
  | O => mret tt
  | S n' =>
      _ ← modify (push_worker p);
      s ← get;
      _ ← (if _set_thread_priority s
           then modify (add_call (SetPriority p kSchedule (new_prio p))) else mret tt);
      spawn_loop n' p
  end.

Fixpoint run_loop (pools : list N) (p : N) : M Scheduler unit :=
  match pools with
  | [] => mret tt
  | n :: pools' =>
      _ ← modify push_pool;
      _ ← spawn_loop (N.to_nat n) p;
      run_loop pools' (u32_add p 1)
  end.

Definition Run : M Scheduler unit :=
  s ← get;
  match _multi_q_p s with
  | None => crash CheckFailure
  | Some _ =>
      _ ← CHECK (negb (_running s));
      _ ← modify set_running;
      run_loop (_threads_per_prio s) 0
  end.

(** ~Scheduler: joins every worker, pool by pool. *)
Definition destroy (s : Scheduler) : Scheduler :=
  if _running s then
    mkScheduler (_set_thread_priority s) (_running s) (_max_priority s) (_multi_q_p s)
      (_threads_per_prio s) (_workers s) (calls s ++ (Join <$> concat (_workers s)))
  else s.

(** ** Properties *)

(** The calls for one worker of priority [p]. *)
Definition worker_calls (set_prio : bool) (p : N) : list thread_call :=
  Spawn p :: (if set_prio then [SetPriority p kSchedule (new_prio p)] else []).

Definition pool_of (p : N) (n : N) : list N := replicate (N.to_nat n) p.

Fixpoint pools_from (p : N) (pools : list N) : list (list N) :=
  match pools with
  | [] => []
  | n :: pools' => pool_of p n :: pools_from (p + 1) pools'
  end.

Lemma alter_last {A} (f : A -> A) (l : list A) x :
  alter f (length (l ++ [x]) - 1) (l ++ [x]) = l ++ [f x].
Proof.
  rewrite length_app. simpl. replace (length l + 1 - 1) with (length l + 0) by lia.
  by rewrite alter_app_r.
Qed.

Lemma spawn_loop_Done n p s w l :
  _workers s = w ++ [l] ->
  spawn_loop n p s = Done tt (mkScheduler (_set_thread_priority s) (_running s)
    (_max_priority s) (_multi_q_p s) (_threads_per_prio s) (w ++ [l ++ replicate n p])
    (calls s ++ concat (replicate n (worker_calls (_set_thread_priority s) p)))).
Proof.
  revert s l. induction n as [|n IH]; intros s l Hw; simpl.
  - unM. rewrite !app_nil_r, <-Hw. by destruct s.
  - unM. assert (_workers (push_worker p s) = w ++ [l ++ [p]]) as Hw'.
    { simpl. by rewrite Hw, alter_last. }
    destruct (_set_thread_priority s) eqn:Ef; simpl; rewrite Ef; simpl.
    + rewrite (IH (add_call _ (push_worker p s)) (l ++ [p]) Hw'). simpl.
      rewrite Ef. by rewrite <-!app_assoc.
    + rewrite (IH (push_worker p s) (l ++ [p]) Hw'). simpl.
      rewrite Ef. by rewrite <-!app_assoc.
Qed.

Lemma run_loop_Done pools p s :
  is_u32 (p + N.of_nat (length pools)) ->
  run_loop pools p s = Done tt (mkScheduler (_set_thread_priority s) (_running s)
    (_max_priority s) (_multi_q_p s) (_threads_per_prio s)
    (_workers s ++ pools_from p pools)
    (calls s ++ concat (worker_calls (_set_thread_priority s) <$>
                          concat (pools_from p pools)))).
Proof.
  revert p s. induction pools as [|n pools IH]; intros p s Hp; simpl in *.
  - unM. rewrite !app_nil_r. by destruct s.
  - unM. rewrite (spawn_loop_Done _ p (push_pool s) (_workers s) []) by done.
    rewrite u32_add_small by (u32_unfold; lia).
    rewrite IH by (u32_unfold; lia). simpl. unfold pool_of.
    by rewrite <-!app_assoc, fmap_app, concat_app, fmap_replicate.
Qed.

(** Run starts exactly [threads_per_prio[p]] workers of priority [p], in
    order of priority, each prioritised once when that was asked for; the
    destructor joins each of them exactly once; a second Run aborts. *)
Theorem scheduler_runs_its_workers threads flag s :
  new threads flag = Some s -> is_u32 (N.of_nat (length threads)) ->
  exists s', (LinkMultiQ (Some tt) ≫= fun _ => Run) s = Done tt s' /\
    _workers s' = pools_from 0 threads /\
    calls s' = concat (worker_calls flag <$> concat (pools_from 0 threads)) /\
    calls (destroy s') = calls s' ++ (Join <$> concat (pools_from 0 threads)) /\
    Run s' = Crash CheckFailure.
Proof.
  intros Hn Hu. destruct threads as [|n l] eqn:E; [done|]. rewrite <-E in *. clear n l E.
  assert (s = mkScheduler flag false (u32_sub (u32 (N.of_nat (length threads))) 1) None
    threads [] []) as -> by (unfold new in Hn; by destruct threads; simplify_eq).
  unfold Run, LinkMultiQ. unM. simpl.
  rewrite run_loop_Done by done. simpl.
  eexists. split; [reflexivity|]. by repeat split.
Qed.

Lemma scheduler_runs_its_workers_witness :
  exists s s', new [2; 1]%N true = Some s /\
    (LinkMultiQ (Some tt) ≫= fun _ => Run) s = Done tt s' /\
    _workers s' = [[0; 0]; [1]]%N.
Proof.
  eexists. destruct (scheduler_runs_its_workers [2; 1]%N true _ eq_refl) as (s' & E & Hw & _);
    [reflexivity|].
  exists s'. split; [reflexivity|]. split; [exact E|exact Hw].
Defined.

(** The thread priorities of the first four levels are valid for SCHED_RR. *)
Lemma new_prio_low p : (p <= 3)%N -> rr_priority (new_prio p) = true.
Proof.
  intros Hp. assert (p = 0 \/ p = 1 \/ p = 2 \/ p = 3)%N as [-> | [-> | [-> | ->]]] by lia; done.
Qed.

Lemma new_prio_high p : (4 <= p)%N -> (p * 30 < 2147483648)%N ->
  new_prio p = (90 - 30 * Z.of_N p)%Z.
Proof.
  intros Hp Hb. unfold new_prio. rewrite u32_small by (u32_unfold; lia).
  rewrite u32_sub_wrap by (u32_unfold; lia). rewrite (proj2 (N.ltb_ge _ _)) by (u32_unfold; lia).
  u32_unfold. rewrite N2Z.inj_sub, N2Z.inj_add by lia.
  replace (Z.of_N 90 + Z.of_N 4294967296 - Z.of_N (p * 30) + 2147483648)%Z
    with ((90 - 30 * Z.of_N p + 2147483648) + 1 * 4294967296)%Z by lia.
  rewrite Z.mod_add by lia. rewrite Z.mod_small by lia. lia.
Qed.

(** The floor of 1 in Run only works for the priority where 90 - 30 p is
    exactly 0: up to level 3 the thread priority is in SCHED_RR's range, from
    level 4 on the unsigned subtraction wraps, the test [< 1] fails and the
    thread priority becomes negative. *)
Lemma thread_priority_range p : (p * 30 < 2147483648)%N ->
  rr_priority (new_prio p) = true <-> (p <= 3)%N.
Proof.
  intros Hb. split; [|apply new_prio_low]. intros H.
  destruct (N.le_gt_cases p 3) as [?|Hp]; [done|]. exfalso.
  rewrite new_prio_high in H by lia. unfold rr_priority in H.
  apply andb_true_iff in H as [H _]. apply Z.leb_le in H. lia.
Qed.

(** On a kernel that accepts the documented range of SCHED_RR, the workers of the
    levels up to 3 get the priority Run computes; those of the levels from 4 on
    keep the scheduling they had, and only the log tells. *)
Theorem thread_priority_set accepts p t :
  (forall prio, accepts SCHED_RR prio = rr_priority prio) -> (p * 30 < 2147483648)%N ->
  ThreadUtility.SetPriority true accepts kSchedule (new_prio p) t =
    if (p <=? 3)%N then (mkSched SCHED_RR (new_prio p), []) else (t, [SetFailed]).
Proof.
  intros Hacc Hb. unfold ThreadUtility.SetPriority, kSchedule. rewrite Hacc.
  pose proof (thread_priority_range p Hb) as H.
  destruct (rr_priority (new_prio p)), (N.leb_spec p 3); try done; exfalso.
  - apply (N.lt_irrefl 3). eapply N.lt_le_trans; [done|]. by apply H.
  - by assert (false = true) by by apply H.
Qed.

Lemma thread_priority_set_witness :
  ThreadUtility.SetPriority true (fun pol prio => rr_priority prio) kSchedule (new_prio 4)
    (mkSched SCHED_OTHER 0) = (mkSched SCHED_OTHER 0, [SetFailed]).
Proof. apply (thread_priority_set (fun pol prio => rr_priority prio) 4); reflexivity. Defined.

End Scheduler.
