(* ===== verification/DStage.v ===== *)
(** * Stages (common/dstage/dstage.hh) and the Executor (common/dstage/executor.cc)

    A stage owns a multi-queue, a dispatcher and a scheduler.  Its theorems are
    proved against the multi-queue contract; the Executor is the stage with one
    priority, a forwarding dispatcher and a scheduler that runs closures. *)

From stdpp Require Import prelude gmap list strings.
From S2P Require Import Prelude Synchronization Job BaseMultiQueue JobTypes MultiQueue.
From S2P Require Import MultiQueueSpec Dispatcher Scheduler.

Module DStage.
Import Dispatcher.

Section Stage.
(** [W] holds the stage's queue and whatever else its dispatcher works on. *)
Context {I T S W : Type} `{MultiQueueContract T S}.
Context (queue_of : W -> S) (set_queue_of : S -> W -> W).
Context (dispatch : option (Job I) -> N -> M (Dispatcher * W) unit).

Record DStage := mkDStage {
  _max_priority : N;
  world : W;
  _dispatcher : Dispatcher;
  _scheduler : Scheduler.Scheduler
}.

(** The scheduler's virtual Purge. *)
Context (scheduler_purge : N -> M DStage N).

Definition on_dispatcher {A} (m : M (Dispatcher * W) A) : M DStage A :=
  zoom (fun s => (_dispatcher s, world s))
    (fun p s => mkDStage (_max_priority s) p.2 p.1 (_scheduler s)) m.

Definition on_scheduler {A} (m : M Scheduler.Scheduler A) : M DStage A :=
  zoom _scheduler (fun x s => mkDStage (_max_priority s) (world s) (_dispatcher s) x) m.

Definition on_multi_q {A} (m : M S A) : M DStage A :=
  zoom (fun s => queue_of (world s))
    (fun q s => mkDStage (_max_priority s) (set_queue_of q (world s)) (_dispatcher s)
                  (_scheduler s)) m.

(** The constructor links and starts the scheduler before the dispatcher. *)
Definition construct (max_priority : N) (w : W) (d : Dispatcher)
    (s : Scheduler.Scheduler) : outcome DStage unit :=
  (_ ← on_scheduler (Scheduler.LinkMultiQ (Some tt));
   _ ← on_scheduler Scheduler.Run;
   on_dispatcher (LinkMultiQ (Some tt))) (mkDStage max_priority w d s).

Definition Dispatch (job_p : option (Job I)) (requested_duplication : N) : M DStage unit :=
  on_dispatcher (dispatch job_p requested_duplication).

Definition Purge (job_id : N) : M DStage N :=
  purged ← on_multi_q (mq_Purge job_id);
  more ← scheduler_purge job_id;
  mret (u32_add purged more).

(** A constructed stage: its dispatcher accepts jobs and its workers run. *)
Definition running_stage (s : DStage) : Prop :=
  linked (_dispatcher s) (queue_of (world s)) /\
  Scheduler._running (_scheduler s) = true.

Lemma construct_running max w threads flag sch :
  mq_MaxPriority (queue_of w) = max ->
  Scheduler.new threads flag = Some sch -> is_u32 (N.of_nat (length threads)) ->
  exists s, construct max w (new max) sch = Done tt s /\ running_stage s /\
    world s = w /\ Scheduler._workers (_scheduler s) = Scheduler.pools_from 0 threads.
Proof.
  intros Hmax Hn Hu. destruct threads as [|n l] eqn:E; [done|]. rewrite <-E in *. clear n l E.
  assert (sch = Scheduler.mkScheduler flag false (u32_sub (u32 (N.of_nat (length threads))) 1)
    None threads [] []) as -> by (unfold Scheduler.new in Hn; by destruct threads; simplify_eq).
  unfold construct, on_scheduler, Scheduler.LinkMultiQ, Scheduler.Run, zoom. unM. simpl.
  rewrite Scheduler.run_loop_Done by done. simpl.
  unfold on_dispatcher, LinkMultiQ, zoom. unM. simpl.
  eexists. split; [reflexivity|]. by repeat split.
Qed.

End Stage.
Arguments DStage : clear implicits.
End DStage.

Module Executor.
Import MQ MQSpec Dispatcher ForwardingDispatcher.

Definition kMaxPrioDansExecutor : N := 0.

(** A closure is known by the log entry its run leaves. *)
Record ExecutorCallback := mkExecutorCallback { closure : N; id : N }.

Definition Queue : Type := @MultiQueue ExecutorCallback.

Definition Stage : Type := DStage.DStage Queue.

Record Executor := mkExecutor {
  stage : Stage;
  _jid_factory : Counter.Counter;
  _destructing : bool;
  ran : list ExecutorCallback
}.

Definition on_stage {A} (m : M Stage A) : M Executor A :=
  zoom stage (fun s e => mkExecutor s (_jid_factory e) (_destructing e) (ran e)) m.

Definition on_factory {A} (m : M Counter.Counter A) : M Executor A :=
  zoom _jid_factory (fun c e => mkExecutor (stage e) c (_destructing e) (ran e)) m.

Definition on_queue {A} (m : M Queue A) : M Executor A :=
  on_stage (DStage.on_multi_q (fun q => q) (fun q _ => q) m).

(** Executor(threadpool_size). *)
Definition construct (threadpool_size : N) : outcome Executor unit :=
  match Scheduler.new [threadpool_size] false with
  | None => Crash CheckFailure
  | Some sch =>
      match DStage.construct (W := Queue) kMaxPrioDansExecutor
              (MQ.new kMaxPrioDansExecutor) (Dispatcher.new kMaxPrioDansExecutor) sch with
      | Done _ s => Done tt (mkExecutor s (JobIdFactory.new 1) false [])
      | Wait s => Wait (mkExecutor s (JobIdFactory.new 1) false [])
      | Crash e => Crash e
      end
  end.

Definition Submit (now : Z) (task : ExecutorCallback) : M Executor unit :=
  jid ← on_factory JobIdFactory.CreateJobId;
  on_stage (DStage.Dispatch (Forward MoveLast) (Some (mkJob jid 0 0 now task)) 0).

(** One pass of the loop of StartScheduling: false when the worker returns. *)
Definition worker_pass (prio : N) : M Executor bool :=
  e ← get;
  if _destructing e then mret false
  else
    job ← on_queue (Dequeue prio);
    match job with
    | None => mret true
    | Some j =>
        _ ← modify (fun e => mkExecutor (stage e) (_jid_factory e) (_destructing e)
                      (ran e ++ [job_data j]));
        mret true
    end.

(** ~ExecutorScheduler, before the base class joins the workers. *)
Definition destroy_scheduler : M Executor unit :=
  _ ← modify (fun e => mkExecutor (stage e) (_jid_factory e) true (ran e));
  e ← get;
  if Scheduler._running (DStage._scheduler (stage e))
  then on_queue ReleaseQueues else mret tt.

(** ** First come, first served *)

Inductive event : Type :=
| EvSubmit (now : Z) (task : ExecutorCallback)
| EvWorker.

Definition tasks_of (l : list event) : list ExecutorCallback :=
  omap (fun e => match e with EvSubmit _ t => Some t | EvWorker => None end) l.

(** A worker pass that blocks is retried later. *)
Definition exec_event (ev : event) (e : Executor) : option Executor :=
  match ev with
  | EvSubmit now t => out_state (Submit now t e)
  | EvWorker => out_state (worker_pass 0 e)
  end.

Fixpoint exec_events (l : list event) (e : Executor) : option Executor :=
  match l with
  | [] => Some e
  | ev :: l' => e' ← exec_event ev e; exec_events l' e'
  end.

(** The queue holds the jobs of [pending], in order. *)
Record exec_ok (e : Executor) (pending : list ExecutorCallback) (budget : nat) : Prop := {
  eo_stage : DStage.running_stage (T := ExecutorCallback) (fun q => q) (stage e);
  eo_repr : exists jobs, repr (DStage.world (stage e)) [jobs] /\
    job_data <$> jobs = pending;
  eo_count : (0 <= Counter._count (_jid_factory e) /\
    Counter._count (_jid_factory e) + Z.of_nat budget <= INT_MAX)%Z;
  eo_open : _destructing e = false
}.

Lemma submit_ok e pending budget now t :
  exec_ok e pending (S budget) ->
  exists e', Submit now t e = Done tt e' /\ exec_ok e' (pending ++ [t]) budget /\ ran e' = ran e.
Proof.
  intros [Hst (jobs & HA & Hj) Hc Ho].
  destruct Hst as [Hl Hrun].
  set (jid := Z.to_N (Counter._count (_jid_factory e) + 1)).
  change (mq_repr (DStage.world (stage e)) [jobs]) in HA.
  destruct (forward_enqueues (T:=ExecutorCallback) (DStage._dispatcher (stage e))
    (DStage.world (stage e)) [jobs] (mkJob jid 0 0 now t) 0 Hl HA) as (q' & E & HA' & Hl');
    [simpl; lia|reflexivity|].
  unfold Submit. erewrite bind_Done; last first.
  { unfold on_factory, zoom. rewrite JobIdFactory.CreateJobId_ok by lia. reflexivity. }
  unfold on_stage, DStage.Dispatch, DStage.on_dispatcher, zoom. simpl.
  fold jid. rewrite E. eexists. split; [reflexivity|]. split; [|done]. split; simpl.
  - by split.
  - exists (jobs ++ [mkJob jid 0 0 now t]). split; [exact HA'|]. by rewrite fmap_app, Hj.
  - lia.
  - done.
Qed.

(** The queue of a stage keeps its number of priorities. *)
Lemma linked_kept e (jobs jobs' : list (Job ExecutorCallback)) (q' : Queue) :
  repr (DStage.world (stage e)) [jobs] -> repr q' [jobs'] ->
  linked (DStage._dispatcher (stage e)) (DStage.world (stage e)) ->
  linked (DStage._dispatcher (stage e)) q'.
Proof.
  intros HA HA' (Hr & Hk & Hm). split; [done|]. split; [done|]. rewrite Hm.
  pose proof (repr_max _ _ HA). pose proof (repr_max _ _ HA'). simpl in *.
  unfold MaxPriority in *. lia.
Qed.

(** A worker pass runs the first pending task. *)
Lemma worker_runs e t pending budget :
  exec_ok e (t :: pending) budget ->
  exists e', worker_pass 0 e = Done true e' /\
    exec_ok e' pending budget /\ ran e' = ran e ++ [t].
Proof.
  intros [[Hl Hrun] (jobs & HA & Hj) Hc Ho].
  destruct jobs as [|j jobs]; simpl in Hj; [done|]. injection Hj as Hj1 Hj2.
  destruct (repr_dequeue _ _ 0 _ _ HA eq_refl) as (q' & E & HA').
  unfold worker_pass. unM. rewrite Ho. unfold on_queue, on_stage, DStage.on_multi_q, zoom. simpl.
  rewrite E. simpl. eexists. split; [reflexivity|]. split; [|by rewrite <-Hj1].
  split; simpl; try done; [|by exists jobs]. split; [|done].
  exact (linked_kept e (j :: jobs) jobs q' HA HA' Hl).
Qed.

(** A pass runs the first pending task, if there is one, and waits otherwise. *)
Lemma worker_ok e pending budget :
  exec_ok e pending budget ->
  exists e', out_state (worker_pass 0 e) = Some e' /\
    exec_ok e' (drop 1 pending) budget /\ ran e' = ran e ++ take 1 pending.
Proof.
  destruct pending as [|t pending]; intros Hok.
  - destruct Hok as [[Hl Hrun] (jobs & HA & Hj) Hc Ho]. destruct jobs; [|done].
    destruct (repr_dequeue_empty _ _ 0 HA eq_refl) as (q' & E & HA').
    unfold worker_pass. unM. rewrite Ho. unfold on_queue, on_stage, DStage.on_multi_q, zoom. simpl.
    rewrite E. simpl. eexists. split; [reflexivity|]. split; [|by rewrite app_nil_r].
    split; simpl; try done; [|by exists []]. split; [|done].
    exact (linked_kept e [] [] q' HA HA' Hl).
  - destruct (worker_runs e t pending budget Hok) as (e' & -> & Hok' & Hr). simpl. eauto.
Qed.

Lemma events_ok l e pending :
  exec_ok e pending (length (tasks_of l)) ->
  exists e' pending', exec_events l e = Some e' /\ exec_ok e' pending' 0 /\
    ran e' ++ pending' = ran e ++ pending ++ tasks_of l.
Proof.
  revert e pending. induction l as [|[now t|] l IH]; intros e pending He; simpl in *.
  - exists e, pending. by rewrite app_nil_r.
  - destruct (submit_ok e pending _ now t He) as (e1 & -> & He1 & Hr). simpl.
    destruct (IH e1 _ He1) as (e' & p' & -> & Hok & Heq). exists e', p'. split; [done|].
    split; [done|]. by rewrite Heq, Hr, <-!app_assoc.
  - destruct (worker_ok e pending _ He) as (e1 & -> & He1 & Hr). simpl.
    destruct (IH e1 _ He1) as (e' & p' & -> & Hok & Heq). exists e', p'. split; [done|].
    split; [done|]. rewrite Heq, Hr, <-app_assoc. f_equal.
    by rewrite app_assoc, take_drop.
Qed.

Lemma drain_ok n e pending :
  exec_ok e pending 0 -> length pending <= n ->
  exists e', exec_events (replicate n EvWorker) e = Some e' /\ ran e' = ran e ++ pending.
Proof.
  revert e pending. induction n as [|n IH]; intros e pending He Hn; simpl.
  - destruct pending; [|simpl in Hn; lia]. exists e. by rewrite app_nil_r.
  - destruct (worker_ok e pending 0 He) as (e1 & -> & He1 & Hr). simpl.
    destruct (IH e1 _ He1) as (e' & -> & Hr'); [rewrite length_drop; lia|].
    exists e'. split; [done|]. by rewrite Hr', Hr, <-app_assoc, take_drop.
Qed.

Lemma construct_ok n : exists e, construct n = Done tt e /\ ran e = [] /\
  forall budget, (Z.of_nat budget < INT_MAX)%Z -> exec_ok e [] budget.
Proof.
  unfold construct. destruct (Scheduler.new [n] false) as [sch|] eqn:E; [|done].
  destruct (DStage.construct_running (T := ExecutorCallback) (fun q : Queue => q) kMaxPrioDansExecutor
    (MQ.new kMaxPrioDansExecutor) [n] false sch)
    as (s & -> & Hrun & Hw & _); [reflexivity|exact E|reflexivity|].
  eexists. split; [reflexivity|]. split; [done|]. intros budget Hb. split; simpl; try done.
  - exists []. split; [|done]. rewrite Hw. by apply (repr_new 0).
  - change (i32 1) with 1%Z. unfold INT_MAX in *. lia.
Qed.

(** C27. The Executor is first come, first served and loses nothing.  For any
    interleaving of Submits and worker passes, what has run followed by what is
    still queued is what was submitted, in order; as many further passes as
    there are queued tasks run all of them. *)
Theorem executor_fifo (n : N) (l : list event) :
  (Z.of_nat (length (tasks_of l)) < INT_MAX)%Z ->
  exists e e1 pending, construct n = Done tt e /\ exec_events l e = Some e1 /\
    ran e1 ++ pending = tasks_of l /\
    exists e2, exec_events (replicate (length pending) EvWorker) e1 = Some e2 /\
      ran e2 = tasks_of l.
Proof.
  intros Hl. destruct (construct_ok n) as (e & He & Hr & Hok).
  destruct (events_ok l e [] (Hok _ Hl)) as (e1 & pending & E1 & Hok1 & Heq).
  rewrite Hr in Heq. simpl in Heq.
  destruct (drain_ok (length pending) e1 pending Hok1 ltac:(lia)) as (e2 & E2 & Hr2).
  exists e, e1, pending. repeat split; try done. exists e2. by rewrite Hr2, Heq.
Qed.

Lemma executor_fifo_witness :
  exists e e1, construct 2 = Done tt e /\
    exec_events [EvWorker; EvSubmit 0 (mkExecutorCallback 7 1); EvWorker] e = Some e1 /\
    exists pending, ran e1 ++ pending = [mkExecutorCallback 7 1].
Proof.
  destruct (executor_fifo 2 [EvWorker; EvSubmit 0 (mkExecutorCallback 7 1); EvWorker])
    as (e & e1 & p & H1 & H2 & H3 & _); [reflexivity|].
  exists e, e1. split; [exact H1|]. split; [exact H2|]. exists p. exact H3.
Defined.

End Executor.
