(* ===== verification/StageContract.v ===== *)
(** * The interface of a stage (common/dstage/basedstage.h)

    BaseDStage as a type class, what its comments promise as a contract, the
    forwarding and the connecting DStage (dstage.hh) as instances, and what a
    caller of any stage gets: a Purge takes back exactly the jobs dispatched
    under its id, whatever else was dispatched in between. *)

From stdpp Require Import prelude gmap list.
From S2P Require Import Prelude Synchronization Job BaseMultiQueue JobTypes MultiQueue.
From S2P Require Import MultiQueueSpec Dispatcher Scheduler DStage.

Module StageContract.

(** The virtual functions of BaseDStage<I>, on the stage's state [S]. *)
Class BaseDStage (I S : Type) := {
  ds_Dispatch : option (Job I) -> N -> M S unit;
  ds_Purge : N -> M S N
}.

(** The queues after [l] was enqueued, job by job. *)
Definition enqueue_jobs {T} (l : list (Job T)) (A : list (list (Job T))) : list (list (Job T)) :=
  fold_left (fun A job => abs_enqueue job A) l A.

(** A job becomes one or more duplicates with its id, and stays accepted
    whatever is dispatched; Purge removes every instance of an id and returns
    how many there were. *)
Class StageContract (I T S : Type) `{BaseDStage I S} := {
  ds_holds : S -> list (list (Job T)) -> Prop;
  ds_accepts : S -> Job I -> N -> Prop;
  ds_dispatch_spec s A job req :
    ds_holds s A -> ds_accepts s job req ->
    exists s' l, ds_Dispatch (Some job) req s = Done tt s' /\
      ds_holds s' (enqueue_jobs l A) /\ l <> [] /\
      Forall (fun j => has_job_id (job_id job) j = true /\
        (priority j < N.of_nat (length A))%N) l /\
      forall job' req', ds_accepts s job' req' -> ds_accepts s' job' req';
  ds_purge_spec s A id :
    ds_holds s A ->
    exists s', ds_Purge id s = Done (u32 (N.of_nat (abs_count id A))) s' /\
      ds_holds s' (abs_purge id A)
}.

(** ** Purging among other jobs *)

Section Lists.
Context {T : Type}.
Implicit Types (A : list (list (Job T))) (l : list (Job T)).

Lemma enqueue_jobs_app l1 l2 A : enqueue_jobs (l1 ++ l2) A = enqueue_jobs l2 (enqueue_jobs l1 A).
Proof. apply fold_left_app. Qed.

Lemma length_enqueue_jobs l A : length (enqueue_jobs l A) = length A.
Proof.
  revert A. induction l as [|j l IH]; intros A; simpl; [done|]. rewrite IH. apply length_abs_enqueue.
Qed.

(** Enqueuing a job with another id commutes with the purge. *)
Lemma abs_purge_other id job A :
  has_job_id id job = false -> abs_purge id (abs_enqueue job A) = abs_enqueue job (abs_purge id A).
Proof.
  intros Hid. unfold abs_enqueue, abs_purge, vec_get, vec_set. rewrite list_lookup_fmap.
  destruct (A !! N.to_nat (priority job)) as [q|]; simpl; [|done].
  rewrite list_fmap_insert. f_equal. rewrite filter_app. f_equal.
  apply filter_all_true. intros x ->%list_elem_of_singleton. by rewrite Hid.
Qed.

Lemma purge_enqueue_jobs id l A :
  abs_purge id (enqueue_jobs l A) =
    enqueue_jobs (filter (fun j => negb (has_job_id id j)) l) (abs_purge id A).
Proof.
  revert A. induction l as [|j l IH]; intros A; simpl; [done|]. rewrite IH, filter_cons_bool.
  destruct (has_job_id id j) eqn:Ej; simpl; [by rewrite abs_purge_enqueue|by rewrite abs_purge_other].
Qed.

Lemma count_enqueue_jobs id l A :
  Forall (fun j => (priority j < N.of_nat (length A))%N) l ->
  abs_count id (enqueue_jobs l A) = abs_count id A + count (has_job_id id) l.
Proof.
  revert A. induction l as [|j l IH]; intros A Hl; simpl; [lia|].
  apply Forall_cons in Hl as [Hj Hl]. rewrite IH by (by rewrite length_abs_enqueue).
  rewrite abs_count_enqueue by done. lia.
Qed.

End Lists.

(** ** What a caller gets *)

Section Caller.
Context {I T S : Type} `{StageContract I T S}.

(** Dispatches, one after the other. *)
Fixpoint dispatch_all (js : list (Job I * N)) : M S unit :=
  match js with
  | [] => mret tt
  | (job, req) :: js' => _ ← ds_Dispatch (Some job) req; dispatch_all js'
  end.

Lemma dispatch_all_enqueues js s A :
  ds_holds s A -> Forall (fun x => ds_accepts s x.1 x.2) js ->
  exists s' l, dispatch_all js s = Done tt s' /\ ds_holds s' (enqueue_jobs l A) /\
    Forall (fun j => (priority j < N.of_nat (length A))%N) l /\
    (forall j, j ∈ l -> exists x, x ∈ js /\ job_id j = job_id x.1) /\
    (forall x, x ∈ js -> exists j, j ∈ l /\ job_id j = job_id x.1).
Proof.
  revert s A. induction js as [|[job req] js IH]; intros s A Hs Hjs.
  { exists s, []. split; [done|]. split; [done|]. split; [done|].
    split; intros x Hx; by apply elem_of_nil in Hx. }
  apply Forall_cons in Hjs as [Hj Hjs]. simpl in Hj.
  destruct (ds_dispatch_spec s A job req Hs Hj) as (s1 & l1 & E1 & Hs1 & Hne & Hl1 & Hacc).
  destruct (IH s1 (enqueue_jobs l1 A) Hs1) as (s' & l2 & E2 & Hs' & Hp & Hf & Hb).
  { eapply Forall_impl; [exact Hjs|]. intros x. apply Hacc. }
  exists s', (l1 ++ l2). rewrite enqueue_jobs_app, length_enqueue_jobs in *. simpl.
  split; [by rewrite (bind_Done _ _ _ tt s1)|]. split; [done|]. split.
  { apply Forall_app. split; [|done]. eapply Forall_impl; [exact Hl1|]. by intros j [_ ?]. }
  rewrite Forall_forall in Hl1. split.
  - intros j [Hj1|Hj2]%elem_of_app.
    + exists (job, req). split; [apply list_elem_of_here|].
      destruct (Hl1 j Hj1) as [Hid _]. by apply N.eqb_eq in Hid.
    + destruct (Hf j Hj2) as (x & ? & ?). exists x. split; [by apply list_elem_of_further|done].
  - intros x [->|Hx]%elem_of_cons.
    + destruct l1 as [|j l1]; [done|]. exists j. split; [by apply elem_of_app; left; left|].
      destruct (Hl1 j) as [Hid _]; [by left|]. by apply N.eqb_eq in Hid.
    + destruct (Hb x Hx) as (j & ? & ?). exists j. split; [apply elem_of_app; by right|done].
Qed.

(** C32. Purge undoes the dispatches of one id and nothing else, on any stage
    that keeps the contract of BaseDStage.  After any sequence of accepted
    dispatches, Purge of an id the stage did not hold before leaves the queues
    as if only the jobs with other ids had been dispatched: each of those still
    has a duplicate queued, none of the purged id is left, and the result is
    the number of jobs removed. *)
Theorem stage_purge_selective (js : list (Job I * N)) s A id :
  ds_holds s A -> Forall (fun x => ds_accepts s x.1 x.2) js -> abs_count id A = 0 ->
  exists s' s'' l kept, dispatch_all js s = Done tt s' /\ ds_holds s' (enqueue_jobs l A) /\
    ds_Purge id s' = Done (u32 (N.of_nat (length l - length kept))) s'' /\
    ds_holds s'' (enqueue_jobs kept A) /\
    kept = filter (fun j => negb (has_job_id id j)) l /\
    (forall x, x ∈ js -> job_id x.1 <> id -> exists j, j ∈ kept /\ job_id j = job_id x.1) /\
    (forall j, j ∈ kept -> job_id j <> id /\ exists x, x ∈ js /\ job_id j = job_id x.1).
Proof.
  intros Hs Hjs Hz.
  destruct (dispatch_all_enqueues js s A Hs Hjs) as (s' & l & E & Hs' & Hp & Hf & Hb).
  destruct (ds_purge_spec s' _ id Hs') as (s'' & Ep & Hs'').
  exists s', s'', l, (filter (fun j => negb (has_job_id id j)) l).
  split; [done|]. split; [done|].
  rewrite count_enqueue_jobs, Hz in Ep by done. rewrite purge_enqueue_jobs, abs_purge_none in Hs'' by done.
  split.
  { rewrite Ep. do 3 f_equal. simpl. clear. induction l as [|j l IH]; [done|]. simpl count.
    rewrite IH, filter_cons_bool. pose proof (length_filter (fun j => negb (has_job_id id j)) l).
    destruct (has_job_id id j); simpl; lia. }
  split; [done|]. split; [done|]. split.
  - intros x Hx Hne. destruct (Hb x Hx) as (j & Hj & Hid). exists j. split; [|done].
    apply list_elem_of_filter. split; [|done]. unfold has_job_id.
    by rewrite Hid, (proj2 (N.eqb_neq _ _)).
  - intros j [Hid Hj]%list_elem_of_filter. split; [|by apply Hf].
    unfold has_job_id in Hid. by destruct (N.eqb_spec (job_id j) id).
Qed.

End Caller.

(** ** The stages of the library *)

Section Stages.
Context {T Q W : Type} `{MultiQueueContract T Q}.
Context (queue_of : W -> Q) (set_queue_of : Q -> W -> W).
Context (queue_set : forall q w, queue_of (set_queue_of q w) = q).

(** DStage::Purge with the Purge of the base Scheduler. *)
Definition stage_Purge : N -> M (DStage.DStage W) N :=
  DStage.Purge (T := T) queue_of set_queue_of (fun id => mret (Scheduler.Purge id)).

(** A running stage whose queue holds [A]. *)
Definition stage_holds (s : DStage.DStage W) (A : list (list (Job T))) : Prop :=
  Dispatcher.linked (T := T) (DStage._dispatcher s) (queue_of (DStage.world s)) /\
  mq_repr (queue_of (DStage.world s)) A.

Lemma length_abs_purge id (A : list (list (Job T))) : length (abs_purge id A) = length A.
Proof. apply length_fmap. Qed.

Lemma stage_purges s A id :
  stage_holds s A ->
  exists s', stage_Purge id s = Done (u32 (N.of_nat (abs_count id A))) s' /\
    stage_holds s' (abs_purge id A).
Proof.
  intros [(Hr & Hl & Hm) HA]. destruct (mq_purge_spec _ _ id HA) as (q' & E & HA').
  pose proof (mq_repr_max _ _ HA) as L1. pose proof (mq_repr_max _ _ HA') as L2.
  rewrite length_abs_purge in L2.
  eexists (DStage.mkDStage (DStage._max_priority s) (set_queue_of q' (DStage.world s))
    (DStage._dispatcher s) (DStage._scheduler s)). split.
  - unfold stage_Purge, DStage.Purge, DStage.on_multi_q, zoom. unM. rewrite E. unfold Scheduler.Purge.
    f_equal. unfold u32_add. rewrite N.add_0_r. apply u32_small, u32_lt.
  - unfold stage_holds. simpl. rewrite queue_set. split; [|done].
    split; [done|]. split; [done|]. rewrite Hm. lia.
Qed.

End Stages.

(** A stage with a ForwardingDispatcher, such as the Executor's. *)
Section Forwarding.
Context {T Q : Type} `{MultiQueueContract T Q}.

#[export] Instance forwarding_stage : BaseDStage T (DStage.DStage Q) := {
  ds_Dispatch := DStage.Dispatch (ForwardingDispatcher.Forward Dispatcher.MoveLast);
  ds_Purge := stage_Purge (T := T) (fun q => q) (fun q _ => q)
}.

#[export] Instance forwarding_contract : StageContract T T (DStage.DStage Q).
Proof.
  refine {|
    ds_holds := stage_holds (T := T) (fun q : Q => q);
    ds_accepts := fun s job req =>
      (priority job <= Dispatcher._max_priority (DStage._dispatcher s))%N /\
      is_u32 (priority job + req)
  |}.
  - intros s A job req [Hl HA] [Hp Hu].
    destruct (ForwardingDispatcher.forward_enqueues _ _ _ _ _ Hl HA Hp Hu) as (q' & E & HA' & Hl').
    exists (DStage.mkDStage (DStage._max_priority s) q' (DStage._dispatcher s)
      (DStage._scheduler s)), [job].
    split; [|split; [done|split; [done|split; [|done]]]].
    + simpl. unfold DStage.Dispatch, DStage.on_dispatcher, zoom. simpl. by rewrite E.
    + constructor; [|done]. split; [apply N.eqb_refl|]. rewrite (mq_repr_max _ _ HA).
      destruct Hl as (_ & _ & <-). lia.
  - intros s A id. by apply stage_purges.
Defined.

End Forwarding.

(** The stage with a ConnectDispatcher. *)
Section Connecting.
Context {Q : Type} `{MultiQueueContract ConnectDataInternal Q}.
Context (now : nat -> Z).

Definition connecting_stage :
    BaseDStage ConnectData (DStage.DStage (Q * list PurgeState.PurgeState)) := {|
  ds_Dispatch := DStage.Dispatch (ConnectDispatcher.Connect now Dispatcher.MoveLast);
  ds_Purge := stage_Purge (T := ConnectDataInternal) fst (fun q w => (q, w.2))
|}.

Definition connecting_contract :
    @StageContract ConnectData ConnectDataInternal _ connecting_stage.
Proof.
  refine {|
    ds_holds := stage_holds (T := ConnectDataInternal) fst;
    ds_accepts := fun s job req => ConnectDispatcher.ready (DStage._dispatcher s) job req
  |}.
  - intros s A job req [Hl HA] Hready.
    destruct s as [mp [q heap] d sch]. simpl in *.
    destruct (ConnectDispatcher.connect_enqueues now d q heap A job req Hl HA Hready)
      as (q' & E & HA' & Hl').
    eexists (DStage.mkDStage mp (q', heap ++ [PurgeState.new]) d sch), _.
    split; [|split; [split; [exact Hl'|exact HA']|]].
    + unfold ds_Dispatch, connecting_stage, DStage.Dispatch, DStage.on_dispatcher, zoom.
      cbn [DStage._dispatcher DStage.world]. unfold ConnectDispatcher.world. by rewrite E.
    + pose proof (mq_repr_max _ _ HA) as Hlen. destruct Hl as (_ & _ & Hm).
      destruct Hready as (Hp & _ & Hips). unfold ConnectDispatcher.fan_out.
      split; [|split; [apply ConnectDispatcher.duplicates_ids; lia|done]].
      intros Hnil%(f_equal length). rewrite ConnectDispatcher.length_duplicates in Hnil by lia.
      simpl in Hnil. lia.
  - intros s A id. by apply stage_purges.
Defined.

End Connecting.

(** ** A connect stage with two priorities *)

Import MQSpec.

Definition connect_example : DStage.DStage (@MQ.MultiQueue ConnectDataInternal * list PurgeState.PurgeState) :=
  DStage.mkDStage 1 (MQ.new 1, []) (DispatchExamples.linked_dispatcher 1)
    (Scheduler.mkScheduler false true 1 (Some tt) [] [] []).

(** Two gets with two duplicates each, the first one is purged. *)
Lemma stage_purge_selective_witness : exists s' s'' (l kept : list (Job ConnectDataInternal)),
  dispatch_all (H := connecting_stage (fun _ => 0%Z))
    [(DispatchExamples.get_job 4 0, 1%N); (DispatchExamples.get_job 5 0, 1%N)] connect_example =
    Done tt s' /\
  ds_Purge (BaseDStage := connecting_stage (fun _ => 0%Z)) 4 s' =
    Done (u32 (N.of_nat (length l - length kept))) s'' /\
  exists j, j ∈ kept /\ job_id j = 5%N.
Proof.
  assert (ds_holds (StageContract := connecting_contract (fun _ => 0%Z)) connect_example [[]; []])
    as Hh by (split; [repeat split; reflexivity|apply (MQSpec.repr_new 1); reflexivity]).
  destruct (stage_purge_selective (H0 := connecting_contract (fun _ => 0%Z))
    [(DispatchExamples.get_job 4 0, 1%N); (DispatchExamples.get_job 5 0, 1%N)]
    connect_example [[]; []] 4) as (s' & s'' & l & kept & E & _ & Ep & _ & _ & Hk & _);
    [exact Hh|repeat constructor; discriminate|reflexivity|].
  exists s', s'', l, kept. split; [exact E|]. split; [exact Ep|].
  apply (Hk (DispatchExamples.get_job 5 0, 1%N)); [right; left|discriminate].
Defined.

End StageContract.
