(* ===== verification/ExecutorConc.v ===== *)
(** * The Executor's threads (common/dstage/executor.cc)

    The worker threads of an Executor, the threads that call Submit and the
    thread that destroys it, interleaved at every lock operation of the
    MultiQueue they share (MultiQueueConc.v), of the JobIdFactory's counter and
    of [_destructing_lock].  Calling a closure is one step, which logs it. *)

From stdpp Require Import prelude gmap list.
From S2P Require Import Prelude Synchronization Job BaseMultiQueue MultiQueue.
From S2P Require Import MultiQueueSpec MultiQueueRuns MultiQueueConc MultiQueueLocks.
From S2P Require Import MultiQueueSafety MultiQueueLin DStage.

Module ExecutorConc.
Import MQ MQSpec MQRuns MQConc MQLocks MQSafety MQLin.

Abbreviation task := Executor.ExecutorCallback (only parsing).

(** ** Threads *)

(** Where a thread is outside of the multi-queue's code; in [WDequeue],
    [SEnqueue] and [XRelease] it is inside a call, at a program point of
    MultiQueueConc.v.  [WDangling] is a worker that went to lock
    [_destructing_lock] and read [_destructing] after ~ExecutorScheduler had
    destroyed them: what it does from there on is undefined. *)
Inductive role : Type :=
| WTest
| WDequeue
| WRun (job : Job task)
| WReturned
| WDangling
| SIdle
| SIncrement (now : Z) (t : task)
| SCount (now : Z) (t : task)
| SEnqueue (job : Job task)
| SCrashed (t : task)
| XIdle
| XSet
| XRelease
| XJoin
| XDone.

Record exec_conf := mkExecConf {
  mq : conf task;
  _jid_factory : Counter.Counter;
  _destructing : bool;
  roles : list role;
  ran : list task;
  submitted : list task
}.

Definition set_role (t : nat) (r : role) (e : exec_conf) : exec_conf :=
  mkExecConf (mq e) (_jid_factory e) (_destructing e) (<[t := r]> (roles e)) (ran e) (submitted e).

Definition set_mq (c : conf task) (e : exec_conf) : exec_conf :=
  mkExecConf c (_jid_factory e) (_destructing e) (roles e) (ran e) (submitted e).

Definition set_factory (x : Counter.Counter) (e : exec_conf) : exec_conf :=
  mkExecConf (mq e) x (_destructing e) (roles e) (ran e) (submitted e).

Definition set_destructing (e : exec_conf) : exec_conf :=
  mkExecConf (mq e) (_jid_factory e) true (roles e) (ran e) (submitted e).

Definition add_ran (x : task) (e : exec_conf) : exec_conf :=
  mkExecConf (mq e) (_jid_factory e) (_destructing e) (roles e) (ran e ++ [x]) (submitted e).

Definition add_submitted (x : task) (e : exec_conf) : exec_conf :=
  mkExecConf (mq e) (_jid_factory e) (_destructing e) (roles e) (ran e) (submitted e ++ [x]).

(** A thread enters the multi-queue, or goes on inside it. *)
Definition call (t : nat) (o : mq_op task) (e : exec_conf) : option exec_conf :=
  c ← cstep (Start t o) (mq e); Some (set_mq c e).

Definition inside (t : nat) (e : exec_conf) : option exec_conf :=
  c ← cstep (Step t) (mq e); Some (set_mq c e).

Definition is_worker (r : role) : bool :=
  match r with WTest | WDequeue | WRun _ | WReturned | WDangling => true | _ => false end.

Definition returned (r : role) : bool :=
  match r with WReturned => true | _ => false end.

(** The destroying thread has left the body of ~ExecutorScheduler: the members
    [_destructing] and [_destructing_lock] are destroyed, and ~Scheduler has yet
    to join the workers. *)
Definition past_body (r : role) : bool :=
  match r with XJoin | XDone => true | _ => false end.

Definition members_gone (e : exec_conf) : bool := (0 <? count past_body (roles e))%nat.

(** One pass of the loop of StartScheduling, step by step. *)
Definition worker_step (t : nat) (r : role) (e : exec_conf) : option exec_conf :=
  match r with
  | WTest =>
      if members_gone e then Some (set_role t WDangling e)
      else if _destructing e then Some (set_role t WReturned e)
      else call t (OpDequeue 0) (set_role t WDequeue e)
  | WDequeue =>
      match (mq e).2 !! t with
      | Some (Finished (RJob None)) => Some (set_role t WTest e)
      | Some (Finished (RJob (Some job))) => Some (set_role t (WRun job) e)
      | _ => inside t e
      end
  | WRun job => Some (set_role t WTest (add_ran (job_data job) e))
  | _ => None
  end.

(** Submit: CreateJobId in its two critical sections, then Dispatch, which
    enqueues the job (ForwardingDispatcher with one priority). *)
Definition submit_step (t : nat) (r : role) (e : exec_conf) : option exec_conf :=
  match r with
  | SIncrement now x =>
      match Counter.Increment (_jid_factory e) with
      | Done _ c => Some (set_role t (SCount now x) (set_factory c e))
      | _ => Some (set_role t (SCrashed x) e)
      end
  | SCount now x =>
      let job := mkJob (u32_of_Z (Counter._count (_jid_factory e))) 0 0 now x in
      call t (OpEnqueue (Some job)) (set_role t (SEnqueue job) e)
  | SEnqueue job =>
      match (mq e).2 !! t with
      | Some (Finished _) => Some (set_role t SIdle e)
      | _ => inside t e
      end
  | _ => None
  end.

(** ~ExecutorScheduler, whose end destroys the members of the derived class,
    and then the join of ~Scheduler. *)
Definition destroy_step (t : nat) (r : role) (e : exec_conf) : option exec_conf :=
  match r with
  | XSet => call t OpReleaseQueues (set_destructing (set_role t XRelease e))
  | XRelease =>
      match (mq e).2 !! t with
      | Some (Finished _) => Some (set_role t XJoin e)
      | _ => inside t e
      end
  | XJoin =>
      if (count (fun r => is_worker r && negb (returned r)) (roles e) =? 0)%nat
      then Some (set_role t XDone e) else None
  | _ => None
  end.

Definition step (t : nat) (e : exec_conf) : option exec_conf :=
  r ← roles e !! t;
  if is_worker r then worker_step t r e
  else match r with
       | SIdle | SIncrement _ _ | SCount _ _ | SEnqueue _ | SCrashed _ => submit_step t r e
       | _ => destroy_step t r e
       end.

(** ** Runs *)

Inductive move : Type :=
| Submit (t : nat) (now : Z) (x : task)
| Destroy (t : nat)
| Move (t : nat).

Definition exec_move (m : move) (e : exec_conf) : option exec_conf :=
  match m with
  | Submit t now x =>
      match roles e !! t with
      | Some SIdle => Some (set_role t (SIncrement now x) (add_submitted x e))
      | _ => None
      end
  | Destroy t =>
      match roles e !! t with
      | Some XIdle => Some (set_role t XSet e)
      | _ => None
      end
  | Move t => step t e
  end.

Fixpoint run (l : list move) (e : exec_conf) : option exec_conf :=
  match l with
  | [] => Some e
  | m :: l' => e' ← exec_move m e; run l' e'
  end.

(** An Executor with [workers] threads, used by [clients] threads, and the
    thread that owns it. *)
Definition construct (workers clients : nat) : exec_conf :=
  mkExecConf (init 0 (workers + clients + 1)) (JobIdFactory.new 1) false
    (replicate workers WTest ++ replicate clients SIdle ++ [XIdle]) [] [].

(** ** The shared queue as its threads see it *)

Section Conf.
Context {T : Type}.
Implicit Types (c : conf T) (s : ghost (T := T)).

(** A configuration of the multi-queue and the state of its specification. *)
Definition conf_ok c s : Prop :=
  locks_ok c.1 c.2 /\ exists Q L, data_ok (queue c.1) c.2 Q L /\ lin_ok c s Q L.

Lemma conf_init m n : (m < UINT_MAX)%N -> conf_ok (init m n) (ghost_init m n).
Proof.
  intros Hm. split; [by apply base_init|]. eexists _, _.
  split; [by apply data_init|by apply lin_init].
Qed.

Lemma conf_start c s t o c' :
  conf_ok c s -> op_in_range (_max_prio (queue c.1)) o -> cstep (Start t o) c = Some c' ->
  exists k, c.1 = c'.1 /\ c'.2 = <[t := k]> c.2 /\ entry o = Some k /\ t < length c.2 /\
    conf_ok c' (mkGhost (abs s) (<[t := None]> (given s))).
Proof.
  destruct c as [g pool]. intros (Hl & Q & L & Hd & Hok) Ho Hs.
  destruct (cstep_inv _ _ _ _ Hs) as (? & k & k' & g' & Ht & -> & <- & Hm & He & ->).
  destruct (start_data _ _ _ _ _ _ _ _ Ht Hm He Ho Hl Hd) as (Hl' & Hd' & Hf).
  exists k'. split; [done|]. split; [done|]. split; [done|].
  split; [by eapply lookup_lt_Some|]. split; [done|].
  exists Q, L. split; [done|]. by eapply lin_start.
Qed.

Lemma conf_step c s t c' :
  conf_ok c s -> cstep (Step t) c = Some c' -> unfaulted c' ->
  exists k k' s', c.2 !! t = Some k /\ tstep k c.1 = Some (k', c'.1) /\
    c'.2 = <[t := k']> c.2 /\ is_faulted k' = false /\
    gstep (Step t) c c' s = Some s' /\ conf_ok c' s'.
Proof.
  destruct c as [g pool]. intros (Hl & Q & L & Hd & Hok) Hs Hf.
  destruct (cstep_inv _ _ _ _ Hs) as (? & k & k' & g' & Ht & -> & <- & Hts).
  assert (is_faulted k' = false) as Hk'
    by (apply (Hf t), list_lookup_insert_eq; by eapply lookup_lt_Some).
  destruct (tstep_data _ _ _ _ _ _ _ _ Ht Hl Hd Hts Hk') as (Q' & L' & Hd' & He).
  destruct (lin_tstep _ _ _ _ _ _ _ _ _ _ _ Ht Hl Hd Hts Hk' He Hok) as (s' & Hg & Hok').
  exists k, k', s'. repeat (split; [done|]). split; [by eapply tstep_locks|eauto].
Qed.

(** What a thread that has returned was given. *)
Lemma conf_given c s t r :
  conf_ok c s -> c.2 !! t = Some (Finished r) -> given s !! t = Some (Some r).
Proof. intros (_ & Q & L & _ & Hok) Ht. by destruct (li_given _ _ _ _ Hok _ _ Ht) as (? & ? & ->). Qed.

Lemma conf_length c s : conf_ok c s -> length (given s) = length c.2.
Proof. intros (_ & Q & L & _ & Hok). apply (li_len _ _ _ _ Hok). Qed.

(** The queues hold the ids of the specification's FIFOs. *)
Lemma conf_ids c s : conf_ok c s ->
  (fun q : list (N * N) => q.*2) <$> _priority_qs (queue c.1) =
    (fun q => job_id <$> q) <$> fifos (abs s).
Proof. intros (_ & Q & L & Hd & Hok). by eapply lin_ids. Qed.

End Conf.

(** ** Where the tasks are *)

(** The program points a role can be at. *)
Definition role_pc (r : role) (k : pc task) : Prop :=
  match r with
  | WDequeue => dequeuing 0 k = true \/ exists o, k = Finished (RJob o)
  | SEnqueue job =>
      priority job = 0%N /\
      match k with
      | EShared j | ELockPq j | EInsert j | ESignal j _ | ELockVm j _ | EMap j _ => j = job
      | Finished r => r = RUnit
      | _ => False
      end
  | XRelease =>
      match k with RQLock | RQSet | RQLoop _ _ => True | Finished r => r = RUnit | _ => False end
  | _ => may_start k = true
  end.

(** The task a thread is responsible for, from its role and what its call to
    the multi-queue was given. *)
Definition owned (r : role) (g : option (result task)) : list task :=
  match r, g with
  | SIncrement _ x, _ | SCount _ x, _ | SCrashed x, _ => [x]
  | SEnqueue job, None => [job_data job]
  | WDequeue, Some (RJob (Some job)) => [job_data job]
  | WRun job, _ => [job_data job]
  | _, _ => []
  end.

Definition queued (s : ghost (T := task)) : list task := job_data <$> concat (fifos (abs s)).

Record exec_ok (e : exec_conf) (s : ghost (T := task)) : Prop := mk_exec_ok {
  eo_conf : conf_ok (mq e) s;
  eo_max : _max_prio (queue (mq e).1) = 0%N;
  eo_len : length (roles e) = length (mq e).2;
  eo_role : forall t r k, roles e !! t = Some r -> (mq e).2 !! t = Some k -> role_pc r k;
  eo_tasks : ran e ++ concat (zip_with owned (roles e) (given s)) ++ queued s ≡ₚ submitted e
}.

Lemma concat_insert {A} (l : list (list A)) t x y :
  l !! t = Some x -> concat (<[t := y]> l) ++ x ≡ₚ concat l ++ y.
Proof.
  revert t. induction l as [|z l IH]; intros [|t] H; simpl in *; simplify_eq.
  - rewrite <-!app_assoc, (Permutation_app_comm _ x), (Permutation_app_swap_app y x).
    by rewrite (Permutation_app_comm y).
  - by rewrite <-!app_assoc, IH.
Qed.

Lemma zip_with_insert {A B C} (f : A -> B -> C) l k t x y :
  <[t := f x y]> (zip_with f l k) = zip_with f (<[t := x]> l) (<[t := y]> k).
Proof.
  revert k t. induction l as [|a l IH]; intros [|b k] [|t]; simpl; try done; by rewrite ?IH.
Qed.

Lemma perm_rot {A} (a b c d : list A) : (a ++ b ++ c) ++ d ≡ₚ a ++ (b ++ d) ++ c.
Proof. rewrite <-!app_assoc. by rewrite (Permutation_app_comm c d). Qed.

Lemma perm_pull {A} (a b c d : list A) : a ++ (b ++ c) ++ d ≡ₚ b ++ a ++ c ++ d.
Proof. rewrite <-!app_assoc. by rewrite (Permutation_app_swap_app a b). Qed.

(** One thread changes its role and what it was given; everybody else keeps
    what it owns. *)
Lemma owned_step (rs : list role) (gs : list (option (result task))) t r g r' g' A A' B B' :
  rs !! t = Some r -> gs !! t = Some g ->
  A' ++ owned r' g' ++ B' ≡ₚ A ++ owned r g ++ B ->
  A' ++ concat (zip_with owned (<[t := r']> rs) (<[t := g']> gs)) ++ B' ≡ₚ
    A ++ concat (zip_with owned rs gs) ++ B.
Proof.
  intros Hr Hg HP. rewrite <-zip_with_insert.
  assert (zip_with owned rs gs !! t = Some (owned r g)) as Hz
    by (rewrite lookup_zip_with, Hr; simpl; by rewrite Hg).
  pose proof (concat_insert _ _ _ (owned r' g') Hz) as HC.
  apply (Permutation_app_inv_r (owned r g)).
  by rewrite !perm_rot, HC, !perm_pull, HP.
Qed.

(** *** Steps inside the multi-queue *)

Definition in_call (r : role) : bool :=
  match r with WDequeue | SEnqueue _ | XRelease => true | _ => false end.

Lemma role_pc_step r k g k' g' :
  in_call r = true -> role_pc r k -> tstep k g = Some (k', g') -> is_faulted k' = false ->
  role_pc r k'.
Proof.
  intros Hr Hk Hs Hf. destruct r; simpl in *; try done.
  - destruct Hk as [Hk|[o ->]]; [|done]. revert Hs Hf.
    destruct k; simpl in *; try done; step_cases; eauto.
  - destruct Hk as [Hp Hk]. split; [done|]. revert Hs Hf.
    destruct k; simpl in *; try done; subst; step_cases; eauto.
  - revert Hs Hf. destruct k as [| | | | | | | | | | | | | | | | | | | | |p0 [|n]| | | | | |];
      simpl in *; try done; step_cases; eauto.
Qed.

(** The specification's step moves a task between a thread and the queue. *)
Lemma spec_balance r k k' o s x s' :
  in_call r = true -> role_pc r k -> lin_point k k' = Some o ->
  exec_spec o (abs s) = Some (x, s') ->
  owned r (Some x) ++ (job_data <$> concat (fifos s')) ≡ₚ owned r None ++ queued s.
Proof.
  intros Hr Hk Ho Hx. unfold queued. destruct r; simpl in Hr, Hk; try done.
  - destruct Hk as [Hk|[? ->]]; [|done].
    assert (o = ANull \/ o = ACall (OpDequeue 0)) as [-> | ->].
    { destruct k; simpl in *; try done; repeat case_match; simplify_eq; auto.
      apply N.eqb_eq in Hk as ->. by right. }
    + simpl in Hx. case_match; by simplify_eq.
    + simpl in Hx. destruct (vec_get _ 0) as [[|j q]|] eqn:E; simplify_eq/=.
      rewrite <-fmap_cons. apply fmap_Permutation. by rewrite (concat_head _ _ _ _ E).
  - destruct Hk as [Hp Hk]. destruct k; simpl in Ho; try done; simplify_eq.
    simpl in Hx. destruct (vec_get _ (priority job)) as [q|] eqn:E; simplify_eq/=.
    rewrite <-fmap_cons. apply fmap_Permutation, (concat_enqueue _ _ _ E).
  - destruct k; simpl in *; try done; by simplify_eq/=.
Qed.

Lemma inside_balance c (c' : conf task) s s' t r k k' g0 :
  in_call r = true -> role_pc r k -> c.2 !! t = Some k -> c'.2 !! t = Some k' ->
  gstep (Step t) c c' s = Some s' -> given s !! t = Some g0 ->
  exists g1, given s' = <[t := g1]> (given s) /\
    owned r g1 ++ queued s' ≡ₚ owned r g0 ++ queued s.
Proof.
  intros Hr Hk Ht Ht' Hg Hg0. simpl in Hg. rewrite Ht, Ht' in Hg. simpl in Hg.
  destruct (lin_point k k') as [o|] eqn:Eo.
  - rewrite Hg0 in Hg. destruct g0; [done|].
    apply bind_Some in Hg as ([x s1] & Hx & [= <-]). exists (Some x). split; [done|].
    by eapply spec_balance.
  - injection Hg as <-. exists g0. by rewrite list_insert_id.
Qed.

Lemma inside_inv e s t r e' :
  exec_ok e s -> roles e !! t = Some r -> in_call r = true -> inside t e = Some e' ->
  unfaulted (mq e') -> exists s', exec_ok e' s'.
Proof.
  intros [Hc Hm Hlen Hrole Htasks] Hr Hin He Hf. unfold inside in He.
  apply bind_Some in He as (c' & Hs & [= <-]). simpl in Hf.
  destruct (conf_step _ _ _ _ Hc Hs Hf) as (k & k' & s' & Ht & Hts & E2 & Hk' & Hg & Hc').
  assert (t < length (mq e).2) as Hlt by (by eapply lookup_lt_Some).
  destruct (lookup_lt_is_Some_2 (given s) t) as [g0 Hg0]; [by rewrite (conf_length _ _ Hc)|].
  destruct (inside_balance _ c' s s' t r k k' g0 Hin (Hrole _ _ _ Hr Ht) Ht) as (g1 & Eg & HP);
    [rewrite E2; by apply list_lookup_insert_eq|done|done|].
  exists s'. split; simpl; try done.
  - by rewrite (tstep_max _ _ _ _ Hts).
  - by rewrite E2, length_insert.
  - intros t0 r0 k0 H1 H2. rewrite E2 in H2.
    destruct (pool_lookup_cases _ _ _ _ _ _ Ht H2) as [[-> ->]|[_ ?]]; [|eauto].
    simplify_eq. by eapply role_pc_step; eauto.
  - rewrite <-Htasks, Eg, <-(list_insert_id (roles e) t r Hr) at 1.
    apply (owned_step _ _ _ r g0); [done|done|]. by rewrite HP.
Qed.

(** *** Steps outside of it *)

(** A thread takes on another role, with its task and perhaps a new one. *)
Lemma role_inv e s t r r' e' D :
  exec_ok e s -> roles e !! t = Some r -> mq e' = mq e -> roles e' = <[t := r']> (roles e) ->
  (forall k, (mq e).2 !! t = Some k -> role_pc r k -> role_pc r' k) ->
  (forall g B, (forall o, (mq e).2 !! t = Some (Finished o) -> g = Some o) ->
     ran e' ++ owned r' g ++ B ≡ₚ ran e ++ owned r g ++ D ++ B) ->
  submitted e' = submitted e ++ D ->
  exec_ok e' s.
Proof.
  intros [Hc Hm Hlen Hrole Htasks] Hr E1 E2 Hpc Hown Esub.
  assert (t < length (roles e)) as Hlt by (by eapply lookup_lt_Some).
  destruct (lookup_lt_is_Some_2 (given s) t) as [g0 Hg0];
    [by rewrite (conf_length _ _ Hc), <-Hlen|].
  split; rewrite ?E1; try done.
  - by rewrite E2, length_insert.
  - intros t0 r0 k0 H1 H2. rewrite E2 in H1.
    destruct (decide (t0 = t)) as [->|Hne].
    + rewrite list_lookup_insert_eq in H1 by done. simplify_eq. eauto.
    + rewrite list_lookup_insert_ne in H1 by done. eauto.
  - rewrite E2, Esub, <-Htasks, <-!app_assoc, (Permutation_app_comm (queued s) D).
    rewrite <-(list_insert_id (given s) t g0 Hg0) at 1.
    apply (owned_step _ _ _ r g0); [done|done|]. apply Hown.
    intros o Ho. pose proof (conf_given _ _ _ _ Hc Ho). congruence.
Qed.

(** A thread calls the multi-queue. *)
Lemma call_inv e s t r r' e1 o e' k :
  exec_ok e s -> roles e !! t = Some r -> mq e1 = mq e -> roles e1 = <[t := r']> (roles e) ->
  ran e1 = ran e -> submitted e1 = submitted e -> call t o e1 = Some e' ->
  op_in_range 0 o -> entry o = Some k -> role_pc r' k -> (forall g, owned r g = owned r' None) ->
  exists s', exec_ok e' s'.
Proof.
  intros [Hc Hm Hlen Hrole Htasks] Hr E1 E2 E3 E4 He Ho Hk Hpc Hg. unfold call in He.
  rewrite E1 in He. apply bind_Some in He as (c' & Hs & [= <-]).
  rewrite <-Hm in Ho. destruct (conf_start _ _ _ _ _ Hc Ho Hs) as (k0 & Eg & E & Hk0 & Hlt & Hc').
  simplify_eq. eexists. split; [done|..]; simpl.
  - by rewrite <-Eg.
  - by rewrite E2, E, !length_insert.
  - intros t0 r0 k1 H1 H2. rewrite E2 in H1. rewrite E in H2.
    destruct (decide (t0 = t)) as [->|Hne].
    + rewrite list_lookup_insert_eq in H1 by lia. rewrite list_lookup_insert_eq in H2 by done.
      by simplify_eq.
    + rewrite list_lookup_insert_ne in H1 by done. rewrite list_lookup_insert_ne in H2 by done.
      eauto.
  - rewrite E2, E3, E4, <-Htasks.
    destruct (lookup_lt_is_Some_2 (given s) t) as [g0 Hg0]; [by rewrite (conf_length _ _ Hc)|].
    apply (owned_step _ _ _ r g0); [done|done|]. by rewrite (Hg g0).
Qed.

Ltac role_move HE Hr :=
  eapply (role_inv _ _ _ _ _ _ [] HE Hr); simpl; eauto using app_nil_r.

Lemma worker_inv e s t r e' :
  exec_ok e s -> roles e !! t = Some r -> worker_step t r e = Some e' -> unfaulted (mq e') ->
  exists s', exec_ok e' s'.
Proof.
  intros HE Hr He Hf. destruct r; simpl in He; try done.
  - destruct (members_gone e); simplify_eq; [exists s; role_move HE Hr|].
    destruct (_destructing e); simplify_eq.
    + exists s. role_move HE Hr.
    + apply (call_inv e s t WTest WDequeue _ _ _ (DWait 0) HE Hr) in He; simpl; auto; lia.
  - destruct ((mq e).2 !! t) as [k|] eqn:Hk; [|by eapply (inside_inv e s t WDequeue)].
    assert (inside t e = Some e' -> exists s', exec_ok e' s') as Hin
      by (intros; by eapply (inside_inv e s t WDequeue)).
    destruct k; auto. destruct r as [|[job|]| |]; auto; simplify_eq; exists s; role_move HE Hr.
    all: try (by intros g B Hg; rewrite (Hg _ Hk)).
    all: intros k' E; rewrite Hk in E; by simplify_eq.
  - simplify_eq. exists s. role_move HE Hr. intros g B _. by rewrite <-app_assoc.
Qed.

Lemma submit_inv e s t r e' :
  exec_ok e s -> roles e !! t = Some r -> submit_step t r e = Some e' -> unfaulted (mq e') ->
  exists s', exec_ok e' s'.
Proof.
  intros HE Hr He Hf. destruct r; simpl in He; try done.
  - destruct (Counter.Increment _); simplify_eq; exists s; role_move HE Hr.
  - eapply (call_inv e s t (SCount now t0) _ _ _ _ (EShared _) HE Hr) in He; simpl; auto.
    by split.
  - destruct ((mq e).2 !! t) as [k|] eqn:Hk; [|by eapply (inside_inv e s t (SEnqueue job))].
    assert (inside t e = Some e' -> exists s', exec_ok e' s') as Hin
      by (intros; by eapply (inside_inv e s t (SEnqueue job))).
    destruct k; auto; simplify_eq; exists s; role_move HE Hr.
    + intros k' E. rewrite Hk in E. by simplify_eq.
    + intros g B Hg. by rewrite (Hg _ Hk).
Qed.

Lemma destroy_inv e s t r e' :
  exec_ok e s -> roles e !! t = Some r -> destroy_step t r e = Some e' -> unfaulted (mq e') ->
  exists s', exec_ok e' s'.
Proof.
  intros HE Hr He Hf. destruct r; simpl in He; try done.
  - apply (call_inv e s t XSet XRelease _ _ _ RQLock HE Hr) in He; simpl; auto.
  - destruct ((mq e).2 !! t) as [k|] eqn:Hk; [|by eapply (inside_inv e s t XRelease)].
    assert (inside t e = Some e' -> exists s', exec_ok e' s') as Hin
      by (intros; by eapply (inside_inv e s t XRelease)).
    destruct k; auto; simplify_eq; exists s; role_move HE Hr.
    intros k' E. rewrite Hk in E. by simplify_eq.
  - case_match; simplify_eq. exists s. role_move HE Hr.
Qed.

Lemma exec_inv e s m e' :
  exec_ok e s -> exec_move m e = Some e' -> unfaulted (mq e') -> exists s', exec_ok e' s'.
Proof.
  intros HE He Hf. destruct m as [t now x|t|t]; simpl in He.
  - destruct (roles e !! t) as [[]|] eqn:Hr; simplify_eq. exists s.
    eapply (role_inv _ _ _ _ _ _ [x] HE Hr); simpl; eauto.
  - destruct (roles e !! t) as [[]|] eqn:Hr; simplify_eq. exists s. role_move HE Hr.
  - unfold step in He. apply bind_Some in He as (r & Hr & He).
    destruct r; simpl in He; eauto using worker_inv, submit_inv, destroy_inv.
Qed.

(** *** Every run *)

Lemma cstep_unfaulted {T} a (c c' : conf T) : cstep a c = Some c' -> unfaulted c.
Proof.
  destruct c as [g pool]. unfold cstep. destruct (0 <? count is_faulted pool)%nat eqn:E; [done|].
  intros _ t k Hk. apply Nat.ltb_ge in E. apply (count_zero_inv is_faulted pool t k); [lia|done].
Qed.

(** A move leaves the queue's threads alone or moves one that has not faulted. *)
Lemma move_unfaulted m e e' :
  exec_move m e = Some e' -> unfaulted (mq e') -> unfaulted (mq e).
Proof.
  assert (forall t o e1, call t o e1 = Some e' -> mq e1 = mq e -> unfaulted (mq e)) as Hcall
    by (intros t o e1 (c & Hc%cstep_unfaulted & _)%bind_Some <-; done).
  assert (forall t, inside t e = Some e' -> unfaulted (mq e)) as Hin
    by (intros t (c & Hc%cstep_unfaulted & _)%bind_Some; done).
  destruct m as [t now x|t|t]; simpl.
  1, 2: by destruct (roles e !! t) as [[]|]; intros; simplify_eq.
  unfold step. intros (r & Hr & He)%bind_Some Hf. revert He.
  destruct r; simpl; repeat case_match; intros; simplify_eq; eauto.
Qed.

Lemma construct_exec_ok workers clients :
  exec_ok (construct workers clients) (ghost_init 0 (workers + clients + 1)).
Proof.
  unfold construct. split; simpl.
  - by apply conf_init.
  - done.
  - rewrite !length_app, !length_replicate. simpl. lia.
  - intros t r k Hr Hk. rewrite (pool_lookup_replicate _ _ _ Hk).
    apply list_elem_of_lookup_2 in Hr. rewrite !elem_of_app, !elem_of_replicate in Hr.
    rewrite list_elem_of_singleton in Hr. by destruct Hr as [[-> _]|[[-> _]| ->]].
  - unfold queued. simpl. rewrite app_nil_r. apply Permutation_nil_r, concat_nil_Forall.
    apply Forall_forall. intros l (i & Hl)%list_elem_of_lookup_1.
    rewrite lookup_zip_with in Hl. apply bind_Some in Hl as (r & Hr & Hl).
    apply bind_Some in Hl as (g & Hg & [= <-]).
    apply lookup_replicate_1 in Hg as [-> _].
    apply list_elem_of_lookup_2 in Hr. rewrite !elem_of_app, !elem_of_replicate in Hr.
    rewrite list_elem_of_singleton in Hr. by destruct Hr as [[-> _]|[[-> _]| ->]].
Qed.

Lemma run_inv l e s e' :
  exec_ok e s -> run l e = Some e' -> unfaulted (mq e') -> exists s', exec_ok e' s'.
Proof.
  revert e s. induction l as [|m l IH]; intros e s HE; simpl; [intros [= <-]; eauto|].
  intros (e1 & Hm & Hr)%bind_Some Hf.
  assert (unfaulted (mq e1)) as Hf1.
  { clear -Hr Hf. revert e1 Hr. induction l as [|m l IH]; simpl; [by intros e1 [= <-]|].
    intros e1 (e2 & Hm & Hr)%bind_Some. eauto using move_unfaulted. }
  destruct (exec_inv _ _ _ _ HE Hm Hf1) as [s1 H1]. eauto.
Qed.

(** The tasks a thread holds, read off its role and its program point; between
    a pop and the read of the value map the thread knows the job's id only. *)
Definition holds (r : role) (k : pc task) (l : list task) : Prop :=
  match r with
  | SIncrement _ x | SCount _ x | SCrashed x => l = [x]
  | SEnqueue job => l = if effective k then [] else [job_data job]
  | WDequeue =>
      match k with
      | DSignal _ _ | DLockVm _ _ | DTake _ _ => exists x, l = [x]
      | Finished (RJob (Some job)) => l = [job_data job]
      | _ => l = []
      end
  | WRun job => l = [job_data job]
  | _ => l = []
  end.

Lemma owned_holds e s t r k g :
  exec_ok e s -> roles e !! t = Some r -> (mq e).2 !! t = Some k ->
  given s !! t = Some g -> holds r k (owned r g).
Proof.
  intros HE Hr Hk Hg. destruct (eo_conf _ _ HE) as (_ & Q & L & _ & Hok).
  pose proof (eo_role _ _ HE _ _ _ Hr Hk) as Hpc.
  pose proof (li_given _ _ _ _ Hok _ _ Hk) as Hgiv.
  destruct r; simpl in *; try done.
  - destruct Hpc as [Hd|[o ->]].
    + destruct k; simpl in *; try done;
        [by destruct Hgiv as [?|?]; simplify_eq..| | |];
        destruct Hgiv as (x & Hx & Ho); simplify_eq.
      1, 2: destruct Ho as (? & y & ? & _ & _ & ->).
      3: destruct Ho as (y & ? & _ & ->).
      all: by exists (job_data y.2).
    + simpl in Hgiv. destruct Hgiv as (x & Hx & ->). simplify_eq. by destruct o.
  - destruct Hpc as [_ Hpc]. destruct (effective k) eqn:Ek.
    + destruct Hgiv as (x & Hx & _). by simplify_eq.
    + destruct Hgiv as [->|Hn]; [done|]. by simplify_eq.
Qed.

(** C7. No task of an Executor is lost, run twice or invented.  Any number of
    workers, of threads that call Submit and the thread that destroys the
    Executor interleave at every lock operation; as long as no thread has
    faulted, the tasks that have been run, the ones some thread holds and the
    ones of the jobs that wait in the queue are together exactly the submitted
    ones, each as often as it was submitted. *)
Theorem executor_conserves_tasks (workers clients : nat) (l : list move) (e : exec_conf) :
  run l (construct workers clients) = Some e -> unfaulted (mq e) ->
  exists held waiting,
    length held = length (roles e) /\
    (forall t r k h, roles e !! t = Some r -> (mq e).2 !! t = Some k -> held !! t = Some h ->
       holds r k h) /\
    concat ((fun q : list (N * N) => q.*2) <$> _priority_qs (queue (mq e).1)) =
      job_id <$> waiting /\
    ran e ++ concat held ++ (job_data <$> waiting) ≡ₚ submitted e.
Proof.
  intros Hr Hf. destruct (run_inv _ _ _ _ (construct_exec_ok workers clients) Hr Hf) as [s HE].
  pose proof (eo_conf _ _ HE) as Hc. exists (zip_with owned (roles e) (given s)), (concat (fifos (abs s))).
  split; [|split; [|split; [|apply (eo_tasks _ _ HE)]]].
  - rewrite length_zip_with, (conf_length _ _ Hc), (eo_len _ _ HE). lia.
  - intros t r k h Ht Hk Hh. rewrite lookup_zip_with, Ht in Hh. simpl in Hh.
    apply bind_Some in Hh as (g & Hg & [= <-]). by eapply owned_holds.
  - rewrite (conf_ids _ _ Hc). symmetry. apply concat_map.
Qed.

(** Two workers and one client: the first task is run while the second one is
    being submitted and the second worker waits. *)
Definition task_run : list move :=
  Submit 2 0 (Executor.mkExecutorCallback 7 1) ::
  (Move <$> replicate 9 2 ++ replicate 12 0 ++ [1]) ++
  [Submit 2 5 (Executor.mkExecutorCallback 8 2); Move 2; Move 2].

Definition task_end : exec_conf := default (construct 2 1) (run task_run (construct 2 1)).

Lemma executor_conserves_tasks_witness : exists held waiting,
  run task_run (construct 2 1) = Some task_end /\
  ran task_end = [Executor.mkExecutorCallback 7 1] /\
  [Executor.mkExecutorCallback 7 1] ++ concat held ++ (job_data <$> waiting) ≡ₚ
    [Executor.mkExecutorCallback 7 1; Executor.mkExecutorCallback 8 2].
Proof.
  assert (unfaulted (mq task_end)) as Hf
    by (intros [|[|[|[|t]]]] k Hk; vm_compute in Hk; simplify_eq; reflexivity).
  assert (run task_run (construct 2 1) = Some task_end) as Hr by (vm_compute; reflexivity).
  destruct (executor_conserves_tasks 2 1 task_run task_end Hr Hf)
    as (held & waiting & _ & _ & _ & HP).
  exists held, waiting. split; [exact Hr|]. split; [vm_compute; reflexivity|exact HP].
Defined.

End ExecutorConc.
