(* ===== verification/ExecutorLive.v ===== *)
(** * The Executor gets its work done (common/dstage/executor.cc)

    Liveness of the threads of ExecutorConc.v: they always come to rest, at rest
    every submitted task has been run, and a single worker never faults in the
    queue and does not stay there when the Executor is destroyed. *)

From stdpp Require Import prelude gmap list.
From S2P Require Import Prelude Synchronization Job BaseMultiQueue MultiQueue.
From S2P Require Import MultiQueueSpec MultiQueueRuns MultiQueueConc MultiQueueLocks.
From S2P Require Import MultiQueueSafety MultiQueueWake MultiQueueLin DStage ExecutorConc.

Module ExecutorLive.
Import MQ MQSpec MQRuns MQConc MQLocks MQSafety MQWake MQLin ExecutorConc.

(** ** The moves, by what they touch *)

(** A thread changes its role outside of the multi-queue. *)
Inductive turn (e : exec_conf) (t : nat) : role -> role -> Prop :=
| turn_dangling : members_gone e = true -> turn e t WTest WDangling
| turn_return : _destructing e = true -> turn e t WTest WReturned
| turn_null : (mq e).2 !! t = Some (Finished (RJob None)) -> turn e t WDequeue WTest
| turn_job job : (mq e).2 !! t = Some (Finished (RJob (Some job))) -> turn e t WDequeue (WRun job)
| turn_ran job : turn e t (WRun job) WTest
| turn_counted now x : turn e t (SIncrement now x) (SCount now x)
| turn_crashed now x : turn e t (SIncrement now x) (SCrashed x)
| turn_enqueued job o : (mq e).2 !! t = Some (Finished o) -> turn e t (SEnqueue job) SIdle
| turn_released o : (mq e).2 !! t = Some (Finished o) -> turn e t XRelease XJoin
| turn_joined :
    count (fun r => is_worker r && negb (returned r)) (roles e) = 0 -> turn e t XJoin XDone
| turn_submit now x : turn e t SIdle (SIncrement now x)
| turn_destroy : turn e t XIdle XSet.

(** Roles that only a new request changes. *)
Definition at_rest (r : role) : bool :=
  match r with SIdle | XIdle => true | _ => false end.

(** A thread outside of the multi-queue calls it. *)
Inductive calls (e : exec_conf) : role -> role -> mq_op task -> bool -> Prop :=
| calls_dequeue : _destructing e = false -> calls e WTest WDequeue (OpDequeue 0) false
| calls_enqueue now x job :
    priority job = 0%N -> calls e (SCount now x) (SEnqueue job) (OpEnqueue (Some job)) (_destructing e)
| calls_release : calls e XSet XRelease OpReleaseQueues true.

(** [own] when the threads move by themselves, without a new request. *)
Inductive moves (own : bool) (e e' : exec_conf) : Prop :=
| moves_turn t r r' :
    (own = true -> at_rest r = false) ->
    roles e !! t = Some r -> turn e t r r' -> roles e' = <[t := r']> (roles e) ->
    mq e' = mq e -> _destructing e' = _destructing e -> moves own e e'
| moves_call t r r' o d :
    roles e !! t = Some r -> calls e r r' o d -> roles e' = <[t := r']> (roles e) ->
    cstep (Start t o) (mq e) = Some (mq e') -> _destructing e' = d -> moves own e e'
| moves_inside t r :
    roles e !! t = Some r -> in_call r = true -> roles e' = roles e ->
    cstep (Step t) (mq e) = Some (mq e') -> _destructing e' = _destructing e -> moves own e e'.

Lemma inside_moves own e t r e' :
  roles e !! t = Some r -> in_call r = true -> inside t e = Some e' -> moves own e e'.
Proof. intros Hr Hin (c & Hc & [= <-])%bind_Some. by apply (moves_inside _ _ _ t r). Qed.

Lemma call_moves own e t r r' o e1 e' :
  roles e !! t = Some r -> calls e r r' o (_destructing e1) -> mq e1 = mq e ->
  roles e1 = <[t := r']> (roles e) -> call t o e1 = Some e' -> moves own e e'.
Proof.
  intros Hr Hc E1 E2 (c & Hs & [= <-])%bind_Some. rewrite E1 in Hs.
  by apply (moves_call _ _ _ t r r' o (_destructing e1)).
Qed.

Lemma turn_moves own e t r r' e' :
  roles e !! t = Some r -> (own = true -> at_rest r = false) -> turn e t r r' -> mq e' = mq e ->
  roles e' = <[t := r']> (roles e) -> _destructing e' = _destructing e -> moves own e e'.
Proof. intros. by eapply moves_turn. Qed.

Lemma step_moves t e e' : step t e = Some e' -> moves true e e'.
Proof.
  unfold step. intros (r & Hr & He)%bind_Some. destruct r; simpl in He; try done.
  - destruct (members_gone e) eqn:Hg; simplify_eq;
      [apply (turn_moves _ _ t WTest WDangling); try done; by constructor|].
    destruct (_destructing e) eqn:Hd; simplify_eq.
    + apply (turn_moves _ _ t WTest WReturned); try done. by constructor.
    + apply (call_moves true _ t WTest WDequeue _ _ _ Hr) in He; try done. simpl. rewrite Hd.
      by constructor.
  - pose proof (inside_moves true e t WDequeue e' Hr eq_refl) as Hin.
    destruct ((mq e).2 !! t) as [k|] eqn:Hk; [|auto]. destruct k; auto.
    destruct r as [|[job|]| |]; auto; simplify_eq; eapply (turn_moves _ _ t _ _ _ Hr); try done; by constructor.
  - simplify_eq. eapply (turn_moves _ _ t _ _ _ Hr); try done. constructor.
  - destruct (Counter.Increment _); simplify_eq; eapply (turn_moves _ _ t _ _ _ Hr); try done; constructor.
  - eapply (call_moves true _ t _ _ _ _ _ Hr) in He; try done. by apply (calls_enqueue e).
  - pose proof (inside_moves true e t (SEnqueue job) e' Hr eq_refl) as Hin.
    destruct ((mq e).2 !! t) as [k|] eqn:Hk; [|auto]. destruct k; auto.
    simplify_eq. eapply (turn_moves _ _ t _ _ _ Hr); try done; by econstructor.
  - apply (call_moves true _ t XSet XRelease _ _ _ Hr) in He; try done. constructor.
  - pose proof (inside_moves true e t XRelease e' Hr eq_refl) as Hin.
    destruct ((mq e).2 !! t) as [k|] eqn:Hk; [|auto]. destruct k; auto.
    simplify_eq. eapply (turn_moves _ _ t _ _ _ Hr); try done; by econstructor.
  - destruct (Nat.eqb_spec (count (fun r => is_worker r && negb (returned r)) (roles e)) 0);
      simplify_eq. eapply (turn_moves _ _ t _ _ _ Hr); try done. by constructor.
Qed.

Lemma exec_moves m e e' : exec_move m e = Some e' -> moves false e e'.
Proof.
  destruct m as [t now x|t|t]; simpl.
  - destruct (roles e !! t) as [[]|] eqn:Hr; intros; simplify_eq.
    eapply (turn_moves _ _ t _ _ _ Hr); try done. constructor.
  - destruct (roles e !! t) as [[]|] eqn:Hr; intros; simplify_eq.
    eapply (turn_moves _ _ t _ _ _ Hr); try done. constructor.
  - intros [] %step_moves; [eapply moves_turn|eapply moves_call|eapply moves_inside]; eauto.
Qed.

(** ** What keeps the workers awake *)

(** Roles that are only reached once the destructor has begun. *)
Definition ending (r : role) : bool :=
  match r with XRelease | XJoin | XDone | WReturned | WDangling => true | _ => false end.

(** A Dequeue that returns nullptr. *)
Definition nulls (k : pc task) : bool :=
  match k with DNull _ | Finished (RJob None) => true | _ => false end.

(** Releases only come from the destructor, and a queued task keeps somebody
    awake. *)
Record live_ok (e : exec_conf) : Prop := mk_live_ok {
  lv_one : no_release_one (mq e).1;
  lv_awake : awake (mq e).1 (mq e).2 0;
  lv_roles : forall t r, roles e !! t = Some r -> ending r = true -> _destructing e = true;
  lv_released : _released (queue (mq e).1) = true -> _destructing e = true;
  lv_null : forall t k, (mq e).2 !! t = Some k -> nulls k = true -> _destructing e = true
}.

Lemma tstep_released (k k' : pc task) g g' :
  tstep k g = Some (k', g') -> disturbs k = false -> _released (queue g') = true ->
  _released (queue g) = true \/ k = RQSet.
Proof.
  destruct k as [| | | | | | | | | | | | | | | | | | | | |p [|n]| | | | | |];
    simpl; try done; step_cases; auto; congruence.
Qed.

Lemma tstep_nulls (k k' : pc task) g g' :
  tstep k g = Some (k', g') -> disturbs k = false -> no_release_one g -> nulls k' = true ->
  nulls k = true \/ _released (queue g) = true.
Proof.
  intros Hs Hd Hn. revert Hs.
  destruct k as [| | | | | | | | | | | | | | | | | | | | |p [|n]| | | | | |];
    simpl in *; try done; step_cases; auto; try done.
  match goal with H : vec_get (_release_one _) _ = Some true |- _ => by apply Hn in H end.
Qed.

(** Nobody in an Executor purges or releases a single thread. *)
Lemma role_disturbs r k : role_pc r k -> disturbs k = false.
Proof.
  destruct k; simpl; try done; destruct r; simpl; try done;
    [by intros [?|[? ?]]|by intros [? ?]|by intros [?|[? ?]]|by intros [? ?]|by intros [?|[? ?]]
    |by intros [? ?]|by intros [?|[? ?]]|by intros [? ?]|by intros [?|[? ?]]|by intros [? ?]].
Qed.

Lemma role_ending r : role_pc r RQSet -> ending r = true.
Proof. destruct r; simpl; try done; [by intros [?|[? ?]]|by intros [? ?]]. Qed.

Lemma conf_lengths {T} (c : conf T) s :
  conf_ok c s -> _max_prio (queue c.1) = 0%N ->
  length (_priority_qs (queue c.1)) = 1 /\ length (_not_empty_mutexes (queue c.1)) = 1 /\
  length (pq_mutexes c.1) = 1.
Proof.
  intros (Hl & Q & L & Hd & _) Hm. pose proof (do_len _ _ _ _ Hd) as H1.
  pose proof (do_ne _ _ _ _ Hd) as H2. pose proof (lo_len _ _ Hl) as H3.
  rewrite (do_qs _ _ _ _ Hd), length_fmap. rewrite Hm in H1, H3. lia.
Qed.

Lemma awake_start (g : shared task) pool t k k' o p :
  pool !! t = Some k -> may_start k = true -> entry o = Some k' ->
  awake g pool p -> awake g (<[t := k']> pool) p.
Proof.
  intros Ht Hm He Ha q Hq Hne. destruct (Ha q Hq Hne) as [?|(t0 & k0 & Ht0 & Hw)]; [by left|].
  right. exists t0, k0. destruct (decide (t0 = t)) as [->|Hne']; [|by rewrite list_lookup_insert_ne].
  assert (k0 = k) as -> by congruence. by destruct k.
Qed.

Lemma live_call e t r r' o d e' :
  roles e !! t = Some r -> calls e r r' o d -> roles e' = <[t := r']> (roles e) ->
  cstep (Start t o) (mq e) = Some (mq e') -> _destructing e' = d -> live_ok e -> live_ok e'.
Proof.
  intros Hr Hc E2 Hs Ed [L1 L2 L3 L4 L5].
  assert (_destructing e = true -> _destructing e' = true) as Hd
    by (rewrite Ed; destruct Hc; congruence).
  destruct (mq e) as [g pool]. destruct (cstep_inv _ _ _ _ Hs) as
    (? & k & k' & g' & Ht & E & <- & Hm & He & ->). simpl in *.
  split; rewrite ?E; simpl; auto.
  - by eapply awake_start.
  - intros t0 r0 H0 Hrel. rewrite E2 in H0. destruct (decide (t0 = t)) as [->|Hne].
    + rewrite list_lookup_insert_eq in H0 by (by eapply lookup_lt_Some).
      simplify_eq. by destruct Hc.
    + rewrite list_lookup_insert_ne in H0 by done. eauto.
  - intros t0 k0 H0 Hn. destruct (pool_lookup_cases _ _ _ _ _ _ Ht H0) as [[-> ->]|[_ ?]]; [|eauto].
    by destruct Hc; simplify_eq/=.
Qed.

Lemma live_inside e s t r e' :
  exec_ok e s -> roles e !! t = Some r -> in_call r = true -> roles e' = roles e ->
  cstep (Step t) (mq e) = Some (mq e') -> _destructing e' = _destructing e ->
  unfaulted (mq e') -> live_ok e -> live_ok e'.
Proof.
  intros HE Hr Hin E2 Hs Ed Hf [L1 L2 L3 L4 L5].
  destruct (conf_step _ _ _ _ (eo_conf _ _ HE) Hs Hf) as (k & k' & _ & Ht & Hts & E & Hk' & _ & _).
  destruct (conf_lengths _ _ (eo_conf _ _ HE) (eo_max _ _ HE)) as (Hl1 & Hl2 & Hl3).
  pose proof (eo_role _ _ HE _ _ _ Hr Ht) as Hpc. pose proof (role_disturbs _ _ Hpc) as Hdis.
  split; rewrite ?E, ?E2, ?Ed.
  - by eapply no_release_one_step.
  - apply (awake_step (mq e).1 (mq e).2 t k); try done; try congruence. by destruct (eo_conf _ _ HE).
  - eauto.
  - intros H. destruct (tstep_released _ _ _ _ Hts Hdis H) as [?| ->]; [auto|].
    by apply (L3 t r Hr), role_ending.
  - intros t0 k0 H0 Hn. destruct (pool_lookup_cases _ _ _ _ _ _ Ht H0) as [[-> ->]|[_ ?]]; [|eauto].
    destruct (tstep_nulls _ _ _ _ Hts Hdis L1 Hn); eauto.
Qed.

(** The members are gone only once the destructor has begun. *)
Lemma gone_destructing e : live_ok e -> members_gone e = true -> _destructing e = true.
Proof.
  unfold members_gone. intros HL Hg%Nat.ltb_lt.
  destruct (count_pos_inv past_body (roles e) Hg) as (t & r & Hr & Hp).
  apply (lv_roles _ HL t r Hr). by destruct r.
Qed.

Lemma live_moves own e s e' :
  exec_ok e s -> moves own e e' -> unfaulted (mq e') -> live_ok e -> live_ok e'.
Proof.
  intros HE [t r r' _ Hr Ht E2 E1 Ed|t r r' o d Hr Hc E2 Hs Ed|t r Hr Hin E2 Hs Ed] Hf HL;
    [|by eapply live_call|by eapply live_inside].
  pose proof (gone_destructing e HL) as Hgone.
  destruct HL as [L1 L2 L3 L4 L5]. split; rewrite ?E1, ?Ed; auto.
  intros t0 r0 H0 Hrel. rewrite E2 in H0. destruct (decide (t0 = t)) as [->|Hne].
  + rewrite list_lookup_insert_eq in H0 by (by eapply lookup_lt_Some).
    simplify_eq. destruct Ht; simpl in *; auto; try done; by apply (L3 t _ Hr).
  + rewrite list_lookup_insert_ne in H0 by done. eauto.
Qed.

(** ** They come to rest *)

(** What a thread has left to do, in steps of its own and of those it may wake. *)
Definition weight (d : bool) (r : role) (k : pc task) : nat :=
  match r with
  | WTest => if d then 1 else 11
  | WDequeue =>
      match k with
      | DWait _ => 10 | DRelease _ => 29 | DShared _ => 28 | DCheck _ => 27
      | DNull _ => 26 | DLockPq _ => 26 | DPop _ => 25 | DSignal _ _ => 36
      | DLockVm _ _ => 15 | DTake _ _ => 14
      | Finished (RJob None) => 4 | Finished _ => 13 | _ => 0
      end
  | WRun _ => 12
  | SIncrement _ _ => 41
  | SCount _ _ => 40
  | SEnqueue _ =>
      match k with
      | EShared _ => 39 | ELockPq _ => 38 | EInsert _ => 37 | ESignal _ _ => 24
      | ELockVm _ _ => 3 | EMap _ _ => 2 | Finished _ => 1 | _ => 0
      end
  | XSet => 27
  | XRelease =>
      match k with
      | RQLock => 26 | RQSet => 25 | RQLoop _ n => 3 + 21 * n | Finished _ => 2 | _ => 0
      end
  | XJoin => 1
  | _ => 0
  end.

(** What the queue has in store: its jobs and the permit to look at it. *)
Definition store (g : shared task) : nat :=
  match vec_get (_priority_qs (queue g)) 0 with Some q => 12 * length q | None => 0 end +
  match vec_get (_not_empty_mutexes (queue g)) 0 with Some false => 20 | _ => 0 end.

Definition fuel (e : exec_conf) : nat :=
  store (mq e).1 + sum_list (zip_with (weight (_destructing e)) (roles e) (mq e).2).

Ltac store_cases :=
  try done;
  match goal with less := _ |- _ => unfold less, store; clear less end; simpl;
  repeat match goal with
  | H : length (_priority_qs (queue ?g)) = 1 |- _ =>
      destruct (_priority_qs (queue g)) as [|? [|]]; try done; clear H
  | H : length (_not_empty_mutexes (queue ?g)) = 1 |- _ =>
      destruct (_not_empty_mutexes (queue g)) as [|[] [|]]; try done; clear H
  end; unfold vec_get in *; simpl in *; simplify_eq/=; try lia;
  repeat case_match; simplify_eq/=; rewrite ?length_app; simpl; lia.

Lemma tstep_weight d r k g k' g' :
  in_call r = true -> role_pc r k -> tstep k g = Some (k', g') -> is_faulted k' = false ->
  no_release_one g -> _max_prio (queue g) = 0%N ->
  length (_priority_qs (queue g)) = 1 -> length (_not_empty_mutexes (queue g)) = 1 ->
  store g' + weight d r k' < store g + weight d r k.
Proof.
  intros Hin Hpc Hs Hf Hn Hmax Hl1 Hl2.
  pose (less := fun k g k' g' => store g' + weight d r k' < store g + weight d r k).
  change (less k g k' g'). revert Hs Hf.
  destruct r; simpl in Hin, Hpc; try done; clear Hin.
  - destruct Hpc as [Hd|[o ->]]; [|done].
    destruct k; simpl in Hd; try done; apply N.eqb_eq in Hd as ->; simpl; step_cases; store_cases.
  - destruct Hpc as [Hp Hk].
    destruct k; try done; subst; simpl; rewrite ?Hp; step_cases; store_cases.
  - destruct k as [| | | | | | | | | | | | | | | | | | | | |p [|n]| | | | | |];
      simpl in Hpc; try done; simpl; rewrite ?Hmax; step_cases; store_cases.
Qed.

Lemma sum_list_insert (l : list nat) t x y :
  l !! t = Some x -> sum_list (<[t := y]> l) + x = sum_list l + y.
Proof.
  revert t. induction l as [|z l IH]; intros [|t] H; simpl in *; simplify_eq; [lia|].
  specialize (IH t H). lia.
Qed.

(** One thread's share of the fuel. *)
Lemma weights_insert d (rs : list role) (ks : list (pc task)) t r k r' k' :
  rs !! t = Some r -> ks !! t = Some k ->
  sum_list (zip_with (weight d) (<[t := r']> rs) (<[t := k']> ks)) + weight d r k =
    sum_list (zip_with (weight d) rs ks) + weight d r' k'.
Proof.
  intros Hr Hk. rewrite <-zip_with_insert. apply sum_list_insert.
  rewrite lookup_zip_with, Hr. simpl. by rewrite Hk.
Qed.

(** Work only shrinks when the destructor starts. *)
Lemma weights_mono d (rs : list role) (ks : list (pc task)) :
  sum_list (zip_with (weight true) rs ks) <= sum_list (zip_with (weight d) rs ks).
Proof.
  revert ks. induction rs as [|r rs IH]; intros [|k ks]; simpl; try lia.
  specialize (IH ks). assert (weight true r k <= weight d r k); [|lia].
  destruct r; simpl; try lia. destruct d; lia.
Qed.

Lemma turn_fuel e s t r r' k :
  exec_ok e s -> live_ok e -> at_rest r = false -> turn e t r r' ->
  (mq e).2 !! t = Some k -> weight (_destructing e) r' k < weight (_destructing e) r k.
Proof.
  intros HE HL Har Ht Hk. destruct Ht; simpl in *; try done; simplify_eq; simpl; try lia.
  - destruct (_destructing e); lia.
  - rewrite H. lia.
  - rewrite (lv_null _ HL _ _ H eq_refl). lia.
  - destruct (_destructing e); lia.
Qed.

(** Every step of a thread uses fuel up. *)
Lemma fuel_decreases e s e' :
  exec_ok e s -> live_ok e -> moves true e e' -> unfaulted (mq e') -> fuel e' < fuel e.
Proof.
  intros HE HL Hm Hf. unfold fuel.
  assert (forall t r, roles e !! t = Some r -> exists k, (mq e).2 !! t = Some k) as Hpool
    by (intros t r Hr; apply lookup_lt_is_Some_2; rewrite <-(eo_len _ _ HE);
        by eapply lookup_lt_Some).
  destruct Hm as [t r r' Har Hr Ht E2 E1 Ed|t r r' o d Hr Hc E2 Hs Ed|t r Hr Hin E2 Hs Ed].
  - destruct (Hpool t r Hr) as [k Hk]. rewrite E1, E2, Ed.
    pose proof (turn_fuel _ _ _ _ _ _ HE HL (Har eq_refl) Ht Hk).
    pose proof (weights_insert (_destructing e) _ _ _ _ _ r' k Hr Hk) as HW.
    rewrite (list_insert_id (mq e).2 t k Hk) in HW. lia.
  - destruct (Hpool t r Hr) as [k Hk]. destruct (mq e) as [g pool].
    destruct (cstep_inv _ _ _ _ Hs) as (? & k0 & k' & g' & Ht & E & <- & Hm & He & ->).
    rewrite E, E2, Ed. simpl in *. assert (k0 = k) as -> by congruence.
    pose proof (weights_insert d _ _ _ _ _ r' k' Hr Hk) as HW.
    pose proof (weights_mono (_destructing e) (roles e) pool) as HM.
    assert (weight d r' k' < weight d r k /\ (d = true \/ d = _destructing e)) as [Hw Hd].
    { destruct Hc; simplify_eq/=; split; auto; lia. }
    destruct Hd as [-> | ->]; lia.
  - destruct (conf_step _ _ _ _ (eo_conf _ _ HE) Hs Hf) as (k & k' & _ & Ht & Hts & E & Hk' & _ & _).
    destruct (conf_lengths _ _ (eo_conf _ _ HE) (eo_max _ _ HE)) as (Hl1 & Hl2 & Hl3).
    rewrite E, E2, Ed. pose proof (tstep_weight (_destructing e) r k _ _ _ Hin
      (eo_role _ _ HE _ _ _ Hr Ht) Hts Hk' (lv_one _ HL) (eo_max _ _ HE) Hl1 Hl2) as Hw.
    pose proof (weights_insert (_destructing e) _ _ _ _ _ r k' Hr Ht) as HW.
    rewrite (list_insert_id (roles e) t r Hr) in HW. lia.
Qed.

(** ** Runs of the threads *)

(** The number of workers never changes. *)
Lemma moves_workers own e e' : moves own e e' -> count is_worker (roles e') = count is_worker (roles e).
Proof.
  intros [t r r' _ Hr Ht E2 _ _|t r r' o d Hr Hc E2 _ _|t r _ _ E2 _ _]; rewrite E2; [| |done].
  - pose proof (count_step is_worker _ _ _ r' Hr). destruct Ht; simpl in *; lia.
  - pose proof (count_step is_worker _ _ _ r' Hr). destruct Hc; simpl in *; lia.
Qed.

(** Every submission takes one id; the factory only overflows after INT_MAX of
    them. *)
Definition is_increment (r : role) : bool := match r with SIncrement _ _ => true | _ => false end.
Definition is_crashed (r : role) : bool := match r with SCrashed _ => true | _ => false end.

Record ids_ok (e : exec_conf) : Prop := mk_ids_ok {
  io_count : (Counter._count (_jid_factory e) + Z.of_nat (count is_increment (roles e)) <=
    1 + Z.of_nat (length (submitted e)))%Z;
  io_crash : 0 < count is_crashed (roles e) -> (INT_MAX <= Z.of_nat (length (submitted e)))%Z
}.

Lemma ids_same e e' t r r' :
  roles e !! t = Some r -> roles e' = <[t := r']> (roles e) ->
  is_increment r = is_increment r' -> is_crashed r = is_crashed r' ->
  _jid_factory e' = _jid_factory e -> submitted e' = submitted e -> ids_ok e -> ids_ok e'.
Proof.
  intros Hr E2 H1 H2 E3 E4 [I1 I2].
  pose proof (count_step is_increment _ _ _ r' Hr). pose proof (count_step is_crashed _ _ _ r' Hr).
  split; rewrite ?E2, ?E3, ?E4; [rewrite H1 in *; lia|rewrite H2 in *; intros; apply I2; lia].
Qed.

Lemma ids_inside t e e' : inside t e = Some e' -> ids_ok e -> ids_ok e'.
Proof. intros (c & _ & [= <-])%bind_Some [I1 I2]. by split. Qed.

Lemma ids_call t o e r r' e1 e' :
  roles e !! t = Some r -> call t o e1 = Some e' -> roles e1 = <[t := r']> (roles e) ->
  is_increment r = is_increment r' -> is_crashed r = is_crashed r' ->
  _jid_factory e1 = _jid_factory e -> submitted e1 = submitted e -> ids_ok e -> ids_ok e'.
Proof. intros Hr (c & _ & [= <-])%bind_Some ??????. by eapply (ids_same e). Qed.

Lemma ids_step t e e' : step t e = Some e' -> ids_ok e -> ids_ok e'.
Proof.
  unfold step. intros (r & Hr & He)%bind_Some Hi.
  pose proof (fun H => ids_inside t e e' H Hi) as Hin.
  assert (forall r', e' = set_role t r' e -> is_increment r = is_increment r' ->
    is_crashed r = is_crashed r' -> ids_ok e') as Hset
    by (intros r' -> ??; by eapply (ids_same e)).
  destruct r; simpl in He; try done.
  - destruct (members_gone e); [injection He as <-; by eapply Hset|].
    destruct (_destructing e); [injection He as <-; by eapply Hset|by eapply ids_call].
  - destruct ((mq e).2 !! t) as [k|]; auto. destruct k; auto.
    destruct r as [|[job|]| |]; auto; simplify_eq; by eapply Hset.
  - simplify_eq. by eapply (ids_same e).
  - unfold Counter.Increment in He. destruct Hi as [I1 I2].
    destruct (Z.eqb_spec (Counter._count (_jid_factory e)) INT_MAX) as [Hmax|Hmax]; simplify_eq.
    + pose proof (count_step is_increment _ _ _ (SCrashed t0) Hr).
      pose proof (count_pos is_increment _ _ _ Hr eq_refl).
      split; simpl in *; [lia|]. intros _. rewrite Hmax in I1. lia.
    + pose proof (count_step is_increment _ _ _ (SCount now t0) Hr).
      pose proof (count_step is_crashed _ _ _ (SCount now t0) Hr).
      split; simpl in *; [lia|]. intros. apply I2. lia.
  - by eapply ids_call.
  - destruct ((mq e).2 !! t) as [[]|]; auto; simplify_eq; by eapply Hset.
  - by eapply ids_call.
  - destruct ((mq e).2 !! t) as [[]|]; auto; simplify_eq; by eapply Hset.
  - case_match; simplify_eq; by eapply Hset.
Qed.

Lemma ids_move m e e' : exec_move m e = Some e' -> ids_ok e -> ids_ok e'.
Proof.
  destruct m as [t now x|t|t]; simpl; [| |apply ids_step].
  - destruct (roles e !! t) as [[]|] eqn:Hr; intros H [I1 I2]; simplify_eq.
    pose proof (count_step is_increment _ _ _ (SIncrement now x) Hr).
    pose proof (count_step is_crashed _ _ _ (SIncrement now x) Hr).
    split; simpl in *; rewrite length_app; simpl; [lia|]. intros.
    assert (INT_MAX <= Z.of_nat (length (submitted e)))%Z; [apply I2|]; lia.
  - destruct (roles e !! t) as [[]|] eqn:Hr; intros H Hi; simplify_eq. by eapply (ids_same e).
Qed.

(** All of the above, at every configuration a run passes through. *)
Record all_ok (workers : nat) (e : exec_conf) : Prop := mk_all_ok {
  ao_exec : exists s, exec_ok e s;
  ao_live : live_ok e;
  ao_ids : ids_ok e;
  ao_workers : count is_worker (roles e) = workers
}.

Lemma all_move n m e e' :
  all_ok n e -> exec_move m e = Some e' -> unfaulted (mq e') -> all_ok n e'.
Proof.
  intros [[s HE] HL Hi Hw] Hm Hf. pose proof (exec_moves _ _ _ Hm) as Hmv. split.
  - by eapply exec_inv.
  - by eapply live_moves.
  - by eapply ids_move.
  - by rewrite (moves_workers _ _ _ Hmv).
Qed.

Lemma run_unfaulted l e e' : run l e = Some e' -> unfaulted (mq e') -> unfaulted (mq e).
Proof.
  revert e. induction l as [|m l IH]; simpl; [by intros e [= <-]|].
  intros e (e1 & Hm & Hr)%bind_Some ?. eauto using move_unfaulted.
Qed.

Lemma all_run n l e e' :
  all_ok n e -> run l e = Some e' -> unfaulted (mq e') -> all_ok n e'.
Proof.
  revert e. induction l as [|m l IH]; simpl; [by intros e ? [= <-]|].
  intros e Ha (e1 & Hm & Hr)%bind_Some Hf. eauto using all_move, run_unfaulted.
Qed.

Lemma construct_roles workers clients t r :
  roles (construct workers clients) !! t = Some r -> r = WTest \/ r = SIdle \/ r = XIdle.
Proof.
  simpl. intros Hr%list_elem_of_lookup_2.
  rewrite !elem_of_app, !elem_of_replicate, list_elem_of_singleton in Hr. tauto.
Qed.

Lemma construct_count f workers clients :
  f SIdle = false -> f XIdle = false ->
  count f (roles (construct workers clients)) = if f WTest then workers else 0.
Proof.
  intros H1 H2. simpl. rewrite !count_app. simpl. rewrite H2.
  assert (forall n r, count f (replicate n r) = if f r then n else 0) as Hrep
    by (intros n r; induction n as [|n IH]; simpl; [|rewrite IH]; by destruct (f r)).
  rewrite !Hrep, H1. destruct (f WTest); lia.
Qed.

Lemma construct_all workers clients : all_ok workers (construct workers clients).
Proof.
  split.
  - eexists. apply construct_exec_ok.
  - split; simpl; try done.
    + intros p b Hb. unfold vec_get in Hb. by apply lookup_replicate_1 in Hb as [-> _].
    + by intros q [= <-].
    + intros t r Hr. by destruct (construct_roles _ _ _ _ Hr) as [-> |[-> | ->]].
    + intros t k Hk. by rewrite (pool_lookup_replicate _ _ _ Hk).
  - split; rewrite construct_count by done; simpl; [by vm_compute|lia].
  - by rewrite construct_count.
Qed.

(** As long as nobody asks for more, there are at most [fuel] steps to take. *)
Lemma moves_bounded n (ts : list nat) e e' :
  all_ok n e -> run (Move <$> ts) e = Some e' -> unfaulted (mq e') -> length ts + fuel e' <= fuel e.
Proof.
  revert e. induction ts as [|t ts IH]; intros e Ha; simpl; [by intros [= <-]|].
  intros (e1 & Hm & Hr)%bind_Some Hf. pose proof (run_unfaulted _ _ _ Hr Hf) as Hf1.
  assert (fuel e1 < fuel e) as Hlt.
  { destruct (ao_exec _ _ Ha) as [s HE]. apply (fuel_decreases e s); [done|apply Ha| |done].
    by apply (step_moves t). }
  pose proof (IH e1 (all_move _ (Move t) _ _ Ha Hm Hf1) Hr Hf). lia.
Qed.

(** ** At rest *)

(** No thread can move by itself. *)
Definition still (e : exec_conf) : Prop := forall t, step t e = None.

Lemma unfaulted_count {T} (c : conf T) : unfaulted c -> count is_faulted c.2 = 0.
Proof. intros H. by apply count_zero. Qed.

Lemma start_possible {T} (c : conf T) t o k k' :
  unfaulted c -> c.2 !! t = Some k -> may_start k = true -> entry o = Some k' ->
  is_Some (cstep (Start t o) c).
Proof.
  intros Hf Ht Hm He. destruct c as [g pool]. apply unfaulted_count in Hf. simpl in *.
  rewrite Hf, Ht. simpl. rewrite Hm, He. simpl. eauto.
Qed.

Lemma step_possible {T} (c : conf T) t k :
  unfaulted c -> c.2 !! t = Some k -> is_Some (tstep k c.1) -> is_Some (cstep (Step t) c).
Proof.
  intros Hf Ht [[k' g'] Hs]. destruct c as [g pool]. apply unfaulted_count in Hf. simpl in *.
  rewrite Hf, Ht. simpl. rewrite Hs. simpl. eauto.
Qed.

(** A thread in a call that has not returned goes on with it. *)
Lemma step_in_call e t r k :
  roles e !! t = Some r -> in_call r = true -> (mq e).2 !! t = Some k -> may_start k = false ->
  step t e = inside t e.
Proof.
  intros Hr Hin Hk Hm. unfold step. rewrite Hr. simpl.
  destruct r; simpl in *; try done; rewrite Hk; by destruct k.
Qed.

Lemma may_start_stuck {T} (k : pc T) g : may_start k = true -> tstep k g = None.
Proof. by destruct k. Qed.

Section Rest.
Context (e : exec_conf) (s : ghost (T := task)).
Context (HE : exec_ok e s) (HL : live_ok e) (Hf : unfaulted (mq e)) (Hstill : still e).

Lemma role_of_pool t k : (mq e).2 !! t = Some k -> exists r, roles e !! t = Some r /\ role_pc r k.
Proof.
  intros Hk. destruct (lookup_lt_is_Some_2 (roles e) t) as [r Hr].
  { rewrite (eo_len _ _ HE). by eapply lookup_lt_Some. }
  exists r. split; [done|]. by apply (eo_role _ _ HE t).
Qed.

Lemma pool_of_role t r : roles e !! t = Some r -> exists k, (mq e).2 !! t = Some k /\ role_pc r k.
Proof.
  intros Hr. destruct (lookup_lt_is_Some_2 (mq e).2 t) as [k Hk].
  { rewrite <-(eo_len _ _ HE). by eapply lookup_lt_Some. }
  exists k. split; [done|]. by apply (eo_role _ _ HE t).
Qed.

Lemma pool_stuck t k : (mq e).2 !! t = Some k -> tstep k (mq e).1 = None.
Proof.
  intros Hk. destruct (role_of_pool t k Hk) as (r & Hr & Hpc).
  destruct (may_start k) eqn:Hm; [by apply may_start_stuck|].
  destruct (in_call r) eqn:Hin; [|by destruct r; simpl in *; congruence].
  pose proof (Hstill t) as H. rewrite (step_in_call _ _ _ _ Hr Hin Hk Hm) in H. unfold inside in H.
  destruct (tstep k (mq e).1) eqn:Et; [|done].
  destruct (step_possible (mq e) t k Hf Hk) as [c Hc]; [by rewrite Et|].
  by rewrite Hc in H.
Qed.

Lemma pool_at_rest t k : (mq e).2 !! t = Some k -> may_start k = true \/ exists p, k = DWait p.
Proof.
  intros Hk. destruct (eo_conf _ _ HE) as [Hl _].
  destruct (only_wait_blocks _ _ Hl pool_stuck t k Hk) as [?|[H|?]]; auto.
  - by apply blocked_reason, (pool_stuck t).
  - by rewrite (Hf t k Hk) in H.
Qed.

Lemma call_possible t k o k' e1 :
  (mq e).2 !! t = Some k -> may_start k = true -> entry o = Some k' ->
  mq e1 = mq e -> call t o e1 <> None.
Proof.
  intros Hk Hm He E H. destruct (start_possible (mq e) t o k k' Hf Hk Hm He) as [c Hc].
  unfold call in H. simpl in H. rewrite E, Hc in H. done.
Qed.

(** Workers wait for a task, have returned or have read the flag too late, clients are done with their
    calls, and the destructor has not begun or is in its join. *)
Lemma roles_at_rest t r k :
  roles e !! t = Some r -> (mq e).2 !! t = Some k ->
  match r with
  | WDequeue => k = DWait 0
  | WReturned | WDangling | SIdle | SCrashed _ | XIdle | XJoin | XDone => True
  | _ => False
  end.
Proof.
  intros Hr Hk. pose proof (eo_role _ _ HE _ _ _ Hr Hk) as Hpc. pose proof (Hstill t) as H.
  pose proof (pool_at_rest t k Hk) as Hrest. unfold step in H. rewrite Hr in H.
  destruct r; simpl in H, Hpc; try done.
  - destruct (members_gone e); [done|]. destruct (_destructing e); [done|].
    by eapply call_possible in H.
  - rewrite Hk in H. destruct Hpc as [Hd|[o ->]]; [|by destruct o].
    destruct Hrest as [Hm|[p ->]]; [by destruct k|]. by apply N.eqb_eq in Hd as ->.
  - by destruct (Counter.Increment _).
  - by eapply call_possible in H.
  - rewrite Hk in H. destruct Hpc as [_ Hpc]. destruct Hrest as [Hm|[p ->]]; [by destruct k|done].
  - by eapply call_possible in H.
  - rewrite Hk in H. destruct Hrest as [Hm|[p ->]]; [by destruct k|done].
Qed.

(** A waiting worker waits for the mutex of an empty queue. *)
Lemma waiting_locked t : (mq e).2 !! t = Some (DWait 0) ->
  vec_get (_not_empty_mutexes (queue (mq e).1)) 0 = Some true.
Proof.
  intros Ht. pose proof (pool_stuck t _ Ht) as H. simpl in H. rewrite (eo_max _ _ HE) in H.
  unfold act, lock_not_empty in H. simpl in H.
  destruct (vec_get _ 0) as [[]|]; done.
Qed.

Lemma rest_queue_empty t : (mq e).2 !! t = Some (DWait 0) ->
  _priority_qs (queue (mq e).1) = [[]].
Proof.
  intros Ht. destruct (conf_lengths _ _ (eo_conf _ _ HE) (eo_max _ _ HE)) as (Hl & _).
  pose proof (lv_awake _ HL) as Ha. unfold awake in Ha.
  destruct (_priority_qs _) as [|[|x q] [|]]; try done.
  destruct (Ha _ eq_refl) as [Hfree|(t0 & k0 & Hk0 & Hw)]; [done| |].
  - rewrite (waiting_locked t Ht) in Hfree. done.
  - destruct (pool_at_rest t0 k0 Hk0) as [Hm|[p ->]]; [by destruct k0|done].
Qed.

Lemma rest_ran_all t :
  (mq e).2 !! t = Some (DWait 0) -> count is_crashed (roles e) = 0 -> ran e ≡ₚ submitted e.
Proof.
  intros Ht Hnc. rewrite <-(eo_tasks _ _ HE).
  assert (concat (zip_with owned (roles e) (given s)) = []) as ->.
  { apply concat_nil_Forall, Forall_forall. intros l (i & Hl)%list_elem_of_lookup_1.
    rewrite lookup_zip_with in Hl. apply bind_Some in Hl as (r & Hr & Hl).
    apply bind_Some in Hl as (g & Hg & [= <-]).
    destruct (pool_of_role i r Hr) as (k & Hk & _).
    pose proof (owned_holds _ _ _ _ _ _ HE Hr Hk Hg) as Hh.
    pose proof (roles_at_rest i r k Hr Hk) as Hrest.
    pose proof (count_zero_inv _ _ _ _ Hnc Hr). destruct r; simpl in *; try done.
    by subst k. }
  assert (queued s = []) as ->; [|by rewrite !app_nil_r].
  pose proof (conf_ids _ _ (eo_conf _ _ HE)) as Hids. rewrite (rest_queue_empty t Ht) in Hids.
  unfold queued. destruct (fifos (abs s)) as [|[|] [|]]; done.
Qed.

End Rest.

Lemma rest_worker n e s :
  all_ok n e -> exec_ok e s -> unfaulted (mq e) -> still e -> 0 < n ->
  exists t r, roles e !! t = Some r /\
    (_destructing e = true \/ r = WDequeue /\ (mq e).2 !! t = Some (DWait 0)).
Proof.
  intros Ha HE Hf Hst Hn. destruct (count_pos_inv is_worker (roles e)) as (t & r & Hr & Hw).
  { by rewrite (ao_workers _ _ Ha). }
  destruct (pool_of_role e s HE t r Hr) as (k & Hk & _).
  pose proof (roles_at_rest e s HE Hf Hst t r k Hr Hk) as H. exists t, r. split; [done|].
  destruct r; simpl in *; try done.
  - right. by subst k.
  - left. by apply (lv_roles _ (ao_live _ _ Ha) t _ Hr).
  - left. by apply (lv_roles _ (ao_live _ _ Ha) t _ Hr).
Qed.

Lemma rest_ran n e s :
  all_ok n e -> exec_ok e s -> unfaulted (mq e) -> still e -> 0 < n -> _destructing e = false ->
  (Z.of_nat (length (submitted e)) < INT_MAX)%Z -> ran e ≡ₚ submitted e.
Proof.
  intros Ha HE Hf Hst Hn Hd Hlen.
  destruct (rest_worker _ _ _ Ha HE Hf Hst Hn) as (t & r & _ & [?|[_ Ht]]); [congruence|].
  apply (rest_ran_all e s HE (ao_live _ _ Ha) Hf Hst t Ht).
  destruct (count is_crashed (roles e)) eqn:E; [done|].
  pose proof (io_crash _ (ao_ids _ _ Ha)). lia.
Qed.

(** C8. The Executor runs what it is given.  In any run of any number of
    workers and clients that no thread faults in, the threads can take at most
    [fuel] more steps unless somebody calls Submit or the destructor: they do
    not spin.  When none of them can move and the Executor is not being
    destroyed, every submitted task has been run, exactly as often as it was
    submitted (as long as the ids have not overflown): no worker sleeps while a
    task waits. *)
Theorem executor_runs_every_task (workers clients : nat) l e (ts : list nat) e' :
  0 < workers -> run l (construct workers clients) = Some e ->
  run (Move <$> ts) e = Some e' -> unfaulted (mq e') ->
  length ts <= fuel e /\
  (still e' -> _destructing e' = false -> (Z.of_nat (length (submitted e')) < INT_MAX)%Z ->
   ran e' ≡ₚ submitted e').
Proof.
  intros Hn Hr Hts Hf. pose proof (run_unfaulted _ _ _ Hts Hf) as Hfe.
  pose proof (all_run _ _ _ _ (construct_all workers clients) Hr Hfe) as Ha.
  pose proof (all_run _ _ _ _ Ha Hts Hf) as Ha'. split.
  { pose proof (moves_bounded _ _ _ _ Ha Hts Hf). lia. }
  intros Hst Hd Hlen. destruct (ao_exec _ _ Ha') as [s HE].
  by apply (rest_ran workers e' s).
Qed.

(** ** One worker *)

(** A thread of the destructor that has set the flag of the multi-queue. *)
Definition released_by (r : role) (k : pc task) : bool :=
  match r with
  | XJoin | XDone => true
  | XRelease => match k with RQLoop _ _ | Finished _ => true | _ => false end
  | _ => false
  end.

(** A thread of the destructor that has been past the worker's queue. *)
Definition passed (r : role) (k : pc task) : bool :=
  match r with
  | XJoin | XDone => true
  | XRelease => match k with RQLoop _ n => (n =? 0)%nat | Finished _ => true | _ => false end
  | _ => false
  end.

Definition destructor (r : role) : bool :=
  match r with XRelease | XJoin | XDone => true | _ => false end.

Record solo_ok (e : exec_conf) : Prop := mk_solo_ok {
  so_all : all_ok 1 e;
  so_consumer : consumer_ok (mq e);
  so_released : forall t r k, roles e !! t = Some r -> (mq e).2 !! t = Some k ->
    released_by r k = true -> _released (queue (mq e).1) = true;
  so_passed : forall t r k t', roles e !! t = Some r -> (mq e).2 !! t = Some k ->
    passed r k = true -> (mq e).2 !! t' = Some (DWait 0) ->
    vec_get (_not_empty_mutexes (queue (mq e).1)) 0 = Some false;
  so_destructing : _destructing e = true -> exists t r, roles e !! t = Some r /\ destructor r = true
}.

Lemma passed_released r k : passed r k = true -> released_by r k = true.
Proof. destruct r; simpl; try done. by destruct k. Qed.

(** The only worker is outside of Dequeue when it starts one. *)
Lemma sole_worker_dequeue e s t :
  exec_ok e s -> count is_worker (roles e) = 1 -> roles e !! t = Some WTest ->
  count (dequeuing 0) (mq e).2 = 0.
Proof.
  intros HE Hw Ht. apply count_zero. intros i k Hk. destruct (dequeuing 0 k) eqn:Ed; [|done].
  destruct (role_of_pool e s HE i k Hk) as (r & Hr & Hpc).
  assert (r = WDequeue) as ->.
  { destruct k; simpl in Ed; try done; destruct r; simpl in Hpc; try done; by destruct Hpc. }
  destruct (decide (i = t)) as [->|Hne]; [congruence|].
  pose proof (count_two is_worker _ _ _ _ _ Hr Ht eq_refl eq_refl Hne). lia.
Qed.

Lemma solo_one_consumer own e s e' :
  exec_ok e s -> count is_worker (roles e) = 1 -> moves own e e' -> consumer_ok (mq e) ->
  consumer_ok (mq e').
Proof.
  intros HE Hw [t r r' _ Hr Ht E2 E1 _|t r r' o d Hr Hc E2 Hs _|t r Hr _ E2 Hs _] Hco.
  - by rewrite E1.
  - eapply consumer_step; [done| |done]. split; destruct Hc; simpl; rewrite ?(eo_max _ _ HE); try lia; auto.
    by apply (sole_worker_dequeue e s t).
  - eapply consumer_step; [done| |done]. by split.
Qed.

Lemma tstep_released_mono (k k' : pc task) g g' :
  tstep k g = Some (k', g') -> disturbs k = false -> _released (queue g) = true ->
  _released (queue g') = true.
Proof.
  destruct k as [| | | | | | | | | | | | | | | | | | | | |p [|n]| | | | | |];
    simpl; try done; by step_cases.
Qed.

(** The destructor's pass over the queue frees its mutex for a worker that
    waits there. *)
Lemma release_frees_worker (g : shared task) pool t n p t' k' g' :
  locks_ok g pool -> length (_priority_qs (queue g)) = 1 ->
  length (_not_empty_mutexes (queue g)) = 1 -> length (pq_mutexes g) = 1 ->
  awake g pool 0 -> count (dequeuing 0) pool <= 1 ->
  pool !! t = Some (RQLoop p (S n)) -> pool !! t' = Some (DWait 0) ->
  tstep (RQLoop p (S n)) g = Some (k', g') -> is_faulted k' = false ->
  vec_get (_not_empty_mutexes (queue g')) 0 = Some false.
Proof.
  intros Hl Hq Hne Hpq Ha Hone Ht Ht' Hs Hf.
  assert (p = 0%N) as ->.
  { pose proof (lo_range _ _ Hl _ _ Ht) as Hr. simpl in Hr. rewrite Hpq in Hr. lia. }
  revert Hs Hf. simpl. step_cases; try done; [by rewrite vec_get_set_eq by (rewrite Hne; lia)|].
  destruct (Ha _ ltac:(eassumption)) as [?|(t0 & k0 & Hk0 & Hw)]; [done..|]. exfalso.
  destruct (wakes_shared _ _ _ Hw) as [Hsh|Hd].
  - pose proof (exclusive_quiet _ _ _ _ Hl Ht eq_refl) as Hc.
    by rewrite (count_zero_inv _ _ _ _ Hc Hk0) in Hsh.
  - assert (t0 <> t') by (intros ->; destruct Hd; congruence).
    pose proof (count_two (dequeuing 0) pool t0 t' k0 _ Hk0 Ht') as Htwo.
    destruct Hd as [-> | ->]; specialize (Htwo eq_refl eq_refl ltac:(done)); lia.
Qed.

(** A thread that comes to wait has seen the queue unreleased. *)
Lemma tstep_waits (k : pc task) g g' p :
  tstep k g = Some (DWait p, g') -> _released (queue g) = false.
Proof.
  destruct k as [| | | | | | | | | | | | | | | | | | | | |p0 [|n]| | | | | |];
    simpl; try done; by step_cases.
Qed.

Lemma tstep_passed r k k' g g' :
  in_call r = true -> role_pc r k -> tstep k g = Some (k', g') -> is_faulted k' = false ->
  (released_by r k' = true -> released_by r k = true \/ _released (queue g') = true) /\
  (passed r k' = true -> passed r k = true \/ exists p n, k = RQLoop p (S n)).
Proof.
  intros Hin Hpc Hs Hf. destruct r; simpl in *; try done. revert Hs Hf.
  destruct k as [| | | | | | | | | | | | | | | | | | | | |p0 [|n]| | | | | |];
    simpl in *; try done; step_cases; try done; eauto.
  all: split; eauto; intros; try (right; by eexists _, _).
  by apply Nat.eqb_eq in H; lia.
Qed.

Lemma role_lookup_cases (rs : list role) t r' t0 r0 :
  t < length rs -> <[t := r']> rs !! t0 = Some r0 ->
  t0 = t /\ r0 = r' \/ t0 <> t /\ rs !! t0 = Some r0.
Proof.
  intros Hlt H. destruct (decide (t0 = t)) as [->|Hne].
  - rewrite list_lookup_insert_eq in H by done. left. by simplify_eq.
  - rewrite list_lookup_insert_ne in H by done. auto.
Qed.

Lemma solo_turn e t r r' e' :
  roles e !! t = Some r -> turn e t r r' -> roles e' = <[t := r']> (roles e) ->
  mq e' = mq e -> _destructing e' = _destructing e ->
  all_ok 1 e' -> consumer_ok (mq e') -> solo_ok e -> solo_ok e'.
Proof.
  intros Hr Ht E2 E1 Ed Ha' Hc' [_ _ S3 S4 S5].
  assert (t < length (roles e)) as Hlt by (by eapply lookup_lt_Some).
  assert (forall k, (mq e).2 !! t = Some k -> released_by r' k = true ->
    released_by r k = true /\ passed r k = true) as Hown
    by (intros k Hk; destruct Ht; simpl; try done; by simplify_eq/=).
  split; try done; rewrite ?E1, ?E2, ?Ed.
  - intros t0 r0 k Hr0 Hk Hrel. destruct (role_lookup_cases _ _ _ _ _ Hlt Hr0) as [[-> ->]|[_ ?]];
      [|by eapply S3]. apply (S3 t r k); try done. by apply Hown.
  - intros t0 r0 k t' Hr0 Hk Hp Hw. destruct (role_lookup_cases _ _ _ _ _ Hlt Hr0) as [[-> ->]|[_ ?]];
      [|by eapply S4]. apply (S4 t r k t'); try done. by apply Hown, passed_released.
  - intros (t0 & r0 & Hr0 & Hx)%S5. destruct (decide (t0 = t)) as [->|Hne].
    + exists t, r'. rewrite list_lookup_insert_eq by done. split; [done|].
      assert (r0 = r) as -> by congruence. by destruct Ht.
    + exists t0, r0. by rewrite list_lookup_insert_ne.
Qed.

Lemma solo_call e t r r' o d e' :
  roles e !! t = Some r -> calls e r r' o d -> roles e' = <[t := r']> (roles e) ->
  cstep (Start t o) (mq e) = Some (mq e') -> _destructing e' = d ->
  all_ok 1 e' -> consumer_ok (mq e') -> solo_ok e -> solo_ok e'.
Proof.
  intros Hr Hc E2 Hs Ed Ha' Hc' [Ha _ S3 S4 S5].
  assert (t < length (roles e)) as Hlt by (by eapply lookup_lt_Some).
  pose proof (lv_roles _ (ao_live _ _ Ha)) as Hend. destruct (mq e) as [g pool].
  destruct (cstep_inv _ _ _ _ Hs) as (? & k & k' & g' & Ht & E & <- & Hm & He & ->).
  simpl in *. split; try done; rewrite ?E, ?E2, ?Ed; simpl.
  - intros t0 r0 k0 Hr0 Hk0 Hrel. destruct (role_lookup_cases _ _ _ _ _ Hlt Hr0) as [[-> ->]|[Hne Hr1]].
    + rewrite list_lookup_insert_eq in Hk0 by (by eapply lookup_lt_Some).
      by destruct Hc; simplify_eq/=.
    + rewrite list_lookup_insert_ne in Hk0 by done. by eapply S3.
  - intros t0 r0 k0 t' Hr0 Hk0 Hp Hw.
    destruct (role_lookup_cases _ _ _ _ _ Hlt Hr0) as [[-> ->]|[Hne Hr1]].
    + rewrite list_lookup_insert_eq in Hk0 by (by eapply lookup_lt_Some).
      by destruct Hc; simplify_eq/=.
    + rewrite list_lookup_insert_ne in Hk0 by done.
      destruct (pool_lookup_cases _ _ _ _ _ _ Ht Hw) as [[-> <-]|[_ Hw']]; [|by eapply S4].
      assert (_destructing e = true) by (apply (Hend t0 r0); [done|by destruct r0]).
      destruct Hc; simplify_eq/=; congruence.
  - intros Hd. destruct Hc; [done| |].
    + destruct (S5 Hd) as (t0 & r0 & Hr0 & Hx). exists t0, r0.
      rewrite list_lookup_insert_ne; [done|]. intros ->. by simplify_eq.
    + exists t, XRelease. rewrite list_lookup_insert_eq by done. auto.
Qed.

Lemma solo_inside e t r e' :
  roles e !! t = Some r -> in_call r = true -> roles e' = roles e ->
  cstep (Step t) (mq e) = Some (mq e') -> _destructing e' = _destructing e ->
  unfaulted (mq e') -> all_ok 1 e' -> consumer_ok (mq e') -> solo_ok e -> solo_ok e'.
Proof.
  intros Hr Hin E2 Hs Ed Hf Ha' Hc' [Ha Hco S3 S4 S5].
  destruct (ao_exec _ _ Ha) as [s HE].
  destruct (conf_step _ _ _ _ (eo_conf _ _ HE) Hs Hf) as (k & k' & _ & Ht & Hts & E & Hk' & _ & _).
  destruct (conf_lengths _ _ (eo_conf _ _ HE) (eo_max _ _ HE)) as (Hl1 & Hl2 & Hl3).
  destruct (eo_conf _ _ HE) as [Hl _].
  pose proof (eo_role _ _ HE _ _ _ Hr Ht) as Hpc. pose proof (role_disturbs _ _ Hpc) as Hdis.
  destruct (tstep_passed _ _ _ _ _ Hin Hpc Hts Hk') as [Hrel' Hpass'].
  assert (forall t0 r0 k0, roles e !! t0 = Some r0 -> <[t := k']> (mq e).2 !! t0 = Some k0 ->
    released_by r0 k0 = true -> _released (queue (mq e').1) = true) as Hrel.
  { intros t0 r0 k0 Hr0 Hk0 Hx. destruct (pool_lookup_cases _ _ _ _ _ _ Ht Hk0) as [[-> ->]|[_ ?]].
    - assert (r0 = r) as -> by congruence. destruct (Hrel' Hx) as [?|?]; [|done].
      eapply tstep_released_mono; [done|done|]. by apply (S3 t r k).
    - eapply tstep_released_mono; [done|done|]. by apply (S3 t0 r0 k0). }
  split; try done; rewrite ?E, ?E2, ?Ed; try done.
  intros t0 r0 k0 t' Hr0 Hk0 Hp Hw.
  assert (t' <> t /\ (mq e).2 !! t' = Some (DWait 0)) as [Hne Hw0].
  { destruct (pool_lookup_cases _ _ _ _ _ _ Ht Hw) as [[-> <-]|[? ?]]; [|done]. exfalso.
    pose proof (tstep_waits _ _ _ _ Hts) as Hno.
    destruct (pool_lookup_cases _ _ _ _ _ _ Ht Hk0) as [[-> ->]|[? Hk1]].
    - assert (r0 = r) as -> by congruence. by destruct r.
    - rewrite (S3 t0 r0 k0 Hr0 Hk1 (passed_released _ _ Hp)) in Hno. done. }
  assert (forall t1 r1 k1, roles e !! t1 = Some r1 -> (mq e).2 !! t1 = Some k1 ->
    passed r1 k1 = true -> vec_get (_not_empty_mutexes (queue (mq e').1)) 0 = Some false) as Hkeep.
  { intros t1 r1 k1 Hr1 Hk1 Hp1.
    destruct (tstep_mutex _ _ _ _ _ Hts (S4 _ _ _ _ Hr1 Hk1 Hp1 Hw0)) as [?| ->]; [done|]. exfalso.
    pose proof (tstep_dequeuing _ _ _ _ 0 Hts eq_refl) as Hd.
    pose proof (count_two (dequeuing 0) _ _ _ _ _ Hw0 Ht eq_refl Hd Hne).
    pose proof (co_one _ Hco 0). lia. }
  destruct (pool_lookup_cases _ _ _ _ _ _ Ht Hk0) as [[-> ->]|[? Hk1]]; [|by eapply Hkeep].
  assert (r0 = r) as -> by congruence. destruct (Hpass' Hp) as [?|(p & n & ->)]; [by eapply Hkeep|].
  eapply (release_frees_worker (mq e).1 (mq e).2 t); try done; [apply (ao_live _ _ Ha)|apply (co_one _ Hco)].
Qed.

Lemma solo_move m e e' : solo_ok e -> exec_move m e = Some e' -> solo_ok e' /\ unfaulted (mq e').
Proof.
  intros HS Hm. pose proof (exec_moves _ _ _ Hm) as Hmv. pose proof (so_all _ HS) as Ha.
  destruct (ao_exec _ _ Ha) as [s HE].
  assert (consumer_ok (mq e')) as Hco'.
  { eapply solo_one_consumer; [done|apply Ha|done|apply HS]. }
  assert (unfaulted (mq e')) as Hf by (intros t k; apply bo_fault, co_base; done).
  split; [|done]. pose proof (all_move _ _ _ _ Ha Hm Hf) as Ha'.
  destruct Hmv; [by eapply solo_turn|by eapply solo_call|by eapply solo_inside].
Qed.

Lemma construct_solo clients : solo_ok (construct 1 clients).
Proof.
  split.
  - apply construct_all.
  - by apply consumer_init.
  - intros t r k Hr _. by destruct (construct_roles _ _ _ _ Hr) as [-> |[-> | ->]].
  - intros t r k t' Hr _. by destruct (construct_roles _ _ _ _ Hr) as [-> |[-> | ->]].
  - done.
Qed.

Lemma solo_run l e e' : solo_ok e -> run l e = Some e' -> solo_ok e'.
Proof.
  revert e. induction l as [|m l IH]; simpl; [by intros e ? [= <-]|].
  intros e HS (e1 & Hm & Hr)%bind_Some. destruct (solo_move _ _ _ HS Hm). eauto.
Qed.

(** At rest after the destructor began, the worker has left Dequeue for good;
    if it has returned so has the join. *)
Lemma solo_rest e :
  solo_ok e -> unfaulted (mq e) -> still e -> _destructing e = true ->
  (forall t r, roles e !! t = Some r -> is_worker r = true -> r = WReturned \/ r = WDangling) /\
  ((forall t, roles e !! t <> Some WDangling) -> exists t, roles e !! t = Some XDone).
Proof.
  intros HS Hf Hst Hd. pose proof (so_all _ HS) as Ha. destruct (ao_exec _ _ Ha) as [s HE].
  destruct (so_destructing _ HS Hd) as (tx & rx & Hrx & Hx).
  destruct (pool_of_role e s HE tx rx Hrx) as (kx & Hkx & _).
  assert (passed rx kx = true) as Hp.
  { pose proof (roles_at_rest e s HE Hf Hst tx rx kx Hrx Hkx) as H. by destruct rx. }
  assert (forall t r, roles e !! t = Some r -> is_worker r = true ->
    r = WReturned \/ r = WDangling) as Hret.
  { intros t r Hr Hw. destruct (pool_of_role e s HE t r Hr) as (k & Hk & _).
    pose proof (roles_at_rest e s HE Hf Hst t r k Hr Hk) as H. destruct r; simpl in *; auto; try done.
    subst k. pose proof (so_passed _ HS _ _ _ _ Hrx Hkx Hp Hk) as Hfree.
    by rewrite (waiting_locked e s HE Hf Hst t Hk) in Hfree. }
  split; [done|]. intros Hnd. exists tx. destruct rx; simpl in *; try done.
  - pose proof (roles_at_rest e s HE Hf Hst tx _ kx Hrx Hkx). done.
  - exfalso. pose proof (Hst tx) as H. unfold step in H. rewrite Hrx in H. simpl in H.
    rewrite (count_zero (fun r => is_worker r && negb (returned r))) in H; [done|].
    intros i r Hr. destruct (is_worker r) eqn:Hw; [|done].
    destruct (Hret i r Hr Hw) as [-> | ->]; [done|]. by destruct (Hnd i).
Qed.

(** The threads of an Executor with one worker get to rest. *)
Lemma step_out t e : length (roles e) <= t -> step t e = None.
Proof. intros H%lookup_ge_None. unfold step. by rewrite H. Qed.

Lemma solo_reaches_rest e : solo_ok e ->
  exists (ts : list nat) e', run (Move <$> ts) e = Some e' /\ still e'.
Proof.
  remember (fuel e) as n eqn:Hn. revert e Hn.
  induction (lt_wf n) as [n _ IH]. intros e -> HS.
  destruct (decide (Exists (fun t => is_Some (step t e)) (seq 0 (length (roles e)))))
    as [(t & _ & e1 & He1)%Exists_exists|Hno].
  - destruct (solo_move (Move t) _ _ HS He1) as [HS1 Hf1].
    destruct (ao_exec _ _ (so_all _ HS)) as [s HE].
    assert (fuel e1 < fuel e) as Hlt.
    { apply (fuel_decreases e s); [done|apply HS|by apply (step_moves t)|done]. }
    destruct (IH _ Hlt e1 eq_refl HS1) as (ts & e' & Hr & Hst).
    exists (t :: ts), e'. split; [|done]. simpl. by rewrite He1.
  - exists [], e. split; [done|]. intros t.
    destruct (decide (t < length (roles e))) as [Hlt|Hge]; [|apply step_out; lia].
    apply eq_None_not_Some. intros Hs. apply Hno, Exists_exists. exists t.
    split; [|done]. by apply elem_of_seq; lia.
Qed.

(** C9. An Executor with one worker is safe on its queue and leaves it at
    shutdown.  Whatever the clients and the owner of the Executor do, and however
    the threads interleave, no thread faults inside the multi-queue; the threads
    take at most [fuel] steps between two requests and can always come to rest.
    When none can move and the destructor has not begun, every submitted task has
    been run, provided fewer than INT_MAX tasks were submitted (the id counter
    aborts at the next one).  When none can move and the destructor has begun,
    the worker does not sleep in Dequeue: it has returned from StartScheduling,
    and then the destructor from its join; or it came to test [_destructing]
    only after ~ExecutorScheduler had destroyed that flag and its lock, which the
    code allows ([executor_reads_dead_flag]) and after which nothing is
    claimed. *)
Theorem single_worker_shuts_down (clients : nat) l e (ts : list nat) e' :
  run l (construct 1 clients) = Some e -> run (Move <$> ts) e = Some e' ->
  unfaulted (mq e') /\ length ts <= fuel e /\
  (exists (us : list nat) e'', run (Move <$> us) e' = Some e'' /\ still e'') /\
  (still e' ->
   if _destructing e'
   then (forall t r, roles e' !! t = Some r -> is_worker r = true ->
           r = WReturned \/ r = WDangling) /\
        ((forall t, roles e' !! t <> Some WDangling) -> exists t, roles e' !! t = Some XDone)
   else (Z.of_nat (length (submitted e')) < INT_MAX)%Z -> ran e' ≡ₚ submitted e').
Proof.
  intros Hr Hts. pose proof (solo_run _ _ _ (construct_solo clients) Hr) as HS.
  pose proof (solo_run _ _ _ HS Hts) as HS'.
  assert (unfaulted (mq e')) as Hf by (intros t k; apply bo_fault, co_base, HS').
  split; [done|]. split.
  { pose proof (moves_bounded _ _ _ _ (so_all _ HS) Hts Hf). lia. }
  split; [by apply solo_reaches_rest|].
  intros Hst. destruct (_destructing e') eqn:Hd; [by apply solo_rest|].
  intros Hlen. destruct (ao_exec _ _ (so_all _ HS')) as [s HE].
  apply (rest_ran 1 e' s); try done; [apply HS'|lia].
Qed.

(** ** Executions as witnesses *)

Definition one_task : task := Executor.mkExecutorCallback 7 1.

(** Two workers, one client; one task is submitted. *)
Definition rest_start : exec_conf :=
  default (construct 2 1) (run [Submit 2 0 one_task] (construct 2 1)).

Definition rest_schedule : list nat := replicate 9 2 ++ replicate 13 0 ++ [1].

Definition rest_end : exec_conf :=
  default (construct 2 1) (run (Move <$> rest_schedule) rest_start).

Lemma executor_runs_every_task_witness :
  run (Move <$> rest_schedule) rest_start = Some rest_end /\ still rest_end /\
  ran rest_end = [one_task] /\ ran rest_end ≡ₚ submitted rest_end.
Proof.
  assert (unfaulted (mq rest_end)) as Hf
    by (intros [|[|[|[|t]]]] k Hk; vm_compute in Hk; simplify_eq; reflexivity).
  assert (still rest_end) as Hst
    by (intros [|[|[|[|t]]]]; [vm_compute; reflexivity..|apply step_out; vm_compute; lia]).
  split; [vm_compute; reflexivity|]. split; [exact Hst|]. split; [vm_compute; reflexivity|].
  apply (executor_runs_every_task 2 1 [Submit 2 0 one_task] rest_start rest_schedule rest_end);
    [lia|vm_compute; reflexivity..|exact Hf|exact Hst|vm_compute; reflexivity|vm_compute; reflexivity].
Defined.

(** The owner begins to destroy the Executor, and sets the flag, while the
    only worker is inside Dequeue with the task of a client. *)
Definition destroy_requests : list move :=
  (Move <$> replicate 5 0) ++ [Submit 1 0 one_task] ++ (Move <$> replicate 9 1) ++ [Destroy 2].

Definition destroy_start : exec_conf :=
  default (construct 1 1) (run destroy_requests (construct 1 1)).

(** The worker runs the task and tests the flag before the destructor's body has
    ended. *)
Definition destroy_schedule : list nat := [2] ++ replicate 12 0 ++ replicate 6 2.

Definition destroy_end : exec_conf :=
  default (construct 1 1) (run (Move <$> destroy_schedule) destroy_start).

Lemma single_worker_shuts_down_witness :
  run (Move <$> destroy_schedule) destroy_start = Some destroy_end /\
  ran destroy_end = [one_task] /\ roles destroy_end !! 0 = Some WReturned /\
  exists t, roles destroy_end !! t = Some XDone.
Proof.
  assert (still destroy_end) as Hst
    by (intros [|[|[|t]]]; [vm_compute; reflexivity..|apply step_out; vm_compute; lia]).
  assert (forall t, roles destroy_end !! t <> Some WDangling) as Hnd
    by (intros [|[|[|t]]]; vm_compute; discriminate).
  split; [vm_compute; reflexivity|]. split; [vm_compute; reflexivity|].
  split; [vm_compute; reflexivity|].
  destruct (single_worker_shuts_down 1 destroy_requests destroy_start destroy_schedule destroy_end)
    as (_ & _ & _ & H); [vm_compute; reflexivity..|].
  specialize (H Hst). change (_destructing destroy_end) with true in H. apply H, Hnd.
Defined.

(** An Executor that is destroyed while its worker waits for a task: ReleaseQueues
    wakes the worker, but ~ExecutorScheduler can end first, and with it the
    lifetime of [_destructing] and of its lock; the worker then locks and reads
    members that no longer exist. *)
Theorem executor_reads_dead_flag : exists l e,
  run l (construct 1 0) = Some e /\ submitted e = [] /\
  roles e !! 0 = Some WDangling /\ roles e !! 1 = Some XJoin.
Proof.
  exists ((Move <$> replicate 5 0) ++ [Destroy 1] ++ (Move <$> replicate 6 1 ++ replicate 7 0)).
  eexists. split; [vm_compute; reflexivity|]. repeat split; vm_compute; reflexivity.
Qed.

End ExecutorLive.
