(* ===== verification/Throttler.v ===== *)
(** * Throttler (common/dstage/throttler.hh)

    The throttler lets a worker into the multi-queue only when the number of
    live jobs of its priority is below the target.  [_throttle_blocks[p]] is the
    permit, [_primary_waiting] and [_secondary_waiting] record that a permit is
    out.  The state machine below interleaves the critical sections of
    Dequeue and of the destructor of ThrottleJob; the decision functions run
    under [_state_lock] and are one step each. *)

From stdpp Require Import prelude gmap list.
From S2P Require Import Prelude Synchronization Job BaseMultiQueue MultiQueue.
From S2P Require Import MultiQueueSpec.

Module Throttler.

Definition kThrottlerPriorities : N := 2.
Definition kPrimaryPriority : N := 0.
Definition kSecondaryPriority : N := 1.

(** [std::array<_, 2>] and the two-element vector of counters, indexed by a
    priority. *)
Record two (A : Type) := Two { at0 : A; at1 : A }.
Arguments Two {A} _ _.
Arguments at0 {A} _.
Arguments at1 {A} _.

Definition get2 {A} (x : two A) (p : N) : option A :=
  if (p =? 0)%N then Some (at0 x) else if (p =? 1)%N then Some (at1 x) else None.

Definition set2 {A} (p : N) (a : A) (x : two A) : two A :=
  if (p =? 0)%N then Two a (at1 x) else if (p =? 1)%N then Two (at0 x) a else x.

Record Throttler := mkThrottler {
  _throttle_targets : two Z;
  _throttle_blocks : two mutex;
  _scheduled_counts : two Z;
  _primary_waiting : bool;
  _secondary_waiting : bool
}.

Definition set_targets (x : two Z) (t : Throttler) : Throttler :=
  mkThrottler x (_throttle_blocks t) (_scheduled_counts t) (_primary_waiting t)
    (_secondary_waiting t).

Definition set_blocks (x : two mutex) (t : Throttler) : Throttler :=
  mkThrottler (_throttle_targets t) x (_scheduled_counts t) (_primary_waiting t)
    (_secondary_waiting t).

Definition set_counts (x : two Z) (t : Throttler) : Throttler :=
  mkThrottler (_throttle_targets t) (_throttle_blocks t) x (_primary_waiting t)
    (_secondary_waiting t).

Definition set_primary_waiting (b : bool) (t : Throttler) : Throttler :=
  mkThrottler (_throttle_targets t) (_throttle_blocks t) (_scheduled_counts t) b
    (_secondary_waiting t).

Definition set_secondary_waiting (b : bool) (t : Throttler) : Throttler :=
  mkThrottler (_throttle_targets t) (_throttle_blocks t) (_scheduled_counts t)
    (_primary_waiting t) b.

(** [CHECK(!(targets[0] == 0 && targets[1] == 0))]. *)
Definition targets_ok (x : two Z) : bool := negb ((at0 x =? 0)%Z && (at1 x =? 0)%Z).

(** The constructor; [None] is a failed CHECK. *)
Definition new (max_priority : N) (targets : two Z) : option Throttler :=
  if (u32_add max_priority 1 =? kThrottlerPriorities)%N && targets_ok targets
  then Some (mkThrottler targets
         (Two (at0 targets =? 0)%Z (at1 targets =? 0)%Z) (Two 0%Z 0%Z)
         (negb (at0 targets =? 0)%Z) (negb (at1 targets =? 0)%Z))
  else None.

Section Ops.
Context {T S : Type} `{BaseMultiQueue T S}.

Definition on_throttler {A} (m : M Throttler A) : M (Throttler * S) A :=
  zoom fst (fun t s => (t, s.2)) m.

Definition on_queue {A} (m : M S A) : M (Throttler * S) A :=
  zoom snd (fun q s => (s.1, q)) m.

(** [_scheduled_counts[prio]->Increment()] and [Decrement()]. *)
Definition count_op (op : M Counter.Counter Z) (prio : N) : M Throttler unit :=
  t ← get;
  c ← need OutOfRange (get2 (_scheduled_counts t) prio);
  match op (Counter.mkCounter c) with
  | Done _ c' => modify (set_counts (set2 prio (Counter._count c') (_scheduled_counts t)))
  | Wait _ => fun t => Wait t
  | Crash e => crash e
  end.

Definition IncrementJobCount (prio : N) : M Throttler unit := count_op Counter.Increment prio.

Definition lock_block (prio : N) : M Throttler unit := fun t =>
  match get2 (_throttle_blocks t) prio with
  | None => Crash OutOfRange
  | Some true => Wait t
  | Some false => Done tt (set_blocks (set2 prio true (_throttle_blocks t)) t)
  end.

Definition unlock_primary (t : Throttler) : Throttler :=
  set_blocks (Two (unlock true) (at1 (_throttle_blocks t))) (set_primary_waiting true t).

Definition unlock_secondary (t : Throttler) : Throttler :=
  set_blocks (Two (at0 (_throttle_blocks t)) (unlock true)) (set_secondary_waiting true t).

(** [int high_prio_jobs = Count() + Size()]: int plus unsigned is unsigned. *)
Definition high_prio_jobs (t : Throttler) (size : N) : Z :=
  i32 (Z.of_N (u32_add (u32_of_Z (at0 (_scheduled_counts t))) size)).

(** "adjust high priority": true when a primary permit was issued. *)
Definition adjust_primary (t : Throttler) : bool * Throttler :=
  if (at0 (_scheduled_counts t) <? at0 (_throttle_targets t))%Z && negb (_primary_waiting t)
  then (true, unlock_primary t) else (false, t).

(** The condition of "adjust low priority" that issues a secondary permit. *)
Definition may_adjust_secondary (attempted : bool) (t : Throttler) : bool :=
  (at1 (_scheduled_counts t) <? at1 (_throttle_targets t))%Z &&
  negb (_secondary_waiting t) && negb attempted.

Definition DecideToScheduleAfterScheduling_ : M (Throttler * S) unit :=
  s ← get;
  size ← on_queue (mq_Size kPrimaryPriority);
  let high := high_prio_jobs s.1 size in
  let '(attempted, t1) := adjust_primary s.1 in
  _ ← on_throttler (modify (fun _ => t1));
  if (at0 (_throttle_targets t1) <=? high)%Z then
    if _secondary_waiting t1 then on_queue (mq_ReleaseOne kSecondaryPriority) else mret tt
  else if may_adjust_secondary attempted t1
  then on_throttler (modify unlock_secondary)
  else mret tt.

Definition DecideToScheduleAfterScheduling (prio : N) : M (Throttler * S) unit :=
  _ ← on_throttler (modify (if (prio =? 0)%N then set_primary_waiting false
                            else set_secondary_waiting false));
  DecideToScheduleAfterScheduling_.

Definition DecideToScheduleCompleting (prio : N) : M (Throttler * S) unit :=
  s ← get;
  size ← on_queue (mq_Size kPrimaryPriority);
  let high := high_prio_jobs s.1 size in
  let '(attempted, t1) := adjust_primary s.1 in
  _ ← on_throttler (modify (fun _ => t1));
  if (high <? at0 (_throttle_targets t1))%Z && may_adjust_secondary attempted t1
  then on_throttler (modify unlock_secondary)
  else mret tt.

(** The body of DecrementJobCount before the decision. *)
Definition decrement (prio : N) : M Throttler unit := count_op Counter.Decrement prio.

Definition DecrementJobCount (prio : N) : M (Throttler * S) unit :=
  _ ← on_throttler (decrement prio);
  DecideToScheduleCompleting prio.

(** Dequeue run by one thread alone. *)
Definition Dequeue (prio : N) : M (Throttler * S) (option (Job T)) :=
  _ ← on_throttler (lock_block prio);
  job ← on_queue (mq_Dequeue prio);
  _ ← match job with
      | Some j => on_throttler (IncrementJobCount (priority j))
      | None => mret tt
      end;
  _ ← DecideToScheduleAfterScheduling prio;
  mret job.

Definition SetThrottle (prio : N) (threshold : Z) : M Throttler unit :=
  t ← get;
  _ ← need OutOfRange (get2 (_throttle_targets t) prio);
  let x := set2 prio threshold (_throttle_targets t) in
  _ ← modify (set_targets x);
  CHECK (targets_ok x).

End Ops.

(** ** Interleavings *)

Inductive tpc : Type :=
| TIdle
| TLock (p : N)
| TQueue (p : N)
| TCount (p prio : N)
| TDecide (p : N)
| TComplete (p : N).

Section Machine.
Context {T S : Type} `{BaseMultiQueue T S}.

(** [live] has the priority of every ThrottleJob that has been counted and not
    yet destroyed. *)
Record conf := mkConf {
  throttler : Throttler;
  queue : S;
  pool : list tpc;
  live : list N
}.

Definition upd (t : nat) (k : tpc) (s : Throttler * S) (l : list N) (c : conf) : conf :=
  mkConf s.1 s.2 (<[t := k]> (pool c)) l.

(** A worker calls Dequeue, takes the permit, gets a job or nullptr from the
    multi-queue, counts the job, decides; a job is destroyed (its count is
    decremented) and the destroying thread decides; anything else may happen to
    the queue meanwhile. *)
Inductive step : conf -> conf -> Prop :=
| step_call c t p :
    pool c !! t = Some TIdle -> (p < kThrottlerPriorities)%N ->
    step c (upd t (TLock p) (throttler c, queue c) (live c) c)
| step_lock c t p thr :
    pool c !! t = Some (TLock p) -> lock_block p (throttler c) = Done tt thr ->
    step c (upd t (TQueue p) (thr, queue c) (live c) c)
| step_job c t p j q :
    pool c !! t = Some (TQueue p) -> mq_Dequeue p (queue c) = Done (Some j) q ->
    step c (upd t (TCount p (priority j)) (throttler c, q) (live c) c)
| step_null c t p q :
    pool c !! t = Some (TQueue p) -> mq_Dequeue p (queue c) = Done None q ->
    step c (upd t (TDecide p) (throttler c, q) (live c) c)
| step_count c t p prio thr :
    pool c !! t = Some (TCount p prio) ->
    IncrementJobCount prio (throttler c) = Done tt thr ->
    step c (upd t (TDecide p) (thr, queue c) (prio :: live c) c)
| step_decide c t p s :
    pool c !! t = Some (TDecide p) ->
    DecideToScheduleAfterScheduling p (throttler c, queue c) = Done tt s ->
    step c (upd t TIdle s (live c) c)
| step_finish c t i p thr :
    pool c !! t = Some TIdle -> live c !! i = Some p ->
    decrement p (throttler c) = Done tt thr ->
    step c (upd t (TComplete p) (thr, queue c) (delete i (live c)) c)
| step_complete c t p s :
    pool c !! t = Some (TComplete p) ->
    DecideToScheduleCompleting p (throttler c, queue c) = Done tt s ->
    step c (upd t TIdle s (live c) c)
| step_queue c q :
    step c (mkConf (throttler c) q (pool c) (live c)).

Inductive steps (c0 : conf) : conf -> Prop :=
| steps_refl : steps c0 c0
| steps_step c c' : steps c0 c -> step c c' -> steps c0 c'.

(** Runs in which SetThrottle may be called at any time; [peak] is the largest
    target each priority has had. *)
Definition max2 (x y : two Z) : two Z := Two (Z.max (at0 x) (at0 y)) (Z.max (at1 x) (at1 y)).

Inductive runs (c0 : conf) : two Z -> conf -> Prop :=
| runs_refl : runs c0 (_throttle_targets (throttler c0)) c0
| runs_step peak c c' : runs c0 peak c -> step c c' -> runs c0 peak c'
| runs_set peak c p threshold thr :
    runs c0 peak c -> SetThrottle p threshold (throttler c) = Done tt thr ->
    runs c0 (max2 peak (_throttle_targets thr))
      (mkConf thr (queue c) (pool c) (live c)).

End Machine.
Arguments conf : clear implicits.

End Throttler.
