(* ===== verification/ThrottlerInv.v ===== *)
(** * Invariants of the Throttler

    The number of live jobs of a priority never exceeds its target, and a
    primary slot is never left unused. *)

From stdpp Require Import prelude gmap list.
From S2P Require Import Prelude Synchronization Job BaseMultiQueue MultiQueue.
From S2P Require Import MultiQueueSpec Throttler.

Module ThrottlerInv.
Import Throttler.

(** ** One side of the throttler *)

Definition tgt (p : N) (t : Throttler) : Z :=
  if (p =? 0)%N then at0 (_throttle_targets t) else at1 (_throttle_targets t).

Definition blk (p : N) (t : Throttler) : mutex :=
  if (p =? 0)%N then at0 (_throttle_blocks t) else at1 (_throttle_blocks t).

Definition cnt (p : N) (t : Throttler) : Z :=
  if (p =? 0)%N then at0 (_scheduled_counts t) else at1 (_scheduled_counts t).

Definition waiting (p : N) (t : Throttler) : bool :=
  if (p =? 0)%N then _primary_waiting t else _secondary_waiting t.

(** A decision issues at most one permit per side, only to a side that has none
    out and whose count is below its target. *)
Definition issued (p : N) (t t' : Throttler) : Prop :=
  (blk p t' = blk p t /\ waiting p t' = waiting p t) \/
  (waiting p t = false /\ (cnt p t < tgt p t)%Z /\ blk p t' = false /\ waiting p t' = true).

Record decided (t t' : Throttler) : Prop := mk_decided {
  de_targets : _throttle_targets t' = _throttle_targets t;
  de_counts : _scheduled_counts t' = _scheduled_counts t;
  de_issued : forall p, issued p t t';
  de_primary : (cnt 0 t < tgt 0 t)%Z -> waiting 0 t' = true
}.

Lemma adjust_primary_decided t b t1 :
  adjust_primary t = (b, t1) -> decided t t1 /\ _secondary_waiting t1 = _secondary_waiting t.
Proof.
  unfold adjust_primary.
  destruct (Z.ltb_spec (at0 (_scheduled_counts t)) (at0 (_throttle_targets t))),
    (_primary_waiting t) eqn:Ew; simpl; intros [= <- <-]; (split; [|done]); split; try done;
    try (intros p; by left); try (unfold cnt, tgt; simpl; lia).
  intros p. unfold issued, waiting, blk, cnt, tgt.
  destruct (p =? 0)%N; simpl; [right|left]; auto.
Qed.

Lemma unlock_secondary_decided t t1 b :
  decided t t1 -> _secondary_waiting t1 = _secondary_waiting t ->
  may_adjust_secondary b t1 = true -> decided t (unlock_secondary t1).
Proof.
  intros [D1 D2 D3 D4] Hs Hm. split; try done.
  intros p. specialize (D3 p). revert D3. unfold issued, waiting, blk, cnt, tgt.
  destruct (p =? 0)%N; simpl; [done|]. intros _. right.
  unfold may_adjust_secondary in Hm. rewrite D1, D2, Hs in Hm.
  destruct (Z.ltb_spec (at1 (_scheduled_counts t)) (at1 (_throttle_targets t))),
    (_secondary_waiting t); simpl in *; done.
Qed.

Section Decide.
Context {T S : Type} `{BaseMultiQueue T S}.

Lemma decide_after_decided t q t' q' :
  DecideToScheduleAfterScheduling_ (t, q) = Done tt (t', q') -> decided t t'.
Proof.
  unfold DecideToScheduleAfterScheduling_, on_queue, on_throttler, zoom. unM. simpl.
  destruct (mq_Size _ q) as [size q1| |]; simpl; [|done..].
  destruct (adjust_primary t) as [b t1] eqn:Ea.
  destruct (adjust_primary_decided _ _ _ Ea) as [Hd Hs]. simpl.
  repeat (case_match; simpl); intros; simplify_eq; try done;
    by eapply unlock_secondary_decided.
Qed.

Lemma decide_completing_decided p t q t' q' :
  DecideToScheduleCompleting p (t, q) = Done tt (t', q') -> decided t t'.
Proof.
  unfold DecideToScheduleCompleting, on_queue, on_throttler, zoom. unM. simpl.
  destruct (mq_Size _ q) as [size q1| |]; simpl; [|done..].
  destruct (adjust_primary t) as [b t1] eqn:Ea.
  destruct (adjust_primary_decided _ _ _ Ea) as [Hd Hs]. simpl.
  case_match eqn:Em; simpl; intros; simplify_eq; [|done].
  apply andb_true_iff in Em as [_ Em]. by eapply unlock_secondary_decided.
Qed.

(** Dequeue's decision first takes back the permit it came with. *)
Lemma decide_scheduling_decided p t q t' q' :
  DecideToScheduleAfterScheduling p (t, q) = Done tt (t', q') ->
  decided (if (p =? 0)%N then set_primary_waiting false t else set_secondary_waiting false t) t'.
Proof.
  unfold DecideToScheduleAfterScheduling. intros Hd.
  unfold on_throttler, zoom in Hd. unfold mbind at 1, M_bind at 1 in Hd. simpl in Hd.
  destruct (p =? 0)%N; by apply decide_after_decided in Hd.
Qed.

End Decide.

(** ** Who holds a permit *)

Definition holds (p : N) (k : tpc) : bool :=
  match k with TQueue p' | TCount p' _ | TDecide p' => (p' =? p)%N | _ => false end.

Definition uncounted (p : N) (k : tpc) : bool :=
  match k with TQueue p' | TCount p' _ => (p' =? p)%N | _ => false end.

Lemma uncounted_holds p k : uncounted p k = true -> holds p k = true.
Proof. by destruct k. Qed.

(** A thread that is about to decide. *)
Definition deciding (k : tpc) : bool :=
  match k with TDecide _ | TComplete _ => true | _ => false end.

Definition tpc_ok (k : tpc) : Prop :=
  match k with
  | TIdle => True
  | TLock p | TQueue p | TDecide p | TComplete p => (p < 2)%N
  | TCount p prio => (p < 2)%N /\ prio = p
  end.

(** [B] bounds the targets [p] has had. *)
Record side_ok (B : Z) (p : N) (t : Throttler) (pool : list tpc) (live : list N) : Prop :=
    mk_side_ok {
  so_permit : b2n (negb (blk p t)) + count (holds p) pool = b2n (waiting p t);
  so_bound : (cnt p t + Z.of_nat (b2n (negb (blk p t)) + count (uncounted p) pool) <= B)%Z;
  so_live : cnt p t = Z.of_nat (count (N.eqb p) live);
  so_target : (tgt p t <= B)%Z
}.

Section Invariant.
(** Bounds of the targets, and whether the targets are never set again. *)
Context (B : N -> Z) (fixed : Prop).

Record throttle_ok (t : Throttler) (pool : list tpc) (live : list N) : Prop := mk_throttle_ok {
  to_side : forall p, (p < 2)%N -> side_ok (B p) p t pool live;
  to_pc : forall i k, pool !! i = Some k -> tpc_ok k;
  to_live : forall i p, live !! i = Some p -> (p < 2)%N;
  to_primary : fixed -> (cnt 0 t < tgt 0 t)%Z -> waiting 0 t = true \/ 0 < count deciding pool
}.

Lemma pool_ok (pool : list tpc) t k k' :
  pool !! t = Some k -> (forall i k, pool !! i = Some k -> tpc_ok k) -> tpc_ok k' ->
  forall i k0, <[t := k']> pool !! i = Some k0 -> tpc_ok k0.
Proof.
  intros Ht Hok Hk' i k0. destruct (decide (t = i)) as [<-|Hne].
  - rewrite list_lookup_insert_eq by (by eapply lookup_lt_Some). by intros [= <-].
  - rewrite list_lookup_insert_ne by done. apply Hok.
Qed.

(** A step that moves the counters by what the two program points say. *)
Lemma side_move Bp p t t' (pool : list tpc) live live' i k k' :
  pool !! i = Some k -> side_ok Bp p t pool live -> tgt p t' = tgt p t ->
  b2n (negb (blk p t')) + b2n (holds p k') + b2n (waiting p t) =
    b2n (negb (blk p t)) + b2n (holds p k) + b2n (waiting p t') ->
  (cnt p t' + Z.of_nat (b2n (negb (blk p t')) + b2n (uncounted p k')) <=
    cnt p t + Z.of_nat (b2n (negb (blk p t)) + b2n (uncounted p k)))%Z ->
  (cnt p t' - Z.of_nat (count (N.eqb p) live') = cnt p t - Z.of_nat (count (N.eqb p) live))%Z ->
  side_ok Bp p t' (<[i := k']> pool) live'.
Proof.
  intros Hi [S1 S2 S3 S4] Et Hh Hu Hl.
  pose proof (count_step (holds p) pool i k k' Hi).
  pose proof (count_step (uncounted p) pool i k k' Hi). split; lia.
Qed.

Lemma deciding_move (pool : list tpc) i k k' :
  pool !! i = Some k -> deciding k = false ->
  0 < count deciding pool -> 0 < count deciding (<[i := k']> pool).
Proof.
  intros Hi Hk Hc. pose proof (count_step deciding pool i k k' Hi) as H.
  rewrite Hk in H. simpl in H. lia.
Qed.

(** ** The invariant is kept *)

Section Steps.
Context {T S : Type} `{BaseMultiQueue T S}.

(** A queue hands out jobs of the priority it was asked for. *)
Context (dequeue_priority : forall p q j q',
  mq_Dequeue p q = Done (Some j) q' -> priority j = p).

Definition conf_ok (c : conf S) : Prop :=
  throttle_ok (throttler c) (pool c) (live c).

Lemma side_cases (p : N) : (p < 2)%N -> p = 0%N \/ p = 1%N.
Proof. lia. Qed.

(** A move that leaves the throttler alone. *)
Lemma keep_move t (pool : list tpc) live i k k' :
  pool !! i = Some k -> throttle_ok t pool live -> tpc_ok k' ->
  (forall p, holds p k' = holds p k) ->
  (forall p, b2n (uncounted p k') <= b2n (uncounted p k)) ->
  deciding k = false -> throttle_ok t (<[i := k']> pool) live.
Proof.
  intros Hi [O1 O2 O3 O4] Hk' Hh Hu Hd. split; [| |done|].
  - intros p Hp. eapply (side_move (B p) p t t pool live live i k k' Hi (O1 p Hp)); [done| | |done].
    + rewrite Hh. lia.
    + specialize (Hu p). lia.
  - by apply (pool_ok pool i k).
  - intros Hf Hc. destruct (O4 Hf Hc) as [?|?]; [by left|right]. by apply (deciding_move _ _ k).
Qed.

Lemma lock_step t t' (pool : list tpc) live i p :
  pool !! i = Some (TLock p) -> throttle_ok t pool live ->
  lock_block p t = Done tt t' -> throttle_ok t' (<[i := TQueue p]> pool) live.
Proof.
  intros Hi [O1 O2 O3 O4] Hl. pose proof (O2 i _ Hi) as Hp. simpl in Hp.
  assert (blk p t = false /\ t' = set_blocks (set2 p true (_throttle_blocks t)) t) as [Eb ->].
  { unfold lock_block in Hl. destruct (side_cases p Hp) as [-> | ->]; unfold blk; simpl in *;
      case_match; by simplify_eq. }
  split; [| |done|].
  - intros p' Hp'. eapply (side_move (B p') p' t _ pool live live i _ _ Hi (O1 p' Hp'));
      destruct (side_cases p Hp) as [-> | ->], (side_cases p' Hp') as [-> | ->];
      unfold tgt, blk, waiting, cnt in *; simpl in *; try done; rewrite ?Eb; simpl; lia.
  - by apply (pool_ok pool i (TLock p)).
  - intros Hf Hc. destruct (O4 Hf Hc) as [Hw|?].
    + left. by destruct (side_cases p Hp) as [-> | ->].
    + right. by apply (deciding_move _ _ (TLock p)).
Qed.

Lemma count_step_ok t t' (pool : list tpc) live i p :
  pool !! i = Some (TCount p p) -> throttle_ok t pool live ->
  IncrementJobCount p t = Done tt t' ->
  throttle_ok t' (<[i := TDecide p]> pool) (p :: live).
Proof.
  intros Hi [O1 O2 O3 O4] Hc. destruct (O2 i _ Hi) as [Hp _].
  assert (t' = set_counts (set2 p (cnt p t + 1) (_scheduled_counts t)) t)%Z as ->.
  { unfold IncrementJobCount, count_op, Counter.Increment in Hc. revert Hc. unM.
    destruct (side_cases p Hp) as [-> | ->]; unfold cnt; simpl;
      repeat (case_match; simplify_eq/=); intros; by simplify_eq/=. }
  split.
  - intros p' Hp'. eapply (side_move (B p') p' t _ pool live _ i _ _ Hi (O1 p' Hp'));
      destruct (side_cases p Hp) as [-> | ->], (side_cases p' Hp') as [-> | ->];
      unfold tgt, blk, waiting, cnt; simpl; try done; lia.
  - by apply (pool_ok pool i (TCount p p)).
  - intros [|j] p'; simpl; [by intros [= <-]|apply O3].
  - intros _ _. right. pose proof (count_step deciding pool i _ (TDecide p) Hi) as Hs.
    simpl in Hs. lia.
Qed.

Lemma finish_step t t' (pool : list tpc) (live : list N) i j p :
  pool !! i = Some TIdle -> throttle_ok t pool live -> live !! j = Some p ->
  decrement p t = Done tt t' ->
  throttle_ok t' (<[i := TComplete p]> pool) (delete j live).
Proof.
  intros Hi [O1 O2 O3 O4] Hj Hc. pose proof (O3 j p Hj) as Hp.
  assert (t' = set_counts (set2 p (cnt p t - 1) (_scheduled_counts t)) t)%Z as ->.
  { unfold decrement, count_op, Counter.Decrement in Hc. revert Hc. unM.
    destruct (side_cases p Hp) as [-> | ->]; unfold cnt; simpl;
      repeat (case_match; simplify_eq/=); intros; by simplify_eq/=. }
  pose proof (fun f => count_delete f live j p Hj) as Hd.
  split.
  - intros p' Hp'. specialize (Hd (N.eqb p')).
    eapply (side_move (B p') p' t _ pool live _ i _ _ Hi (O1 p' Hp'));
      destruct (side_cases p Hp) as [-> | ->], (side_cases p' Hp') as [-> | ->];
      unfold tgt, blk, waiting, cnt in *; simpl in *; try done; lia.
  - by apply (pool_ok pool i TIdle).
  - intros j' p' H'. apply (O3 (if decide (j' < j) then j' else Datatypes.S j') p').
    destruct (decide (j' < j)).
    + by rewrite list_lookup_delete_lt in H'.
    + by rewrite list_lookup_delete_ge in H' by lia.
  - intros _ _. right. pose proof (count_step deciding pool i _ (TComplete p) Hi) as Hs.
    simpl in Hs. lia.
Qed.

(** The decision of a thread that gives its permit back. *)
Lemma decide_step t t0 t' pool live i p :
  pool !! i = Some (TDecide p) -> throttle_ok t pool live ->
  t0 = (if (p =? 0)%N then set_primary_waiting false t else set_secondary_waiting false t) ->
  decided t0 t' -> throttle_ok t' (<[i := TIdle]> pool) live.
Proof.
  intros Hi [O1 O2 O3 O4] E0 [D1 D2 D3 D4]. pose proof (O2 i _ Hi) as Hp. simpl in Hp.
  assert (forall p', tgt p' t0 = tgt p' t /\ cnt p' t0 = cnt p' t /\ blk p' t0 = blk p' t) as E.
  { intros p'. rewrite E0. by destruct (p =? 0)%N. }
  assert (forall p', (p' < 2)%N ->
    waiting p' t0 = (if (p =? p')%N then false else waiting p' t)) as Ew.
  { intros p' Hp'. rewrite E0.
    by destruct (side_cases p Hp) as [-> | ->], (side_cases p' Hp') as [-> | ->]. }
  split; [| |done|].
  - intros p' Hp'. destruct (E p') as (Et & Ec & Eb). specialize (Ew p' Hp').
    assert (tgt p' t' = tgt p' t /\ cnt p' t' = cnt p' t) as [Et' Ec'].
    { rewrite <-Et, <-Ec. unfold tgt, cnt. by rewrite D1, D2. }
    pose proof (O1 p' Hp') as [S1 S2 S3 S4].
    pose proof (count_le (holds p') _ _ _ Hi) as Hh. simpl in Hh.
    pose proof (count_step (holds p') pool i _ TIdle Hi) as C1.
    pose proof (count_step (uncounted p') pool i _ TIdle Hi) as C2. simpl in C1, C2.
    destruct (D3 p') as [[Db Dw]|(W & Hlt & Db & Dw)].
    + rewrite Eb in Db. rewrite Ew in Dw. split; rewrite ?Et', ?Ec', ?Db, ?Dw; try done; [|lia].
      destruct (p =? p')%N; simpl in *; [|lia].
      destruct (waiting p' t), (blk p' t); simpl in *; lia.
    + rewrite Ew in W. rewrite Et, Ec in Hlt.
      pose proof (count_mono (uncounted p') (holds p') (<[i := TIdle]> pool) (uncounted_holds p')).
      split; rewrite ?Et', ?Ec', ?Db, ?Dw; simpl; try done;
        destruct (p =? p')%N; simpl in *; try (rewrite W in S1; simpl in S1);
        destruct (waiting p' t), (blk p' t); simpl in *; try lia.
  - by apply (pool_ok pool i (TDecide p)).
  - intros _ Hc. left. apply D4. destruct (E 0%N) as (Et & Ec & _). rewrite Et, Ec.
    revert Hc. rewrite <-Et, <-Ec. unfold cnt, tgt. by rewrite D1, D2.
Qed.

(** The decision of a thread that destroyed a job. *)
Lemma complete_step t t' (pool : list tpc) live i p :
  pool !! i = Some (TComplete p) -> throttle_ok t pool live -> decided t t' ->
  throttle_ok t' (<[i := TIdle]> pool) live.
Proof.
  intros Hi [O1 O2 O3 O4] [D1 D2 D3 D4]. split; [| |done|].
  - intros p' Hp'. pose proof (O1 p' Hp') as [S1 S2 S3 S4].
    assert (tgt p' t' = tgt p' t /\ cnt p' t' = cnt p' t) as [Et Ec]
      by (unfold tgt, cnt; by rewrite D1, D2).
    pose proof (count_step (holds p') pool i _ TIdle Hi) as C1.
    pose proof (count_step (uncounted p') pool i _ TIdle Hi) as C2. simpl in C1, C2.
    pose proof (count_mono (uncounted p') (holds p') (<[i := TIdle]> pool) (uncounted_holds p')).
    destruct (D3 p') as [[Db Dw]|(W & Hlt & Db & Dw)];
      split; rewrite ?Et, ?Ec, ?Db, ?Dw; simpl; try done; try lia;
      rewrite W in S1; simpl in S1; destruct (blk p' t); simpl in *; lia.
  - by apply (pool_ok pool i (TComplete p)).
  - intros _ Hc. left. apply D4. revert Hc. unfold cnt, tgt. by rewrite D1, D2.
Qed.

Lemma step_ok c c' : conf_ok c -> step c c' -> conf_ok c'.
Proof using dequeue_priority.
  unfold conf_ok. intros Hok Hs. pose proof (to_pc _ _ _ Hok) as Hpc.
  destruct Hs as [c t p Hi Hp|c t p thr Hi Hl|c t p j q Hi Hq|c t p q Hi Hq
    |c t p prio thr Hi Hc|c t p [t' q'] Hi Hd|c t i p thr Hi Hj Hd|c t p [t' q'] Hi Hd|c q]; simpl.
  - by apply (keep_move _ _ _ _ TIdle).
  - by eapply lock_step.
  - rewrite (dequeue_priority _ _ _ _ Hq). specialize (Hpc t _ Hi). simpl in Hpc.
    by apply (keep_move _ _ _ _ (TQueue p)).
  - specialize (Hpc t _ Hi). simpl in Hpc.
    apply (keep_move _ _ _ _ (TQueue p)); try done. intros p'. simpl. lia.
  - destruct (Hpc t _ Hi) as [Hp ->]. by eapply count_step_ok.
  - apply decide_scheduling_decided in Hd. by eapply decide_step.
  - by eapply finish_step.
  - apply decide_completing_decided in Hd. by eapply complete_step.
  - done.
Qed.

Lemma steps_ok c0 c : conf_ok c0 -> steps c0 c -> conf_ok c.
Proof using dequeue_priority. intros H0. induction 1; eauto using step_ok. Qed.

End Steps.
End Invariant.

(** ** From the constructor *)

Lemma new_ok {S} max targets thr (q : S) n :
  new max targets = Some thr -> (0 <= at0 targets)%Z -> (0 <= at1 targets)%Z ->
  conf_ok (fun p => tgt p thr) True (mkConf thr q (replicate n TIdle) []).
Proof.
  unfold new. case_match; [|done]. intros [= <-] Hp0 Hp1.
  assert (forall f, f TIdle = false -> count f (replicate n TIdle) = 0) as Hz.
  { intros f Hf. apply count_zero. intros i x [-> _]%lookup_replicate_1. done. }
  split; simpl.
  - intros p Hp. split; simpl; rewrite ?Hz by done;
      destruct (side_cases p Hp) as [-> | ->]; unfold blk, waiting, cnt, tgt; simpl; try done;
      try (by destruct (_ =? 0)%Z);
      match goal with |- context [(?x =? 0)%Z] => destruct (Z.eqb_spec x 0) end; simpl; lia.
  - intros i k [-> _]%lookup_replicate_1. done.
  - intros i p H'. by rewrite lookup_nil in H'.
  - intros _ Hc. left. revert Hc. unfold cnt, tgt, waiting. simpl.
    destruct (Z.eqb_spec (at0 targets) 0); simpl; [lia|done].
Qed.

Definition at2 (x : two Z) (p : N) : Z := if (p =? 0)%N then at0 x else at1 x.

(** A larger bound, or giving up on the targets being fixed. *)
Lemma throttle_weaken (B B' : N -> Z) (fixed fixed' : Prop) t pool live :
  throttle_ok B fixed t pool live -> (forall p, (p < 2)%N -> (B p <= B' p)%Z) ->
  (fixed' -> fixed) -> throttle_ok B' fixed' t pool live.
Proof.
  intros [O1 O2 O3 O4] HB Hf. split; auto. intros p Hp. destruct (O1 p Hp) as [S1 S2 S3 S4].
  specialize (HB p Hp). split; done || lia.
Qed.

Lemma set_ok B t t' (pool : list tpc) live p z :
  throttle_ok B False t pool live -> SetThrottle p z t = Done tt t' ->
  throttle_ok (fun p => Z.max (B p) (at2 (_throttle_targets t') p)) False t' pool live.
Proof.
  intros [O1 O2 O3 O4] Hs. unfold SetThrottle in Hs. revert Hs. unM.
  destruct (get2 (_throttle_targets t) p); [|done]. destruct (targets_ok _); [|done].
  intros [= <-]. split; [|done..|by intros []].
  intros p' Hp'. destruct (O1 p' Hp') as [S1 S2 S3 S4]. split; try done.
  - change (cnt p' (set_targets _ t)) with (cnt p' t). change (blk p' (set_targets _ t)) with (blk p' t).
    lia.
  - unfold tgt, at2. simpl. destruct (p' =? 0)%N; lia.
Qed.

Section Bounds.
Context {T S : Type} `{BaseMultiQueue T S}.
Context (dequeue_priority : forall p q j q',
  mq_Dequeue p q = Done (Some j) q' -> priority j = p).

Lemma runs_ok max targets thr q n peak c :
  new max targets = Some thr -> (0 <= at0 targets)%Z -> (0 <= at1 targets)%Z ->
  runs (mkConf thr q (replicate n TIdle) []) peak c -> conf_ok (at2 peak) False c.
Proof using dequeue_priority.
  intros Hn Hp0 Hp1. induction 1 as [|peak c c' _ IH Hs|peak c p z t' _ IH Hs].
  - eapply throttle_weaken; [exact (new_ok _ _ _ q n Hn Hp0 Hp1)| |done]. intros p _. done.
  - by eapply step_ok.
  - eapply throttle_weaken; [exact (set_ok _ _ _ _ _ _ _ IH Hs)| |done].
    intros p' _. unfold at2, max2. simpl. destruct (p' =? 0)%N; simpl; lia.
Qed.

(** C16. Throttling: with any number of workers per priority, whatever happens
    to the queue meanwhile and whenever SetThrottle is called, the number of live
    jobs of a priority never exceeds the largest target the priority has had,
    given nonnegative targets at the start. *)
Theorem throttle_bound max targets thr q n peak c p :
  new max targets = Some thr -> (0 <= at0 targets)%Z -> (0 <= at1 targets)%Z ->
  runs (mkConf thr q (replicate n TIdle) []) peak c -> (p < kThrottlerPriorities)%N ->
  (Z.of_nat (count (N.eqb p) (live c)) <= at2 peak p)%Z.
Proof using dequeue_priority.
  intros Hn Hp0 Hp1 Hs Hp. destruct (runs_ok _ _ _ _ _ _ _ Hn Hp0 Hp1 Hs) as [O1 _ _ _].
  destruct (O1 p Hp) as [_ S2 S3 _]. lia.
Qed.

(** C28. No primary slot is wasted while the targets stay as constructed: with
    nonnegative targets and no SetThrottle since the construction, when nobody is
    about to decide and fewer primary jobs are live than the target allows, a
    permit for the primary priority is out: the block is open, or a worker is
    already inside waiting for the multi-queue.  (After a SetThrottle that
    raises a target this fails: [raise_from_zero_stays_blocked].) *)
Theorem primary_not_starved max targets thr q n c :
  new max targets = Some thr -> (0 <= at0 targets)%Z -> (0 <= at1 targets)%Z ->
  steps (mkConf thr q (replicate n TIdle) []) c -> count deciding (pool c) = 0 ->
  (Z.of_nat (count (N.eqb kPrimaryPriority) (live c)) < tgt kPrimaryPriority (throttler c))%Z ->
  blk kPrimaryPriority (throttler c) = false \/ 0 < count (holds kPrimaryPriority) (pool c).
Proof using dequeue_priority.
  intros Hn Hp0 Hp1 Hs Hd Hlt.
  pose proof (steps_ok _ _ dequeue_priority _ _ (new_ok _ _ _ q n Hn Hp0 Hp1) Hs) as [O1 _ _ O4].
  destruct (O1 kPrimaryPriority ltac:(done)) as [S1 S2 S3 _]. rewrite <-S3 in Hlt.
  unfold kPrimaryPriority in *. destruct (O4 I Hlt) as [Hw|?]; [|lia]. rewrite Hw in S1.
  destruct (blk 0 (throttler c)); simpl in S1; [right; lia|by left].
Qed.

End Bounds.

(** ** MultiQueue is such a queue *)

Lemma multiqueue_dequeue_priority {T} p (q : @MQ.MultiQueue T) j q' :
  MQ.Dequeue p q = Done (Some j) q' -> priority j = p.
Proof.
  unfold MQ.Dequeue. intros H. apply bind_inv in H as (? & s1 & _ & H).
  apply bind_inv in H as (? & s2 & _ & H). apply bind_inv in H as (g & s3 & _ & H).
  destruct g as [[| |]|]; try done.
  apply bind_inv in H as (jid & s4 & _ & H). apply bind_inv in H as (? & s5 & _ & H).
  apply bind_inv in H as (j' & s6 & H & [= -> _]).
  unfold MQ.take_job in H. revert H. unM. unfold MQ.map_take.
  destruct (_ !! jid) as [l|]; [|done].
  destruct (find_first _ l) as [[j0 it]|] eqn:E; [|done]. intros [= <- _].
  apply find_first_Some in E as [_ E]. by apply N.eqb_eq.
Qed.

(** ** Executions *)

Definition tjob (id prio : N) : Job unit := mkJob id prio 0 0 tt.

Definition out_or {S A} (s : S) (o : outcome S A) : S := default s (out_state o).

(** A queue of two priorities with one primary job. *)
Definition one_primary : @MQ.MultiQueue unit :=
  out_or (MQ.new 1) (MQ.Enqueue (Some (tjob 1 0)) (MQ.new 1)).

Definition both_one : Throttler := mkThrottler (Two 1 1)%Z (Two false false) (Two 0 0)%Z true true.

Import MQSpec.

(** One worker takes the job and decides: no further primary permit. *)
Definition w0 : conf (@MQ.MultiQueue unit) := mkConf both_one one_primary [TIdle] [].
Definition w1 := upd 0 (TLock 0) (throttler w0, queue w0) (live w0) w0.
Definition w2 := upd 0 (TQueue 0)
  (out_or (throttler w1) (lock_block 0 (throttler w1)), queue w1) (live w1) w1.
Definition w3 := upd 0 (TCount 0 0)
  (throttler w2, out_or (queue w2) (MQ.Dequeue 0 (queue w2))) (live w2) w2.
Definition w4 := upd 0 (TDecide 0)
  (out_or (throttler w3) (IncrementJobCount 0 (throttler w3)), queue w3) (0%N :: live w3) w3.
Definition after_one := upd 0 TIdle
  (out_or (throttler w4, queue w4)
     (DecideToScheduleAfterScheduling (T := unit) 0 (throttler w4, queue w4))) (live w4) w4.

Lemma w2_reached : steps (T := unit) w0 w2.
Proof.
  apply steps_step with w1; [apply steps_step with w0; [apply steps_refl|]|].
  - by apply step_call.
  - by apply step_lock.
Qed.

Lemma after_one_reached : steps (T := unit) w0 after_one.
Proof.
  apply steps_step with w4; [apply steps_step with w3; [apply steps_step with w2;
    [exact w2_reached|]|]|].
  - by apply (step_job w2 0 0 (tjob 1 0)); vm_compute.
  - by apply (step_count w3 0 0 0).
  - by apply (step_decide w4 0 0); vm_compute.
Qed.

Lemma steps_runs {T S} `{BaseMultiQueue T S} (c0 c : conf S) :
  steps (T := T) c0 c -> runs (T := T) c0 (_throttle_targets (throttler c0)) c.
Proof. induction 1 as [|c c' _ IH Hs]; [apply runs_refl|by eapply runs_step]. Qed.

(** Then the primary target is raised to 3. *)
Definition raised : Throttler :=
  out_or (throttler after_one) (SetThrottle 0 3 (throttler after_one)).

Lemma throttle_bound_witness :
  live after_one = [0%N] /\ (Z.of_nat (count (N.eqb 0) (live after_one)) <= 3)%Z.
Proof.
  split; [reflexivity|].
  apply (@throttle_bound unit _ (multiqueue_ops unit) multiqueue_dequeue_priority 1 (Two 1 1)%Z both_one one_primary 1
    (max2 (Two 1 1)%Z (_throttle_targets raised))
    (mkConf raised (queue after_one) (pool after_one) (live after_one)) 0);
    [reflexivity|discriminate|discriminate| |reflexivity].
  apply (runs_set (T := unit) _ (Two 1 1)%Z after_one 0 3); [|reflexivity].
  change (Two 1 1)%Z with (_throttle_targets (throttler w0)).
  apply steps_runs. exact after_one_reached.
Defined.

Lemma primary_not_starved_witness :
  blk 0 (throttler w2) = false \/ 0 < count (holds 0) (pool w2).
Proof.
  apply (@primary_not_starved unit _ (multiqueue_ops unit) multiqueue_dequeue_priority 1
    (Two 1 1)%Z both_one one_primary 1 w2);
    [reflexivity|discriminate|discriminate|exact w2_reached|reflexivity|reflexivity].
Defined.

(** Primary throttled to 0: the primary worker waits at its block, the secondary
    worker waits for a job. *)
Definition z0 : conf (@MQ.MultiQueue unit) :=
  mkConf (mkThrottler (Two 0 1)%Z (Two true false) (Two 0 0)%Z false true) (MQ.new 1)
    [TIdle; TIdle] [].
Definition z1 := upd 0 (TLock 0) (throttler z0, queue z0) (live z0) z0.
Definition z2 := upd 1 (TLock 1) (throttler z1, queue z1) (live z1) z1.
Definition z3 := upd 1 (TQueue 1)
  (out_or (throttler z2) (lock_block 1 (throttler z2)), queue z2) (live z2) z2.
Definition z4 := mkConf (throttler z3) one_primary (pool z3) (live z3).

Lemma z4_reached : steps (T := unit) z0 z4.
Proof.
  apply steps_step with z3; [apply steps_step with z2; [apply steps_step with z1;
    [apply steps_step with z0; [apply steps_refl|]|]|]|].
  - by apply step_call.
  - by apply step_call.
  - by apply step_lock.
  - by apply step_queue.
Qed.

(** Raising a target from 0 has no effect of its own: SetThrottle neither
    opens the block nor decides again.  Here a primary job is queued, the
    primary target has been raised from 0 to 5 and no primary job is live, yet
    the primary worker stays blocked and the only other worker waits for a
    secondary job. *)
Theorem raise_from_zero_stays_blocked :
  exists (c : conf (@MQ.MultiQueue unit)) thr,
    new 1 (Two 0 1)%Z = Some (throttler z0) /\ steps (T := unit) z0 c /\
    SetThrottle 0 5 (throttler c) = Done tt thr /\ tgt 0 thr = 5%Z /\ live c = [] /\
    MQ.Size 0 (queue c) = Done 1%N (queue c) /\
    pool c = [TLock 0; TQueue 1] /\ lock_block 0 thr = Wait thr /\
    exists q', MQ.Dequeue 1 (queue c) = Wait q'.
Proof.
  exists z4. eexists. split; [reflexivity|]. split; [exact z4_reached|].
  split; [vm_compute; reflexivity|]. repeat split; try reflexivity.
  eexists. vm_compute. reflexivity.
Qed.

End ThrottlerInv.
