(* ===== verification/ThrottlerStats.v ===== *)
(** * The Throttler's statistics (common/dstage/throttler.hh)

    Every destroyed job leaves a latency and a size; the updater thread of
    RunEveryT (ThrottlerTimer.v) hands them over in batches. *)

From stdpp Require Import prelude gmap list.
From S2P Require Import Prelude Throttler.

Module ThrottlerStats.
Import Throttler.

Record Samples := mkSamples {
  _primary_latencies : list Z;
  _primary_sizes : list Z;
  _secondary_latencies : list Z;
  _secondary_sizes : list Z
}.

(** [Throttler<T>::Stats]; the int targets are stored as unsigned. *)
Record Stats := mkStats {
  primary_throttle : N;
  primary_latencies : list Z;
  primary_sizes : list Z;
  secondary_priority : N;
  secondary_latencies : list Z;
  secondary_sizes : list Z
}.

(** ThrottleJob::ReportThroughput on [total_completed]. *)
Definition ReportThroughput (total_completed new_units_completed : N) : N :=
  u32_add total_completed new_units_completed.

(** The unsigned total is pushed into a vector of int. *)
Definition AddStat (prio total_completed : N) (lat : Z) (s : Samples) : Samples :=
  if (prio =? 0)%N then
    mkSamples (_primary_latencies s ++ [lat])
      (_primary_sizes s ++ [i32 (Z.of_N total_completed)])
      (_secondary_latencies s) (_secondary_sizes s)
  else
    mkSamples (_primary_latencies s) (_primary_sizes s)
      (_secondary_latencies s ++ [lat])
      (_secondary_sizes s ++ [i32 (Z.of_N total_completed)]).

(** The clearing block at the start of Runner, and the one after a batch. *)
Definition clear (s : Samples) : Samples := mkSamples [] [] [] [].

(** One pass of Runner's loop, under [_updater_lock]. *)
Definition collect (targets : two Z) (s : Samples) : Stats * Samples :=
  (mkStats (u32_of_Z (at0 targets)) (_primary_latencies s) (_primary_sizes s)
     (u32_of_Z (at1 targets)) (_secondary_latencies s) (_secondary_sizes s),
   clear s).

(** ** Samples per priority *)

(** A sample that was added. *)
Inductive event : Type := Add (prio total_completed : N) (lat : Z).

(** The latency and size samples of one side, in order. *)
Definition added (primary : bool) (l : list event) : list (Z * Z) :=
  omap (fun e => match e with
                 | Add p n lat =>
                     if Bool.eqb (p =? 0)%N primary then Some (lat, i32 (Z.of_N n)) else None
                 end) l.

Definition held (primary : bool) (s : Samples) : list (Z * Z) :=
  if primary then zip (_primary_latencies s) (_primary_sizes s)
  else zip (_secondary_latencies s) (_secondary_sizes s).

Definition batch (primary : bool) (s : Stats) : list (Z * Z) :=
  if primary then zip (primary_latencies s) (primary_sizes s)
  else zip (secondary_latencies s) (secondary_sizes s).

Definition paired (s : Samples) : Prop :=
  length (_primary_latencies s) = length (_primary_sizes s) /\
  length (_secondary_latencies s) = length (_secondary_sizes s).

Definition paired_stats (s : Stats) : Prop :=
  length (primary_latencies s) = length (primary_sizes s) /\
  length (secondary_latencies s) = length (secondary_sizes s).

Lemma zip_snoc {A B} (l : list A) (k : list B) a b :
  length l = length k -> zip (l ++ [a]) (k ++ [b]) = zip l k ++ [(a, b)].
Proof. intros H. by rewrite zip_with_app. Qed.

Lemma AddStat_paired p n lat s : paired s -> paired (AddStat p n lat s).
Proof.
  intros [H1 H2]. unfold AddStat. destruct (p =? 0)%N; split; simpl;
    rewrite ?length_app; simpl; lia.
Qed.

Lemma held_AddStat b p n lat s :
  paired s ->
  held b (AddStat p n lat s) =
    held b s ++ (if Bool.eqb (p =? 0)%N b then [(lat, i32 (Z.of_N n))] else []).
Proof.
  intros [H1 H2]. unfold AddStat, held.
  destruct (p =? 0)%N, b; simpl; rewrite ?app_nil_r, ?zip_snoc; done.
Qed.

End ThrottlerStats.
