(* ===== verification/ThrottleJobs.v ===== *)
(** * Throttler<T>::ThrottleJob (common/dstage/throttler.h, throttler.hh)

    A ThrottleJob is a job that is counted by its throttler from its
    constructor to its destructor, gathers what ReportThroughput adds, and
    leaves one sample behind.  Constructor and destructor are sequences of the
    critical sections of the throttler; [exec] runs any interleaving of the
    critical sections of any number of jobs, with the decisions of other
    threads, SetThrottle and changes of the queue in between. *)

From stdpp Require Import prelude gmap list.
From S2P Require Import Prelude Synchronization Job BaseMultiQueue MultiQueue.
From S2P Require Import MultiQueueSpec Throttler ThrottlerInv ThrottlerStats.

Module ThrottleJobs.
Import Throttler ThrottlerInv ThrottlerStats.

(** Where a job is in its life: [Alive] from the end of the constructor,
    [Uncounted] and [Decided] inside the destructor, [Dead] after it. *)
Inductive phase : Type := Alive | Uncounted | Decided | Dead.

#[export] Instance phase_eq_dec : EqDecision phase.
Proof. solve_decision. Defined.

Section Jobs.
Context {T S : Type} `{BaseMultiQueue T S}.

Record ThrottleJob := mkThrottleJob {
  tj_job : Job T;
  total_completed : N;
  tj_phase : phase
}.

(** The throttler with its queue and samples; a pointer to a ThrottleJob is
    its index in [jobs], the order of construction. *)
Record world := mkWorld {
  thr : Throttler;
  que : S;
  samples : Samples;
  jobs : list ThrottleJob
}.

Definition set_thr (t : Throttler) (w : world) : world :=
  mkWorld t (que w) (samples w) (jobs w).

Definition set_que (q : S) (w : world) : world :=
  mkWorld (thr w) q (samples w) (jobs w).

Definition set_jobs (l : list ThrottleJob) (w : world) : world :=
  mkWorld (thr w) (que w) (samples w) l.

Definition set_job (ref : nat) (tj : ThrottleJob) (w : world) : world :=
  set_jobs (<[ref := tj]> (jobs w)) w.

Definition on_thr {A} (m : M Throttler A) : M world A := zoom thr set_thr m.

Definition on_both {A} (m : M (Throttler * S) A) : M world A :=
  zoom (fun w => (thr w, que w)) (fun x w => set_que x.2 (set_thr x.1 w)) m.

(** The job behind a pointer, in the phase its user relies on. *)
Definition in_phase (ph : phase) (ref : nat) : M world ThrottleJob :=
  w ← get;
  tj ← need UseAfterFree (jobs w !! ref);
  if decide (tj_phase tj = ph) then mret tj else crash UseAfterFree.

Definition to_phase (ph : phase) (ref : nat) (tj : ThrottleJob) : M world unit :=
  modify (set_job ref (mkThrottleJob (tj_job tj) (total_completed tj) ph)).

(** ** The constructor

    The parts of [job_in] are moved into the new object. *)
Definition ThrottleJob_new (job_in : Job T) : M world nat :=
  w ← get;
  _ ← on_thr (IncrementJobCount (priority job_in));
  _ ← modify (fun w => set_jobs
        (jobs w ++ [mkThrottleJob
           (mkJob (job_id job_in) (priority job_in) (duplication job_in)
              (start_time job_in) (job_data job_in)) 0 Alive]) w);
  mret (length (jobs w)).

(** ** ReportThroughput *)
Definition Report (ref : nat) (new_units_completed : N) : M world unit :=
  tj ← in_phase Alive ref;
  modify (set_job ref (mkThrottleJob (tj_job tj)
    (ReportThroughput (total_completed tj) new_units_completed) Alive)).

(** ** The destructor

    DecrementJobCount is the counter's critical section and then the decision;
    AddStat follows.  [finish_time] is what the clock returns in between. *)
Definition drop_count (ref : nat) : M world unit :=
  tj ← in_phase Alive ref;
  _ ← on_thr (decrement (priority (tj_job tj)));
  to_phase Uncounted ref tj.

Definition drop_decide (ref : nat) : M world unit :=
  tj ← in_phase Uncounted ref;
  _ ← on_both (DecideToScheduleCompleting (priority (tj_job tj)));
  to_phase Decided ref tj.

(** [duration_cast<milliseconds>(finish_time - start_time)], in nanoseconds. *)
Definition latency (finish_time : Z) (j : Job T) : Z :=
  Z.quot (finish_time - start_time j) 1000000.

Definition drop_sample (ref : nat) (finish_time : Z) : M world unit :=
  tj ← in_phase Decided ref;
  _ ← modify (fun w => mkWorld (thr w) (que w)
        (AddStat (priority (tj_job tj)) (total_completed tj)
           (latency finish_time (tj_job tj)) (samples w)) (jobs w));
  to_phase Dead ref tj.

Definition ThrottleJob_drop (ref : nat) (finish_time : Z) : M world unit :=
  _ ← drop_count ref;
  _ ← drop_decide ref;
  drop_sample ref finish_time.

(** ** Interleavings *)

Inductive op : Type :=
| New (job_in : Job T)
| Reports (ref : nat) (n : N)
| DropCount (ref : nat)
| DropDecide (ref : nat)
| DropSample (ref : nat) (finish_time : Z)
| Permit (prio : N)
| Scheduled (prio : N)
| Retarget (prio : N) (threshold : Z)
| Queue (q : S).

Definition exec_op (o : op) : M world unit :=
  match o with
  | New j => _ ← ThrottleJob_new j; mret tt
  | Reports ref n => Report ref n
  | DropCount ref => drop_count ref
  | DropDecide ref => drop_decide ref
  | DropSample ref t => drop_sample ref t
  | Permit p => on_thr (lock_block p)
  | Scheduled p => on_both (DecideToScheduleAfterScheduling p)
  | Retarget p threshold => on_thr (SetThrottle p threshold)
  | Queue q => modify (set_que q)
  end.

Fixpoint exec (l : list op) : M world unit :=
  match l with
  | [] => mret tt
  | o :: l' => _ ← exec_op o; exec l'
  end.

Definition start (t : Throttler) (q : S) : world :=
  mkWorld t q (mkSamples [] [] [] []) [].

(** ** What a history promises *)

Definition created (l : list op) : list (Job T) :=
  omap (fun o => match o with New j => Some j | _ => None end) l.

Definition reported (ref : nat) (l : list op) : N :=
  foldr (fun o acc => match o with
                      | Reports r n => (if decide (r = ref) then n else 0) + acc
                      | _ => acc
                      end)%N 0%N l.

Definition finished (l : list op) : list (nat * Z) :=
  omap (fun o => match o with DropSample r t => Some (r, t) | _ => None end) l.

(** The sample a destroyed job owes to one side. *)
Definition owed (primary : bool) (l : list op) (x : nat * Z) : option (Z * Z) :=
  j ← created l !! x.1;
  if Bool.eqb (priority j =? 0)%N primary
  then Some (latency x.2 j, i32 (Z.of_N (reported x.1 l mod 2 ^ 32)%N)) else None.

Definition alive_at (p : N) (tj : ThrottleJob) : bool :=
  bool_decide (tj_phase tj = Alive) && (priority (tj_job tj) =? p)%N.

(** ** The account: jobs, counts and samples against the history *)

Record account (l : list op) (w : world) : Prop := mk_account {
  ac_count : forall p, (p < 2)%N ->
    cnt p (thr w) = Z.of_nat (count (alive_at p) (jobs w));
  ac_prio : forall i tj, jobs w !! i = Some tj -> (priority (tj_job tj) < 2)%N;
  ac_created : tj_job <$> jobs w = created l;
  ac_total : forall i tj, jobs w !! i = Some tj ->
    total_completed tj = (reported i l mod 2 ^ 32)%N;
  ac_fresh : forall i, length (jobs w) <= i -> reported i l = 0%N;
  ac_paired : paired (samples w);
  ac_held : forall b, held b (samples w) = omap (owed b l) (finished l);
  ac_dead : forall i t, (i, t) ∈ finished l ->
    exists tj, jobs w !! i = Some tj /\ tj_phase tj = Dead;
  ac_once : NoDup (finished l).*1
}.

Lemma created_app l l' : created (l ++ l') = created l ++ created l'.
Proof. apply omap_app. Qed.

Lemma finished_app l l' : finished (l ++ l') = finished l ++ finished l'.
Proof. apply omap_app. Qed.

Lemma reported_app i l l' : reported i (l ++ l') = (reported i l + reported i l')%N.
Proof. induction l as [|o l IH]; [done|]. simpl. rewrite IH. destruct o; lia. Qed.

Lemma count_step_cnt (d : Z) (m : M Counter.Counter Z) p t t' :
  (forall c v c', m c = Done v c' -> Counter._count c' = Counter._count c + d)%Z ->
  count_op m p t = Done tt t' ->
  (p < 2)%N /\ forall q, (q < 2)%N -> cnt q t' = (cnt q t + if (p =? q)%N then d else 0)%Z.
Proof.
  intros Hm. unfold count_op, get2. unM. simpl.
  destruct (N.eqb_spec p 0) as [->|H0]; [|destruct (N.eqb_spec p 1) as [->|H1]; [|done]];
    destruct (m _) as [v c'| |] eqn:E; try done; apply Hm in E; simpl in E;
    intros [= <-]; (split; [lia|]); intros q Hq; unfold cnt; simpl;
    assert (q = 0 \/ q = 1)%N as [->| ->] by lia; simpl; lia.
Qed.

Lemma increment_cnt p t t' :
  IncrementJobCount p t = Done tt t' ->
  (p < 2)%N /\ forall q, (q < 2)%N -> cnt q t' = (cnt q t + if (p =? q)%N then 1 else 0)%Z.
Proof.
  apply count_step_cnt. intros c v c'. unfold Counter.Increment. case_match; [done|].
  by intros [= <- <-].
Qed.

Lemma decrement_cnt p t t' :
  decrement p t = Done tt t' ->
  (p < 2)%N /\ forall q, (q < 2)%N -> cnt q t' = (cnt q t + if (p =? q)%N then -1 else 0)%Z.
Proof.
  apply count_step_cnt. intros c v c'. unfold Counter.Decrement. case_match; [done|].
  by intros [= <- <-].
Qed.

Lemma in_phase_inv ph ref w tj w' :
  in_phase ph ref w = Done tj w' -> w' = w /\ jobs w !! ref = Some tj /\ tj_phase tj = ph.
Proof.
  unfold in_phase. unM. destruct (jobs w !! ref) as [x|]; [|done].
  case_decide; [|done]. by intros [= -> ->].
Qed.

Lemma on_thr_inv {A} (m : M Throttler A) w a w' :
  on_thr m w = Done a w' -> exists t, m (thr w) = Done a t /\ w' = set_thr t w.
Proof. unfold on_thr, zoom. destruct (m (thr w)); [|done..]. intros [= <- <-]. eauto. Qed.

Lemma on_both_inv {A} (m : M (Throttler * S) A) w a w' :
  on_both m w = Done a w' ->
  exists t q, m (thr w, que w) = Done a (t, q) /\ w' = set_que q (set_thr t w).
Proof.
  unfold on_both, zoom. destruct (m (thr w, que w)) as [a' [t q]| |]; [|done..].
  intros [= <- <-]. eauto.
Qed.

Lemma omap_ext_in {A B} (f g : A -> option B) (l : list A) :
  (forall x, x ∈ l -> f x = g x) -> omap f l = omap g l.
Proof.
  induction l as [|x l IH]; intros Hfg; [done|]. simpl.
  rewrite (Hfg x) by apply list_elem_of_here.
  assert (omap f l = omap g l) as E.
  { apply IH. intros y Hy. apply Hfg. by apply list_elem_of_further. }
  destruct (g x); [f_equal|]; exact E.
Qed.

(** What a destroyed job owes does not change any more. *)
Lemma owed_keep b l w o x :
  account l w -> x ∈ finished l -> reported x.1 [o] = 0%N ->
  owed b (l ++ [o]) x = owed b l x.
Proof.
  intros HA Hx Hr. destruct x as [i t]. destruct (ac_dead _ _ HA i t Hx) as (tj & Hi & _).
  unfold owed. rewrite created_app, reported_app. simpl in *. rewrite Hr, N.add_0_r.
  rewrite lookup_app_l; [done|]. rewrite <-(ac_created _ _ HA), length_fmap.
  by eapply lookup_lt_Some.
Qed.

(** ** Each critical section keeps the account *)

(** Something happened that is not part of any job's history. *)
Lemma account_silent o l w t q :
  created [o] = [] -> finished [o] = [] -> (forall i, reported i [o] = 0%N) ->
  _scheduled_counts t = _scheduled_counts (thr w) ->
  account l w -> account (l ++ [o]) (mkWorld t q (samples w) (jobs w)).
Proof.
  intros Hc Hf Hr Ht HA. pose proof HA as [A1 A2 A3 A4 A5 A6 A7 A8 A9].
  split; simpl; rewrite ?created_app, ?finished_app, ?Hc, ?Hf, ?app_nil_r; try done.
  - intros p Hp. rewrite <-A1 by done. unfold cnt. by rewrite Ht.
  - intros i tj Hi. rewrite reported_app, Hr, N.add_0_r. by apply A4.
  - intros i Hi. rewrite reported_app, Hr, N.add_0_r. by apply A5.
  - intros b. rewrite A7. apply omap_ext_in. intros x Hx. symmetry. by eapply owed_keep.
Qed.

(** A new job is alive, counted and has nothing reported. *)
Lemma account_new j l w t :
  account l w -> (priority j < 2)%N ->
  (forall q, (q < 2)%N ->
    cnt q t = (cnt q (thr w) + if (priority j =? q)%N then 1 else 0)%Z) ->
  account (l ++ [New j])
    (mkWorld t (que w) (samples w) (jobs w ++ [mkThrottleJob j 0 Alive])).
Proof.
  intros HA Hp Ht. pose proof HA as [A1 A2 A3 A4 A5 A6 A7 A8 A9].
  assert (Hr : forall i, reported i (l ++ [New j]) = reported i l).
  { intros i. rewrite reported_app. simpl. lia. }
  split; simpl; rewrite ?created_app, ?finished_app, ?app_nil_r; try done.
  - intros p Hp'. rewrite Ht, A1, count_app by done. simpl. unfold alive_at at 3. simpl.
    case_match; lia.
  - intros i tj [Hi|[_ Hi]]%lookup_app_Some; [by eapply A2|].
    by apply list_lookup_singleton_Some in Hi as [_ <-].
  - by rewrite fmap_app, A3.
  - intros i tj [Hi|[Hl Hi]]%lookup_app_Some; rewrite Hr; [by apply A4|].
    apply list_lookup_singleton_Some in Hi as [_ <-]. by rewrite A5.
  - intros i Hi. rewrite length_app in Hi. rewrite Hr. apply A5. lia.
  - intros b. rewrite A7. apply omap_ext_in. intros x Hx. symmetry. by eapply owed_keep.
  - intros i t' Hi. destruct (A8 i t' Hi) as (tj & Hj & Hd). exists tj.
    split; [|done]. by apply lookup_app_l_Some.
Qed.

(** An object that is not dead is updated in place: its job stays, its phase
    and its total may change. *)
Lemma account_update o l w ref tj tj' t q :
  account l w -> jobs w !! ref = Some tj -> tj_phase tj <> Dead ->
  tj_job tj' = tj_job tj -> created [o] = [] -> finished [o] = [] ->
  (forall i, i <> ref -> reported i [o] = 0%N) ->
  total_completed tj' = ((total_completed tj + reported ref [o]) mod 2 ^ 32)%N ->
  (forall p, (p < 2)%N ->
    cnt p t + Z.of_nat (b2n (alive_at p tj)) =
      cnt p (thr w) + Z.of_nat (b2n (alive_at p tj')))%Z ->
  account (l ++ [o]) (mkWorld t q (samples w) (<[ref := tj']> (jobs w))).
Proof.
  intros HA Hj Hnd Hjob Hc Hf Hr Htot Hcnt. pose proof HA as [A1 A2 A3 A4 A5 A6 A7 A8 A9].
  split; simpl; rewrite ?created_app, ?finished_app, ?Hc, ?Hf, ?app_nil_r; try done.
  - intros p Hp. specialize (Hcnt p Hp). rewrite A1 in Hcnt by done.
    pose proof (count_step (alive_at p) _ _ _ tj' Hj). lia.
  - intros i x [(<- & <- & _)|[Hne Hi]]%list_lookup_insert_Some; [|by eapply A2].
    rewrite Hjob. by eapply A2.
  - rewrite list_fmap_insert, Hjob, <-A3. apply list_insert_id.
    by rewrite list_lookup_fmap, Hj.
  - intros i x [(<- & <- & _)|[Hne Hi]]%list_lookup_insert_Some; rewrite reported_app.
    + rewrite Htot, (A4 _ _ Hj), N.Div0.add_mod_idemp_l. done.
    + rewrite (Hr i) by done. rewrite N.add_0_r. by apply A4.
  - intros i Hi. rewrite length_insert in Hi. rewrite reported_app, (A5 i Hi).
    apply Hr. intros ->. apply lookup_lt_Some in Hj. lia.
  - intros b. rewrite A7. apply omap_ext_in. intros x Hx. symmetry. eapply owed_keep; [done..|].
    apply Hr. intros Hx1. destruct x as [i t']. simpl in *. subst i.
    destruct (A8 _ _ Hx) as (y & Hy & Hd). by simplify_eq.
  - intros i t' Hi. destruct (A8 i t' Hi) as (y & Hy & Hd). exists y. split; [|done].
    apply list_lookup_insert_Some. right. split; [|done]. intros ->. by simplify_eq.
Qed.

(** The destructor's last section hands over the sample. *)
Lemma account_sample ref tj t l w :
  account l w -> jobs w !! ref = Some tj -> tj_phase tj = Decided ->
  account (l ++ [DropSample ref t])
    (mkWorld (thr w) (que w)
       (AddStat (priority (tj_job tj)) (total_completed tj) (latency t (tj_job tj)) (samples w))
       (<[ref := mkThrottleJob (tj_job tj) (total_completed tj) Dead]> (jobs w))).
Proof.
  intros HA Hj Hph. pose proof HA as [A1 A2 A3 A4 A5 A6 A7 A8 A9].
  assert (Hr : forall i, reported i (l ++ [DropSample ref t]) = reported i l).
  { intros i. rewrite reported_app. simpl. lia. }
  split; simpl; rewrite ?created_app, ?finished_app; simpl; rewrite ?app_nil_r; try done.
  - intros p Hp. rewrite A1 by done.
    pose proof (count_step (alive_at p) _ _ _
      (mkThrottleJob (tj_job tj) (total_completed tj) Dead) Hj) as E.
    unfold alive_at at 2 4 in E. rewrite Hph in E. simpl in E. lia.
  - intros i x [(<- & <- & _)|[Hne Hi]]%list_lookup_insert_Some; simpl; eauto.
  - rewrite list_fmap_insert, <-A3. apply list_insert_id. by rewrite list_lookup_fmap, Hj.
  - intros i x [(<- & <- & _)|[Hne Hi]]%list_lookup_insert_Some; rewrite Hr; simpl; eauto.
  - intros i Hi. rewrite length_insert in Hi. rewrite Hr. by apply A5.
  - by apply AddStat_paired.
  - intros b. rewrite held_AddStat, A7, omap_app by done. f_equal.
    + apply omap_ext_in. intros x Hx. symmetry. by eapply owed_keep.
    + simpl. unfold owed. rewrite created_app, Hr. simpl. rewrite app_nil_r, <-A3.
      rewrite list_lookup_fmap, Hj. simpl. rewrite (A4 _ _ Hj). by case_match.
  - intros i t'. rewrite elem_of_app, list_elem_of_singleton. intros [Hi|[= -> ->]].
    + destruct (A8 i t' Hi) as (y & Hy & Hd). exists y. split; [|done].
      apply list_lookup_insert_Some. right. split; [|done]. intros ->.
      rewrite Hy in Hj. injection Hj as ->. congruence.
    + eexists. split; [by apply list_lookup_insert_eq; eapply lookup_lt_Some|done].
  - rewrite fmap_app. apply NoDup_app. split; [done|]. split; [|apply NoDup_singleton].
    intros i Hi Hi'. apply list_elem_of_singleton in Hi'. simpl in Hi'. subst i.
    apply list_elem_of_fmap in Hi as ([i t'] & Hi' & Hi). simpl in Hi'. subst i.
    destruct (A8 _ _ Hi) as (y & Hy & Hd). rewrite Hy in Hj. injection Hj as ->. congruence.
Qed.

Lemma lock_block_counts p t t' :
  lock_block p t = Done tt t' -> _scheduled_counts t' = _scheduled_counts t.
Proof. unfold lock_block. repeat case_match; try done. by intros [= <-]. Qed.

Lemma SetThrottle_counts p x t t' :
  SetThrottle p x t = Done tt t' -> _scheduled_counts t' = _scheduled_counts t.
Proof.
  unfold SetThrottle. unM. destruct (get2 (_throttle_targets t) p); [|done].
  destruct (targets_ok _); [|done]. by intros [= <-].
Qed.

Lemma decide_scheduling_counts p t q t' q' :
  DecideToScheduleAfterScheduling p (t, q) = Done tt (t', q') ->
  _scheduled_counts t' = _scheduled_counts t.
Proof. intros Hd%decide_scheduling_decided%de_counts. rewrite Hd. by case_match. Qed.

Lemma account_step o l w w' :
  account l w -> exec_op o w = Done tt w' -> account (l ++ [o]) w'.
Proof.
  intros HA. destruct o as [j|ref n|ref|ref|ref t|p|p|p x|q]; simpl; intros E.
  - apply bind_inv in E as (r & w1 & E & [= <-]). unfold ThrottleJob_new in E.
    apply bind_inv in E as (w0 & ? & [= <- <-] & E).
    apply bind_inv in E as ([] & w2 & (t & Et & ->)%on_thr_inv & E).
    revert E. unM. intros [= _ <-]. apply increment_cnt in Et as [Hp Ht].
    destruct j. exact (account_new _ l w t HA Hp Ht).
  - apply bind_inv in E as (tj & w1 & (-> & Hj & Hph)%in_phase_inv & E).
    injection E as <-. eapply (account_update _ l w ref tj); try done; simpl; try congruence.
    + intros i Hi. by rewrite decide_False.
    + rewrite decide_True by done. by rewrite N.add_0_r.
    + intros p Hp. unfold alive_at. by rewrite Hph.
  - apply bind_inv in E as (tj & w1 & (-> & Hj & Hph)%in_phase_inv & E).
    apply bind_inv in E as ([] & w2 & (t & Et & ->)%on_thr_inv & E).
    injection E as <-. apply decrement_cnt in Et as [Hp Ht].
    eapply (account_update _ l w ref tj); try done; simpl; try congruence.
    + rewrite N.add_0_r, (ac_total _ _ HA _ _ Hj). by rewrite N.Div0.mod_mod.
    + intros p Hp'. rewrite Ht by done. unfold alive_at. rewrite Hph. simpl.
      case_match; simpl; lia.
  - apply bind_inv in E as (tj & w1 & (-> & Hj & Hph)%in_phase_inv & E).
    apply bind_inv in E as ([] & w2 & (t & q & Et & ->)%on_both_inv & E).
    injection E as <-. apply decide_completing_decided, de_counts in Et.
    eapply (account_update _ l w ref tj); try done; simpl; try congruence.
    + rewrite N.add_0_r, (ac_total _ _ HA _ _ Hj). by rewrite N.Div0.mod_mod.
    + intros p Hp'. unfold cnt. rewrite Et. unfold alive_at. by rewrite Hph.
  - apply bind_inv in E as (tj & w1 & (-> & Hj & Hph)%in_phase_inv & E).
    injection E as <-. exact (account_sample ref tj t l w HA Hj Hph).
  - apply on_thr_inv in E as (t & Et & ->). apply (account_silent _ l w t _); try done.
    by eapply lock_block_counts.
  - apply on_both_inv in E as (t & q & Et & ->). apply (account_silent _ l w t _); try done.
    by eapply decide_scheduling_counts.
  - apply on_thr_inv in E as (t & Et & ->). apply (account_silent _ l w t _); try done.
    by eapply SetThrottle_counts.
  - injection E as <-. by apply (account_silent _ l w (thr w) q).
Qed.

Lemma account_exec l' l w w' :
  account l w -> exec l' w = Done tt w' -> account (l ++ l') w'.
Proof.
  revert l w. induction l' as [|o l' IH]; intros l w HA; simpl.
  { intros [= <-]. by rewrite app_nil_r. }
  intros ([] & w1 & Eo & E)%bind_inv. rewrite cons_middle, app_assoc.
  eapply IH; [|done]. by eapply account_step.
Qed.

Lemma account_start max targets t q :
  Throttler.new max targets = Some t -> account [] (start t q).
Proof.
  unfold Throttler.new. case_match; [|done]. intros [= <-].
  split; simpl; try done; try (intros ??; by rewrite lookup_nil); try constructor.
  - intros p _. unfold cnt. simpl. by case_match.
  - intros b. by destruct b.
  - intros i t Hi. by apply elem_of_nil in Hi.
Qed.

(** ** The destructor returns *)

Lemma completing_returns p t q n q' :
  mq_Size kPrimaryPriority q = Done n q' ->
  exists t' q'', DecideToScheduleCompleting p (t, q) = Done tt (t', q'').
Proof.
  intros Hs. unfold DecideToScheduleCompleting, on_queue, on_throttler, zoom. unM. simpl.
  rewrite Hs. simpl. destruct (adjust_primary t) as [b t1]. simpl.
  case_match; simpl; eauto.
Qed.

Lemma decrement_returns p t :
  (p < 2)%N -> (0 < cnt p t)%Z -> exists t', decrement p t = Done tt t'.
Proof.
  intros Hp Hc. unfold decrement, count_op, cnt in *. unM.
  assert (p = 0 \/ p = 1)%N as [->| ->] by lia; simpl in *;
    rewrite Counter.Decrement_ok by (simpl; unfold INT_MIN; lia); eauto.
Qed.

Lemma drop_returns l w ref tj t n q :
  account l w -> jobs w !! ref = Some tj -> tj_phase tj = Alive ->
  mq_Size kPrimaryPriority (que w) = Done n q ->
  exists w', ThrottleJob_drop ref t w = Done tt w'.
Proof.
  intros HA Hj Hph Hs. pose proof (ac_prio _ _ HA _ _ Hj) as Hp.
  destruct (decrement_returns (priority (tj_job tj)) (thr w)) as [t1 Ht1]; [done| |].
  { rewrite (ac_count _ _ HA) by done.
    pose proof (count_pos (alive_at (priority (tj_job tj))) _ _ _ Hj) as Hc.
    unfold alive_at at 1 in Hc. rewrite Hph, N.eqb_refl in Hc. specialize (Hc eq_refl). lia. }
  destruct (completing_returns (priority (tj_job tj)) t1 _ n q Hs) as (t2 & q2 & Ht2).
  unfold ThrottleJob_drop, drop_count, drop_decide, drop_sample, in_phase, to_phase,
    on_thr, on_both, zoom. unM. rewrite Hj, Hph. simpl. rewrite Ht1. simpl.
  rewrite list_lookup_insert_eq by (by eapply lookup_lt_Some). simpl. rewrite Ht2. simpl.
  rewrite list_lookup_insert_eq; [simpl; eauto|].
  rewrite length_insert. by eapply lookup_lt_Some.
Qed.

(** The destructor is its three critical sections in order. *)
Lemma drop_exec ref t w :
  exec [DropCount ref; DropDecide ref; DropSample ref t] w = ThrottleJob_drop ref t w.
Proof.
  unfold ThrottleJob_drop. simpl. unfold mbind, M_bind.
  destruct (drop_count ref w) as [[] w1| |]; [|done..].
  destruct (drop_decide ref w1) as [[] w2| |]; [|done..].
  by destruct (drop_sample ref t w2) as [[] w3| |].
Qed.

(** C17. Every ThrottleJob is counted while it lives and sampled once when it
    dies.  After any interleaving of constructors, ReportThroughput calls and
    the critical sections of destructors, with permits taken, decisions made,
    SetThrottle called and the queue changing in between, from a new throttler:
    the count of each priority is the number of jobs of that priority whose
    destructor has not begun; the samples of each side are, in the order of the
    AddStat calls, exactly one per destroyed job, its latency in whole
    milliseconds and all units reported to it (modulo 2^32, read as an int); and
    the destructor of any live job returns whenever the queue's Size does. *)
Theorem throttle_jobs_accounted max targets t0 (q0 : S) (l : list op) (w : world) :
  Throttler.new max targets = Some t0 ->
  exec l (start t0 q0) = Done tt w ->
  (forall p, (p < kThrottlerPriorities)%N ->
    get2 (_scheduled_counts (thr w)) p = Some (Z.of_nat (count (alive_at p) (jobs w)))) /\
  (forall primary, held primary (samples w) = omap (owed primary l) (finished l)) /\
  NoDup (finished l).*1 /\
  (forall ref tj finish_time n q,
    jobs w !! ref = Some tj -> tj_phase tj = Alive ->
    mq_Size kPrimaryPriority (que w) = Done n q ->
    exists w', ThrottleJob_drop ref finish_time w = Done tt w').
Proof.
  intros Hn He. pose proof (account_exec l [] _ w (account_start _ _ _ q0 Hn) He) as HA.
  simpl in HA. split; [|split; [exact (ac_held _ _ HA)|split; [exact (ac_once _ _ HA)|]]].
  - intros p Hp. rewrite <-(ac_count _ _ HA) by done. unfold cnt, get2.
    unfold kThrottlerPriorities in Hp. assert (p = 0 \/ p = 1)%N as [->| ->] by lia; done.
  - intros. by eapply drop_returns.
Qed.

End Jobs.
Arguments op : clear implicits.
Arguments world : clear implicits.

(** Two jobs, one per side, whose destructors interleave; the primary job was
    told of 2^31 units, which the int sample shows as negative. *)
Definition sjob (i p : N) (t : Z) : Job unit := mkJob i p 1 t tt.

Definition history : list (op unit (@MQ.MultiQueue unit)) :=
  [New (sjob 4 0 1000000); New (sjob 5 1 0); Reports 0 2147483648; Reports 1 7;
   DropCount 0; Reports 1 1; DropCount 1; DropDecide 1; DropDecide 0;
   DropSample 1 9000000; New (sjob 6 0 0); DropSample 0 4999999].

Definition both_targets : Throttler :=
  mkThrottler (Two 2 2)%Z (Two false false) (Two 0 0)%Z true true.

#[local] Existing Instance MQSpec.multiqueue_ops.

Definition after_history : world unit (@MQ.MultiQueue unit) :=
  out_or (start both_targets (MQ.new 1)) (exec history (start both_targets (MQ.new 1))).

Lemma throttle_jobs_accounted_witness :
  held true (samples after_history) = [(3, -2147483648)]%Z /\
  held false (samples after_history) = [(9, 8)]%Z /\
  exists w', ThrottleJob_drop 2 5 after_history = Done tt w'.
Proof.
  destruct (throttle_jobs_accounted 1 (Two 2 2)%Z both_targets (MQ.new 1) history after_history)
    as (_ & Hs & _ & Hd); [reflexivity|vm_compute; reflexivity|].
  split; [|split].
  - rewrite Hs. vm_compute. reflexivity.
  - rewrite Hs. vm_compute. reflexivity.
  - apply (Hd 2 (mkThrottleJob (sjob 6 0 0) 0 Alive) 5%Z 0%N (que after_history));
      vm_compute; reflexivity.
Defined.

End ThrottleJobs.
