(* ===== verification/ThrottlerTimer.v ===== *)
(** * The Throttler's updater thread (RunEveryT, StopRunningEveryT and Runner of
      common/dstage/throttler.hh)

    A caller starts and replaces the updater; the updater clears the samples,
    then sleeps, collects and calls back until it finds [_joining] set; jobs that
    are destroyed meanwhile add samples. *)

From stdpp Require Import prelude gmap list.
From S2P Require Import Prelude Throttler ThrottlerStats.

Module ThrottlerTimer.
Import Throttler ThrottlerStats.

(** Where a Runner is: before the first clear, before the test of [_joining],
    asleep, in the callback, returned. *)
Inductive rpc : Type :=
| RStart
| RCheck
| RSleep
| RCallback (stats : Stats)
| RReturned.

(** What the caller does after its join: RunEveryT starts a thread, ~Throttler
    is done. *)
Inductive after : Type := ThenStart | ThenDestroyed.

Inductive cpc : Type :=
| CIdle
| CJoin (k : after)
| CStart
| CDestroyed.

(** [_updater_thread] names a thread and says whether it is joinable; [reports]
    lists the batches each Runner has handed to its callback. *)
Record timer := mkTimer {
  _joining : bool;
  _updater_thread : option (nat * bool);
  runners : list rpc;
  samples : Samples;
  caller : cpc;
  reports : list (nat * Stats)
}.

Definition set_joining (b : bool) (s : timer) : timer :=
  mkTimer b (_updater_thread s) (runners s) (samples s) (caller s) (reports s).

Definition set_updater (u : option (nat * bool)) (s : timer) : timer :=
  mkTimer (_joining s) u (runners s) (samples s) (caller s) (reports s).

Definition set_runner (i : nat) (k : rpc) (s : timer) : timer :=
  mkTimer (_joining s) (_updater_thread s) (<[i := k]> (runners s)) (samples s) (caller s)
    (reports s).

Definition set_samples (x : Samples) (s : timer) : timer :=
  mkTimer (_joining s) (_updater_thread s) (runners s) x (caller s) (reports s).

Definition set_caller (k : cpc) (s : timer) : timer :=
  mkTimer (_joining s) (_updater_thread s) (runners s) (samples s) k (reports s).

Definition add_report (i : nat) (st : Stats) (s : timer) : timer :=
  mkTimer (_joining s) (_updater_thread s) (runners s) (samples s) (caller s)
    (reports s ++ [(i, st)]).

(** [_updater_thread->join()] by another thread than the updater. *)
Definition join : M timer unit :=
  s ← get;
  match _updater_thread s with
  | None => mret tt
  | Some (_, false) => crash SystemError
  | Some (i, true) =>
      match runners s !! i with
      | Some RReturned => modify (set_updater (Some (i, false)))
      | _ => block
      end
  end.

Definition StopRunningEveryT : M timer unit :=
  _ ← modify (set_joining true);
  join.

(** The rest of RunEveryT: a new thread runs Runner. *)
Definition start_updater : M timer unit :=
  _ ← modify (set_joining false);
  modify (fun s => mkTimer (_joining s) (Some (length (runners s), true))
                     (runners s ++ [RStart]) (samples s) (caller s) (reports s)).

(** RunEveryT when nobody makes it wait. *)
Definition RunEveryT : M timer unit :=
  _ ← StopRunningEveryT;
  start_updater.

(** Runner, up to its next visible action. *)
Definition Runner (i : nat) (targets : two Z) : M timer unit :=
  s ← get;
  match runners s !! i with
  | Some RStart =>
      _ ← modify (set_samples (clear (samples s)));
      modify (set_runner i RCheck)
  | Some RCheck =>
      modify (set_runner i (if _joining s then RReturned else RSleep))
  | Some RSleep =>
      let '(st, x) := collect targets (samples s) in
      _ ← modify (set_samples x);
      modify (set_runner i (RCallback st))
  | Some (RCallback st) =>
      _ ← modify (add_report i st);
      modify (set_runner i RCheck)
  | _ => block
  end.

(** RunEveryT called by the callback of Runner [i] itself: the join is by the
    thread it waits for. *)
Definition RunEveryT_in_callback (i : nat) : M timer unit :=
  _ ← modify (set_joining true);
  s ← get;
  if decide (_updater_thread s = Some (i, true)) then crash SystemError else
  _ ← join;
  start_updater.

(** The caller's next action. *)
Definition caller_step : M timer unit :=
  s ← get;
  match caller s with
  | CJoin k =>
      _ ← join;
      modify (set_caller (match k with ThenStart => CStart | ThenDestroyed => CDestroyed end))
  | CStart =>
      _ ← start_updater;
      modify (set_caller CIdle)
  | _ => block
  end.

Inductive tevent : Type :=
| EvRunEveryT
| EvDestroy
| EvCaller
| EvRunner (i : nat) (targets : two Z)
| EvAddStat (prio total_completed : N) (lat : Z).

(** A call of RunEveryT or of the destructor, up to its join. *)
Definition begin_call (k : after) : M timer unit :=
  s ← get;
  match caller s with
  | CIdle =>
      _ ← modify (set_joining true);
      modify (set_caller (CJoin k))
  | _ => block
  end.

Definition texec (e : tevent) : M timer unit :=
  match e with
  | EvRunEveryT => begin_call ThenStart
  | EvDestroy => begin_call ThenDestroyed
  | EvCaller => caller_step
  | EvRunner i targets => Runner i targets
  | EvAddStat p n lat => modify (fun s => set_samples (AddStat p n lat (samples s)) s)
  end.

(** A throttler that has just been constructed. *)
Definition idle : timer := mkTimer false None [] (mkSamples [] [] [] []) CIdle [].

(** The samples added since the updater cleared them. *)
Definition log_of (e : tevent) (s : timer) (l : list event) : list event :=
  match e with
  | EvAddStat p n lat => l ++ [Add p n lat]
  | EvRunner i _ =>
      match runners s !! i with Some RStart => [] | _ => l end
  | _ => l
  end.

Inductive treach : list event -> timer -> Prop :=
| treach_idle : treach [] idle
| treach_step l s e s' : treach l s -> texec e s = Done tt s' -> treach (log_of e s l) s'.

(** ** The invariant *)

Definition live_runner (k : rpc) : bool := match k with RReturned => false | _ => true end.

(** The batches Runner [i] has handed over, and the one it is handing over. *)
Definition batches (b : bool) (i : nat) (s : timer) : list (Z * Z) :=
  mjoin ((fun x => if decide (x.1 = i) then batch b x.2 else []) <$> reports s).

Definition pending (b : bool) (k : rpc) : list (Z * Z) :=
  match k with RCallback st => batch b st | _ => [] end.

(** What the samples of Runner [i], at [k], have become. *)
Definition accounted (l : list event) (i : nat) (k : rpc) (s : timer) : Prop :=
  match k with
  | RStart => forall st, (i, st) ∉ reports s
  | _ => forall b, batches b i s ++ pending b k ++ held b (samples s) = added b l
  end.

Definition all_joinable (u : option (nat * bool)) (b : bool) : Prop :=
  forall i b', u = Some (i, b') -> b' = b.

Record timer_ok (l : list event) (s : timer) : Prop := mk_timer_ok {
  tk_paired : paired (samples s);
  tk_live : forall i k, runners s !! i = Some k -> live_runner k = true ->
    _updater_thread s = Some (i, true);
  tk_updater : forall i b, _updater_thread s = Some (i, b) -> is_Some (runners s !! i);
  tk_caller : match caller s with
              | CIdle => all_joinable (_updater_thread s) true
              | CJoin _ => _joining s = true /\ all_joinable (_updater_thread s) true
              | CStart | CDestroyed => all_joinable (_updater_thread s) false
              end;
  tk_reports : forall i st, (i, st) ∈ reports s -> i < length (runners s) /\ paired_stats st;
  tk_pending : forall i st, runners s !! i = Some (RCallback st) -> paired_stats st;
  tk_stats : forall i j k, _updater_thread s = Some (i, j) -> runners s !! i = Some k ->
    accounted l i k s
}.

Lemma timer_idle : timer_ok [] idle.
Proof. split; simpl; try done. intros i st H. by apply elem_of_nil in H. Qed.

Lemma timer_begin l s s' k : timer_ok l s -> begin_call k s = Done tt s' -> timer_ok l s'.
Proof.
  intros [T1 T2 T3 T4 T5 T6 T7]. unfold begin_call. unM. destruct (caller s) eqn:Ec; try done.
  intros [= <-]. by split.
Qed.

Lemma timer_caller l s s' : timer_ok l s -> caller_step s = Done tt s' -> timer_ok l s'.
Proof.
  intros [T1 T2 T3 T4 T5 T6 T7]. unfold caller_step, join, start_updater. unM.
  destruct (caller s) as [|k| |] eqn:Ec; try done.
  - destruct T4 as [_ T4]. destruct (_updater_thread s) as [[i j]|] eqn:Eu.
    + rewrite (T4 i j eq_refl). destruct (runners s !! i) as [[]|] eqn:Er; try done.
      intros [= <-]. split; simpl; try done.
      * intros i' k' Hk' Hl. pose proof (T2 _ _ Hk' Hl) as [= ->]. by simplify_eq.
      * intros i' b [= -> <-]. eauto.
      * by destruct k; intros ? ? [= _ <-].
      * intros i' j' k' [= -> <-] Hk'. by apply (T7 i' j).
    + intros [= <-]. split; simpl; try done; rewrite ?Eu; try done. by destruct k.
  - intros [= <-]. assert (forall i k, runners s !! i = Some k -> live_runner k = false) as Hd.
    { intros i k Hk. destruct (live_runner k) eqn:El; [|done].
      by pose proof (T4 _ _ (T2 _ _ Hk El)). }
    split; simpl; try done.
    + intros i k [Hk|[Hi Hk]]%lookup_app_Some Hl; [by rewrite (Hd _ _ Hk) in Hl|].
      apply list_lookup_singleton_Some in Hk as [? <-]. do 2 f_equal. lia.
    + intros i b [= <- <-]. rewrite lookup_app_r, Nat.sub_diag by done. done.
    + by intros i b [= _ <-].
    + intros i st Hi. destruct (T5 _ _ Hi). rewrite length_app. split; [lia|done].
    + intros i st [Hk|[_ Hk]]%lookup_app_Some; [by eapply T6|].
      by apply list_lookup_singleton_Some in Hk as [_ ?].
    + intros i j k [= <- <-]. rewrite lookup_app_r, Nat.sub_diag by done. intros [= <-].
      intros st Hst. destruct (T5 _ _ Hst). lia.
Qed.

Lemma timer_add l s p n lat :
  timer_ok l s -> timer_ok (l ++ [Add p n lat]) (set_samples (AddStat p n lat (samples s)) s).
Proof.
  intros [T1 T2 T3 T4 T5 T6 T7]. split; simpl; try done; [by apply AddStat_paired|].
  intros i j k Hu Hk. specialize (T7 i j k Hu Hk). destruct k; simpl in *; try done; intros b;
    specialize (T7 b); rewrite held_AddStat by done; unfold added in *; rewrite omap_app; simpl;
    rewrite <-T7, <-?app_assoc; do 2 f_equal; by destruct (Bool.eqb _ _).
Qed.

(** A Runner's step moves the updater, and what it leaves is accounted for. *)
Lemma timer_move l l' s i k k' x r :
  timer_ok l s -> runners s !! i = Some k -> live_runner k = true -> paired x ->
  (forall st, k' = RCallback st -> paired_stats st) ->
  (forall st, (i, st) ∈ r -> paired_stats st) -> (forall j st, (j, st) ∈ r -> j = i) ->
  accounted l' i k' (mkTimer (_joining s) (_updater_thread s) (<[i := k']> (runners s)) x
                       (caller s) (reports s ++ r)) ->
  timer_ok l' (mkTimer (_joining s) (_updater_thread s) (<[i := k']> (runners s)) x (caller s)
                 (reports s ++ r)).
Proof.
  intros [T1 T2 T3 T4 T5 T6 T7] Hi Hk Hx Hst Hr Hri Hacc. pose proof (T2 _ _ Hi Hk) as Hu.
  pose proof (lookup_lt_Some _ _ _ Hi) as Hlt. split; simpl; try done.
  - intros j kj. destruct (decide (i = j)) as [<-|Hne]; [done|].
    rewrite list_lookup_insert_ne by done. apply T2.
  - intros j b Hj. rewrite Hu in Hj. simplify_eq. rewrite list_lookup_insert_eq by done. done.
  - intros j st. rewrite length_insert. intros [Hj|Hj]%elem_of_app; [by apply T5|].
    pose proof (Hri _ _ Hj) as ->. split; [done|by apply Hr].
  - intros j st. destruct (decide (i = j)) as [<-|Hne].
    + rewrite list_lookup_insert_eq by done. intros [= ->]. by apply Hst.
    + rewrite list_lookup_insert_ne by done. apply T6.
  - intros j b kj Hj. rewrite Hu in Hj. simplify_eq. rewrite list_lookup_insert_eq by done.
    by intros [= <-].
Qed.

Lemma batches_app b i s l1 r :
  reports s = l1 ++ r -> batches b i s =
    mjoin ((fun x => if decide (x.1 = i) then batch b x.2 else []) <$> l1) ++
    mjoin ((fun x => if decide (x.1 = i) then batch b x.2 else []) <$> r).
Proof. intros E. unfold batches. rewrite E, fmap_app. apply join_app. Qed.

Lemma batches_none b i s : (forall st, (i, st) ∉ reports s) -> batches b i s = [].
Proof.
  unfold batches. induction (reports s) as [|[j st] l IH]; intros H; [done|].
  change (mjoin (_ <$> (j, st) :: l)) with
    ((if decide (j = i) then batch b st else []) ++
     mjoin ((fun x => if decide (x.1 = i) then batch b x.2 else []) <$> l)).
  rewrite IH by (intros st' Hst; apply (H st'); by right).
  rewrite decide_False; [done|]. intros ->. apply (H st). by left.
Qed.

Lemma timer_runner l s s' i targets :
  timer_ok l s -> Runner i targets s = Done tt s' -> timer_ok (log_of (EvRunner i targets) s l) s'.
Proof.
  intros Hok. unfold Runner, log_of. unM.
  destruct (runners s !! i) as [k|] eqn:Ei; [|done]. pose proof Hok as [T1 T2 T3 T4 T5 T6 T7].
  assert (forall k', live_runner k = true -> accounted l i k s -> accounted l i k' s ->
    (forall st, k' = RCallback st -> paired_stats st) ->
    timer_ok l (set_runner i k' s)) as Hplain.
  { intros k' Hl Ha Ha' Hst. pose proof (timer_move l l s i k k' (samples s) []) as Hm.
    rewrite app_nil_r in Hm. apply Hm; try done; intros; set_solver. }
  destruct k as [| | |st|]; try done.
  - intros [= <-]. pose proof (T7 i true RStart (T2 _ _ Ei eq_refl) Ei) as Hnone.
    pose proof (timer_move l [] s i RStart RCheck (clear (samples s)) []) as Hm.
    rewrite app_nil_r in Hm. apply Hm; try done; [intros; set_solver..|].
    intros b. unfold pending. rewrite batches_none by done. by destruct b.
  - intros [= <-]. pose proof (T7 i true RCheck (T2 _ _ Ei eq_refl) Ei) as Ha.
    by destruct (_joining s); apply Hplain.
  - intros [= <-]. pose proof (T7 i true RSleep (T2 _ _ Ei eq_refl) Ei) as Ha.
    pose proof (timer_move l l s i RSleep (RCallback (collect targets (samples s)).1)
      (clear (samples s)) []) as Hm.
    rewrite app_nil_r in Hm. apply Hm; try done.
    + intros st [= <-]. by destruct T1.
    + intros; set_solver.
    + intros; set_solver.
    + intros b. specialize (Ha b). simpl in *. rewrite <-Ha. f_equal. by destruct b; rewrite app_nil_r.
  - intros [= <-]. pose proof (T7 i true _ (T2 _ _ Ei eq_refl) Ei) as Ha.
    apply (timer_move l l s i (RCallback st) RCheck (samples s) [(i, st)]); try done.
    + intros st' [= ->]%list_elem_of_singleton. by eapply T6.
    + by intros j st' [= -> _]%list_elem_of_singleton.
    + intros b. specialize (Ha b). simpl in *. rewrite <-Ha.
      rewrite (batches_app b i _ (reports s) [(i, st)]) by done. simpl.
      rewrite decide_True, app_nil_r, <-app_assoc by done. done.
Qed.

Lemma treach_ok l s : treach l s -> timer_ok l s.
Proof.
  induction 1 as [|l s e s' _ IH E]; [apply timer_idle|]. destruct e; simpl in *.
  - by eapply timer_begin.
  - by eapply timer_begin.
  - by eapply timer_caller.
  - by eapply (timer_runner l s s' i targets).
  - injection E as <-. by apply timer_add.
Qed.

(** ** Theorems *)

(** C31. One updater at a time, for calls of RunEveryT and Stop that one thread
    makes one after the other and none of which is made by the updater's own
    callback: however often that thread restarts the updater, whenever jobs are
    destroyed and wherever the updater is, at most one Runner has not returned;
    and no join fails.  (A restart from the callback joins its own thread:
    [restart_in_callback_fails].) *)
Theorem one_updater l s e :
  treach l s ->
  (forall i j ki kj, runners s !! i = Some ki -> runners s !! j = Some kj ->
    live_runner ki = true -> live_runner kj = true -> i = j) /\
  (forall f, texec e s <> Crash f).
Proof.
  intros Hr. pose proof (treach_ok _ _ Hr) as [T1 T2 T3 T4 T5 T6 T7]. split.
  - intros i j ki kj Hi Hj Hki Hkj. pose proof (T2 _ _ Hi Hki). pose proof (T2 _ _ Hj Hkj).
    congruence.
  - intros f. destruct e; simpl; unfold begin_call, caller_step, join, start_updater, Runner;
      unM; repeat (case_match; simpl); try done; destruct T4 as [_ T4];
      by pose proof (T4 _ _ eq_refl).
Qed.

(** C29. Statistics are conserved: per priority and in order, the batches the
    current updater has handed to its callback, the one it is handing over and
    the samples it has not collected yet are exactly the samples of the jobs
    destroyed since it started; every batch has as many latencies as sizes. *)
Theorem stats_conserved l s i j k (b : bool) :
  treach l s -> _updater_thread s = Some (i, j) -> runners s !! i = Some k -> k <> RStart ->
  batches b i s ++ pending b k ++ held b (samples s) = added b l /\
  (forall st, (i, st) ∈ reports s -> paired_stats st).
Proof.
  intros Hr Hu Hk Hne. pose proof (treach_ok _ _ Hr) as [T1 T2 T3 T4 T5 T6 T7].
  split; [|intros st Hst; by apply (T5 i)].
  specialize (T7 i j k Hu Hk). by destruct k.
Qed.

(** How many steps a Runner still makes once [_joining] is set. *)
Definition steps_left (k : rpc) : nat :=
  match k with RStart => 2 | RCheck => 1 | RSleep => 3 | RCallback _ => 2 | RReturned => 0 end.

Definition reports_left (k : rpc) : nat :=
  match k with RSleep | RCallback _ => 1 | _ => 0 end.

(** Events of the other threads; an event that cannot happen is skipped. *)
Fixpoint trun (es : list tevent) (s : timer) : timer :=
  match es with
  | [] => s
  | e :: es' => trun es' (match texec e s with Done _ s' => s' | _ => s end)
  end.

Definition runner_event (i : nat) (e : tevent) : bool :=
  match e with EvRunner j _ => (j =? i)%nat | _ => false end.

Definition not_caller (e : tevent) : bool :=
  match e with EvCaller => false | _ => true end.

(** While a caller waits in its join, the updater only counts down. *)
Lemma waiting_step l s k i r e :
  timer_ok l s -> caller s = CJoin k -> _updater_thread s = Some (i, true) ->
  runners s !! i = Some r -> not_caller e = true ->
  exists s' l' r', (match texec e s with Done _ x => x | _ => s end) = s' /\
    timer_ok l' s' /\ caller s' = CJoin k /\ _updater_thread s' = Some (i, true) /\
    runners s' !! i = Some r' /\
    steps_left r' = steps_left r - (if runner_event i e then 1 else 0) /\
    length (reports s') + reports_left r' <= length (reports s) + reports_left r.
Proof.
  intros Hok Hc Hu Hr He. pose proof Hok as [T1 T2 T3 T4 T5 T6 T7]. rewrite Hc in T4.
  destruct T4 as [Hj _].
  assert (forall s', s' = s -> exists s0 l' r', s' = s0 /\ timer_ok l' s0 /\ caller s0 = CJoin k /\
    _updater_thread s0 = Some (i, true) /\ runners s0 !! i = Some r' /\
    steps_left r' = steps_left r - 0 /\
    length (reports s0) + reports_left r' <= length (reports s) + reports_left r) as Hsame.
  { intros s' ->. exists s, l, r. split_and!; try done; lia. }
  destruct e as [| | |i' targets|p n lat]; try done; simpl.
  - unfold begin_call. unM. rewrite Hc. by apply Hsame.
  - unfold begin_call. unM. rewrite Hc. by apply Hsame.
  - destruct (Runner i' targets s) as [[] s'|s'|f] eqn:E.
    + pose proof (timer_runner _ _ _ _ _ Hok E) as Hok'. unfold Runner in E. revert E. unM.
      destruct (runners s !! i') as [k'|] eqn:Ek; [|done].
      destruct (live_runner k') eqn:El; [|by destruct k'].
      pose proof (T2 _ _ Ek El) as E. assert (i' = i) as -> by congruence. rewrite Hr in Ek.
      simplify_eq. rewrite Nat.eqb_refl. pose proof (lookup_lt_Some _ _ _ Hr) as Hlt.
      destruct k' as [| | |st|]; try done; intros E'; rewrite ?Hj in E'; injection E' as <-;
        eexists _, _, _; (split; [reflexivity|]); (split; [exact Hok'|]); simpl;
        rewrite list_lookup_insert_eq by done; (split_and!; [done..| |]); simpl;
        rewrite ?length_app; simpl; done || lia.
    + unfold Runner in E. revert E. unM. destruct (runners s !! i') as [k'|] eqn:Ek.
      * destruct k'; try done. intros _. destruct (Nat.eqb_spec i' i) as [->|]; [|by apply Hsame].
        simplify_eq. destruct (Hsame s eq_refl) as (s0 & l0 & r' & H). simpl in H. by exists s0, l0, r'.
      * destruct (Nat.eqb_spec i' i) as [->|]; [congruence|]. intros _. by apply Hsame.
    + exfalso. revert E. unfold Runner. unM. repeat (case_match; simpl); done.
  - eexists _, _, r. split; [reflexivity|]. split; [by apply timer_add|]. simpl.
    split_and!; try done; lia.
Qed.

(** C30. Stopping terminates: while RunEveryT or the destructor waits in its
    join, three steps of the updater, in any order with the steps of the threads
    that destroy jobs, are enough for the join to return, and the callback is
    called at most once more meanwhile. *)
Theorem stop_terminates l s k i es :
  treach l s -> caller s = CJoin k -> _updater_thread s = Some (i, true) ->
  forallb not_caller es = true ->
  length (reports (trun es s)) <= length (reports s) + 1 /\
  (3 <= count (runner_event i) es ->
   exists s', caller_step (trun es s) = Done tt s' /\
     caller s' = (match k with ThenStart => CStart | ThenDestroyed => CDestroyed end)).
Proof.
  intros Hr Hc Hu He. pose proof (treach_ok _ _ Hr) as Hok.
  destruct (tk_updater _ _ Hok i true Hu) as [r Hi].
  assert (exists l' r', timer_ok l' (trun es s) /\ caller (trun es s) = CJoin k /\
    _updater_thread (trun es s) = Some (i, true) /\ runners (trun es s) !! i = Some r' /\
    steps_left r' = steps_left r - count (runner_event i) es /\
    length (reports (trun es s)) + reports_left r' <= length (reports s) + reports_left r)
    as (l' & r' & Hok' & Hc' & Hu' & Hr' & Hl & Hrep).
  { clear Hr. revert l s r Hok Hc Hu Hi. induction es as [|e es IH]; intros l s r Hok Hc Hu Hi; simpl.
    - exists l, r. split_and!; try done; lia.
    - simpl in He. apply andb_true_iff in He as [He Hes].
      destruct (waiting_step l s k i r e Hok Hc Hu Hi He)
        as (s1 & l1 & r1 & -> & Hok1 & Hc1 & Hu1 & Hr1 & Hl1 & Hrep1).
      destruct (IH Hes l1 s1 r1 Hok1 Hc1 Hu1 Hr1) as (l2 & r2 & ? & ? & ? & ? & Hl2 & Hrep2).
      exists l2, r2. split_and!; try done; [|lia]. rewrite Hl2, Hl1.
      destruct (runner_event i e); simpl; lia. }
  split.
  - assert (reports_left r <= 1) by (destruct r; simpl; lia). lia.
  - intros H3. assert (r' = RReturned) as -> by (destruct r, r'; simpl in *; try done; lia).
    unfold caller_step, join. unM. rewrite Hc', Hu', Hr'. eexists. split; [done|]. by destruct k.
Qed.

(** Restarting the updater from its own callback is a join of a thread by
    itself, whatever else has happened. *)
Theorem restart_in_callback_fails l s i st :
  treach l s -> runners s !! i = Some (RCallback st) ->
  RunEveryT_in_callback i s = Crash SystemError.
Proof.
  intros Hr Hi. pose proof (tk_live _ _ (treach_ok _ _ Hr) _ _ Hi eq_refl) as Hu.
  unfold RunEveryT_in_callback. unM. simpl. by rewrite decide_True.
Qed.

(** ** Executions *)

Fixpoint tplay (es : list tevent) (x : list event * timer) : option (list event * timer) :=
  match es with
  | [] => Some x
  | e :: es' =>
      match texec e x.2 with
      | Done _ s' => tplay es' (log_of e x.2 x.1, s')
      | _ => None
      end
  end.

Lemma tplay_reach es l s l' s' :
  treach l s -> tplay es (l, s) = Some (l', s') -> treach l' s'.
Proof.
  revert l s. induction es as [|e es IH]; intros l s Hr; simpl; [by intros [= <- <-]|].
  destruct (texec e s) as [[] s1| |] eqn:E; try done. apply IH. by apply (treach_step l s e).
Qed.

(** The updater is started, a job is destroyed while it sleeps, and it is
    restarted. *)
Definition restarting : list tevent :=
  [EvRunEveryT; EvCaller; EvCaller; EvRunner 0 (Two 1 1)%Z; EvRunner 0 (Two 1 1)%Z;
   EvAddStat 0 10 3; EvRunEveryT].

Definition restarted : list event * timer :=
  default ([], idle) (tplay restarting ([], idle)).

Lemma restarted_reach : treach restarted.1 restarted.2.
Proof. by apply (tplay_reach restarting [] idle); [apply treach_idle|]. Qed.

Lemma one_updater_witness :
  runners restarted.2 = [RSleep] /\ (forall f, texec EvCaller restarted.2 <> Crash f).
Proof.
  split; [reflexivity|]. exact (proj2 (one_updater _ _ EvCaller restarted_reach)).
Defined.

Lemma stats_conserved_witness :
  batches true 0 restarted.2 ++ pending true RSleep ++ held true (samples restarted.2) =
    [(3, 10)]%Z.
Proof.
  exact (proj1 (stats_conserved _ _ 0 true RSleep true restarted_reach eq_refl eq_refl
    ltac:(discriminate))).
Defined.

Lemma stop_terminates_witness : exists s',
  caller_step (trun [EvRunner 0 (Two 1 1)%Z; EvAddStat 1 5 9; EvRunner 0 (Two 1 1)%Z;
    EvRunner 0 (Two 1 1)%Z] restarted.2) = Done tt s' /\ caller s' = CStart.
Proof.
  apply (stop_terminates restarted.1 restarted.2 ThenStart 0 _ restarted_reach); reflexivity || (simpl; lia).
Defined.

End ThrottlerTimer.
