(* ===== verification/ProxyPipe.v ===== *)
(** * The proxy's pipes (TcpPipe of common/dstage/proxy_dstage.{h,cc})

    A pipe joins the client's connection [in] with the server's connection
    [out].  The kernel is a script: what each read returns and how much room
    each send finds; the bytes it takes are recorded with the descriptor they
    were sent to. *)

From stdpp Require Import prelude gmap list strings.
From S2P Require Import Prelude Synchronization.

Module TcpPipe.
Import Connection.

(** [std::unique_ptr<Connection>], and the two unique pointers of the pipe. *)
Record HalfPipe := mkHalfPipe { connection : option Connection }.

Record TcpPipe := mkTcpPipe {
  pipe_in : option HalfPipe;
  pipe_out : option HalfPipe;
  first_cb : option N;
  second_cb : option N
}.

(** TcpPipe(int soc). *)
Definition new (soc : Z) : TcpPipe :=
  mkTcpPipe (Some (mkHalfPipe (Some (Connection.new soc)))) None None None.

(** PipeResults. *)
Definition READ_FAIL : Z := 0.
Definition SEND_FAIL : Z := 1.
Definition TRY_LATER : Z := 2.

Definition kBufSize : nat := 4096.

(** errno on Linux. *)
Definition EBADF : Z := 9.
Definition EAGAIN : Z := 11.
Definition EWOULDBLOCK : Z := 11.

Definition conn_of (h : option HalfPipe) : option Connection :=
  match h with
  | Some x => connection x
  | None => None
  end.

Definition Which (p : TcpPipe) (soc : Z) : string :=
  match conn_of (pipe_in p) with
  | Some c => if (Socket c =? soc)%Z then "client"%string
              else match conn_of (pipe_out p) with
                   | Some c' => if (Socket c' =? soc)%Z then "server"%string else "?"%string
                   | None => "?"%string
                   end
  | None => match conn_of (pipe_out p) with
            | Some c' => if (Socket c' =? soc)%Z then "server"%string else "?"%string
            | None => "?"%string
            end
  end.

Definition other_out (p : TcpPipe) (soc : Z) : Z :=
  match conn_of (pipe_out p) with
  | Some c => if negb (Socket c =? soc)%Z then Socket c else (-1)%Z
  | None => (-1)%Z
  end.

Definition OtherSocket (p : TcpPipe) (soc : Z) : Z :=
  match conn_of (pipe_in p) with
  | Some c => if negb (Socket c =? soc)%Z then Socket c else other_out p soc
  | None => other_out p soc
  end.

(** State of ShutdownOther: the pipe and the system calls made. *)
Definition piped : Type := TcpPipe * list syscall.

(** [h->connection->SetShutdown()] on a pipe's half. *)
Definition set_shutdown_out : M piped unit := fun s =>
  match pipe_out s.1 with
  | Some (mkHalfPipe (Some c)) =>
      Done tt (mkTcpPipe (pipe_in s.1) (Some (mkHalfPipe (Some (SetShutdown c))))
                 (first_cb s.1) (second_cb s.1), s.2)
  | _ => Crash NullDeref
  end.

Definition set_shutdown_in : M piped unit := fun s =>
  match pipe_in s.1 with
  | Some (mkHalfPipe (Some c)) =>
      Done tt (mkTcpPipe (Some (mkHalfPipe (Some (SetShutdown c)))) (pipe_out s.1)
                 (first_cb s.1) (second_cb s.1), s.2)
  | _ => Crash NullDeref
  end.

(** [h->connection->Shutdown()]. *)
Definition shutdown_in : M piped unit := fun s =>
  match pipe_in s.1 with
  | Some (mkHalfPipe (Some c)) =>
      let '(c', l) := Shutdown c in
      Done tt (mkTcpPipe (Some (mkHalfPipe (Some c'))) (pipe_out s.1)
                 (first_cb s.1) (second_cb s.1), s.2 ++ l)
  | _ => Crash NullDeref
  end.

Definition shutdown_out : M piped unit := fun s =>
  match pipe_out s.1 with
  | Some (mkHalfPipe (Some c)) =>
      let '(c', l) := Shutdown c in
      Done tt (mkTcpPipe (pipe_in s.1) (Some (mkHalfPipe (Some c')))
                 (first_cb s.1) (second_cb s.1), s.2 ++ l)
  | _ => Crash NullDeref
  end.

(** The second half of ShutdownOther. *)
Definition shutdown_other_out (soc : Z) : M piped unit :=
  s ← get;
  match conn_of (pipe_out s.1) with
  | Some c =>
      if negb (Socket c =? soc)%Z then _ ← set_shutdown_in; shutdown_out else mret tt
  | None => mret tt
  end.

Definition ShutdownOther (soc : Z) : M piped unit :=
  s ← get;
  match conn_of (pipe_in s.1) with
  | Some c =>
      if negb (Socket c =? soc)%Z then _ ← set_shutdown_out; shutdown_in
      else shutdown_other_out soc
  | None => shutdown_other_out soc
  end.

(** ** Pipe *)

Inductive read_result : Type :=
| Data (bytes : list Z)
| Closed
| ReadErr (errno : Z).

(** [Room n]: the send buffer takes up to [n] bytes. *)
Inductive send_result : Type :=
| Room (n : Z)
| SendErr (errno : Z).

(** [delivered]: the bytes that send(2) has taken, with the descriptor each was
    sent to. *)
Record io := mkIo {
  reads : list read_result;
  sends : list send_result;
  delivered : list (Z * Z)
}.

(** How the send loop ends: all bytes of the round are sent, an error return,
    the script ends, or undefined behaviour. *)
Inductive send_end : Type :=
| AllSent (total : Z) (rest : list send_result) (out : list (Z * Z))
| SendFailed (rest : list send_result) (out : list (Z * Z))
| SendWaits (out : list (Z * Z))
| SendCrash (e : fault).

(** The bytes [buf + off .. buf + off + n). *)
Definition slice (buf : list Z) (off n : Z) : list Z := take (Z.to_nat n) (drop (Z.to_nat off) buf).

Definition sent_to (send_soc : Z) (bytes : list Z) : list (Z * Z) := pair send_soc <$> bytes.

(** What send(2) on a descriptor answers: a negative one is no descriptor. *)
Definition send_answer (send_soc : Z) (r : send_result) : send_result :=
  if (send_soc <? 0)%Z then SendErr EBADF else r.

(** The inner [while (true)]: [bytes_read] is what is left of this round,
    [off] is [bytes_sent_this_round]. *)
Fixpoint send_loop (send_soc : Z) (script : list send_result) (buf : list Z)
    (bytes_read off total : Z) (out : list (Z * Z)) : send_end :=
  if (off <? 0)%Z then SendCrash BadOffset else
  match script with
  | [] => SendWaits out
  | r0 :: script' =>
      let r := send_answer send_soc r0 in
      let bytes_sent := match r with Room n => Z.min n bytes_read | SendErr _ => (-1)%Z end in
      let failed := match r with Room _ => false | SendErr e => negb (e =? EAGAIN)%Z end in
      if failed then SendFailed script' out
      else if (INT_MAX <? total + bytes_sent)%Z then SendCrash SignedOverflow
      else
        let out' := out ++ sent_to send_soc (slice buf off bytes_sent) in
        if (bytes_read - bytes_sent =? 0)%Z then AllSent (total + bytes_sent) script' out'
        else send_loop send_soc script' buf (bytes_read - bytes_sent) (off + bytes_sent)
               (total + bytes_sent) out'
  end.

(** The outer [while (true)]. *)
Fixpoint pipe_loop (send_soc : Z) (script : list read_result) (buf : list Z) (total : Z)
    (snd : list send_result) (out : list (Z * Z)) : outcome io Z :=
  match script with
  | [] => Wait (mkIo [] snd out)
  | ReadErr e :: rest =>
      if (e =? EAGAIN)%Z
      then Done (if (total =? 0)%Z then (- TRY_LATER)%Z else total) (mkIo rest snd out)
      else if (e =? EWOULDBLOCK)%Z then Done total (mkIo rest snd out)
      else Done (- READ_FAIL)%Z (mkIo rest snd out)
  | Closed :: rest | Data [] :: rest => Done 0%Z (mkIo rest snd out)
  | Data bytes :: rest =>
      let buf' := bytes ++ drop (length bytes) buf in
      match send_loop send_soc snd buf' (Z.of_nat (length bytes)) 0 total out with
      | AllSent total' snd' out' => pipe_loop send_soc rest buf' total' snd' out'
      | SendFailed snd' out' => Done (- SEND_FAIL)%Z (mkIo rest snd' out')
      | SendWaits out' => Wait (mkIo rest [] out')
      | SendCrash e => Crash e
      end
  end.

(** [int TcpPipe::Pipe(int read_soc)]; [reads] is what read(2) on [read_soc]
    returns, and the buffer's first content is the stack's. *)
Definition Pipe (p : TcpPipe) (read_soc : Z) (stack : list Z) : M io Z := fun s =>
  let send_soc := OtherSocket p read_soc in
  pipe_loop send_soc (reads s) stack 0 (sends s) (delivered s).

(** ** What a pipe delivers *)

(** A send that makes progress. *)
Definition progresses (r : send_result) : Prop :=
  match r with Room n => (1 <= n)%Z | SendErr _ => False end.

Lemma slice_in (d junk : list Z) (off n : Z) :
  (0 <= off)%Z -> (0 <= n)%Z -> (off + n <= Z.of_nat (length d))%Z ->
  slice (d ++ junk) off n = take (Z.to_nat n) (drop (Z.to_nat off) d).
Proof.
  intros H1 H2 H3. unfold slice. rewrite drop_app_le by lia.
  by rewrite take_app_le by (rewrite length_drop; lia).
Qed.

Lemma slice_rest (d : list Z) (off n : Z) :
  (0 <= off)%Z -> (0 <= n)%Z ->
  take (Z.to_nat n) (drop (Z.to_nat off) d) ++ drop (Z.to_nat (off + n)) d =
    drop (Z.to_nat off) d.
Proof.
  intros H1 H2. rewrite Z2Nat.inj_add by lia. rewrite <-drop_drop. apply take_drop.
Qed.

Lemma sent_to_app soc a b : sent_to soc (a ++ b) = sent_to soc a ++ sent_to soc b.
Proof. apply fmap_app. Qed.

Lemma send_answer_ok soc r : (0 <= soc)%Z -> send_answer soc r = r.
Proof. intros H. unfold send_answer. by rewrite (proj2 (Z.ltb_ge _ _)). Qed.

(** As many sends as bytes are enough for a round. *)
Lemma send_loop_all soc script d junk rem off total out :
  (0 <= soc)%Z -> Forall progresses script -> (0 <= off)%Z -> (0 < rem)%Z ->
  (off + rem = Z.of_nat (length d))%Z -> (rem <= Z.of_nat (length script))%Z ->
  (0 <= total)%Z -> (total + rem <= INT_MAX)%Z ->
  exists script', send_loop soc script (d ++ junk) rem off total out =
      AllSent (total + rem) script' (out ++ sent_to soc (drop (Z.to_nat off) d)) /\
    Forall progresses script' /\ (Z.of_nat (length script) <= Z.of_nat (length script') + rem)%Z.
Proof.
  intros Hsoc Hs. revert rem off total out.
  induction Hs as [|r script Hr Hs IH]; intros rem off total out Ho Hrem Hd Hlen Ht Hmax;
    simpl in *; [lia|]. rewrite send_answer_ok by done.
  rewrite (proj2 (Z.ltb_ge _ _)) by lia. destruct r as [n|]; [|done]. simpl in Hr.
  rewrite (proj2 (Z.ltb_ge _ _)) by lia. rewrite slice_in by lia.
  destruct (Z.eqb_spec (rem - n `min` rem) 0) as [E|E].
  - exists script. replace (n `min` rem)%Z with rem by lia. split; [|split; [done|lia]].
    do 2 f_equal. rewrite take_ge by (rewrite length_drop; lia). done.
  - assert (n < rem)%Z as Hlt by lia. replace (n `min` rem)%Z with n by lia.
    destruct (IH (rem - n) (off + n) (total + n)
      (out ++ sent_to soc (take (Z.to_nat n) (drop (Z.to_nat off) d))))%Z
      as (script' & E' & Hs' & Hl');
      [lia..|].
    exists script'. rewrite E'. split; [|split; [done|lia]]. f_equal; [lia|].
    rewrite <-app_assoc, <-sent_to_app. do 2 f_equal. apply slice_rest; lia.
Qed.

(** The chunks a reader finds. *)
Definition chunk_ok (d : list Z) : Prop := 1 <= length d <= kBufSize.

Lemma pipe_loop_data soc chunks final rest buf total snd out :
  (0 <= soc)%Z -> Forall chunk_ok chunks -> Forall progresses snd ->
  length (mjoin chunks) <= length snd ->
  (0 <= total)%Z -> (total + Z.of_nat (length (mjoin chunks)) <= INT_MAX)%Z ->
  exists buf' snd', Forall progresses snd' /\
    pipe_loop soc ((Data <$> chunks) ++ final :: rest) buf total snd out =
      pipe_loop soc (final :: rest) buf' (total + Z.of_nat (length (mjoin chunks))) snd'
        (out ++ sent_to soc (mjoin chunks)).
Proof.
  intros Hsoc Hc. revert buf total snd out.
  induction Hc as [|d chunks Hd Hc IH]; intros buf total snd out Hs Hlen Ht Hmax.
  - exists buf, snd. split; [done|]. simpl. by rewrite Z.add_0_r, app_nil_r.
  - change (mjoin (d :: chunks)) with (d ++ mjoin chunks) in *.
    rewrite length_app in *. unfold chunk_ok in Hd.
    destruct (send_loop_all soc snd d (drop (length d) buf) (Z.of_nat (length d)) 0 total out)
      as (snd1 & E & Hs1 & Hl1); try done; try lia.
    destruct (IH (d ++ drop (length d) buf) (total + Z.of_nat (length d))%Z snd1
      (out ++ sent_to soc d) Hs1) as (buf' & snd' & Hs' & E'); [lia..|].
    exists buf', snd'. split; [done|].
    rewrite Nat2Z.inj_add, Z.add_assoc, sent_to_app, app_assoc, <-E'.
    destruct d as [|x d]; [simpl in Hd; lia|].
    change ((Data <$> (x :: d) :: chunks) ++ final :: rest)
      with (Data (x :: d) :: (Data <$> chunks) ++ final :: rest).
    cbn [pipe_loop]. rewrite E. by rewrite drop_0.
Qed.

(** C35. Pipe copies the byte stream to the other end: on a pipe that has another
    end, when the reader finds the given chunks, of at most INT_MAX bytes in all,
    and then EAGAIN, and every send makes progress, Pipe returns the number of
    bytes (or -TRY_LATER when there were none) and has sent exactly those bytes,
    in order, all to the other socket of the pipe; it returns after at most as
    many sends as bytes. *)
Theorem pipe_copies_stream p soc chunks rest snd out stack :
  (0 <= OtherSocket p soc)%Z -> Forall chunk_ok chunks -> Forall progresses snd ->
  length (mjoin chunks) <= length snd ->
  (Z.of_nat (length (mjoin chunks)) <= INT_MAX)%Z ->
  exists snd', Pipe p soc stack (mkIo ((Data <$> chunks) ++ ReadErr EAGAIN :: rest) snd out) =
    Done (if decide (chunks = []) then (- TRY_LATER)%Z else Z.of_nat (length (mjoin chunks)))
      (mkIo rest snd' (out ++ sent_to (OtherSocket p soc) (mjoin chunks))).
Proof.
  intros Hsoc Hc Hs Hlen Hmax.
  destruct (pipe_loop_data (OtherSocket p soc) chunks (ReadErr EAGAIN) rest stack 0 snd out) as (buf' & snd' & _ & E);
    try done; try lia.
  exists snd'. unfold Pipe. simpl. rewrite E. simpl.
  destruct Hc as [|d chunks Hd Hc]; [done|]. rewrite decide_False by done.
  change (mjoin (d :: chunks)) with (d ++ mjoin chunks). rewrite length_app.
  unfold chunk_ok in Hd. rewrite (proj2 (Z.eqb_neq _ _)) by lia. done.
Qed.

(** The result 0 is ambiguous: a peer that closed and a read error other
    than EAGAIN both make Pipe return 0, however many bytes it has delivered. *)
Theorem pipe_zero_hides_error p soc chunks final rest snd out stack :
  (0 <= OtherSocket p soc)%Z -> Forall chunk_ok chunks -> Forall progresses snd ->
  length (mjoin chunks) <= length snd ->
  (Z.of_nat (length (mjoin chunks)) <= INT_MAX)%Z ->
  match final with Closed => True | ReadErr e => e <> EAGAIN | Data _ => False end ->
  exists snd', Pipe p soc stack (mkIo ((Data <$> chunks) ++ final :: rest) snd out) =
    Done 0%Z (mkIo rest snd' (out ++ sent_to (OtherSocket p soc) (mjoin chunks))).
Proof.
  intros Hsoc Hc Hs Hlen Hmax Hf.
  destruct (pipe_loop_data (OtherSocket p soc) chunks final rest stack 0 snd out) as (buf' & snd' & _ & E);
    try done; try lia.
  exists snd'. unfold Pipe. simpl. rewrite E.
  destruct final as [| |e]; [done|done|]. simpl. unfold EWOULDBLOCK, EAGAIN in *.
  by rewrite (proj2 (Z.eqb_neq _ _)) by done.
Qed.

Definition joined (ci co : Connection) (f s : option N) : TcpPipe :=
  mkTcpPipe (Some (mkHalfPipe (Some ci))) (Some (mkHalfPipe (Some co))) f s.

Definition pipe_5_6 : TcpPipe := joined (Connection.new 5) (Connection.new 6) None None.

(** A full send buffer corrupts the stream.  EAGAIN after a partial send
    is counted as -1 bytes: the next send starts one byte early, so the peer
    gets a byte twice and the byte count is one short; EAGAIN on the first send
    of a round makes the next one read before the buffer. *)
Theorem pipe_send_eagain_corrupts stack :
  (exists rest, Pipe pipe_5_6 5 stack (mkIo [Data [1; 2; 3]%Z; ReadErr EAGAIN]
      [Room 2; SendErr EAGAIN; Room 9] []) = Done 3%Z rest /\
    delivered rest = sent_to 6 [1; 2; 2; 3]%Z) /\
  Pipe pipe_5_6 5 stack (mkIo [Data [1; 2; 3]%Z; ReadErr EAGAIN] [SendErr EAGAIN; Room 9] []) =
    Crash BadOffset.
Proof. split; [eexists; split|]; reflexivity. Qed.

(** Without a server the bytes of the client have nowhere to go: they are read
    and lost. *)
Example pipe_without_server stack : exists rest,
  Pipe (new 5) 5 stack (mkIo [Data [1; 2]%Z; ReadErr EAGAIN] [Room 9] []) =
    Done (- SEND_FAIL)%Z rest /\ delivered rest = [].
Proof. eexists. split; reflexivity. Qed.

Lemma pipe_copies_stream_witness : exists snd',
  Pipe pipe_5_6 6 [] (mkIo [Data [1; 2]%Z; Data [3]%Z; ReadErr EAGAIN] [Room 1; Room 5; Room 5] []) =
    Done 3%Z (mkIo [] snd' (sent_to 5 [1; 2; 3]%Z)).
Proof.
  apply (pipe_copies_stream pipe_5_6 6 [[1; 2]%Z; [3]%Z] [] [Room 1; Room 5; Room 5] [] []);
    [discriminate|repeat (apply Forall_cons; split; [unfold chunk_ok, kBufSize; simpl; lia|]); by apply Forall_nil|repeat constructor; simpl; lia
    |simpl; lia|simpl; unfold INT_MAX; lia].
Defined.

Lemma pipe_zero_hides_error_witness : exists snd',
  Pipe pipe_5_6 5 [] (mkIo [Data [7]%Z; ReadErr 104] [Room 5] []) =
    Done 0%Z (mkIo [] snd' (sent_to 6 [7]%Z)).
Proof.
  apply (pipe_zero_hides_error pipe_5_6 5 [[7]%Z] (ReadErr 104) [] [Room 5] [] []);
    [discriminate|repeat (apply Forall_cons; split; [unfold chunk_ok, kBufSize; simpl; lia|]); by apply Forall_nil|repeat constructor; simpl; lia
    |simpl; lia|simpl; unfold INT_MAX; lia|discriminate].
Defined.

(** ** Pipe returns *)

(** A send that does not find the buffer full. *)
Definition send_ok (r : send_result) : Prop :=
  match r with Room n => (1 <= n)%Z | SendErr e => e <> EAGAIN end.

(** An answer of read that ends the outer loop. *)
Definition ends (r : read_result) : bool :=
  match r with Data (_ :: _) => false | _ => true end.

(** The bytes read until then. *)
Fixpoint offered (l : list read_result) : list Z :=
  match l with
  | Data (b :: bs) :: l' => (b :: bs) ++ offered l'
  | _ => []
  end.

(** The answers under which Pipe returns: read ends, no send is refused with
    EAGAIN, there are as many sends as bytes, and the count fits an [int]. *)
Record answers_ok (x : io) : Prop := mk_answers_ok {
  an_reads : existsb ends (reads x) = true;
  an_sends : Forall send_ok (sends x);
  an_enough : length (offered (reads x)) <= length (sends x);
  an_int : (Z.of_nat (length (offered (reads x))) <= INT_MAX)%Z
}.

(** One round: everything is sent, or a send fails after a prefix. *)
Lemma send_loop_round soc script d junk rem off total out :
  Forall send_ok script -> (0 <= off)%Z -> (0 < rem)%Z ->
  (off + rem = Z.of_nat (length d))%Z -> (rem <= Z.of_nat (length script))%Z ->
  (0 <= total)%Z -> (total + rem <= INT_MAX)%Z ->
  (exists script', send_loop soc script (d ++ junk) rem off total out =
      AllSent (total + rem) script' (out ++ sent_to soc (drop (Z.to_nat off) d)) /\
    Forall send_ok script' /\ (Z.of_nat (length script) <= Z.of_nat (length script') + rem)%Z) \/
  (exists script' k, send_loop soc script (d ++ junk) rem off total out =
      SendFailed script' (out ++ sent_to soc (take k (drop (Z.to_nat off) d)))).
Proof.
  assert (forall r, send_ok r -> send_ok (send_answer soc r)) as Hans
    by (intros r Hr; unfold send_answer; by destruct (soc <? 0)%Z).
  intros Hs. revert rem off total out.
  induction Hs as [|r script Hr Hs IH]; intros rem off total out Ho Hrem Hd Hlen Ht Hmax;
    simpl in *; [lia|].
  rewrite (proj2 (Z.ltb_ge _ _)) by lia. apply Hans in Hr.
  destruct (send_answer soc r) as [n|e]; simpl in Hr.
  2:{ right. exists script, 0. rewrite (proj2 (Z.eqb_neq _ _) Hr). simpl.
      by rewrite app_nil_r. }
  rewrite (proj2 (Z.ltb_ge _ _)) by lia. rewrite slice_in by lia.
  destruct (Z.eqb_spec (rem - n `min` rem) 0) as [E|E].
  - left. exists script. replace (n `min` rem)%Z with rem by lia. split; [|split; [done|lia]].
    do 2 f_equal. rewrite take_ge by (rewrite length_drop; lia). done.
  - replace (n `min` rem)%Z with n by lia.
    destruct (IH (rem - n) (off + n) (total + n)
      (out ++ sent_to soc (take (Z.to_nat n) (drop (Z.to_nat off) d))))%Z
      as [(script' & E' & Hs' & Hl')|(script' & k & E')]; [lia..| |].
    + left. exists script'. rewrite E'. split; [|split; [done|lia]]. f_equal; [lia|].
      rewrite <-app_assoc, <-sent_to_app. do 2 f_equal. apply slice_rest; lia.
    + right. exists script', (Z.to_nat n + k). rewrite E'. f_equal.
      rewrite <-app_assoc, <-sent_to_app. do 2 f_equal.
      rewrite Z2Nat.inj_add, <-drop_drop by lia. by rewrite take_take_drop.
Qed.

Lemma pipe_loop_returns soc rds buf total snd out :
  existsb ends rds = true -> Forall send_ok snd -> length (offered rds) <= length snd ->
  (0 <= total)%Z -> (total + Z.of_nat (length (offered rds)) <= INT_MAX)%Z ->
  exists n x' k, pipe_loop soc rds buf total snd out = Done n x' /\
    delivered x' = out ++ sent_to soc (take k (offered rds)) /\
    (- TRY_LATER <= n <= total + Z.of_nat k)%Z /\ k <= length (offered rds).
Proof.
  revert buf total snd out. induction rds as [|r rds IH]; intros buf total snd out He Hs Hl Ht Hm;
    [done|].
  assert (forall n x', pipe_loop soc (r :: rds) buf total snd out = Done n x' -> delivered x' = out ->
    (- TRY_LATER <= n <= total)%Z -> exists n x' k, pipe_loop soc (r :: rds) buf total snd out = Done n x' /\
      delivered x' = out ++ sent_to soc (take k (offered (r :: rds))) /\
      (- TRY_LATER <= n <= total + Z.of_nat k)%Z /\ k <= length (offered (r :: rds))) as Hstop.
  { intros n x' E Hd Hn. exists n, x', 0. rewrite take_0, app_nil_r. split_and!; try done; lia. }
  destruct r as [[|b bs]| |e].
  - eapply Hstop; [done|done|unfold TRY_LATER, SEND_FAIL; lia].
  - cbn [existsb ends orb] in He. cbn [offered] in *. rewrite length_app in Hl, Hm.
    set (d := b :: bs) in *. assert (0 < length d) as Hpos by (unfold d; simpl; lia).
    destruct (send_loop_round soc snd d (drop (length d) buf) (Z.of_nat (length d)) 0 total out)
      as [(snd1 & E & Hs1 & Hl1)|(snd1 & k & E)]; try done; try lia.
    + destruct (IH (d ++ drop (length d) buf) (total + Z.of_nat (length d))%Z snd1
        (out ++ sent_to soc d) He Hs1) as (n & x' & k & E' & Hd & Hn & Hk); [lia..|].
      exists n, x', (length d + k). split_and!; [| |lia|lia|rewrite length_app; lia].
      * unfold d at 1. cbn [pipe_loop]. fold d. rewrite E. by rewrite drop_0.
      * rewrite Hd, <-app_assoc, <-sent_to_app. do 2 f_equal. by rewrite take_app_add.
    + exists (- SEND_FAIL)%Z, (mkIo rds snd1 (out ++ sent_to soc (take k (drop (Z.to_nat 0) d)))), (k `min` length d).
      split_and!; [| |unfold TRY_LATER, SEND_FAIL; lia|unfold SEND_FAIL; lia|rewrite length_app; lia].
      * unfold d at 1. cbn [pipe_loop]. fold d. by rewrite E.
      * cbn [delivered]. rewrite drop_0. do 2 f_equal. rewrite take_app_le by lia.
        destruct (decide (k <= length d)); [by rewrite Nat.min_l by lia|].
        rewrite Nat.min_r by lia. by rewrite !take_ge by lia.
  - eapply Hstop; [done|done|unfold TRY_LATER, SEND_FAIL; lia].
  - simpl in Hstop |- *. destruct (e =? EAGAIN)%Z.
    + destruct (Z.eqb_spec total 0); (eapply Hstop; [done|done|unfold TRY_LATER; lia]).
    + destruct (e =? EWOULDBLOCK)%Z; (eapply Hstop; [done|done|unfold TRY_LATER, READ_FAIL; lia]).
Qed.

Lemma Pipe_returns p soc stack x : answers_ok x -> exists n x', Pipe p soc stack x = Done n x'.
Proof.
  intros [H1 H2 H3 H4].
  destruct (pipe_loop_returns (OtherSocket p soc) (reads x) stack 0 (sends x) (delivered x))
    as (n & x' & k & H & _); try done; try lia. by exists n, x'.
Qed.

(** C36. Pipe returns, whatever mix of chunks, closed peer, read errors, partial
    sends and failing sends it meets, provided that read(2) at some point
    answers with something else than data, that it answers with at most INT_MAX
    bytes before that, that no send is refused with EAGAIN, and that each send
    takes at least a byte or fails, so that as many sends as bytes are enough.
    The bytes sent are then a prefix of the bytes read, never reordered or
    repeated, all of them to the other socket of the pipe, and a positive result
    is at most their number. *)
Theorem pipe_terminates p soc stack x :
  answers_ok x ->
  exists n x' k, Pipe p soc stack x = Done n x' /\
    delivered x' = delivered x ++ sent_to (OtherSocket p soc) (take k (offered (reads x))) /\
    (- TRY_LATER <= n <= Z.of_nat k)%Z /\ k <= length (offered (reads x)).
Proof.
  intros [H1 H2 H3 H4].
  destruct (pipe_loop_returns (OtherSocket p soc) (reads x) stack 0 (sends x) (delivered x))
    as (n & x' & k & H); try done; try lia. by exists n, x', k.
Qed.

Lemma pipe_terminates_witness : exists n x' k,
  Pipe pipe_5_6 5 [] (mkIo [Data [1; 2; 3]%Z; Closed] [Room 2; SendErr 32; Room 1] (sent_to 6 [9]%Z))
    = Done n x' /\
  delivered x' = sent_to 6 [9]%Z ++ sent_to 6 (take k [1; 2; 3]%Z) /\
  (- TRY_LATER <= n <= Z.of_nat k)%Z /\ k <= 3.
Proof.
  apply (pipe_terminates pipe_5_6 5 []
    (mkIo [Data [1; 2; 3]%Z; Closed] [Room 2; SendErr 32; Room 1] (sent_to 6 [9]%Z))).
  split; [done|repeat constructor; simpl; unfold EAGAIN; lia|simpl; lia|simpl; unfold INT_MAX; lia].
Defined.

(** ** ShutdownOther *)

(** ShutdownOther on a pipe with both connections: one shutdown(2) of the other
    side unless it was shut down before; this side is only marked. *)
Lemma ShutdownOther_client ci co f s calls :
  Socket co <> Socket ci ->
  ShutdownOther (Socket ci) (joined ci co f s, calls) =
    Done tt (joined (SetShutdown ci) (Shutdown co).1 f s, calls ++ (Shutdown co).2).
Proof.
  intros Hne. unfold ShutdownOther, shutdown_other_out, Socket in *. unM. simpl.
  rewrite Z.eqb_refl. simpl. rewrite (proj2 (Z.eqb_neq _ _) Hne). simpl.
  unfold shutdown_out. simpl. by destruct (Shutdown co).
Qed.

Lemma ShutdownOther_server ci co f s calls :
  Socket co <> Socket ci ->
  ShutdownOther (Socket co) (joined ci co f s, calls) =
    Done tt (joined (Shutdown ci).1 (SetShutdown co) f s, calls ++ (Shutdown ci).2).
Proof.
  intros Hne. unfold ShutdownOther, Socket in *. unM. simpl.
  rewrite (proj2 (Z.eqb_neq _ _)) by congruence. simpl.
  unfold shutdown_in. simpl. by destruct (Shutdown ci).
Qed.

(** A pipe whose two ends report their end one after the other, in either
    order, makes exactly one shutdown(2) call: of the end that did not report
    first.  The end that reported first is never shut down by the pipe. *)
Theorem shutdown_other_once si so f s :
  so <> si ->
  (ShutdownOther si ≫= fun _ => ShutdownOther so) (joined (Connection.new si) (Connection.new so) f s, []) =
    Done tt (joined (SetShutdown (Connection.new si)) (SetShutdown (Connection.new so)) f s, [sys_shutdown so]) /\
  (ShutdownOther so ≫= fun _ => ShutdownOther si) (joined (Connection.new si) (Connection.new so) f s, []) =
    Done tt (joined (SetShutdown (Connection.new si)) (SetShutdown (Connection.new so)) f s, [sys_shutdown si]).
Proof.
  intros Hne. split; unfold mbind, M_bind.
  - change si with (Socket (Connection.new si)) at 1. rewrite ShutdownOther_client by done. simpl.
    change so with (Socket (SetShutdown (Connection.new so))) at 1.
    rewrite ShutdownOther_server by done. done.
  - change so with (Socket (Connection.new so)) at 1. rewrite ShutdownOther_server by done. simpl.
    change si with (Socket (SetShutdown (Connection.new si))) at 1.
    rewrite ShutdownOther_client by done. done.
Qed.

Lemma shutdown_other_once_witness :
  (ShutdownOther 5 ≫= fun _ => ShutdownOther 6) (joined (Connection.new 5) (Connection.new 6) None None, []) =
    Done tt (joined (SetShutdown (Connection.new 5)) (SetShutdown (Connection.new 6)) None None, [sys_shutdown 6]).
Proof. apply (shutdown_other_once 5 6 None None). discriminate. Defined.

(** Without a server connection, a report about another socket than the
    client's goes through a null pointer. *)
Lemma ShutdownOther_half ci h f s soc calls :
  conn_of h = None -> Socket ci <> soc ->
  ShutdownOther soc (mkTcpPipe (Some (mkHalfPipe (Some ci))) h f s, calls) = Crash NullDeref.
Proof.
  intros Hh Hne. unfold ShutdownOther, Socket in *. unM. simpl.
  rewrite (proj2 (Z.eqb_neq _ _) Hne). simpl. unfold set_shutdown_out. simpl.
  destruct h as [[[c|]]|]; simplify_eq/=; done.
Qed.

End TcpPipe.
