(* ===== verification/Client.v ===== *)
(** * The client pipeline (client_connect_handler.cc, client_request_handler.cc,
      client_response_handler.cc)

    Three stages: connect, request and response.  The state holds the three
    dispatchers with their multi-queues, the PurgeStates and Connections behind
    the shared pointers, the callbacks that wait in the communication handler,
    and the calls of the application's [done].  Each operation is one pass of a
    scheduler's loop, one callback, or a call of the application.  Who
    holds a Connection is the subject of ClientOwn.v. *)

From stdpp Require Import prelude gmap list strings.
From S2P Require Import Prelude Synchronization Job BaseMultiQueue JobTypes MultiQueue.
From S2P Require Import MultiQueueSpec Dispatcher ProxyPipe.

Module Client.
Import MQ MQSpec Dispatcher ForwardingDispatcher ConnectDispatcher TcpPipe.

Definition kLowPrioPort : string := "5010".
Definition kHighPrioPort : string := "5011".
Definition kIndex : Z := 0.
Definition kSizeMB : Z := 0.

(** [sizeof(Protocol)]: five ints. *)
Definition sizeof_Protocol : Z := 20.

Definition ConnectQueue : Type := @MultiQueue ConnectDataInternal.

(** A callback that the communication handler holds. *)
Inductive waiting : Type :=
| WConnect (job : Job ConnectDataInternal)
| WRequest (job : Job RequestData)
| WResponse (job : Job ResponseData).

(** A call of [done], with the PurgeState of the job it belongs to. *)
Record done_call := mkDone {
  dn_done : done_ref;
  dn_purge : purge_ref;
  dn_priority : N;
  dn_object_id : Z;
  dn_object : list Z
}.

Record client := mkClient {
  connect_stage : Dispatcher * (ConnectQueue * list PurgeState.PurgeState);
  request_stage : Dispatcher * @MultiQueue RequestData;
  response_stage : Dispatcher * @MultiQueue ResponseData;
  conns : list Connection.Connection;
  waits : list waiting;
  connects : list (string * string);
  requests : list (Z * Protocol);
  done_log : list done_call;
  _origin_dstage : bool
}.

Definition purge_states (c : client) : list PurgeState.PurgeState := (connect_stage c).2.2.

Definition on_connect {A} (m : M (Dispatcher * world (S := ConnectQueue)) A) : M client A :=
  zoom connect_stage (fun x c => mkClient x (request_stage c) (response_stage c) (conns c)
    (waits c) (connects c) (requests c) (done_log c) (_origin_dstage c)) m.

Definition on_request {A} (m : M (Dispatcher * @MultiQueue RequestData) A) : M client A :=
  zoom request_stage (fun x c => mkClient (connect_stage c) x (response_stage c) (conns c)
    (waits c) (connects c) (requests c) (done_log c) (_origin_dstage c)) m.

Definition on_response {A} (m : M (Dispatcher * @MultiQueue ResponseData) A) : M client A :=
  zoom response_stage (fun x c => mkClient (connect_stage c) (request_stage c) x (conns c)
    (waits c) (connects c) (requests c) (done_log c) (_origin_dstage c)) m.

Definition connect_queue {A} (m : M ConnectQueue A) : M client A :=
  on_connect (zoom (fun s => s.2.1) (fun q s => (s.1, (q, s.2.2))) m).

Definition request_queue {A} (m : M (@MultiQueue RequestData) A) : M client A :=
  on_request (zoom snd (fun q s => (s.1, q)) m).

Definition response_queue {A} (m : M (@MultiQueue ResponseData) A) : M client A :=
  on_response (zoom snd (fun q s => (s.1, q)) m).

Definition set_waits (l : list waiting) (c : client) : client :=
  mkClient (connect_stage c) (request_stage c) (response_stage c) (conns c) l (connects c)
    (requests c) (done_log c) (_origin_dstage c).

Definition add_connect (x : string * string) (c : client) : client :=
  mkClient (connect_stage c) (request_stage c) (response_stage c) (conns c) (waits c)
    (connects c ++ [x]) (requests c) (done_log c) (_origin_dstage c).

Definition add_conn (x : Connection.Connection) (c : client) : client :=
  mkClient (connect_stage c) (request_stage c) (response_stage c) (conns c ++ [x]) (waits c)
    (connects c) (requests c) (done_log c) (_origin_dstage c).

Definition add_request (x : Z * Protocol) (c : client) : client :=
  mkClient (connect_stage c) (request_stage c) (response_stage c) (conns c) (waits c)
    (connects c) (requests c ++ [x]) (done_log c) (_origin_dstage c).

Definition add_done (x : done_call) (c : client) : client :=
  mkClient (connect_stage c) (request_stage c) (response_stage c) (conns c) (waits c)
    (connects c) (requests c) (done_log c ++ [x]) (_origin_dstage c).

Definition set_purge_states (l : list PurgeState.PurgeState) (c : client) : client :=
  mkClient ((connect_stage c).1, ((connect_stage c).2.1, l)) (request_stage c)
    (response_stage c) (conns c) (waits c) (connects c) (requests c) (done_log c)
    (_origin_dstage c).

Definition add_wait (w : waiting) : M client unit := modify (fun c => set_waits (waits c ++ [w]) c).

(** [purge_state->IsPurged()] and [purge_state->SetPurged()] through the shared
    pointer. *)
Definition is_purged (r : purge_ref) : M client bool :=
  c ← get;
  s ← need NullDeref (purge_states c !! r);
  mret (PurgeState.IsPurged s).

Definition set_purged (r : purge_ref) : M client bool :=
  c ← get;
  s ← need NullDeref (purge_states c !! r);
  _ ← modify (set_purge_states (<[r := (PurgeState.SetPurged s).2]> (purge_states c)));
  mret (PurgeState.SetPurged s).1.

Definition socket_of (r : conn_ref) : M client Z :=
  c ← get;
  s ← need NullDeref (conns c !! r);
  mret (Connection.Socket s).

(** ** Purge along the stages *)

(** ResponseScheduler does not override Scheduler::Purge, which returns 0. *)
Definition ResponsePurge (id : N) : M client N :=
  n ← response_queue (Purge id);
  mret (u32_add n 0).

(** RequestDStage::Purge; RequestScheduler::Purge forwards to the response
    stage. *)
Definition RequestPurge (id : N) : M client N :=
  n ← request_queue (Purge id);
  m ← ResponsePurge id;
  mret (u32_add n m).

Definition ConnectPurge (id : N) : M client N :=
  n ← connect_queue (Purge id);
  m ← RequestPurge id;
  mret (u32_add n m).

(** ** The connect stage *)

Section Ops.
Context (now : nat -> Z).

(** ConnectDStage::Dispatch. *)
Definition Get (job : Job ConnectData) (requested_duplication : N) : M client unit :=
  on_connect (Connect (S := ConnectQueue) now MoveLast (Some job) requested_duplication).

(** One pass of ConnectScheduler::StartScheduling. *)
Definition ConnectPass (prio : N) : M client unit :=
  job ← connect_queue (Dequeue prio);
  match job with
  | None => mret tt
  | Some j =>
      b ← is_purged (ci_purge_state (job_data j));
      if (b : bool) then mret tt
      else
        _ ← modify (add_connect (ci_ip (job_data j),
              if (priority j =? 0)%N then kHighPrioPort else kLowPrioPort));
        add_wait (WConnect j)
  end.

Definition ConnectCallback (old_job : Job ConnectDataInternal) (soc : Z) (ready_for : ReadyFor) :
    M client unit :=
  if negb (rf_err ready_for =? 0)%Z then mret tt
  else
    _ ← CHECK (rf_out ready_for);
    c ← get;
    _ ← modify (add_conn (Connection.new soc));
    b ← is_purged (ci_purge_state (job_data old_job));
    if negb b && (0 <=? soc)%Z
    then on_request (Forward MoveLast
           (Some (mkJob (job_id old_job) (priority old_job) (duplication old_job) (now 0)
             (mkRequestData (length (conns c)) (ci_object_id (job_data old_job))
                (ci_done (job_data old_job)) (ci_purge_state (job_data old_job))))) 0)
    else mret tt.

(** ** The request stage *)

(** One pass of RequestScheduler::StartScheduling; [sent] is what send(2)
    returns. *)
Definition RequestPass (prio : N) (sent : Z) : M client unit :=
  job ← request_queue (Dequeue prio);
  match job with
  | None => mret tt
  | Some j =>
      b ← is_purged (rq_purge_state (job_data j));
      if (b : bool) then mret tt
      else
        soc ← socket_of (rq_connection (job_data j));
        _ ← modify (add_request (soc, mkProtocol REQUEST_GETFILE (i32 (Z.of_N (priority j)))
              (rq_object_id (job_data j)) kIndex kSizeMB));
        _ ← CHECK (sent =? sizeof_Protocol)%Z;
        add_wait (WRequest j)
  end.

Definition RequestCallback (old_job : Job RequestData) (soc : Z) (ready_for : ReadyFor) :
    M client unit :=
  if negb (rf_err ready_for =? 0)%Z then mret tt
  else
    _ ← CHECK (rf_in ready_for);
    b ← is_purged (rq_purge_state (job_data old_job));
    if negb b && (0 <=? soc)%Z
    then on_response (Forward MoveLast
           (Some (mkJob (job_id old_job) (priority old_job) (duplication old_job) (now 0)
             (mkResponseData (rq_connection (job_data old_job)) (rq_object_id (job_data old_job))
                0 None (rq_done (job_data old_job)) (rq_purge_state (job_data old_job))))) 0)
    else mret tt.

(** ** The response stage *)

(** The inner [while (true)] of ResponseScheduler::StartScheduling: the object
    so far, the index, and whether the socket was found closed.  A read with no
    room left asks for 0 bytes and returns 0; an index past the end makes the
    destination pointer and the unsigned count invalid. *)
Fixpoint read_loop (script : list read_result) (object : list Z) (index : N) :
    outcome (list read_result) (bool * list Z * N) :=
  let size := N.of_nat (length object) in
  if (size <? index)%N then Crash OutOfRange
  else if (index =? size)%N then Done (true, object, index) script
  else
    match script with
    | [] => Wait []
    | ReadErr e :: rest =>
        Done (negb (e =? EAGAIN)%Z && negb (e =? EWOULDBLOCK)%Z, object, index) rest
    | Closed :: rest | Data [] :: rest => Done (true, object, index) rest
    | Data d :: rest =>
        let n := Nat.min (length d) (N.to_nat (size - index)) in
        read_loop rest
          (take (N.to_nat index) object ++ take n d ++ drop (N.to_nat index + n) object)
          (u32_add index (N.of_nat n))
    end.

(** The server's header: the object is allocated and the index taken from it. *)
Definition read_header (header : option Protocol) (d : ResponseData) : M client ResponseData :=
  match rs_object d with
  | Some _ => mret d
  | None =>
      h ← need CheckFailure header;
      _ ← (if (p_size_bytes h <? 0)%Z then crash LengthError else mret tt);
      _ ← CHECK (negb (p_size_bytes h =? 0)%Z);
      mret (mkResponseData (rs_connection d) (rs_object_id d) (u32_of_Z (p_start_idx h))
              (Some (replicate (Z.to_nat (p_size_bytes h)) 0%Z)) (rs_done d) (rs_purge_state d))
  end.

(** The object is complete: the first duplicate to get here calls [done] and
    purges the others from the origin stage. *)
Definition complete (j : Job ResponseData) (object : list Z) : M client unit :=
  first ← set_purged (rs_purge_state (job_data j));
  if (first : bool) then
    _ ← modify (add_done (mkDone (rs_done (job_data j)) (rs_purge_state (job_data j))
          (priority j) (rs_object_id (job_data j)) object));
    c ← get;
    _ ← CHECK (_origin_dstage c);
    _ ← ConnectPurge (job_id j);
    mret tt
  else mret tt.

(** After the loop of a pass. *)
Definition after_reading (j : Job ResponseData) (d : ResponseData) (closed : bool)
    (object : list Z) (index : N) : M client unit :=
  if (index =? N.of_nat (length object))%N then complete j object
  else if closed then mret tt
  else add_wait (WResponse (mkJob (job_id j) (priority j) (duplication j) (start_time j)
         (mkResponseData (rs_connection d) (rs_object_id d) index (Some object) (rs_done d)
            (rs_purge_state d)))).

(** One pass of ResponseScheduler::StartScheduling. *)
Definition ResponsePass (prio : N) (header : option Protocol) (script : list read_result) :
    M client unit :=
  job ← response_queue (Dequeue prio);
  match job with
  | None => mret tt
  | Some j =>
      b ← is_purged (rs_purge_state (job_data j));
      if (b : bool) then mret tt
      else
        d ← read_header header (job_data j);
        object ← need NullDeref (rs_object d);
        match read_loop script object (rs_index d) with
        | Done (closed, object', index') _ => after_reading j d closed object' index'
        | Wait _ => fun c => Wait c
        | Crash e => crash e
        end
  end.

Definition ResponseCallback (now : nat -> Z) (old_job : Job ResponseData) (soc : Z)
    (ready_for : ReadyFor) : M client unit :=
  if negb (rf_err ready_for =? 0)%Z then mret tt
  else
    _ ← CHECK (rf_in ready_for);
    b ← is_purged (rs_purge_state (job_data old_job));
    if negb b && (0 <=? soc)%Z
    then on_response (Forward MoveLast
           (Some (mkJob (job_id old_job) (priority old_job) (duplication old_job) (now 0)
                    (job_data old_job))) 0)
    else mret tt.

End Ops.

(** ResponseDStage::RegisterOriginDStage, with a stage that is not null. *)
Definition RegisterOriginDStage : M client unit :=
  modify (fun c => mkClient (connect_stage c) (request_stage c) (response_stage c) (conns c)
    (waits c) (connects c) (requests c) (done_log c) true).

(** ** Runs *)

Inductive client_op : Type :=
| OpGet (job : Job ConnectData) (requested_duplication : N)
| OpConnectPass (prio : N)
| OpRequestPass (prio : N) (sent : Z)
| OpResponsePass (prio : N) (header : option Protocol) (script : list read_result)
| OpFire (i : nat) (soc : Z) (ready_for : ReadyFor)
| OpPurgeAll (id : N)
| OpRegisterOrigin.

(** The communication handler runs the callback number [i]. *)
Definition Fire (now : nat -> Z) (i : nat) (soc : Z) (ready_for : ReadyFor) : M client unit :=
  c ← get;
  match waits c !! i with
  | None => mret tt
  | Some w =>
      _ ← modify (set_waits (delete i (waits c)));
      match w with
      | WConnect j => ConnectCallback now j soc ready_for
      | WRequest j => RequestCallback now j soc ready_for
      | WResponse j => ResponseCallback now j soc ready_for
      end
  end.

Definition exec_client (now : nat -> Z) (o : client_op) : M client unit :=
  match o with
  | OpGet job d => Get now job d
  | OpConnectPass p => ConnectPass p
  | OpRequestPass p sent => RequestPass p sent
  | OpResponsePass p header script => ResponsePass p header script
  | OpFire i soc r => Fire now i soc r
  | OpPurgeAll id => _ ← ConnectPurge id; mret tt
  | OpRegisterOrigin => RegisterOriginDStage
  end.

(** A blocked pass leaves its state and the run goes on; a crash ends it. *)
Fixpoint run_client (now : nat -> Z) (l : list client_op) (c : client) : option client :=
  match l with
  | [] => Some c
  | o :: l' => c' ← out_state (exec_client now o c); run_client now l' c'
  end.

(** The three stages over [threads] priorities, all linked. *)
Definition client_new (max : N) : client :=
  let d := mkDispatcher true max (Some tt) in
  mkClient (d, (MQ.new max, [])) (d, MQ.new max) (d, MQ.new max) [] [] [] [] [] false.

End Client.
