(* ===== verification/ClientInv.v ===== *)
(** * Properties of the client pipeline *)

From stdpp Require Import prelude gmap list strings.
From S2P Require Import Prelude Synchronization Job BaseMultiQueue JobTypes MultiQueue.
From S2P Require Import MultiQueueSpec Dispatcher ProxyPipe Client.

Module ClientInv.
Import MQ MQSpec Dispatcher ForwardingDispatcher ConnectDispatcher TcpPipe Client.

(** ** The state a call leaves, finished or blocked *)

Lemma out_bind {S A B} (m : M S A) (k : A -> M S B) s s' :
  out_state ((m ≫= k) s) = Some s' ->
  out_state (m s) = Some s' \/
  exists a s1, m s = Done a s1 /\ out_state (k a s1) = Some s'.
Proof. unfold mbind, M_bind. destruct (m s) eqn:E; simpl; eauto. Qed.

Lemma out_zoom {S S' A} (view : S -> S') upd (m : M S' A) s s' :
  out_state (zoom view upd m s) = Some s' ->
  exists x, out_state (m (view s)) = Some x /\ s' = upd x s.
Proof. unfold zoom. destruct (m (view s)); simpl; naive_solver. Qed.

Lemma zoom_Done {S S' A} (view : S -> S') upd (m : M S' A) s a s' :
  zoom view upd m s = Done a s' -> exists x, m (view s) = Done a x /\ s' = upd x s.
Proof. unfold zoom. destruct (m (view s)); naive_solver. Qed.

(** ** Calls that touch neither the PurgeStates nor the log of [done] *)

Definition keeps {A} (m : M client A) : Prop :=
  forall c c', out_state (m c) = Some c' ->
    purge_states c' = purge_states c /\ done_log c' = done_log c.

Lemma keeps_bind {A B} (m : M client A) (k : A -> M client B) :
  keeps m -> (forall a, keeps (k a)) -> keeps (m ≫= k).
Proof.
  intros Hm Hk c c' [H|(a & c1 & E & H)]%out_bind; [by apply Hm|].
  destruct (Hk a _ _ H) as [-> ->]. apply Hm. by rewrite E.
Qed.

Lemma keeps_ret {A} (a : A) : keeps (mret a).
Proof. by intros c c' [= <-]. Qed.

Lemma keeps_get : keeps get.
Proof. by intros c c' [= <-]. Qed.

Lemma keeps_CHECK b : keeps (CHECK b).
Proof. destruct b; by intros c c' [= <-]. Qed.

Lemma keeps_need {A} e (o : option A) : keeps (need e o).
Proof. destruct o; by intros c c' [= <-]. Qed.

Lemma keeps_crash {A} e : keeps (crash (A := A) e).
Proof. done. Qed.

Lemma keeps_modify f :
  (forall c, purge_states (f c) = purge_states c /\ done_log (f c) = done_log c) ->
  keeps (modify f).
Proof. intros Hf c c' [= <-]. apply Hf. Qed.

Lemma keeps_connect_queue {A} (m : M ConnectQueue A) : keeps (connect_queue m).
Proof.
  intros c c' (x & H & ->)%out_zoom. apply out_zoom in H as (q & _ & ->). done.
Qed.

Lemma keeps_on_request {A} (m : M _ A) : keeps (on_request m).
Proof. by intros c c' (x & _ & ->)%out_zoom. Qed.

Lemma keeps_on_response {A} (m : M _ A) : keeps (on_response m).
Proof. by intros c c' (x & _ & ->)%out_zoom. Qed.

Create HintDb keeps.
Hint Resolve keeps_bind keeps_ret keeps_get keeps_CHECK keeps_need keeps_crash
  keeps_connect_queue keeps_on_request keeps_on_response : keeps.

(** Proves [keeps] of a straight-line computation. *)
Ltac keeps_tac :=
  repeat first
    [ apply keeps_bind; [|intros ?] | apply keeps_ret | apply keeps_get | apply keeps_CHECK
    | apply keeps_need | apply keeps_crash | apply keeps_connect_queue
    | apply keeps_on_request | apply keeps_on_response
    | (apply keeps_modify; done) | case_match | done ].

Lemma keeps_purge id : keeps (ConnectPurge id).
Proof.
  unfold ConnectPurge, RequestPurge, ResponsePurge, request_queue, response_queue. keeps_tac.
Qed.

Lemma keeps_is_purged r : keeps (is_purged r).
Proof. unfold is_purged. keeps_tac. Qed.

Lemma keeps_connect_pass p : keeps (ConnectPass p).
Proof. unfold ConnectPass, is_purged, add_wait. keeps_tac. Qed.

Lemma keeps_request_pass p sent : keeps (RequestPass p sent).
Proof. unfold RequestPass, is_purged, socket_of, request_queue, add_wait. keeps_tac. Qed.

Lemma keeps_fire now i soc r : keeps (Fire now i soc r).
Proof.
  unfold Fire, ConnectCallback, RequestCallback, ResponseCallback, is_purged. keeps_tac.
Qed.

(** ** Exactly one [done] per PurgeState that is set *)

Definition for_state (r : purge_ref) (d : done_call) : bool := (dn_purge d =? r)%nat.

Record done_once (c : client) : Prop := mk_done_once {
  dc_count : forall r s, purge_states c !! r = Some s ->
    count (for_state r) (done_log c) = b2n (PurgeState.IsPurged s);
  dc_range : forall d, d ∈ done_log c -> dn_purge d < length (purge_states c)
}.

Lemma done_once_keeps {A} (m : M client A) c c' :
  keeps m -> out_state (m c) = Some c' -> done_once c -> done_once c'.
Proof. intros Hm H [D1 D2]. destruct (Hm c c' H) as [E1 E2]. split; rewrite E1, E2; done. Qed.

(** The dispatch of the connect stage allocates at most one PurgeState. *)
Lemma duplicate_loop_heap now fuel job mp dup ps i prio s s' :
  out_state (duplicate_loop (S := ConnectQueue) now fuel job mp dup ps i prio s) = Some s' ->
  s'.2.2 = s.2.2.
Proof.
  revert i prio s. induction fuel as [|fuel IH]; intros i prio s; simpl;
    destruct (prio <=? mp)%N; try (by intros [= <-]).
  intros [H|(ip & s1 & E & H)]%out_bind.
  - destruct (_ !! i); [|done]. by injection H as <-.
  - assert (s1 = s) as -> by (destruct (_ !! i); [|done]; by injection E).
    apply out_bind in H as [H|(u & s2 & E2 & H)].
    + unfold on_queue in H. apply out_bind in H as [[= <-]|(d & s3 & [= <- <-] & H)]; [done|].
      case_match; [|done]. by apply out_zoom in H as (q & _ & ->).
    + rewrite (IH _ _ _ H). unfold on_queue in E2. revert E2. unM.
      case_match; [|done]. intros (q & _ & ->)%zoom_Done. done.
Qed.

Lemma get_heap now job d c c' :
  out_state (Get now job d c) = Some c' ->
  done_log c' = done_log c /\
  (purge_states c' = purge_states c \/ purge_states c' = purge_states c ++ [PurgeState.new]).
Proof.
  unfold Get. intros (x & H & ->)%out_zoom. split; [done|]. unfold purge_states. simpl.
  unfold Connect, Dispatch in H. revert H. unM.
  destruct (_running _); [|done]. destruct (_ <=? _)%N; [|done].
  unfold DuplicateAndEnqueue, make_purge_state. unM.
  destruct (_ <? _)%N; [|done]. destruct (_ =? _)%N; [|done].
  intros H%duplicate_loop_heap. right. exact H.
Qed.

Lemma done_once_get now job d c c' :
  out_state (Get now job d c) = Some c' -> done_once c -> done_once c'.
Proof.
  intros H [D1 D2]. destruct (get_heap _ _ _ _ _ H) as [El [Eh|Eh]]; split; rewrite ?El, ?Eh; try done.
  - intros r s [Hs|[Hge Hs]]%lookup_app_Some; [by apply D1|].
    destruct (r - length (purge_states c)) as [|n] eqn:En; [|by destruct n].
    injection Hs as <-. apply count_zero. intros i x Hx%list_elem_of_lookup_2.
    specialize (D2 x Hx). unfold for_state. apply Nat.eqb_neq. lia.
  - intros x Hx. rewrite length_app. specialize (D2 x Hx). lia.
Qed.

(** Completing a job sets its PurgeState and calls [done] together. *)
Lemma done_once_complete j object c c' :
  out_state (complete j object c) = Some c' -> done_once c -> done_once c'.
Proof.
  intros H Hc. unfold complete in H. revert H. unfold set_purged. unM.
  destruct (purge_states c !! rs_purge_state (job_data j)) as [s|] eqn:Es; [|done].
  set (r := rs_purge_state (job_data j)) in *.
  pose proof (dc_count _ Hc r s Es) as Hn. unfold PurgeState.IsPurged in Hn.
  unfold PurgeState.SetPurged. simpl. destruct (PurgeState._purged s) eqn:Ep; simpl.
  - intros [= <-]. destruct Hc as [D1 D2]. split; unfold purge_states; simpl.
    + intros r' s' Hs'. destruct (decide (r = r')) as [<-|Hne].
      * rewrite list_lookup_insert_eq in Hs' by (by eapply lookup_lt_Some).
        injection Hs' as <-. simpl. rewrite Hn. done.
      * rewrite list_lookup_insert_ne in Hs' by done. by apply D1.
    + rewrite length_insert. apply D2.
  - destruct (_origin_dstage c); [|done].
    match goal with |- context [ConnectPurge (job_id j) ?x] => set (c1 := x) end.
    assert (done_once c1) as Hc1.
    { destruct Hc as [D1 D2]. split; unfold purge_states; simpl.
      - intros r' s' Hs'. rewrite count_app. simpl. unfold for_state at 2. simpl.
        destruct (decide (r = r')) as [<-|Hne].
        + rewrite list_lookup_insert_eq in Hs' by (by eapply lookup_lt_Some).
          injection Hs' as <-. simpl. fold r. rewrite Nat.eqb_refl, Hn. done.
        + rewrite list_lookup_insert_ne in Hs' by done. fold r.
          rewrite (proj2 (Nat.eqb_neq r r')) by done. rewrite (D1 r' s' Hs'). lia.
      - rewrite length_insert. intros d [Hd | ->%list_elem_of_singleton]%elem_of_app;
          [by apply D2|]. simpl. fold r. by eapply lookup_lt_Some. }
    intros H. destruct (ConnectPurge (job_id j) c1) as [n c2|c2|] eqn:E; simpl in H; [| |done];
      injection H as <-; apply (done_once_keeps (ConnectPurge (job_id j)) c1);
      try done; try apply keeps_purge; by rewrite E.
Qed.

Lemma done_once_response p header script c c' :
  out_state (ResponsePass p header script c) = Some c' -> done_once c -> done_once c'.
Proof.
  unfold ResponsePass. intros H Hc.
  apply out_bind in H as [H|(job & c1 & E & H)].
  { eapply done_once_keeps; [|exact H|done]. unfold response_queue. keeps_tac. }
  assert (done_once c1) as Hc1.
  { eapply (done_once_keeps (response_queue (Dequeue p))); [|by rewrite E|done].
    unfold response_queue. keeps_tac. }
  destruct job as [j|]; [|by injection H as <-].
  apply out_bind in H as [H|(b & c2 & E2 & H)].
  { eapply done_once_keeps; [apply keeps_is_purged|exact H|done]. }
  assert (done_once c2) as Hc2.
  { eapply done_once_keeps; [apply (keeps_is_purged)|by rewrite E2|done]. }
  destruct b; [by injection H as <-|].
  apply out_bind in H as [H|(d & c3 & E3 & H)].
  { eapply (done_once_keeps (read_header header (job_data j)));
      [unfold read_header; keeps_tac|exact H|done]. }
  assert (done_once c3) as Hc3.
  { eapply (done_once_keeps (read_header header (job_data j)));
      [unfold read_header; keeps_tac|by rewrite E3|done]. }
  apply out_bind in H as [H|(object & c4 & E4 & H)].
  { eapply done_once_keeps; [apply keeps_need|exact H|done]. }
  assert (c4 = c3) as -> by (destruct (rs_object d); [by injection E4|done]).
  destruct (read_loop script object (rs_index d)) as [[[cl o] ix] rest|rest|e]; [| |done].
  - unfold after_reading in H. destruct (ix =? _)%N; [by eapply done_once_complete|].
    destruct cl; [by injection H as <-|].
    eapply done_once_keeps; [|exact H|done]. unfold add_wait. keeps_tac.
  - by injection H as <-.
Qed.

Lemma done_once_exec now o c c' :
  out_state (exec_client now o c) = Some c' -> done_once c -> done_once c'.
Proof.
  destruct o; simpl; intros H; eauto using done_once_get, done_once_response,
    done_once_keeps, keeps_connect_pass, keeps_request_pass, keeps_fire.
  - eapply (done_once_keeps (_ ← ConnectPurge id; mret tt)); [|exact H].
    apply keeps_bind; [apply keeps_purge|]. intros. apply keeps_ret.
  - injection H as <-. by intros [D1 D2].
Qed.

Lemma done_once_run now l c c' :
  run_client now l c = Some c' -> done_once c -> done_once c'.
Proof.
  revert c. induction l as [|o l IH]; intros c H Hc; simpl in H; [by injection H as <-|].
  apply bind_Some in H as (c1 & H1 & H). eauto using done_once_exec.
Qed.

(** C15. The application's callback runs at most once per request.  In every
    state the client reaches, whatever the network does and however the
    duplicates of a request race through the three stages, the number of [done]
    calls made for a request is 1 when its PurgeState is set and 0 otherwise. *)
Theorem done_called_once now max l c r s :
  run_client now l (client_new max) = Some c -> purge_states c !! r = Some s ->
  count (for_state r) (done_log c) = (if PurgeState.IsPurged s then 1 else 0).
Proof.
  intros Hr Hs. apply (done_once_run _ _ _ _ Hr); [|done].
  split; [by intros r' s'|by intros d ?%elem_of_nil].
Qed.

(** A request from Get to [done]: connect, request, one read, completion. *)
Definition get_run : list client_op :=
  [OpRegisterOrigin;
   OpGet (mkJob 5 0 0 0 (mkConnectData ["10.0.0.1"%string; "10.0.0.2"%string] 9 3)) 0;
   OpConnectPass 0; OpFire 0 4 (mkReadyFor false true 4 0);
   OpRequestPass 0 20; OpFire 0 4 (mkReadyFor true false 1 0);
   OpResponsePass 0 (Some (mkProtocol 11 0 9 0 2)) [Data [7; 8]%Z]].

Definition get_end : client := default (client_new 1) (run_client (fun _ => 0%Z) get_run (client_new 1)).

Lemma done_called_once_witness :
  done_log get_end = [mkDone 3 0 0 9 [7; 8]%Z] /\ count (for_state 0) (done_log get_end) = 1.
Proof.
  split; [vm_compute; reflexivity|].
  exact (done_called_once (fun _ => 0%Z) 1 get_run get_end 0 (PurgeState.mkPurgeState true)
    ltac:(vm_compute; reflexivity) ltac:(vm_compute; reflexivity)).
Defined.

End ClientInv.
