(* ===== verification/ClientFetch.v ===== *)
(** * Fetching an object through the response stage

    The object handed to the application is the byte stream the server sent,
    however it is cut into reads and rounds of monitoring; purging walks the
    three stages. *)

From stdpp Require Import prelude gmap list strings.
From S2P Require Import Prelude Synchronization Job BaseMultiQueue JobTypes MultiQueue.
From S2P Require Import MultiQueueSpec Dispatcher ProxyPipe Client.

Module ClientFetch.
Import MQ MQSpec Dispatcher ForwardingDispatcher ConnectDispatcher TcpPipe Client.

(** ** The read loop *)

Definition nonempty (d : list Z) : Prop := d <> [].

Lemma read_loop_data chunks rest object (k : nat) :
  Forall nonempty chunks -> is_u32 (N.of_nat (length object)) ->
  k + length (mjoin chunks) <= length object ->
  read_loop ((Data <$> chunks) ++ rest) object (N.of_nat k) =
    read_loop rest (take k object ++ mjoin chunks ++ drop (k + length (mjoin chunks)) object)
      (N.of_nat (k + length (mjoin chunks))).
Proof.
  intros Hc. revert object k. induction Hc as [|d chunks Hd Hc IH]; intros object k Hu Hk.
  - simpl. by rewrite Nat.add_0_r, take_drop.
  - change (mjoin (d :: chunks)) with (d ++ mjoin chunks) in *. rewrite length_app in *.
    assert (0 < length d) as Hpos by (destruct d; [done|simpl; lia]).
    change ((Data <$> d :: chunks) ++ rest) with (Data d :: (Data <$> chunks) ++ rest).
    cbn [read_loop]. rewrite (proj2 (N.ltb_ge _ _)) by lia.
    rewrite (proj2 (N.eqb_neq _ _)) by lia.
    replace (length d `min` N.to_nat (N.of_nat (length object) - N.of_nat k))
      with (length d) by lia.
    rewrite (take_ge d) by lia. rewrite Nat2N.id.
    rewrite u32_add_small by (u32_unfold; lia). rewrite <-Nat2N.inj_add.
    destruct d as [|x d]; [done|]. set (d1 := x :: d) in *.
    set (object1 := take k object ++ d1 ++ drop (k + length d1) object).
    assert (length object1 = length object) as Hl1.
    { unfold object1. rewrite !length_app, length_take, length_drop. lia. }
    rewrite IH by (rewrite ?Hl1; try done; lia).
    assert (take (k + length d1) object1 = take k object ++ d1) as ->.
    { unfold object1. rewrite app_assoc. apply take_app_length'.
      rewrite length_app, length_take. lia. }
    assert (drop (k + length d1 + length (mjoin chunks)) object1 =
      drop (k + (length d1 + length (mjoin chunks))) object) as ->.
    { unfold object1. rewrite app_assoc, drop_app_ge by (rewrite length_app, length_take; lia).
      rewrite length_app, length_take, drop_drop. f_equal. lia. }
    by rewrite <-!app_assoc, Nat.add_assoc.
Qed.

(** ** A client whose queues keep their contract *)

Definition linked_to {T} (max : N) (d : Dispatcher) (q : @MultiQueue T) (A : list (list (Job T))) :
    Prop :=
  linked d q /\ repr q A /\ _max_prio q = max.

Record client_ok (max : N) (c : client) Ac Ar As : Prop := mk_client_ok {
  ck_connect : linked_to max (connect_stage c).1 (connect_stage c).2.1 Ac;
  ck_request : linked_to max (request_stage c).1 (request_stage c).2 Ar;
  ck_response : linked_to max (response_stage c).1 (response_stage c).2 As
}.

Lemma linked_max {T} max d (q q' : @MultiQueue T) A A' :
  linked_to max d q A -> repr q' A' -> length A' = length A -> linked_to max d q' A'.
Proof.
  intros ((Hr & Hk & Hm) & HA & Hx) HA' Hlen.
  pose proof (repr_max _ _ HA). pose proof (repr_max _ _ HA').
  assert (_max_prio q' = _max_prio q) as E by lia.
  split; [|split; [done|congruence]]. split; [done|]. split; [done|].
  rewrite Hm. simpl. unfold MaxPriority. by rewrite E.
Qed.

(** A job that a stage forwards to the next one ends its priority's queue. *)
Lemma forward_linked {T} max d (q : @MultiQueue T) A j l :
  linked_to max d q A -> vec_get A (priority j) = Some l ->
  exists q', Forward MoveLast (Some j) 0 (d, q) = Done tt (d, q') /\
    linked_to max d q' (abs_enqueue j A) /\
    vec_get (abs_enqueue j A) (priority j) = Some (l ++ [j]).
Proof.
  intros Hl Hg. pose proof Hl as ((Hr & Hk & Hm) & HA & Hx).
  pose proof (vec_get_Some_lt _ _ _ Hg) as Hlt. pose proof (repr_max _ _ HA) as Hlen.
  assert (mq_repr q A) as RA by exact HA.
  pose proof (mq_repr_u32 _ _ RA) as Hu. simpl in Hm, Hu. unfold MaxPriority in Hm, Hu.
  destruct (forward_enqueues d q A j 0 (proj1 Hl) RA) as (q' & E & R & _).
  { rewrite Hm. lia. }
  { rewrite N.add_0_r. revert Hu. u32_unfold. lia. }
  exists q'. split; [exact E|]. split.
  - apply (linked_max _ _ _ _ _ _ Hl R), length_abs_enqueue.
  - by apply vec_get_enqueue_same.
Qed.

Lemma connect_purge_all max c Ac Ar As id :
  client_ok max c Ac Ar As ->
  exists c', ConnectPurge id c =
      Done (u32_add (u32 (N.of_nat (abs_count id Ac)))
              (u32_add (u32 (N.of_nat (abs_count id Ar)))
                 (u32_add (u32 (N.of_nat (abs_count id As))) 0))) c' /\
    client_ok max c' (abs_purge id Ac) (abs_purge id Ar) (abs_purge id As) /\
    done_log c' = done_log c.
Proof.
  intros [Hc Hr Hs]. destruct (repr_purge _ _ id (proj1 (proj2 Hc))) as (qc & Ec & Rc).
  destruct (repr_purge _ _ id (proj1 (proj2 Hr))) as (qr & Er & Rr).
  destruct (repr_purge _ _ id (proj1 (proj2 Hs))) as (qs & Es & Rs).
  unfold ConnectPurge, RequestPurge, ResponsePurge, connect_queue, request_queue,
    response_queue, on_connect, on_request, on_response, zoom. unM. simpl.
  rewrite Ec. simpl. rewrite Er. simpl. rewrite Es. simpl.
  eexists. split; [reflexivity|]. split; [|done].
  split; simpl; (eapply linked_max; [done|done|]); unfold abs_purge; by rewrite length_fmap.
Qed.

(** Purging a request walks the whole pipeline: it returns the number of
    its duplicates that wait in any of the three queues and removes them all,
    and no other job. *)
Theorem client_purge_total max c Ac Ar As id :
  client_ok max c Ac Ar As ->
  (N.of_nat (abs_count id Ac + abs_count id Ar + abs_count id As) < u32_mod)%N ->
  exists c', ConnectPurge id c =
      Done (N.of_nat (abs_count id Ac + abs_count id Ar + abs_count id As)) c' /\
    client_ok max c' (abs_purge id Ac) (abs_purge id Ar) (abs_purge id As).
Proof.
  intros Hok Hu. destruct (connect_purge_all _ _ _ _ _ id Hok) as (c' & E & Hok' & _).
  exists c'. split; [|done]. rewrite E. f_equal. rewrite !u32_small by (u32_unfold; lia).
  rewrite (u32_add_small _ 0) by (u32_unfold; lia).
  rewrite (u32_add_small (N.of_nat (abs_count id Ar))) by (u32_unfold; lia).
  rewrite u32_add_small by (u32_unfold; lia). lia.
Qed.

(** ** One pass of the response stage *)

Definition with_response (x : Dispatcher * @MultiQueue ResponseData) (c : client) : client :=
  mkClient (connect_stage c) (request_stage c) x (conns c) (waits c) (connects c) (requests c)
    (done_log c) (_origin_dstage c).

(** The job's object and index after the header has been dealt with. *)
Definition opened (header : option Protocol) (d : ResponseData) (o : list Z) (k : nat) : Prop :=
  match rs_object d with
  | Some o' => o' = o /\ rs_index d = N.of_nat k
  | None => exists h, header = Some h /\ o = replicate (length o) 0%Z /\ 0 < length o /\
      p_size_bytes h = Z.of_nat (length o) /\ p_start_idx h = Z.of_nat k
  end.

Definition with_object (d : ResponseData) (o : list Z) (k : nat) : ResponseData :=
  mkResponseData (rs_connection d) (rs_object_id d) (N.of_nat k) (Some o) (rs_done d)
    (rs_purge_state d).

Lemma u32_of_nat k : is_u32 (N.of_nat k) -> u32_of_Z (Z.of_nat k) = N.of_nat k.
Proof.
  intros Hk. unfold u32_of_Z. rewrite Z.mod_small by (revert Hk; u32_unfold; lia). lia.
Qed.

Lemma read_header_opened header d o k c :
  opened header d o k -> is_u32 (N.of_nat k) -> read_header header d c = Done (with_object d o k) c.
Proof.
  unfold opened, read_header. destruct d as [cn oi ix ob dn ps]; simpl.
  destruct ob as [o'|]; [by intros [-> ->]|].
  intros (h & -> & Ho & Hpos & Hsz & Hst) Hk. unM. rewrite Hsz, Hst.
  rewrite (proj2 (Z.ltb_ge _ _)) by lia. rewrite (proj2 (Z.eqb_neq _ _)) by lia. simpl.
  rewrite u32_of_nat by done. rewrite Nat2Z.id. unfold with_object. simpl. by rewrite <-Ho.
Qed.

Lemma response_dequeue max d q As (p : N) j l c :
  linked_to max d q As -> response_stage c = (d, q) -> vec_get As p = Some (j :: l) ->
  exists q', response_queue (Dequeue p) c = Done (Some j) (with_response (d, q') c) /\
    linked_to max d q' (vec_set p l As).
Proof.
  intros Hl Hc Hj. destruct (repr_dequeue _ _ _ _ _ (proj1 (proj2 Hl)) Hj) as (q' & E & R).
  exists q'. split.
  - unfold response_queue, on_response, zoom. rewrite Hc. simpl. rewrite E. done.
  - by apply (linked_max _ _ _ _ _ _ Hl R), length_vec_set.
Qed.

(** The part of a pass before the loop, for a job that is not purged. *)
Lemma response_pass_start p header script c c1 j o k st :
  response_queue (Dequeue p) c = Done (Some j) c1 ->
  purge_states c1 !! rs_purge_state (job_data j) = Some st -> PurgeState.IsPurged st = false ->
  opened header (job_data j) o k -> is_u32 (N.of_nat k) ->
  ResponsePass p header script c =
    match read_loop script o (N.of_nat k) with
    | Done (cl, o', k') _ => after_reading j (with_object (job_data j) o k) cl o' k' c1
    | Wait _ => Wait c1
    | Crash e => Crash e
    end.
Proof.
  intros E Hst Hp Ho Hk. unfold ResponsePass. rewrite (bind_Done _ _ _ _ _ E).
  rewrite (bind_Done _ _ _ false c1)
    by (unfold is_purged; unM; rewrite Hst; simpl; by rewrite Hp).
  rewrite (bind_Done _ _ _ _ _ (read_header_opened _ _ _ _ c1 Ho Hk)).
  rewrite (bind_Done _ _ _ o c1) by done. simpl.
  by destruct (read_loop script o (N.of_nat k)) as [[[? ?] ?]| |].
Qed.

(** What the object looks like after [chunks] were read at index [k]. *)
Definition filled (o : list Z) (k : nat) (chunks : list (list Z)) : list Z :=
  take k o ++ mjoin chunks ++ drop (k + length (mjoin chunks)) o.

Lemma length_filled o k chunks :
  k + length (mjoin chunks) <= length o -> length (filled o k chunks) = length o.
Proof. intros H. unfold filled. rewrite !length_app, length_take, length_drop. lia. Qed.

Lemma take_filled o k chunks :
  k + length (mjoin chunks) <= length o ->
  take (k + length (mjoin chunks)) (filled o k chunks) = take k o ++ mjoin chunks.
Proof.
  intros H. unfold filled. rewrite app_assoc. apply take_app_length'.
  rewrite length_app, length_take. lia.
Qed.

Lemma read_loop_partial chunks o k :
  Forall nonempty chunks -> is_u32 (N.of_nat (length o)) -> k + length (mjoin chunks) < length o ->
  read_loop ((Data <$> chunks) ++ [ReadErr EAGAIN]) o (N.of_nat k) =
    Done (false, filled o k chunks, N.of_nat (k + length (mjoin chunks))) [].
Proof.
  intros Hc Hu Hk. rewrite read_loop_data by (done || lia). fold (filled o k chunks).
  cbn [read_loop]. rewrite length_filled by lia.
  rewrite (proj2 (N.ltb_ge _ _)) by lia. by rewrite (proj2 (N.eqb_neq _ _)) by lia.
Qed.

Lemma read_loop_full chunks o k :
  Forall nonempty chunks -> is_u32 (N.of_nat (length o)) -> k + length (mjoin chunks) = length o ->
  read_loop (Data <$> chunks) o (N.of_nat k) =
    Done (true, take k o ++ mjoin chunks, N.of_nat (length o)) [].
Proof.
  intros Hc Hu Hk. rewrite <-(app_nil_r (Data <$> chunks)).
  rewrite read_loop_data by (done || lia). rewrite Hk. rewrite (drop_ge o) by lia.
  rewrite app_nil_r. cbn [read_loop]. rewrite length_app, length_take.
  rewrite (proj2 (N.ltb_ge _ _)) by lia. by rewrite (proj2 (N.eqb_eq _ _)) by lia.
Qed.

(** ** Rounds of monitoring *)

Section Fetch.
Context (now : nat -> Z) (max p : N).

(** The socket is readable. *)
Definition readable (soc : Z) (r : ReadyFor) : Prop :=
  (0 <= soc)%Z /\ rf_err r = 0%Z /\ rf_in r = true.

(** A client that is fetching [j]: the only job of its response queue, not
    purged, with [k] bytes of the object [o] read; [As] are the other jobs of the
    response stage. *)
Record fetching (c : client) (Ac : list (list (Job ConnectDataInternal)))
    (Ar : list (list (Job RequestData))) (As : list (list (Job ResponseData)))
    (header : option Protocol) (j : Job ResponseData) (o : list Z) (k : nat) : Prop := mk_fetching {
  fe_ok : exists A, client_ok max c Ac Ar A /\ vec_get A p = Some [j] /\ vec_set p [] A = As;
  fe_prio : priority j = p;
  fe_state : exists st, purge_states c !! rs_purge_state (job_data j) = Some st /\
    PurgeState.IsPurged st = false;
  fe_opened : opened header (job_data j) o k;
  fe_size : is_u32 (N.of_nat (length o));
  fe_origin : _origin_dstage c = true
}.

Definition next_job (j : Job ResponseData) (o : list Z) (k : nat) : Job ResponseData :=
  mkJob (job_id j) (priority j) (duplication j) (now 0) (with_object (job_data j) o k).

Lemma fetch_round c Ac Ar As header j o k chunks soc r :
  fetching c Ac Ar As header j o k -> Forall nonempty chunks ->
  k + length (mjoin chunks) < length o -> readable soc r ->
  exists c', run_client now
      [OpResponsePass p header ((Data <$> chunks) ++ [ReadErr EAGAIN]);
       OpFire (length (waits c)) soc r] c = Some c' /\
    fetching c' Ac Ar As None (next_job j (filled o k chunks) (k + length (mjoin chunks)))
      (filled o k chunks) (k + length (mjoin chunks)) /\
    waits c' = waits c /\ done_log c' = done_log c.
Proof.
  intros [(A & Hok & Hj & HA) Hp (st & Hst & Hpu) Ho Hu Hor] Hc Hk (Hsoc & Herr & Hin).
  destruct (response_stage c) as [d q] eqn:Ers. destruct Hok as [Kc Kr Ks].
  rewrite Ers in Ks. simpl in Ks.
  destruct (response_dequeue max d q A p j [] c Ks Ers Hj) as (q' & E & Ks').
  pose proof (vec_get_Some_lt _ _ _ Hj) as Hlt.
  simpl run_client.
  rewrite (response_pass_start p header _ c _ j o k st E Hst Hpu Ho)
    by (revert Hu; u32_unfold; lia).
  rewrite read_loop_partial by done. unfold after_reading.
  rewrite length_filled by lia. rewrite (proj2 (N.eqb_neq _ _)) by lia. simpl.
  unfold Fire. unM. simpl. rewrite lookup_app_r, Nat.sub_diag by lia. simpl.
  unfold ResponseCallback. rewrite Herr, Hin. simpl. unfold is_purged. unM. simpl.
  unfold purge_states in Hst |- *. simpl. rewrite Hst. rewrite Hpu. simpl.
  rewrite (proj2 (Z.leb_le _ _) Hsoc). unfold on_response, zoom. simpl.
  set (j2 := next_job j (filled o k chunks) (k + length (mjoin chunks))).
  assert (priority j2 = p) as Hp2 by done.
  destruct (forward_linked max d q' (vec_set p [] A) j2 [] Ks') as (q2 & E2 & Ks2 & Hg2).
  { rewrite Hp2. by apply vec_get_set_eq. }
  pose proof E2 as E3. unfold j2, next_job, with_object in E3. rewrite E3. simpl.
  eexists. split; [reflexivity|]. rewrite delete_middle, app_nil_r.
  split; [|done]. split; simpl; try done.
  - exists (abs_enqueue j2 (vec_set p [] A)). split; [by split|]. rewrite Hp2 in Hg2.
    split; [done|]. unfold abs_enqueue. rewrite Hp2, vec_get_set_eq by done.
    by rewrite !vec_set_twice.
  - exists st. done.
  - rewrite length_filled by lia. done.
Qed.

(** No duplicate of [id] waits in a queue; the other jobs have not moved. *)
Definition purged (id : N) Ac Ar As (c : client) : Prop :=
  client_ok max c (abs_purge id Ac) (abs_purge id Ar) (abs_purge id As).

Lemma fetch_last c Ac Ar As header j o k chunks :
  fetching c Ac Ar As header j o k -> Forall nonempty chunks ->
  k + length (mjoin chunks) = length o ->
  exists c', run_client now [OpResponsePass p header (Data <$> chunks)] c = Some c' /\
    done_log c' = done_log c ++
      [mkDone (rs_done (job_data j)) (rs_purge_state (job_data j)) p
         (rs_object_id (job_data j)) (take k o ++ mjoin chunks)] /\
    purged (job_id j) Ac Ar As c'.
Proof.
  intros [(A & Hok & Hj & HA) Hp (st & Hst & Hpu) Ho Hu Hor] Hc Hk.
  destruct (response_stage c) as [d q] eqn:Ers. destruct Hok as [Kc Kr Ks].
  rewrite Ers in Ks. simpl in Ks.
  destruct (response_dequeue max d q A p j [] c Ks Ers Hj) as (q' & E & Ks').
  simpl run_client.
  rewrite (response_pass_start p header _ c _ j o k st E Hst Hpu Ho)
    by (revert Hu; u32_unfold; lia).
  rewrite read_loop_full by done. unfold after_reading.
  rewrite length_app, length_take.
  rewrite (proj2 (N.eqb_eq _ _)) by lia. unfold complete, set_purged. unM. simpl.
  unfold purge_states in Hst |- *. simpl. rewrite Hst. unfold PurgeState.IsPurged in Hpu.
  unfold PurgeState.SetPurged. rewrite Hpu. simpl. rewrite Hor.
  match goal with |- context [ConnectPurge (job_id j) ?x] => set (c2 := x) end.
  destruct (connect_purge_all max c2 Ac Ar As (job_id j)) as (c' & E' & Hok' & El).
  { rewrite <-HA. by split. }
  rewrite E'. simpl. exists c'. split; [done|]. rewrite El. simpl. rewrite Hp.
  by split.
Qed.

(** The operations of a fetch: every round but the last ends in EAGAIN and is
    followed by the socket becoming readable again. *)
Fixpoint fetch_ops (w : nat) (soc : Z) (r : ReadyFor) (header : option Protocol)
    (rounds : list (list (list Z))) (final : list (list Z)) : list client_op :=
  match rounds with
  | [] => [OpResponsePass p header (Data <$> final)]
  | chunks :: rounds' =>
      OpResponsePass p header ((Data <$> chunks) ++ [ReadErr EAGAIN]) ::
      OpFire w soc r :: fetch_ops w soc r None rounds' final
  end.

Lemma run_client_app l1 l2 c c1 :
  run_client now l1 c = Some c1 -> run_client now (l1 ++ l2) c = run_client now l2 c1.
Proof.
  revert c. induction l1 as [|o l1 IH]; intros c H; simpl in *; [by injection H as <-|].
  apply bind_Some in H as (c2 & E & H). rewrite E. simpl. by apply IH.
Qed.

Lemma fetch_stream c Ac Ar As header j o k soc r rounds final :
  fetching c Ac Ar As header j o k -> readable soc r ->
  Forall (Forall nonempty) rounds -> Forall nonempty final -> final <> [] ->
  k + length (mjoin (mjoin rounds)) + length (mjoin final) = length o ->
  exists c', run_client now (fetch_ops (length (waits c)) soc r header rounds final) c = Some c' /\
    done_log c' = done_log c ++
      [mkDone (rs_done (job_data j)) (rs_purge_state (job_data j)) p (rs_object_id (job_data j))
         (take k o ++ mjoin (mjoin rounds) ++ mjoin final)] /\
    purged (job_id j) Ac Ar As c'.
Proof.
  intros Hf Hrd Hr Hl Hne. revert c header j o k Hf.
  assert (0 < length (mjoin final)) as Hpos.
  { destruct Hl as [|x l Hx _]; [done|]. change (mjoin (x :: l)) with (x ++ mjoin l).
    rewrite length_app. destruct x; [done|simpl; lia]. }
  induction Hr as [|chunks rounds Hc Hr IH]; intros c header j o k Hf Hk.
  - simpl in *. apply (fetch_last c Ac Ar As header j o k final Hf Hl). lia.
  - change (mjoin (chunks :: rounds)) with (chunks ++ mjoin rounds) in *.
    assert (mjoin (chunks ++ mjoin rounds) = mjoin chunks ++ mjoin (mjoin rounds)) as Ej.
    { clear. induction chunks as [|x l IH]; [done|].
      change (x ++ mjoin (l ++ mjoin rounds) = (x ++ mjoin l) ++ mjoin (mjoin rounds)).
      by rewrite IH, app_assoc. }
    rewrite Ej in *. rewrite length_app in Hk.
    destruct (fetch_round c Ac Ar As header j o k chunks soc r Hf Hc ltac:(lia) Hrd)
      as (c1 & E1 & Hf1 & Hw & Hd).
    destruct (IH c1 None _ _ _ Hf1) as (c' & E' & Hd' & Hpu'); [rewrite length_filled; lia|].
    exists c'. split; [|split; [|exact Hpu']].
    + change (fetch_ops (length (waits c)) soc r header (chunks :: rounds) final) with
        ([OpResponsePass p header ((Data <$> chunks) ++ [ReadErr EAGAIN]);
          OpFire (length (waits c)) soc r] ++
         fetch_ops (length (waits c)) soc r None rounds final).
      rewrite (run_client_app _ _ _ _ E1). by rewrite <-Hw.
    + rewrite Hd', Hd, take_filled by lia. simpl. by rewrite <-!app_assoc.
Qed.

(** C12. The object handed to [done] is the server's byte stream: for any way the
    stream is cut into reads and into rounds of monitoring, the fetch returns,
    and [done] has been called once more, with the priority and object id of the
    job and the bytes in order (after the [k] bytes the header's start index
    skips); no duplicate of the job is left in a queue of any stage, and no other
    job of any stage is touched. *)
Theorem fetch_delivers_stream c Ac Ar As header j o k soc r rounds final :
  fetching c Ac Ar As header j o k -> readable soc r ->
  Forall (Forall nonempty) rounds -> Forall nonempty final -> final <> [] ->
  k + length (mjoin (mjoin rounds)) + length (mjoin final) = length o ->
  exists c', run_client now (fetch_ops (length (waits c)) soc r header rounds final) c = Some c' /\
    done_log c' = done_log c ++
      [mkDone (rs_done (job_data j)) (rs_purge_state (job_data j)) p (rs_object_id (job_data j))
         (take k o ++ mjoin (mjoin rounds) ++ mjoin final)] /\
    purged (job_id j) Ac Ar As c'.
Proof. apply fetch_stream. Qed.

(** The header's start index is not checked: a server that answers with a
    start index past the object's size makes the response stage write outside
    the buffer. *)
Theorem response_start_index_unchecked c c1 j h script st :
  response_queue (Dequeue p) c = Done (Some j) c1 ->
  purge_states c1 !! rs_purge_state (job_data j) = Some st -> PurgeState.IsPurged st = false ->
  rs_object (job_data j) = None -> (0 < p_size_bytes h < p_start_idx h)%Z ->
  is_i32 (p_start_idx h) ->
  ResponsePass p (Some h) script c = Crash OutOfRange.
Proof.
  intros E Hst Hpu Ho Hsz Hi. unfold is_i32, INT_MIN, INT_MAX in Hi.
  rewrite (response_pass_start p (Some h) script c c1 j
    (replicate (Z.to_nat (p_size_bytes h)) 0%Z) (Z.to_nat (p_start_idx h)) st); try done.
  - assert (forall l, read_loop l (replicate (Z.to_nat (p_size_bytes h)) 0%Z)
      (N.of_nat (Z.to_nat (p_start_idx h))) = Crash OutOfRange) as ->; [|done].
    intros l. destruct l; cbn [read_loop]; rewrite length_replicate;
      by rewrite (proj2 (N.ltb_lt _ _)) by lia.
  - unfold opened. rewrite Ho. exists h. rewrite length_replicate. repeat split; try done; lia.
  - u32_unfold. lia.
Qed.

End Fetch.
(** ** A concrete client *)

Definition zero (_ : nat) : Z := 0.

Definition ready_in : ReadyFor := mkReadyFor true false 1 0.
Definition ready_out : ReadyFor := mkReadyFor false true 4 0.

Definition fetch_job : Job ResponseData := mkJob 5 0 0 0 (mkResponseData 0 9 0 None 3 0).

(** One job in the response queue, nothing read yet. *)
Definition fetch_client (q : @MultiQueue ResponseData) : client :=
  let d := mkDispatcher true 1 (Some tt) in
  mkClient (d, (MQ.new 1, [PurgeState.new])) (d, MQ.new 1) (d, q) [Connection.new 4] [] [] []
    [] true.

Lemma new_linked T : linked_to 1 (mkDispatcher true 1 (Some tt)) (@MQ.new T 1) [[]; []].
Proof. split; [done|]. split; [by apply (repr_new 1)|done]. Qed.

Lemma fetch_client_ok : exists q,
  client_ok 1 (fetch_client q) [[]; []] [[]; []] [[fetch_job]; []].
Proof.
  destruct (repr_enqueue (MQ.new 1) [[]; []] fetch_job) as (q & E & R & Hm);
    [by apply (repr_new 1)|done|].
  exists q. split; simpl; try apply new_linked.
  by apply (linked_max 1 _ _ _ _ _ (new_linked _) R).
Qed.

Lemma fetch_client_fetching : exists q,
  fetching 1 0 (fetch_client q) [[]; []] [[]; []] [[]; []] (Some (mkProtocol 11 0 9 0 3)) fetch_job
    [0; 0; 0]%Z 0.
Proof.
  destruct fetch_client_ok as [q Hok]. exists q. split; simpl; try done.
  - by exists [[fetch_job]; []].
  - by exists PurgeState.new.
  - exists (mkProtocol 11 0 9 0 3). repeat split; simpl; lia.
Qed.

Lemma fetch_delivers_stream_witness : exists c c',
  run_client zero (fetch_ops 0 0 4 ready_in (Some (mkProtocol 11 0 9 0 3)) [[[7]%Z]] [[8]%Z; [9]%Z]) c
    = Some c' /\ done_log c' = done_log c ++ [mkDone 3 0 0 9 [7; 8; 9]%Z] /\
    purged 1 5 [[]; []] [[]; []] [[]; []] c'.
Proof.
  destruct fetch_client_fetching as [q Hf]. exists (fetch_client q).
  apply (fetch_delivers_stream zero 1 0 (fetch_client q) [[]; []] [[]; []] [[]; []]
    (Some (mkProtocol 11 0 9 0 3)) fetch_job [0; 0; 0]%Z 0 4 ready_in [[[7]%Z]] [[8]%Z; [9]%Z] Hf);
    [repeat split; discriminate|repeat constructor; discriminate
    |repeat constructor; discriminate|discriminate|reflexivity].
Defined.

Lemma client_purge_total_witness : exists q c',
  ConnectPurge 5 (fetch_client q) = Done 1%N c' /\
  client_ok 1 c' [[]; []] [[]; []] [[]; []].
Proof.
  destruct fetch_client_ok as [q Hok]. exists q.
  exact (client_purge_total 1 (fetch_client q) _ _ _ 5 Hok ltac:(reflexivity)).
Defined.

(** The response queue after the job was enqueued. *)
Definition fetch_queue : @MultiQueue ResponseData :=
  default (MQ.new 1) (out_state (MQ.Enqueue (Some fetch_job) (MQ.new 1))).

Lemma response_start_index_unchecked_witness :
  ResponsePass 0 (Some (mkProtocol 11 0 9 11 10)) [] (fetch_client fetch_queue) =
    Crash OutOfRange.
Proof.
  eapply (response_start_index_unchecked 0 (fetch_client fetch_queue) _ fetch_job
    (mkProtocol 11 0 9 11 10) [] PurgeState.new);
    [vm_compute; reflexivity|reflexivity|reflexivity|reflexivity
    |split; reflexivity|split; discriminate].
Defined.

End ClientFetch.
