(* ===== verification/ClientGet.v ===== *)
(** * A request through the three stages of the client

    From ConnectDStage::Dispatch to the call of [done]: whichever duplicate gets
    its connection first carries the request through, and takes the others out of
    the queues. *)

From stdpp Require Import prelude gmap list strings.
From S2P Require Import Prelude Synchronization Job BaseMultiQueue JobTypes MultiQueue.
From S2P Require Import MultiQueueSpec Dispatcher ProxyPipe Client ClientInv ClientFetch.

Module ClientGet.
Import MQ MQSpec Dispatcher ForwardingDispatcher ConnectDispatcher TcpPipe Client ClientFetch.

Section Get.
Context (now : nat -> Z) (max p : N).

(** The socket is connected. *)
Definition connected (soc : Z) (r : ReadyFor) : Prop :=
  (0 <= soc)%Z /\ rf_err r = 0%Z /\ rf_out r = true.

Definition port_of (prio : N) : string := if (prio =? 0)%N then kHighPrioPort else kLowPrioPort.

(** ** One step of each stage *)

Lemma dequeue_linked {T} d (q : @MultiQueue T) A j l :
  linked_to max d q A -> vec_get A p = Some (j :: l) ->
  exists q', Dequeue p q = Done (Some j) q' /\ linked_to max d q' (vec_set p l A).
Proof.
  intros Hl Hj. destruct (repr_dequeue _ _ _ _ _ (proj1 (proj2 Hl)) Hj) as (q' & E & R).
  exists q'. split; [done|]. by apply (linked_max _ _ _ _ _ _ Hl R), length_vec_set.
Qed.

Lemma connect_pass_step d q heap Ac j l rqs rss cs ws cn rq dl og st :
  linked_to max d q Ac -> vec_get Ac p = Some (j :: l) ->
  heap !! ci_purge_state (job_data j) = Some st -> PurgeState.IsPurged st = false ->
  exists q', linked_to max d q' (vec_set p l Ac) /\
    ConnectPass p (mkClient (d, (q, heap)) rqs rss cs ws cn rq dl og) =
      Done tt (mkClient (d, (q', heap)) rqs rss cs (ws ++ [WConnect j])
        (cn ++ [(ci_ip (job_data j), port_of (priority j))]) rq dl og).
Proof.
  intros Hl Hj Hst Hpu. destruct (dequeue_linked d q Ac j l Hl Hj) as (q' & E & Hl').
  exists q'. split; [done|]. unfold ConnectPass, connect_queue, on_connect, is_purged, zoom.
  unM. simpl. rewrite E. simpl. unfold purge_states. simpl. rewrite Hst. by rewrite Hpu.
Qed.

Lemma request_pass_step d q Ar j l ps cs ws cn rq dl og rss cst st soc :
  linked_to max d q Ar -> vec_get Ar p = Some (j :: l) ->
  ps.2.2 !! rq_purge_state (job_data j) = Some st -> PurgeState.IsPurged st = false ->
  cs !! rq_connection (job_data j) = Some cst -> Connection.Socket cst = soc ->
  exists q', linked_to max d q' (vec_set p l Ar) /\
    RequestPass p sizeof_Protocol (mkClient ps (d, q) rss cs ws cn rq dl og) =
      Done tt (mkClient ps (d, q') rss cs (ws ++ [WRequest j]) cn
        (rq ++ [(soc, mkProtocol REQUEST_GETFILE (i32 (Z.of_N (priority j)))
                        (rq_object_id (job_data j)) kIndex kSizeMB)]) dl og).
Proof.
  intros Hl Hj Hst Hpu Hc <-. destruct (dequeue_linked d q Ar j l Hl Hj) as (q' & E & Hl').
  exists q'. split; [done|].
  unfold RequestPass, request_queue, on_request, is_purged, socket_of, zoom.
  unM. simpl. rewrite E. simpl. unfold purge_states. simpl. rewrite Hst, Hpu. simpl.
  by rewrite Hc.
Qed.

(** The job a connect callback hands to the request stage, and the one a request
    callback hands to the response stage. *)
Definition request_job (j : Job ConnectDataInternal) (conn : conn_ref) : Job RequestData :=
  mkJob (job_id j) (priority j) (duplication j) (now 0)
    (mkRequestData conn (ci_object_id (job_data j)) (ci_done (job_data j))
       (ci_purge_state (job_data j))).

Definition response_job (j : Job RequestData) : Job ResponseData :=
  mkJob (job_id j) (priority j) (duplication j) (now 0)
    (mkResponseData (rq_connection (job_data j)) (rq_object_id (job_data j)) 0 None
       (rq_done (job_data j)) (rq_purge_state (job_data j))).

Lemma fire_last w ws ps rqs rss cs cn rq dl og soc r :
  Fire now (length ws) soc r (mkClient ps rqs rss cs (ws ++ [w]) cn rq dl og) =
    match w with
    | WConnect j => ConnectCallback now j soc r
    | WRequest j => RequestCallback now j soc r
    | WResponse j => ResponseCallback now j soc r
    end (mkClient ps rqs rss cs ws cn rq dl og).
Proof.
  unfold Fire. unM. simpl. rewrite lookup_app_r, Nat.sub_diag by lia. simpl.
  unfold set_waits. simpl. rewrite delete_middle, app_nil_r. by destruct w.
Qed.

Lemma connect_callback_step d q Ar j l ps rss cs ws cn rq dl og st soc r :
  linked_to max d q Ar -> vec_get Ar (priority j) = Some l -> connected soc r ->
  ps.2.2 !! ci_purge_state (job_data j) = Some st -> PurgeState.IsPurged st = false ->
  exists q', linked_to max d q' (abs_enqueue (request_job j (length cs)) Ar) /\
    vec_get (abs_enqueue (request_job j (length cs)) Ar) (priority j) =
      Some (l ++ [request_job j (length cs)]) /\
    Fire now (length ws) soc r (mkClient ps (d, q) rss cs (ws ++ [WConnect j]) cn rq dl og) =
      Done tt (mkClient ps (d, q') rss (cs ++ [Connection.new soc]) ws cn rq dl og).
Proof.
  intros Hl Hg (Hs & He & Ho) Hst Hpu.
  destruct (forward_linked max d q Ar (request_job j (length cs)) l Hl Hg) as (q' & E & Hl' & Hg').
  exists q'. split; [done|]. split; [done|]. rewrite fire_last.
  unfold ConnectCallback. rewrite He, Ho. unM. simpl. unfold is_purged, purge_states.
  unM. simpl. unfold purge_states. simpl. rewrite Hst, Hpu. simpl.
  rewrite (proj2 (Z.leb_le _ _) Hs).
  unfold on_request, zoom. simpl. unfold request_job in E. rewrite E. done.
Qed.

Lemma request_callback_step d q As j l ps rqs cs ws cn rq dl og st soc r :
  linked_to max d q As -> vec_get As (priority j) = Some l -> readable soc r ->
  ps.2.2 !! rq_purge_state (job_data j) = Some st -> PurgeState.IsPurged st = false ->
  exists q', linked_to max d q' (abs_enqueue (response_job j) As) /\
    vec_get (abs_enqueue (response_job j) As) (priority j) = Some (l ++ [response_job j]) /\
    Fire now (length ws) soc r (mkClient ps rqs (d, q) cs (ws ++ [WRequest j]) cn rq dl og) =
      Done tt (mkClient ps rqs (d, q') cs ws cn rq dl og).
Proof.
  intros Hl Hg (Hs & He & Hi) Hst Hpu.
  destruct (forward_linked max d q As (response_job j) l Hl Hg) as (q' & E & Hl' & Hg').
  exists q'. split; [done|]. split; [done|]. rewrite fire_last.
  unfold RequestCallback. rewrite He, Hi. unM. simpl. unfold is_purged.
  unM. simpl. unfold purge_states. simpl. rewrite Hst, Hpu. simpl.
  rewrite (proj2 (Z.leb_le _ _) Hs).
  unfold on_response, zoom. simpl. unfold response_job in E. rewrite E. done.
Qed.

(** ** From the dispatch to the response stage *)

Lemma run_cons o l c c1 :
  exec_client now o c = Done tt c1 -> run_client now (o :: l) c = run_client now l c1.
Proof. intros E. simpl run_client. by rewrite E. Qed.

(** The steps of the duplicate of priority [p], up to the server's answer. *)
Definition carry_ops (w : nat) (soc : Z) (r1 r2 : ReadyFor) : list client_op :=
  [OpConnectPass p; OpFire w soc r1; OpRequestPass p sizeof_Protocol; OpFire w soc r2].

Definition request_ops (w : nat) (job : Job ConnectData) (req : N) (soc : Z)
    (r1 r2 : ReadyFor) : list client_op :=
  OpGet job req :: carry_ops w soc r1 r2.

(** The client's queues of priority [p] are empty. *)
Record idle_at (c : client) Ac Ar As : Prop := mk_idle_at {
  ia_ok : client_ok max c Ac Ar As;
  ia_connect : vec_get Ac p = Some [];
  ia_request : vec_get Ar p = Some [];
  ia_response : vec_get As p = Some [];
  ia_origin : _origin_dstage c = true
}.

(** The connect queues after the dispatch. *)
Definition dispatched (c : client) (job : Job ConnectData) (req : N) Ac :=
  enqueue_all (duplicates now (N.to_nat (fan_out (connect_stage c).1 job req)) job
    (fan_out (connect_stage c).1 job req - 1) (length (purge_states c)) 0 (priority job)) Ac.

(** The client after the dispatch: more jobs, one more PurgeState, nothing else. *)
Lemma get_dispatch c Ac Ar As job req :
  client_ok max c Ac Ar As -> ready (connect_stage c).1 job req ->
  exists cs, cs.2.2 = purge_states c ++ [PurgeState.new] /\
    let c1 := mkClient cs (request_stage c) (response_stage c) (conns c) (waits c) (connects c)
                (requests c) (done_log c) (_origin_dstage c) in
    exec_client now (OpGet job req) c = Done tt c1 /\
    client_ok max c1 (dispatched c job req Ac) Ar As.
Proof.
  intros [Kc Kr Ks] Hrd. unfold dispatched, purge_states in *.
  destruct c as [[dc [qc heap]] rqs rss cs ws cn rq dl og]. simpl in *.
  assert (mq_repr qc Ac) as RA by exact (proj1 (proj2 Kc)).
  destruct (connect_enqueues now dc qc heap Ac job req (proj1 Kc) RA Hrd) as (q1 & E1 & R1 & _).
  exists (dc, (q1, heap ++ [PurgeState.new])). split; [done|]. split.
  - unfold Get, on_connect, zoom. simpl. by rewrite E1.
  - split; simpl; try done. apply (linked_max _ _ _ _ _ _ Kc R1), length_enqueue_all.
Qed.

(** Each priority of the fan-out has its duplicate. *)
Lemma dispatched_get c Ac Ar As job req k ip l :
  client_ok max c Ac Ar As -> ready (connect_stage c).1 job req ->
  (N.of_nat k < fan_out (connect_stage c).1 job req)%N ->
  ip_addresses (job_data job) !! k = Some ip ->
  vec_get Ac (priority job + N.of_nat k) = Some l ->
  vec_get (dispatched c job req Ac) (priority job + N.of_nat k) =
    Some (l ++ [duplicate now job (fan_out (connect_stage c).1 job req - 1)
      (length (purge_states c)) ip k (priority job + N.of_nat k)]).
Proof.
  intros [((_ & _ & Hm) & Rc & _) _ _] (Hprio & _ & Hips) Hk Hip Hl.
  pose proof (repr_max _ _ Rc) as Hlen. simpl in Hm. unfold MaxPriority in Hm.
  apply (get_enqueue_all_in now _ job _ (length (purge_states c)) 0); try done;
    unfold fan_out in *; lia.
Qed.

(** A duplicate that is alone in its queue reaches the response stage. *)
Lemma duplicate_carried c Ac Ar As j soc r1 r2 st :
  client_ok max c Ac Ar As -> vec_get Ac p = Some [j] -> priority j = p ->
  vec_get Ar p = Some [] -> vec_get As p = Some [] ->
  purge_states c !! ci_purge_state (job_data j) = Some st -> PurgeState.IsPurged st = false ->
  connected soc r1 -> readable soc r2 ->
  exists c' As' j', run_client now (carry_ops (length (waits c)) soc r1 r2) c = Some c' /\
    client_ok max c' (vec_set p [] Ac) Ar As' /\ vec_get As' p = Some [j'] /\
    vec_set p [] As' = As /\
    priority j' = p /\ job_id j' = job_id j /\
    job_data j' = mkResponseData (length (conns c)) (ci_object_id (job_data j)) 0 None
      (ci_done (job_data j)) (ci_purge_state (job_data j)) /\
    purge_states c' = purge_states c /\
    _origin_dstage c' = _origin_dstage c /\ waits c' = waits c /\ done_log c' = done_log c /\
    connects c' = connects c ++ [(ci_ip (job_data j), port_of p)] /\
    requests c' = requests c ++ [(soc, mkProtocol REQUEST_GETFILE (i32 (Z.of_N p))
      (ci_object_id (job_data j)) kIndex kSizeMB)].
Proof.
  intros [Kc Kr Ks] Gc Hj Gr Gs Hst Hpu Hc1 Hr2.
  destruct c as [[dc [qc heap]] [dr qr] [ds qs] cs ws cn rq dl og].
  unfold purge_states in *. cbn [connect_stage request_stage response_stage conns waits connects
    requests done_log _origin_dstage fst snd] in *.
  destruct (connect_pass_step dc qc heap Ac j [] (dr, qr) (ds, qs) cs ws cn rq dl og st Kc Gc Hst
    Hpu) as (q2 & K2 & X2).
  destruct (connect_callback_step dr qr Ar j [] (dc, (q2, heap)) (ds, qs) cs ws
    (cn ++ [(ci_ip (job_data j), port_of (priority j))]) rq dl og st soc r1 Kr) as (q3 & K3 & G3 & X3);
    [by rewrite Hj|done|done|done|].
  set (j1 := request_job j (length cs)) in *. rewrite Hj in *.
  destruct (request_pass_step dr q3 _ j1 [] (dc, (q2, heap)) (cs ++ [Connection.new soc]) ws
    (cn ++ [(ci_ip (job_data j), port_of p)]) rq dl og (ds, qs) (Connection.new soc) st soc K3 G3 Hst
    Hpu (list_lookup_middle _ _ _ _ eq_refl) eq_refl) as (q4 & K4 & X4).
  assert (priority j1 = p) as Hj1 by exact Hj. rewrite Hj1 in X4.
  destruct (request_callback_step ds qs As j1 [] (dc, (q2, heap)) (dr, q4)
    (cs ++ [Connection.new soc]) ws (cn ++ [(ci_ip (job_data j), port_of p)])
    (rq ++ [(soc, mkProtocol REQUEST_GETFILE (i32 (Z.of_N p))
      (ci_object_id (job_data j)) kIndex kSizeMB)]) dl og st soc r2 Ks) as (q5 & K5 & G5 & X5);
    [by rewrite Hj1|done|done|done|].
  rewrite Hj1 in G5. eexists _, _, (response_job j1). split.
  { unfold carry_ops. rewrite (run_cons (OpConnectPass p) _ _ _ X2).
    rewrite (run_cons (OpFire (length ws) soc r1) _ _ _ X3).
    rewrite (run_cons (OpRequestPass p sizeof_Protocol) _ _ _ X4).
    rewrite (run_cons (OpFire (length ws) soc r2) _ _ _ X5). reflexivity. }
  assert (vec_set p [] (abs_enqueue j1 Ar) = Ar) as EAr.
  { unfold abs_enqueue. rewrite Hj1, Gr, vec_set_twice. by apply vec_set_id. }
  assert (vec_set p [] (abs_enqueue (response_job j1) As) = As) as EAs.
  { unfold abs_enqueue. simpl. rewrite Hj, Gs, vec_set_twice. by apply vec_set_id. }
  rewrite EAr in K4. split; [split; [exact K2|exact K4|exact K5]|done].
Qed.

(** ** The server's answer *)

(** The header and the bytes of an answer, cut into rounds of reads. *)
Record answer_ok (h : Protocol) (rounds : list (list (list Z))) (final : list (list Z)) : Prop := {
  an_rounds : Forall (Forall nonempty) rounds;
  an_final : Forall nonempty final;
  an_more : final <> [];
  an_start : p_start_idx h = 0%Z;
  an_size : p_size_bytes h = Z.of_nat (length (mjoin (mjoin rounds)) + length (mjoin final));
  an_int : is_i32 (p_size_bytes h)
}.

Lemma carried_answered c Ac Ar As A j st h soc r rounds final :
  client_ok max c Ac Ar A -> vec_get A p = Some [j] -> vec_set p [] A = As ->
  priority j = p -> rs_object (job_data j) = None ->
  purge_states c !! rs_purge_state (job_data j) = Some st -> PurgeState.IsPurged st = false ->
  _origin_dstage c = true -> readable soc r -> answer_ok h rounds final ->
  exists c', run_client now (fetch_ops p (length (waits c)) soc r (Some h) rounds final) c = Some c' /\
    done_log c' = done_log c ++ [mkDone (rs_done (job_data j)) (rs_purge_state (job_data j)) p
      (rs_object_id (job_data j)) (mjoin (mjoin rounds) ++ mjoin final)] /\
    purged max (job_id j) Ac Ar As c'.
Proof.
  intros Hok Hj HA Hp Ho Hst Hpu Hor Hr [Hrs Hf Hne Hs0 Hsz Hi32].
  set (n := length (mjoin (mjoin rounds)) + length (mjoin final)) in *.
  assert (0 < n) as Hpos.
  { destruct Hf as [|x l Hx _]; [done|]. unfold n. change (mjoin (x :: l)) with (x ++ mjoin l).
    rewrite length_app. destruct x; [done|simpl; lia]. }
  assert (fetching max p c Ac Ar As (Some h) j (replicate n 0%Z) 0) as Hfe.
  { split; [by exists A|done|by exists st|..|done].
    - unfold opened. rewrite Ho. exists h. rewrite length_replicate. by repeat split.
    - rewrite length_replicate. revert Hi32. rewrite Hsz. u32_unfold. lia. }
  destruct (fetch_stream now max p c Ac Ar As (Some h) j (replicate n 0%Z) 0 soc r rounds final
    Hfe Hr Hrs Hf Hne) as (c' & E & Hd & Hpu'); [by rewrite length_replicate|].
  by exists c'.
Qed.

Lemma abs_purge_vec_set {T} id (A : list (list (Job T))) q :
  abs_purge id (vec_set p q A) =
    vec_set p (filter (fun j => negb (has_job_id id j)) q) (abs_purge id A).
Proof. unfold abs_purge, vec_set. apply list_fmap_insert. Qed.

(** Taking a job of the id out early makes no difference to a purge. *)
Lemma abs_purge_taken {T} id (A : list (list (Job T))) j :
  vec_get A p = Some [j] -> job_id j = id -> abs_purge id (vec_set p [] A) = abs_purge id A.
Proof.
  intros Hg <-. rewrite abs_purge_vec_set. apply vec_set_id.
  unfold abs_purge, vec_get in *. rewrite list_lookup_fmap, Hg. cbn [fmap option_fmap option_map].
  f_equal. rewrite filter_cons_False; [done|]. unfold has_job_id. rewrite N.eqb_refl. by intros [].
Qed.

(** Purging the id undoes the dispatch. *)
Lemma purge_dispatched c job req Ac Ar As :
  client_ok max c Ac Ar As -> ready (connect_stage c).1 job req ->
  abs_purge (job_id job) (dispatched c job req Ac) = abs_purge (job_id job) Ac.
Proof.
  intros [((_ & _ & Hm) & Rc & _) _ _] (Hprio & _ & Hips).
  pose proof (repr_max _ _ Rc) as Hlen. simpl in Hm. unfold MaxPriority in Hm.
  apply purge_enqueue_all. eapply Forall_impl;
    [apply (duplicates_ids now _ job _ _ 0 (priority job) (N.of_nat (length Ac)));
     unfold fan_out; lia|].
  by intros j [H _].
Qed.

(** C10. A request is answered by whichever duplicate gets through.  On a client
    whose queues of priority [p] are empty, a dispatch of a job that has an
    address per priority, with any requested duplication that added to the job's
    priority stays within 32 bits, followed by the steps of its duplicate of priority [p], connects
    to that duplicate's own address and port, sends one GETFILE header on the new
    socket and, however the answer is cut into reads and rounds of monitoring,
    calls [done] once, with the bytes the server sent; then no duplicate of the
    request is left in any queue of the three stages and the jobs of other
    requests are where they were, in all three. *)
Theorem get_completes c Ac Ar As job req k ip h soc r1 r2 rounds final :
  idle_at c Ac Ar As -> ready (connect_stage c).1 job req ->
  p = (priority job + N.of_nat k)%N ->
  (N.of_nat k < fan_out (connect_stage c).1 job req)%N ->
  ip_addresses (job_data job) !! k = Some ip ->
  connected soc r1 -> readable soc r2 -> answer_ok h rounds final ->
  exists c1 c2, run_client now (request_ops (length (waits c)) job req soc r1 r2) c = Some c1 /\
    connects c1 = connects c ++ [(ip, port_of p)] /\
    requests c1 = requests c ++ [(soc, mkProtocol REQUEST_GETFILE (i32 (Z.of_N p))
      (cd_object_id (job_data job)) kIndex kSizeMB)] /\
    run_client now (fetch_ops p (length (waits c)) soc r2 (Some h) rounds final) c1 = Some c2 /\
    done_log c2 = done_log c ++ [mkDone (cd_done (job_data job)) (length (purge_states c)) p
      (cd_object_id (job_data job)) (mjoin (mjoin rounds) ++ mjoin final)] /\
    purged max (job_id job) Ac Ar As c2.
Proof.
  intros [Hok Gc Gr Gs Hor] Hrd Hp Hk Hip Hc1 Hr2 Ha.
  destruct (get_dispatch c Ac Ar As job req Hok Hrd) as (cs & Hps & E0 & Hok0).
  set (c0 := mkClient cs _ _ _ _ _ _ _ _) in *.
  assert (purge_states c0 !! length (purge_states c) = Some PurgeState.new) as Hst
    by (change (purge_states c0) with cs.2.2; rewrite Hps; by apply list_lookup_middle).
  pose proof (dispatched_get c Ac Ar As job req k ip [] Hok Hrd Hk Hip) as G0.
  rewrite <-Hp in G0. specialize (G0 Gc).
  destruct (duplicate_carried c0 _ Ar As _ soc r1 r2 _ Hok0 G0 eq_refl Gr Gs Hst eq_refl Hc1 Hr2)
    as (c1 & As' & j & E1 & Hok1 & Hj & HA & Hjp & Hid & Hd & Hps1 & Ho1 & Hw & Hl & Hcn & Hrq).
  destruct (carried_answered c1 _ Ar As As' j PurgeState.new h soc r2 rounds final Hok1 Hj HA Hjp)
    as (c2 & E2 & Hd2 & Hpu); rewrite ?Hd, ?Hps1; simpl; try done; [by rewrite Ho1|].
  exists c1, c2. split; [exact (eq_trans (run_cons _ _ _ _ E0) E1)|]. split; [done|]. split; [done|].
  split; [by rewrite Hw in E2|]. rewrite Hd2, Hl, Hd. split; [done|]. unfold purged in *.
  rewrite (Hid : job_id j = job_id job), (abs_purge_taken (job_id job) _ _ G0),
    (purge_dispatched c job req Ac Ar As Hok Hrd) in Hpu by done. exact Hpu.
Qed.

End Get.

(** ** A concrete request *)

(** Two priorities, all queues empty, the origin registered. *)
Definition idle_client : client :=
  let d := mkDispatcher true 1 (Some tt) in
  mkClient (d, (MQ.new 1, [])) (d, MQ.new 1) (d, MQ.new 1) [] [] [] [] [] true.

Lemma idle_client_idle p : (p <= 1)%N ->
  idle_at 1 p idle_client [[]; []] [[]; []] [[]; []].
Proof.
  intros Hp. assert (p = 0 \/ p = 1)%N as Hc by lia.
  split; [split; apply new_linked|..]; destruct Hc as [-> | ->]; reflexivity.
Qed.

(** The second duplicate answers, with the object cut into two rounds. *)
Lemma get_completes_witness : exists c1 c2,
  run_client zero (request_ops 1 0 (DispatchExamples.get_job 4 0) 1 9 ready_out ready_in)
    idle_client = Some c1 /\
  run_client zero (fetch_ops 1 0 9 ready_in (Some (mkProtocol 11 1 7 0 3)) [[[5]%Z]] [[6; 8]%Z]) c1
    = Some c2 /\
  done_log c2 = [mkDone 0 0 1 7 [5; 6; 8]%Z].
Proof.
  destruct (get_completes zero 1 1 idle_client [[]; []] [[]; []] [[]; []]
    (DispatchExamples.get_job 4 0) 1 1 "10.0.0.2"%string (mkProtocol 11 1 7 0 3) 9 ready_out ready_in
    [[[5]%Z]] [[6; 8]%Z]) as (c1 & c2 & E1 & _ & _ & E2 & Hd & _).
  - apply idle_client_idle. lia.
  - repeat split; discriminate.
  - reflexivity.
  - reflexivity.
  - reflexivity.
  - repeat split; discriminate.
  - repeat split; discriminate.
  - split; [repeat constructor; discriminate|repeat constructor; discriminate|discriminate
           |reflexivity|reflexivity|split; discriminate].
  - exists c1, c2. split; [exact E1|]. split; [exact E2|exact Hd].
Defined.

End ClientGet.
