(* ===== verification/ClientRace.v ===== *)
(** * A request whose duplicates fail

    Duplicates of one request race through the stages.  Some of them lose their
    connection, before or after they have sent their request; the next one still
    carries the request through. *)

From stdpp Require Import prelude gmap list strings.
From S2P Require Import Prelude Synchronization Job BaseMultiQueue JobTypes MultiQueue.
From S2P Require Import MultiQueueSpec Dispatcher ProxyPipe Client ClientInv ClientFetch ClientGet.

Module ClientRace.
Import MQ MQSpec Dispatcher ForwardingDispatcher ConnectDispatcher TcpPipe Client ClientFetch.
Import ClientGet.

Section Race.
Context (now : nat -> Z) (max : N).
Context (job : Job ConnectData) (ips : list string) (dup : N) (ps : purge_ref).

(** The priority and the job of duplicate number [k]. *)
Definition prio_of (k : nat) : N := (priority job + N.of_nat k)%N.

Definition dup_of (k : nat) : Job ConnectDataInternal :=
  duplicate now job dup ps (default ""%string (ips !! k)) k (prio_of k).

(** How a duplicate fails: its connection is refused, or breaks while it waits
    for the answer. *)
Inductive failure : Type :=
| ConnectFails (soc : Z) (r : ReadyFor)
| AnswerFails (soc : Z) (r1 r2 : ReadyFor).

Definition failure_ok (f : failure) : Prop :=
  match f with
  | ConnectFails _ r => rf_err r <> 0%Z
  | AnswerFails soc r1 r2 => connected soc r1 /\ rf_err r2 <> 0%Z
  end.

(** The steps of duplicate [k] up to its failure; [w] callbacks were waiting. *)
Definition failure_ops (w : nat) (kf : nat * failure) : list client_op :=
  match kf.2 with
  | ConnectFails soc r => [OpConnectPass (prio_of kf.1); OpFire w soc r]
  | AnswerFails soc r1 r2 =>
      [OpConnectPass (prio_of kf.1); OpFire w soc r1;
       OpRequestPass (prio_of kf.1) sizeof_Protocol; OpFire w soc r2]
  end.

(** The duplicates [ks] wait in the connect stage, alone in their queues; the
    other queues of their priorities are empty. *)
Record racing (c : client) (ks : list nat) Ac Ar As : Prop := mk_racing {
  ra_ok : client_ok max c Ac Ar As;
  ra_connect : Forall (fun k => vec_get Ac (prio_of k) = Some [dup_of k]) ks;
  ra_request : Forall (fun k => vec_get Ar (prio_of k) = Some []) ks;
  ra_response : Forall (fun k => vec_get As (prio_of k) = Some []) ks;
  ra_state : exists st, purge_states c !! ps = Some st /\ PurgeState.IsPurged st = false
}.

Lemma forall_set_ne {T} (f : nat -> list (Job T)) A k q ks :
  k ∉ ks -> Forall (fun i => vec_get A (prio_of i) = Some (f i)) ks ->
  Forall (fun i => vec_get (vec_set (prio_of k) q A) (prio_of i) = Some (f i)) ks.
Proof.
  intros Hk H. apply Forall_forall. intros i Hi. rewrite vec_get_set_ne.
  - by apply (proj1 (Forall_forall _ _) H).
  - intros E. unfold prio_of in E. assert (k = i) as -> by lia. done.
Qed.

Lemma abs_enqueue_set {T} (j : Job T) A q :
  vec_get A (priority j) = Some q -> abs_enqueue j A = vec_set (priority j) (q ++ [j]) A.
Proof. intros E. unfold abs_enqueue. by rewrite E. Qed.

(** An event with an error only takes the callback away. *)
Lemma fire_error w ws pst rqs rss cs cn rq dl og soc r :
  rf_err r <> 0%Z ->
  Fire now (length ws) soc r (mkClient pst rqs rss cs (ws ++ [w]) cn rq dl og) =
    Done tt (mkClient pst rqs rss cs ws cn rq dl og).
Proof.
  intros Hr. rewrite fire_last. apply Z.eqb_neq in Hr.
  destruct w; unfold ConnectCallback, RequestCallback, ResponseCallback; by rewrite Hr.
Qed.

Lemma failure_step c k f ks Ac Ar As :
  racing c (k :: ks) Ac Ar As -> k ∉ ks -> failure_ok f ->
  exists c', run_client now (failure_ops (length (waits c)) (k, f)) c = Some c' /\
    racing c' ks (vec_set (prio_of k) [] Ac) Ar As /\ waits c' = waits c /\
    done_log c' = done_log c /\ _origin_dstage c' = _origin_dstage c.
Proof.
  intros [[Kc Kr Ks] Hc Hr Hs (st & Hst & Hpu)] Hk Hf.
  apply Forall_cons in Hc as [Gc Hc], Hr as [Gr Hr], Hs as [Gs Hs].
  destruct c as [[dc [qc heap]] [dr qr] [ds qs] cs ws cn rq dl og].
  unfold purge_states in Hst. cbn [connect_stage request_stage response_stage fst snd] in *.
  destruct (connect_pass_step max (prio_of k) dc qc heap Ac (dup_of k) [] (dr, qr) (ds, qs) cs ws cn
    rq dl og st Kc Gc Hst Hpu) as (q1 & K1 & X1).
  pose proof (forall_set_ne (fun i => [dup_of i]) Ac k [] ks Hk Hc) as Hc'.
  destruct f as [soc r|soc r1 r2]; unfold failure_ops; cbn [fst snd waits].
  - eexists. split.
    { rewrite (run_cons now (OpConnectPass _) _ _ _ X1),
        (run_cons now (OpFire (length ws) soc r) [] _ _ (fire_error _ _ _ _ _ _ _ _ _ _ soc r Hf)).
      reflexivity. }
    split; [|done]. split; try done. by exists st.
  - destruct Hf as [Hf1 Hf2].
    destruct (connect_callback_step now max dr qr Ar (dup_of k) [] (dc, (q1, heap)) (ds, qs) cs ws
      (cn ++ [(ci_ip (job_data (dup_of k)), port_of (priority (dup_of k)))]) rq dl og st soc r1
      Kr Gr Hf1 Hst Hpu) as (q2 & K2 & G2 & X2).
    destruct (request_pass_step max (prio_of k) dr q2 _ (request_job now (dup_of k) (length cs)) []
      (dc, (q1, heap)) (cs ++ [Connection.new soc]) ws
      (cn ++ [(ci_ip (job_data (dup_of k)), port_of (priority (dup_of k)))]) rq dl og (ds, qs)
      (Connection.new soc) st soc K2 G2 Hst Hpu (list_lookup_middle _ _ _ _ eq_refl) eq_refl)
      as (q3 & K3 & X3).
    eexists. split.
    { rewrite (run_cons now (OpConnectPass _) _ _ _ X1),
        (run_cons now (OpFire (length ws) soc r1) _ _ _ X2),
        (run_cons now (OpRequestPass _ _) _ _ _ X3),
        (run_cons now (OpFire (length ws) soc r2) [] _ _
           (fire_error _ _ _ _ _ _ _ _ _ _ soc r2 Hf2)).
      reflexivity. }
    rewrite (abs_enqueue_set _ _ []) in K3 by exact Gr. rewrite vec_set_twice in K3.
    rewrite vec_set_id in K3 by exact Gr.
    split; [|done]. split; try done. by exists st.
Qed.

(** The steps of several failing duplicates, one after the other. *)
Definition failures_ops (w : nat) (fs : list (nat * failure)) : list client_op :=
  mjoin (failure_ops w <$> fs).

Lemma failures_steps fs ks c Ac Ar As :
  racing c (fs.*1 ++ ks) Ac Ar As -> NoDup (fs.*1 ++ ks) -> Forall (fun kf => failure_ok kf.2) fs ->
  exists c' Ac', run_client now (failures_ops (length (waits c)) fs) c = Some c' /\
    racing c' ks Ac' Ar As /\ abs_purge (job_id job) Ac' = abs_purge (job_id job) Ac /\
    waits c' = waits c /\ done_log c' = done_log c /\ _origin_dstage c' = _origin_dstage c.
Proof.
  revert c Ac. induction fs as [|[k f] fs IH]; intros c Ac Hra Hnd Hfs; simpl in *.
  { exists c, Ac. by split_and!. }
  apply NoDup_cons in Hnd as [Hk Hnd]. apply Forall_cons in Hfs as [Hf Hfs].
  pose proof (Forall_cons_1 _ _ _ (ra_connect _ _ _ _ _ Hra)) as [Gc _].
  destruct (failure_step c k f _ Ac Ar As Hra Hk Hf) as (c1 & E1 & Hra1 & Hw1 & Hd1 & Ho1).
  destruct (IH c1 _ Hra1 Hnd Hfs) as (c' & Ac' & E' & Hra' & Hp' & Hw' & Hd' & Ho').
  exists c', Ac'. split.
  { change (failures_ops (length (waits c)) ((k, f) :: fs)) with
      (failure_ops (length (waits c)) (k, f) ++ failures_ops (length (waits c)) fs).
    rewrite (run_client_app _ _ _ _ _ E1). by rewrite <-Hw1. }
  split; [done|]. split; [|split_and!; congruence].
  rewrite Hp'. by apply (abs_purge_taken (prio_of k) (job_id job) Ac (dup_of k)).
Qed.

End Race.

Section Survive.
Context (now : nat -> Z) (max : N).

(** All the queues of the priorities of a request are empty. *)
Definition idle_for (c : client) (job : Job ConnectData) (req : N) Ac Ar As : Prop :=
  forall k, (N.of_nat k < fan_out (connect_stage c).1 job req)%N ->
    idle_at max (priority job + N.of_nat k) c Ac Ar As.

(** Right after a dispatch all its duplicates are in the race. *)
Lemma dispatched_racing c Ac Ar As job req ks cs :
  ready (connect_stage c).1 job req -> idle_for c job req Ac Ar As ->
  client_ok max c Ac Ar As ->
  Forall (fun i => N.of_nat i < fan_out (connect_stage c).1 job req)%N ks ->
  let c0 := mkClient cs (request_stage c) (response_stage c) (conns c) (waits c) (connects c)
              (requests c) (done_log c) (_origin_dstage c) in
  cs.2.2 = purge_states c ++ [PurgeState.new] ->
  client_ok max c0 (dispatched now c job req Ac) Ar As ->
  racing now max job (ip_addresses (job_data job)) (fan_out (connect_stage c).1 job req - 1)%N
    (length (purge_states c)) c0 ks (dispatched now c job req Ac) Ar As.
Proof.
  intros Hrd Hidle Hok Hks c0 Hps Hok0. destruct (Hrd) as (_ & _ & Hips).
  assert (forall i, i ∈ ks -> N.of_nat i < fan_out (connect_stage c).1 job req)%N as Hin
    by (intros i Hi; by apply (proj1 (Forall_forall _ _) Hks)).
  split; [done|..].
  - apply Forall_forall. intros i Hi%Hin. destruct (Hidle i Hi) as [_ Gi _ _ _].
    assert (i < length (ip_addresses (job_data job))) as Hlt by (unfold fan_out in Hi; lia).
    apply lookup_lt_is_Some_2 in Hlt as [ip Hip].
    pose proof (dispatched_get now max c Ac Ar As job req i ip [] Hok Hrd Hi Hip Gi) as G.
    unfold dup_of. rewrite Hip. exact G.
  - apply Forall_forall. intros i Hi%Hin. apply (Hidle i Hi).
  - apply Forall_forall. intros i Hi%Hin. apply (Hidle i Hi).
  - exists PurgeState.new. split; [|done]. change (purge_states c0) with cs.2.2.
    rewrite Hps. by apply list_lookup_middle.
Qed.

(** C11. A request survives the failures of its duplicates that the
    communication handler reports with an errno ([err <> 0]).  After a dispatch
    whose priorities are idle, with an address per priority and no wrap-around of
    priority plus duplication, let any of its duplicates fail in that way one
    after the other, each before it is connected or while it waits for its
    answer; a connect that fails at once is not such a failure (the handler
    reports it as not ready with [err = 0], and ConnectCallback aborts on its
    CHECK).  A remaining duplicate that gets its connection and its answer still completes the
    request: [done] is called once, with the bytes of that answer, and no
    duplicate is left in a queue. *)
Theorem get_survives_failures c Ac Ar As job req fs k h soc r1 r2 rounds final :
  ready (connect_stage c).1 job req -> idle_for c job req Ac Ar As ->
  NoDup (fs.*1 ++ [k]) ->
  Forall (fun i => N.of_nat i < fan_out (connect_stage c).1 job req)%N (fs.*1 ++ [k]) ->
  Forall (fun kf => failure_ok kf.2) fs ->
  connected soc r1 -> readable soc r2 -> answer_ok h rounds final ->
  let p := prio_of job k in
  let w := length (waits c) in
  exists c', run_client now (OpGet job req :: failures_ops job w fs ++ carry_ops p w soc r1 r2 ++
      fetch_ops p w soc r2 (Some h) rounds final) c = Some c' /\
    done_log c' = done_log c ++ [mkDone (cd_done (job_data job)) (length (purge_states c)) p
      (cd_object_id (job_data job)) (mjoin (mjoin rounds) ++ mjoin final)] /\
    purged max (job_id job) Ac Ar As c'.
Proof.
  intros Hrd Hidle Hnd Hks Hfs Hc1 Hr2 Ha p w.
  assert (N.of_nat k < fan_out (connect_stage c).1 job req)%N as Hk
    by (apply Forall_app in Hks as [_ Hks]; exact (proj1 (Forall_singleton _ _) Hks)).
  destruct (Hidle k Hk) as [Hok _ _ _ Hor].
  destruct (get_dispatch now max c Ac Ar As job req Hok Hrd) as (cs & Hps & E0 & Hok0).
  set (c0 := mkClient cs _ _ _ _ _ _ _ _) in *.
  pose proof (dispatched_racing c Ac Ar As job req (fs.*1 ++ [k]) cs Hrd Hidle Hok Hks Hps Hok0)
    as Hra.
  destruct (failures_steps now max job _ _ _ fs [k] c0 _ Ar As Hra Hnd Hfs)
    as (c1 & Ac1 & E1 & [Hok1 G1 G2 G3 (st & Hst & Hpu)] & Hp1 & Hw1 & Hd1 & Ho1).
  apply (proj1 (Forall_singleton _ _)) in G1, G2, G3.
  destruct (duplicate_carried now max p c1 Ac1 Ar As _ soc r1 r2 st Hok1 G1 eq_refl G2 G3 Hst Hpu Hc1
    Hr2) as (c2 & As2 & j & E2 & Hok2 & Hj & HA & Hjp & Hid & Hd & Hps2 & Ho2 & Hw2 & Hl2 & _).
  destruct (carried_answered now max p c2 _ Ar As As2 j st h soc r2 rounds final Hok2 Hj HA Hjp)
    as (c3 & E3 & Hd3 & Hpu3); rewrite ?Hd, ?Hps2; cbn [rs_object rs_purge_state]; try done;
    [by rewrite Ho2, Ho1|].
  rewrite Hw2, Hw1 in E3. rewrite Hw1 in E2.
  exists c3. split; [|split].
  - rewrite (run_cons _ _ _ _ _ E0). rewrite (run_client_app _ _ _ _ _ E1).
    rewrite (run_client_app _ _ _ _ _ E2). exact E3.
  - rewrite Hd3, Hl2, Hd1, Hd. done.
  - unfold purged in *. rewrite (Hid : job_id j = job_id job), (abs_purge_taken p (job_id job) _ _ G1), Hp1,
      (purge_dispatched now max c job req Ac Ar As Hok Hrd) in Hpu3 by done. exact Hpu3.
Qed.

(** A connect that fails at once is reported as not ready and without an errno:
    the callback's CHECK aborts the client. *)
Theorem immediate_connect_aborts c i j soc ev :
  waits c !! i = Some (WConnect j) ->
  exec_client now (OpFire i soc (mkReadyFor false false ev 0)) c = Crash CheckFailure.
Proof. intros H. unfold exec_client, Fire. unM. by rewrite H. Qed.

End Survive.

(** The first duplicate is refused; the second one answers. *)
Lemma get_survives_failures_witness : exists c',
  run_client zero ([OpGet (DispatchExamples.get_job 4 0) 1] ++
    [OpConnectPass 0; OpFire 0 8 (mkReadyFor false false 8 111)] ++
    carry_ops 1 0 9 ready_out ready_in ++
    fetch_ops 1 0 9 ready_in (Some (mkProtocol 11 1 7 0 3)) [[[5]%Z]] [[6; 8]%Z]) idle_client
    = Some c' /\ done_log c' = [mkDone 0 0 1 7 [5; 6; 8]%Z].
Proof.
  destruct (get_survives_failures zero 1 idle_client [[]; []] [[]; []] [[]; []]
    (DispatchExamples.get_job 4 0) 1 [(0, ConnectFails 8 (mkReadyFor false false 8 111))] 1
    (mkProtocol 11 1 7 0 3) 9 ready_out ready_in [[[5]%Z]] [[6; 8]%Z]) as (c' & E & Hd & _).
  - repeat split; discriminate.
  - intros k Hk. apply idle_client_idle. unfold fan_out in Hk. simpl in Hk |- *. lia.
  - apply NoDup_cons. split; [|apply NoDup_singleton]. intros H%list_elem_of_singleton.
    discriminate.
  - repeat constructor.
  - repeat constructor. discriminate.
  - repeat split; discriminate.
  - repeat split; discriminate.
  - split; [repeat constructor; discriminate|repeat constructor; discriminate|discriminate
           |reflexivity|reflexivity|split; discriminate].
  - exists c'. split; [exact E|exact Hd].
Defined.

End ClientRace.
