(* ===== verification/ClientSafe.v ===== *)
(** * Type safety of the client pipeline

    A client is well formed when every reference in its queues and waiting
    callbacks points into its stores, every job's priority is a queue's, and the
    index of a response is inside its object.  Every operation keeps this, and
    the only faults are those its environment is to blame for. *)

From stdpp Require Import prelude gmap list strings.
From S2P Require Import Prelude Triple Synchronization Job BaseMultiQueue JobTypes MultiQueue.
From S2P Require Import MultiQueueSpec Dispatcher ProxyPipe Client ClientInv ClientFetch.

Module ClientSafe.
Import MQ MQSpec Dispatcher ForwardingDispatcher ConnectDispatcher TcpPipe Client ClientInv.
Import ClientFetch.

(** ** Jobs *)

Section Jobs.
(** The lowest priority, and how many Connections and PurgeStates there are. *)
Context (max : N) (nc np : nat).

Definition connect_ok (j : Job ConnectDataInternal) : Prop :=
  (priority j <= max)%N /\ ci_purge_state (job_data j) < np.

Definition request_ok (j : Job RequestData) : Prop :=
  (priority j <= max)%N /\ rq_connection (job_data j) < nc /\ rq_purge_state (job_data j) < np.

(** The bytes read so far fit the object. *)
Definition index_ok (d : ResponseData) : Prop :=
  match rs_object d with
  | Some o => (rs_index d <= N.of_nat (length o))%N /\ is_u32 (N.of_nat (length o))
  | None => True
  end.

Definition response_ok (j : Job ResponseData) : Prop :=
  (priority j <= max)%N /\ rs_connection (job_data j) < nc /\
  rs_purge_state (job_data j) < np /\ index_ok (job_data j).

Definition wait_ok (w : waiting) : Prop :=
  match w with
  | WConnect j => connect_ok j
  | WRequest j => request_ok j
  | WResponse j => response_ok j
  end.
End Jobs.

Definition all_jobs {T} (P : Job T -> Prop) (A : list (list (Job T))) : Prop :=
  Forall (Forall P) A.

(** The contents of the three stages' queues. *)
Record contents := mkContents {
  in_connect : list (list (Job ConnectDataInternal));
  in_request : list (list (Job RequestData));
  in_response : list (list (Job ResponseData))
}.

Record client_wf (max : N) (x : contents) (c : client) : Prop := mk_client_wf {
  wf_ok : client_ok max c (in_connect x) (in_request x) (in_response x);
  wf_connect : all_jobs (connect_ok max (length (purge_states c))) (in_connect x);
  wf_request : all_jobs (request_ok max (length (conns c)) (length (purge_states c)))
                 (in_request x);
  wf_response : all_jobs (response_ok max (length (conns c)) (length (purge_states c)))
                  (in_response x);
  wf_waits : Forall (wait_ok max (length (conns c)) (length (purge_states c))) (waits c)
}.

Definition well_formed (max : N) (c : client) : Prop := exists x, client_wf max x c.

(** ** Who holds a Connection *)

Definition wait_refs (w : waiting) : list conn_ref :=
  match w with
  | WConnect _ => []
  | WRequest j => [rq_connection (job_data j)]
  | WResponse j => [rs_connection (job_data j)]
  end.

Definition request_ref (j : Job RequestData) : conn_ref := rq_connection (job_data j).
Definition response_ref (j : Job ResponseData) : conn_ref := rs_connection (job_data j).

(** The shared pointers to Connections in the queues and the callbacks. *)
Definition conn_refs (x : contents) (ws : list waiting) : list conn_ref :=
  (request_ref <$> concat (in_request x)) ++ (response_ref <$> concat (in_response x)) ++
  concat (wait_refs <$> ws).

Lemma concat_delete {A B} (f : A -> list B) (l : list A) i a :
  l !! i = Some a -> concat (f <$> l) ≡ₚ f a ++ concat (f <$> delete i l).
Proof.
  revert i. induction l as [|b l IH]; intros [|i] H; simplify_eq/=; [done|].
  rewrite (IH i H). solve_Permutation.
Qed.

(** ** Jobs that move *)

Lemma all_jobs_impl {T} (P Q : Job T -> Prop) A :
  (forall j, P j -> Q j) -> all_jobs P A -> all_jobs Q A.
Proof. intros H HA. eapply Forall_impl; [exact HA|]. intros q Hq. by eapply Forall_impl. Qed.

Lemma all_jobs_get {T} (P : Job T -> Prop) A p q :
  all_jobs P A -> vec_get A p = Some q -> Forall P q.
Proof. intros H Hq. exact (Forall_lookup_1 _ _ _ _ H Hq). Qed.

Lemma all_jobs_set {T} (P : Job T -> Prop) A p q :
  all_jobs P A -> Forall P q -> all_jobs P (vec_set p q A).
Proof. intros H Hq. by apply Forall_insert. Qed.

Lemma all_jobs_enqueue {T} (P : Job T -> Prop) A j :
  all_jobs P A -> P j -> all_jobs P (abs_enqueue j A).
Proof.
  intros H Hj. unfold abs_enqueue. case_match eqn:E; [|done].
  apply all_jobs_set; [done|]. apply Forall_app. split; [by eapply all_jobs_get|by constructor].
Qed.

Lemma all_jobs_purge {T} (P : Job T -> Prop) A id :
  all_jobs P A -> all_jobs P (abs_purge id A).
Proof.
  intros H. unfold all_jobs, abs_purge. apply Forall_fmap.
  eapply Forall_impl; [exact H|]. intros q Hq. simpl.
  apply Forall_forall. intros j Hj%list_elem_of_filter. eapply Forall_forall; [exact Hq|]. apply Hj.
Qed.

Lemma all_jobs_enqueue_all (P : Job ConnectDataInternal -> Prop) l A :
  all_jobs P A -> Forall P l -> all_jobs P (enqueue_all l A).
Proof.
  intros H Hl. revert A H. induction Hl as [|j l Hj Hl IH]; intros A H; [done|].
  simpl. apply IH. by apply all_jobs_enqueue.
Qed.

(** Stores only grow. *)
Lemma connect_ok_mono max np np' j : np <= np' -> connect_ok max np j -> connect_ok max np' j.
Proof. unfold connect_ok. lia. Qed.

Lemma request_ok_mono max nc nc' np np' j :
  nc <= nc' -> np <= np' -> request_ok max nc np j -> request_ok max nc' np' j.
Proof. unfold request_ok. lia. Qed.

Lemma response_ok_mono max nc nc' np np' j :
  nc <= nc' -> np <= np' -> response_ok max nc np j -> response_ok max nc' np' j.
Proof. intros H1 H2 (? & ? & ? & ?). repeat split; [done|lia|lia|done]. Qed.

Lemma wait_ok_mono max nc nc' np np' w :
  nc <= nc' -> np <= np' -> wait_ok max nc np w -> wait_ok max nc' np' w.
Proof.
  intros H1 H2. destruct w; simpl; eauto using connect_ok_mono, request_ok_mono, response_ok_mono.
Qed.

(** A client with larger stores and the same jobs. *)
Lemma client_wf_mono max x c c' :
  client_wf max x c -> length (conns c) <= length (conns c') ->
  length (purge_states c) <= length (purge_states c') ->
  client_ok max c' (in_connect x) (in_request x) (in_response x) -> waits c' = waits c ->
  client_wf max x c'.
Proof.
  intros [_ H1 H2 H3 H4] Hc Hp Hok Hw. split; [done|..].
  - eapply all_jobs_impl; [|exact H1]. eauto using connect_ok_mono.
  - eapply all_jobs_impl; [|exact H2]. eauto using request_ok_mono.
  - eapply all_jobs_impl; [|exact H3]. eauto using response_ok_mono.
  - rewrite Hw. eapply Forall_impl; [exact H4|]. eauto using wait_ok_mono.
Qed.

(** ** The steps the operations share *)

Section Safe.
(** The Connections that were held at the beginning, and how many existed. *)
Context (max : N) (og : bool) (refs0 : list conn_ref) (n0 : nat).

(** Well formed, the origin stage is registered or not, and the pointers to
    Connections, with the [extra] ones the running code holds itself, are among
    those of the beginning and those of Connections made since. *)
Definition safe_with (extra : list conn_ref) (c : client) : Prop :=
  (exists x, client_wf max x c /\ n0 <= length (conns c) /\
     extra ++ conn_refs x (waits c) ⊆+ refs0 ++ seq n0 (length (conns c) - n0)) /\
  _origin_dstage c = og.

Definition safe (c : client) : Prop := safe_with [] c.

Lemma safe_drop e c : safe_with e c -> safe c.
Proof.
  intros [(x & Hwf & Hn & Hb) Hog]. split; [|done]. exists x. split; [done|]. split; [done|].
  etrans; [|exact Hb]. simpl. by apply submseteq_inserts_l.
Qed.

Definition connect_in (c : client) := connect_ok max (length (purge_states c)).
Definition request_in (c : client) := request_ok max (length (conns c)) (length (purge_states c)).
Definition response_in (c : client) := response_ok max (length (conns c)) (length (purge_states c)).
Definition wait_in (c : client) := wait_ok max (length (conns c)) (length (purge_states c)).

(** The running code holds a job. *)
Definition connect_held (c : client) (j : Job ConnectDataInternal) : Prop :=
  safe c /\ connect_in c j.
Definition request_held (c : client) (j : Job RequestData) : Prop :=
  safe_with [request_ref j] c /\ request_in c j.
Definition response_held (c : client) (j : Job ResponseData) : Prop :=
  safe_with [response_ref j] c /\ response_in c j.

Lemma dequeue_cases {T} d (q : @MultiQueue T) A p :
  linked_to max d q A ->
  ((max < p)%N /\ Dequeue p q = Crash CheckFailure) \/
  (exists q', Dequeue p q = Wait q' /\ linked_to max d q' A) \/
  (exists j l q', vec_get A p = Some (j :: l) /\ Dequeue p q = Done (Some j) q' /\
     linked_to max d q' (vec_set p l A)).
Proof.
  intros Hl. pose proof Hl as (_ & R & Hm). pose proof (repr_max _ _ R) as Hlen.
  destruct (N.le_gt_cases p max) as [Hp|Hp].
  - right. destruct (vec_get_lt A p) as [[|j l] Hq]; [lia|..].
    + left. destruct (repr_dequeue_empty _ _ _ R Hq) as (q' & E & R'). exists q'.
      split; [done|]. by apply (linked_max _ _ _ _ _ _ Hl R').
    + right. destruct (repr_dequeue _ _ _ _ _ R Hq) as (q' & E & R'). exists j, l, q'.
      split; [done|]. split; [done|]. by apply (linked_max _ _ _ _ _ _ Hl R'), length_vec_set.
  - left. split; [done|]. apply (repr_dequeue_range _ _ _ R). lia.
Qed.

(** The head of a queue and the queue without it. *)
Lemma all_jobs_head {T} (P : Job T -> Prop) A p j l :
  all_jobs P A -> vec_get A p = Some (j :: l) -> P j /\ all_jobs P (vec_set p l A).
Proof.
  intros H Hq. pose proof (all_jobs_get _ _ _ _ H Hq) as Hj. apply Forall_cons in Hj as [Hj Hl].
  split; [done|]. by apply all_jobs_set.
Qed.

Definition bad_prio (p : N) (e : fault) : Prop := e = CheckFailure /\ (max < p)%N.

Lemma connect_dequeue p :
  triple safe (connect_queue (Dequeue p))
    (fun o c => exists j, o = Some j /\ connect_held c j) safe (bad_prio p).
Proof.
  intros c [(x & [[K1 K2 K3] H1 H2 H3 H4] & Hn & Hb) Hog].
  destruct c as [[d [q hp]] rqs rss cs ws cn rq dl og']. simpl in *.
  unfold connect_queue, on_connect, zoom. simpl.
  destruct (dequeue_cases d q _ p K1) as [[Hp ->]|[(q' & -> & K')|(j & l & q' & Hq & -> & K')]].
  - done.
  - split; [|done]. by exists x.
  - destruct (all_jobs_head _ _ _ _ _ H1 Hq) as [Hj Hl]. exists j. split; [done|].
    split; [|exact Hj]. split; [|done].
    exists (mkContents (vec_set p l (in_connect x)) (in_request x) (in_response x)). by split.
Qed.

Lemma request_dequeue p :
  triple safe (request_queue (Dequeue p))
    (fun o c => exists j, o = Some j /\ request_held c j) safe (bad_prio p).
Proof.
  intros c [(x & [[K1 K2 K3] H1 H2 H3 H4] & Hn & Hb) Hog].
  destruct c as [cst [d q] rss cs ws cn rq dl og']. simpl in *.
  unfold request_queue, on_request, zoom. simpl.
  destruct (dequeue_cases d q _ p K2) as [[Hp ->]|[(q' & -> & K')|(j & l & q' & Hq & -> & K')]].
  - done.
  - split; [|done]. by exists x.
  - destruct (all_jobs_head _ _ _ _ _ H2 Hq) as [Hj Hl]. exists j. split; [done|].
    split; [|exact Hj]. split; [|done].
    exists (mkContents (in_connect x) (vec_set p l (in_request x)) (in_response x)).
    split; [by split|]. split; [done|]. etrans; [|exact Hb]. unfold conn_refs. simpl.
    by rewrite (concat_head _ _ _ _ Hq).
Qed.

Lemma response_dequeue_safe p :
  triple safe (response_queue (Dequeue p))
    (fun o c => exists j, o = Some j /\ response_held c j) safe (bad_prio p).
Proof.
  intros c [(x & [[K1 K2 K3] H1 H2 H3 H4] & Hn & Hb) Hog].
  destruct c as [cst rqs [d q] cs ws cn rq dl og']. simpl in *.
  unfold response_queue, on_response, zoom. simpl.
  destruct (dequeue_cases d q _ p K3) as [[Hp ->]|[(q' & -> & K')|(j & l & q' & Hq & -> & K')]].
  - done.
  - split; [|done]. by exists x.
  - destruct (all_jobs_head _ _ _ _ _ H3 Hq) as [Hj Hl]. exists j. split; [done|].
    split; [|exact Hj]. split; [|done].
    exists (mkContents (in_connect x) (in_request x) (vec_set p l (in_response x))).
    split; [by split|]. split; [done|]. etrans; [|exact Hb]. unfold conn_refs. simpl.
    rewrite (concat_head _ _ _ _ Hq), fmap_cons. simpl. by rewrite Permutation_middle.
Qed.

(** A pass goes on with the job it has dequeued. *)
Lemma triple_job {T B} (m : M client (option (Job T))) (k : option (Job T) -> M client B)
    (held : client -> Job T -> Prop) P Q W E :
  triple P m (fun o c => exists j, o = Some j /\ held c j) W E ->
  (forall j, triple (fun c => held c j) (k (Some j)) Q W E) -> triple P (m ≫= k) Q W E.
Proof.
  intros Hm Hk. eapply triple_bind; [exact Hm|]. intros o c (j & -> & Hj). by apply Hk.
Qed.

(** A job the code holds is destroyed. *)
Lemma drop_request c j : request_held c j -> safe c.
Proof. intros [H _]. by eapply safe_drop. Qed.

Lemma drop_response c j : response_held c j -> safe c.
Proof. intros [H _]. by eapply safe_drop. Qed.

(** Reading through a shared pointer. *)
Lemma is_purged_safe (r : purge_ref) (R : client -> Prop) W E :
  (forall c, R c -> r < length (purge_states c)) -> triple R (is_purged r) (fun _ => R) W E.
Proof.
  intros Hr c HR. specialize (Hr c HR). unfold is_purged. unM. apply lookup_lt_is_Some_2 in Hr as [st Hst].
  rewrite (Hst : purge_states c !! r = Some st). done.
Qed.

Lemma socket_of_safe (r : conn_ref) (R : client -> Prop) W E :
  (forall c, R c -> r < length (conns c)) -> triple R (socket_of r) (fun _ => R) W E.
Proof.
  intros Hr c HR. specialize (Hr c HR). unfold socket_of. unM. apply lookup_lt_is_Some_2 in Hr as [st Hst].
  rewrite (Hst : conns c !! r = Some st). done.
Qed.

Lemma add_wait_safe w W E :
  triple (fun c => safe_with (wait_refs w) c /\ wait_in c w) (add_wait w) (fun _ => safe) W E.
Proof.
  intros c [[(x & [K H1 H2 H3 H4] & Hn & Hb) Hog] Hw]. unfold add_wait. unM. split; [|done].
  exists x. split; [|split; [done|]].
  - split; try done; [by destruct K|]. simpl. apply Forall_app. split; [done|]. by constructor.
  - etrans; [|exact Hb]. unfold conn_refs. simpl.
    rewrite fmap_app, concat_app. simpl. rewrite app_nil_r.
    apply Permutation_submseteq. solve_Permutation.
Qed.

(** The logs of connections and requests are not part of the invariant. *)
Lemma same_stores e c c' :
  safe_with e c -> connect_stage c' = connect_stage c -> request_stage c' = request_stage c ->
  response_stage c' = response_stage c -> conns c' = conns c -> waits c' = waits c ->
  _origin_dstage c' = _origin_dstage c -> safe_with e c'.
Proof.
  intros [(x & Hwf & Hn & Hb) Hog] E1 E2 E3 E4 E5 E6. split; [|congruence]. exists x.
  rewrite E4, E5. split; [|done].
  apply (client_wf_mono max x c c' Hwf); try done; unfold purge_states; rewrite ?E4, ?E1; try done.
  destruct Hwf as [[K1 K2 K3] _ _ _ _]. split; by rewrite ?E1, ?E2, ?E3.
Qed.

(** Dispatch to the next stage. *)
Lemma prio_in_range {T} d (q : @MultiQueue T) A p :
  linked_to max d q A -> (p <= max)%N -> exists l, vec_get A p = Some l.
Proof. intros (_ & R & Hm) Hp. apply vec_get_lt. rewrite (repr_max _ _ R). lia. Qed.

Lemma forward_request j W E :
  triple (fun c => request_held c j) (on_request (Forward MoveLast (Some j) 0))
    (fun _ => safe) W E.
Proof.
  intros c [[(x & [[K1 K2 K3] H1 H2 H3 H4] & Hn & Hb) Hog] Hj].
  destruct c as [cst [d q] rss cs ws cn rq dl og']. simpl in *.
  destruct (prio_in_range d q _ (priority j) K2 (proj1 Hj)) as [l Hl].
  destruct (forward_linked max d q _ j l K2 Hl) as (q' & E' & K' & _).
  unfold on_request, zoom. simpl. rewrite E'. split; [|done].
  exists (mkContents (in_connect x) (abs_enqueue j (in_request x)) (in_response x)).
  split; [split; try done; simpl; by apply all_jobs_enqueue|]. split; [done|].
  etrans; [|exact Hb]. unfold conn_refs. simpl. by rewrite (concat_enqueue _ _ _ Hl).
Qed.

Lemma forward_response j W E :
  triple (fun c => response_held c j) (on_response (Forward MoveLast (Some j) 0))
    (fun _ => safe) W E.
Proof.
  intros c [[(x & [[K1 K2 K3] H1 H2 H3 H4] & Hn & Hb) Hog] Hj].
  destruct c as [cst rqs [d q] cs ws cn rq dl og']. simpl in *.
  destruct (prio_in_range d q _ (priority j) K3 (proj1 Hj)) as [l Hl].
  destruct (forward_linked max d q _ j l K3 Hl) as (q' & E' & K' & _).
  unfold on_response, zoom. simpl. rewrite E'. split; [|done].
  exists (mkContents (in_connect x) (in_request x) (abs_enqueue j (in_response x))).
  split; [split; try done; simpl; by apply all_jobs_enqueue|]. split; [done|].
  etrans; [|exact Hb]. unfold conn_refs. simpl.
  rewrite (concat_enqueue _ _ _ Hl), fmap_cons. simpl. by rewrite <-Permutation_middle.
Qed.

Lemma purge_safe id W E : triple safe (ConnectPurge id) (fun _ => safe) W E.
Proof.
  intros c [(x & [K H1 H2 H3 H4] & Hn & Hb) Hog].
  destruct c as [[d1 [q1 hp]] [d2 q2] [d3 q3] cs ws cn rq dl og'].
  pose proof K as [K1 K2 K3]. simpl in *.
  destruct (repr_purge _ _ id (proj1 (proj2 K1))) as (qc & Ec & Rc).
  destruct (repr_purge _ _ id (proj1 (proj2 K2))) as (qr & Er & Rr).
  destruct (repr_purge _ _ id (proj1 (proj2 K3))) as (qs & Es & Rs).
  unfold ConnectPurge, RequestPurge, ResponsePurge, connect_queue, request_queue,
    response_queue, on_connect, on_request, on_response, zoom. unM. simpl.
  rewrite Ec. simpl. rewrite Er. simpl. rewrite Es. simpl. split; [|done].
  exists (mkContents (abs_purge id (in_connect x)) (abs_purge id (in_request x))
    (abs_purge id (in_response x))).
  split; [split; simpl; try done; try by apply all_jobs_purge|split; [done|]].
  - split; simpl; (eapply linked_max; [done|done|]); unfold abs_purge; by rewrite length_fmap.
  - etrans; [|exact Hb]. unfold conn_refs. simpl.
    repeat apply submseteq_app; try done; apply fmap_submseteq, concat_purge.
Qed.

(** ** The connect stage *)

(** A Get that cannot be dispatched aborts, or (when the sum of priority and
    duplication wraps around below the job's own priority) enqueues nothing. *)
Lemma get_not_ready now d (q : ConnectQueue) heap (A : list (list (Job ConnectDataInternal))) job req :
  linked_to max d q A -> is_u32 req -> ~ ready d job req ->
  Connect (S := ConnectQueue) now MoveLast (Some job) req (d, (q, heap)) = Crash CheckFailure \/
  Connect (S := ConnectQueue) now MoveLast (Some job) req (d, (q, heap)) =
    Done tt (d, (q, heap ++ [PurgeState.new])).
Proof.
  intros (Hl & R & Hmx) Hreq Hnr. destruct Hl as (Hr & Hk & Hm).
  assert (mq_repr q A) as RA by exact R. pose proof (mq_repr_u32 _ _ RA) as Hu.
  change (is_u32 (_max_prio q + 1)) in Hu. change (_max_priority d = _max_prio q) in Hm.
  rewrite <-Hm in Hu. unfold Connect, Dispatch. unM. simpl. rewrite Hr.
  destruct (N.leb_spec (priority job) (_max_priority d)) as [Hp|Hp]; [|by left].
  unfold DuplicateAndEnqueue. unM. simpl.
  destruct (N.ltb_spec (u32_sub (max_prio_of d (priority job) req) (priority job))
    (N.of_nat (length (ip_addresses (job_data job))))); [|by left].
  cbn [fst]. rewrite u32_add_small by done.
  destruct (N.eqb_spec (N.of_nat (length (ip_addresses (job_data job))))
    (_max_priority d + 1)) as [Hi|Hi]; [|by left].
  right. assert (u32_mod <= priority job + req)%N as Hov.
  { apply N.le_ngt. intros Hlt. apply Hnr. split; [exact Hp|]. by split. }
  assert (max_prio_of d (priority job) req < priority job)%N as Hlow.
  { unfold max_prio_of, u32_add, u32. revert Hu Hreq. unfold is_u32. intros.
    assert ((priority job + req) mod u32_mod = priority job + req - u32_mod)%N as ->.
    { symmetry. apply (N.mod_unique _ _ 1); lia. }
    destruct (N.ltb_spec (_max_priority d) (priority job + req - u32_mod)); lia. }
  destruct (N.to_nat _ + 1); simpl; by rewrite (proj2 (N.leb_gt _ _)).
Qed.

Lemma duplicates_ok now np n job dup ps i prio :
  (prio + N.of_nat n <= max + 1)%N -> ps < np ->
  Forall (connect_ok max np) (duplicates now n job dup ps i prio).
Proof.
  revert i prio. induction n as [|n IH]; intros i prio Hn Hps; simpl; [done|].
  destruct (_ !! i); [|done]. constructor; [split; simpl; [lia|done]|]. apply IH; [lia|done].
Qed.

(** What a caller of Dispatch has to provide. *)
Definition dispatchable (job : Job ConnectData) (req : N) : Prop :=
  (priority job <= max)%N /\ is_u32 (priority job + req) /\
  N.of_nat (length (ip_addresses (job_data job))) = (max + 1)%N.

#[local] Instance dispatchable_dec job req : Decision (dispatchable job req).
Proof. unfold dispatchable, is_u32. apply _. Defined.

Lemma get_safe now job req W :
  is_u32 req ->
  triple safe (Get now job req) (fun _ => safe) W
    (fun e => e = CheckFailure /\ ~ dispatchable job req).
Proof.
  intros Hu c [(x & Hwf & Hn & Hb) Hog]. pose proof Hwf as [[K1 K2 K3] H1 H2 H3 H4].
  destruct c as [[d [q hp]] rqs rss cs ws cn rq dl og']. simpl in *.
  unfold Get, on_connect, zoom. simpl.
  assert (_max_priority d = max) as Hm
    by (destruct K1 as ((_ & _ & Hm) & _ & <-); exact Hm).
  destruct (decide (dispatchable job req)) as [Hd|Hd].
  - assert (mq_repr q (in_connect x)) as RA by exact (proj1 (proj2 K1)).
    assert (ready d job req) as Hrd by (unfold ready; by rewrite Hm).
    destruct (connect_enqueues now d q hp (in_connect x) job req (proj1 K1) RA Hrd)
      as (q' & -> & R' & _). split; [|done].
    pose proof (client_wf_mono max x _
      (mkClient (d, (q, hp ++ [PurgeState.new])) rqs rss cs ws cn rq dl og') Hwf) as Hwf'.
    destruct Hwf' as [_ G1 G2 G3 G4]; try done.
    { unfold purge_states. simpl. rewrite length_app. lia. }
    exists (mkContents (enqueue_all (duplicates now (N.to_nat (fan_out d job req)) job
      (fan_out d job req - 1) (length hp) 0 (priority job)) (in_connect x))
      (in_request x) (in_response x)).
    split; [|by split]. split; try done.
    + split; try done. simpl. apply (linked_max _ _ _ _ _ _ K1 R'), length_enqueue_all.
    + apply all_jobs_enqueue_all; [exact G1|]. apply duplicates_ok.
      * destruct Hd as (Hp & _). unfold fan_out. rewrite Hm. lia.
      * unfold purge_states. simpl. rewrite length_app. simpl. lia.
  - destruct (get_not_ready now d q hp _ job req K1 Hu) as [-> | ->].
    + unfold ready. by rewrite Hm.
    + done.
    + split; [|done]. exists x. split; [|by split].
      apply (client_wf_mono max x _ _ Hwf); try done.
      unfold purge_states. simpl. rewrite length_app. lia.
Qed.

Lemma connect_pass_safe p :
  triple safe (ConnectPass p) (fun _ => safe) safe (bad_prio p).
Proof.
  eapply triple_job; [apply connect_dequeue|]. intros j.
  eapply triple_seq.
  { apply (is_purged_safe _ (fun c => connect_held c j)). intros c [_ Hj]. apply Hj. }
  intros []; [by apply triple_ret; intros c []|].
  eapply triple_seq; [|intros _; apply (add_wait_safe (WConnect j))].
  apply triple_modify. intros c [Hs Hj]. split; [by eapply same_stores|exact Hj].
Qed.

(** A Connection that is made is one more to hold. *)
Lemma add_conn_safe soc c :
  safe c -> safe_with [length (conns c)] (add_conn (Connection.new soc) c).
Proof.
  intros [(x & Hwf & Hn & Hb) Hog]. split; [|done]. exists x.
  assert (length (conns (add_conn (Connection.new soc) c)) = S (length (conns c))) as Hl.
  { simpl. rewrite length_app. simpl. lia. }
  rewrite Hl. split; [|split; [lia|]].
  - apply (client_wf_mono max x c); try done; [lia|]. by destruct Hwf as [[] _ _ _ _].
  - replace (S (length (conns c)) - n0) with (S (length (conns c) - n0)) by lia.
    rewrite seq_S. replace (n0 + (length (conns c) - n0)) with (length (conns c)) by lia.
    simpl in Hb. change (waits (add_conn (Connection.new soc) c)) with (waits c). simpl.
    rewrite app_assoc, <-Permutation_cons_append. by apply submseteq_skip.
Qed.

Lemma connect_callback_safe now j soc r W :
  triple (fun c => connect_held c j) (ConnectCallback now j soc r) (fun _ => safe) W
    (fun e => e = CheckFailure /\ rf_err r = 0%Z /\ rf_out r = false).
Proof.
  unfold ConnectCallback. destruct (Z.eqb_spec (rf_err r) 0) as [He|He]; simpl;
    [|by apply triple_ret; intros c []].
  eapply triple_seq; [by apply triple_CHECK_keep|]. intros _.
  eapply triple_bind; [apply (triple_get _ (fun c0 c => c0 = c /\ connect_held c j)); done|].
  intros c0.
  set (made := fun c => safe_with [length (conns c0)] c /\ connect_in c j /\
    length (conns c0) < length (conns c)).
  eapply triple_seq.
  { apply (triple_modify _ _ (fun _ => made)). intros c (-> & Hs & Hj).
    split; [by apply add_conn_safe|]. split; [exact Hj|]. simpl. rewrite length_app. simpl. lia. }
  intros _. eapply triple_seq.
  { apply (is_purged_safe _ made). intros c (_ & Hj & _). apply Hj. }
  intros b. destruct (negb b && (0 <=? soc)%Z);
    [|apply triple_ret; intros c (Hs & _); by eapply safe_drop].
  eapply triple_pre; [apply forward_request|].
  intros c (Hs & Hj & Hn). split; [done|]. split; [apply Hj|]. split; [exact Hn|]. apply Hj.
Qed.

(** ** The request stage *)

Lemma request_pass_safe p sent :
  triple safe (RequestPass p sent) (fun _ => safe) safe
    (fun e => bad_prio p e \/ e = CheckFailure /\ sent <> sizeof_Protocol).
Proof.
  eapply triple_job.
  { eapply triple_conseq; [apply request_dequeue|done|intros ? ? H; exact H|done|]. intros e He. by left. }
  intros j. eapply triple_seq.
  { apply (is_purged_safe _ (fun c => request_held c j)). intros c [_ Hj]. apply Hj. }
  intros []; [apply triple_ret; intros c; apply drop_request|].
  eapply triple_seq.
  { apply (socket_of_safe _ (fun c => request_held c j)). intros c [_ Hj]. apply Hj. }
  intros soc. eapply triple_seq.
  { apply (triple_modify _ _ (fun _ c => request_held c j)). intros c [Hs Hj].
    split; [by eapply same_stores|exact Hj]. }
  intros _. eapply triple_seq; [|intros _; apply (add_wait_safe (WRequest j))].
  apply triple_CHECK_keep. intros Hs%Z.eqb_neq. by right.
Qed.

Lemma request_callback_safe now j soc r W :
  triple (fun c => request_held c j) (RequestCallback now j soc r) (fun _ => safe) W
    (fun e => e = CheckFailure /\ rf_err r = 0%Z /\ rf_in r = false).
Proof.
  unfold RequestCallback. destruct (Z.eqb_spec (rf_err r) 0) as [He|He]; simpl;
    [|apply triple_ret; intros c; apply drop_request].
  eapply triple_seq; [by apply triple_CHECK_keep|]. intros _.
  eapply triple_seq.
  { apply (is_purged_safe _ (fun c => request_held c j)). intros c [_ Hj]. apply Hj. }
  intros b. destruct (negb b && (0 <=? soc)%Z); [|apply triple_ret; intros c; apply drop_request].
  eapply triple_pre; [apply forward_response|].
  intros c (Hs & Hp & Hc & Hu). split; [exact Hs|]. split; [exact Hp|]. by split.
Qed.

(** ** The response stage *)

Lemma read_loop_index script o k :
  (k <= N.of_nat (length o))%N -> is_u32 (N.of_nat (length o)) ->
  match read_loop script o k with
  | Done (_, o', k') _ => length o' = length o /\ (k' <= N.of_nat (length o))%N
  | Wait _ => True
  | Crash _ => False
  end.
Proof.
  revert o k. induction script as [|[d | | e] rest IH]; intros o k Hk Hu; cbn [read_loop];
    rewrite (proj2 (N.ltb_ge _ _)) by done;
    destruct (N.eqb_spec k (N.of_nat (length o))) as [Ek|Ek]; try done.
  destruct d as [|b d]; [done|]. set (n := Nat.min _ _).
  assert (n <= N.to_nat (N.of_nat (length o) - k)) as Hn by apply Nat.le_min_r.
  assert (length (take (N.to_nat k) o ++ take n (b :: d) ++ drop (N.to_nat k + n) o) = length o)
    as Hlen.
  { rewrite !length_app, !length_take, length_drop.
    assert (n <= length (b :: d)) by apply Nat.le_min_l. lia. }
  rewrite u32_add_small by (revert Hu; u32_unfold; lia).
  specialize (IH (take (N.to_nat k) o ++ take n (b :: d) ++ drop (N.to_nat k + n) o)
    (k + N.of_nat n)%N). rewrite Hlen in IH. apply IH; [lia|done].
Qed.

(** What is wrong with the header of a first answer. *)
Inductive bad_header (header : option Protocol) : fault -> Prop :=
| no_header : header = None -> bad_header header CheckFailure
| empty_object h : header = Some h -> p_size_bytes h = 0%Z -> bad_header header CheckFailure
| negative_size h : header = Some h -> (p_size_bytes h < 0)%Z -> bad_header header LengthError
| start_outside h : header = Some h ->
    (Z.to_N (p_size_bytes h) < u32_of_Z (p_start_idx h))%N -> bad_header header OutOfRange.

Definition header_typed (header : option Protocol) : Prop :=
  match header with Some h => is_i32 (p_size_bytes h) | None => True end.

Lemma complete_safe j o W :
  triple (fun c => safe c /\ rs_purge_state (job_data j) < length (purge_states c))
    (complete j o) (fun _ => safe) W (fun e => e = CheckFailure /\ og = false).
Proof.
  intros c [Hs Hr]. unfold complete, set_purged. unM.
  apply lookup_lt_is_Some_2 in Hr as [st Hst].
  rewrite (Hst : purge_states c !! rs_purge_state (job_data j) = Some st).
  assert (safe (set_purge_states (<[rs_purge_state (job_data j) := (PurgeState.SetPurged st).2]>
    (purge_states c)) c)) as Hs'.
  { destruct Hs as [(x & Hwf & Hn & Hb) Hog]. split; [|done]. exists x. split; [|by split].
    apply (client_wf_mono max x c _ Hwf); try done.
    - unfold purge_states. simpl. by rewrite length_insert.
    - by destruct Hwf as [[] _ _ _ _]. }
  destruct (PurgeState.SetPurged st) as [first st'] eqn:Ep. simpl in *.
  destruct first; [|done].
  match goal with |- context [add_done ?d ?c1] => set (c2 := add_done d c1) end.
  assert (safe c2) as H2 by by eapply same_stores.
  match goal with |- context [if ?b then _ else _] => change b with (_origin_dstage c2) end.
  destruct (_origin_dstage c2) eqn:Eo; [|split; [done|destruct H2 as [_ Hog]; congruence]].
  pose proof (purge_safe (job_id j) (fun _ => False) (fun _ => False) c2 H2) as Hp.
  destruct (ConnectPurge (job_id j) c2); naive_solver.
Qed.

(** The job's data once the header has been dealt with. *)
Definition opened_as (d : ResponseData) (o : list Z) (k : N) : ResponseData :=
  mkResponseData (rs_connection d) (rs_object_id d) k (Some o) (rs_done d) (rs_purge_state d).

Lemma read_header_cases header d c :
  header_typed header -> index_ok d ->
  (exists e, read_header header d c = Crash e /\ bad_header header e) \/
  (exists o k, read_header header d c = Done (opened_as d o k) c /\
     is_u32 (N.of_nat (length o)) /\
     ((k <= N.of_nat (length o))%N \/
      (N.of_nat (length o) < k)%N /\ bad_header header OutOfRange)).
Proof.
  unfold read_header, index_ok. intros Ht Hi. destruct d as [cn oi ix [o|] dn ps]; simpl in *.
  { right. exists o, ix. split; [done|]. split; [apply Hi|]. left. apply Hi. }
  destruct header as [h|]; [|left; eexists; split; [done|by constructor]].
  unM. simpl in Ht. destruct (Z.ltb_spec (p_size_bytes h) 0).
  { left. eexists. split; [done|]. by eapply negative_size. }
  destruct (Z.eqb_spec (p_size_bytes h) 0).
  { left. eexists. split; [done|]. by eapply empty_object. }
  right. eexists _, _. split; [done|]. rewrite length_replicate.
  split; [revert Ht; u32_unfold; lia|].
  destruct (N.le_gt_cases (u32_of_Z (p_start_idx h)) (N.of_nat (Z.to_nat (p_size_bytes h))))
    as [|Hlt]; [by left|]. right. split; [done|]. eapply start_outside; [done|]. lia.
Qed.

Lemma after_reading_safe j o0 k0 closed o k W :
  length o = length o0 -> (k <= N.of_nat (length o0))%N -> is_u32 (N.of_nat (length o0)) ->
  triple (fun c => response_held c j)
    (after_reading j (opened_as (job_data j) o0 k0) closed o k) (fun _ => safe) W
    (fun e => e = CheckFailure /\ og = false).
Proof.
  intros Ho Hk Hu. unfold after_reading. rewrite Ho.
  destruct (N.eqb_spec k (N.of_nat (length o0))).
  { eapply triple_pre; [apply complete_safe|]. intros c [Hs (_ & _ & Hp & _)].
    split; [by eapply safe_drop|done]. }
  destruct closed; [apply triple_ret; intros c; apply drop_response|].
  eapply triple_pre; [apply add_wait_safe|]. intros c (Hs & Hp & Hc & Hps & _).
  split; [done|]. repeat split; simpl; try done; rewrite Ho; done.
Qed.

Definition blame_response (p : N) (header : option Protocol) (e : fault) : Prop :=
  bad_prio p e \/ bad_header header e \/ e = CheckFailure /\ og = false.

Lemma response_pass_safe p header script :
  header_typed header ->
  triple safe (ResponsePass p header script) (fun _ => safe) safe (blame_response p header).
Proof.
  intros Ht. eapply triple_job.
  { eapply triple_conseq; [apply response_dequeue_safe|done|intros ? ? H; exact H|done|]. intros e He. by left. }
  intros j. eapply triple_seq.
  { apply (is_purged_safe _ (fun c => response_held c j)). intros c [_ Hj]. apply Hj. }
  intros []; [apply triple_ret; intros c; apply drop_response|].
  intros c [Hs Hj].
  destruct (read_header_cases header (job_data j) c Ht) as [(e & E & He)|(o & k & E & Hu & Hk)].
  { apply Hj. }
  { rewrite (bind_Crash _ _ _ _ E). by right; left. }
  rewrite (bind_Done _ _ _ _ _ E), (bind_Done _ _ _ o c) by done. simpl.
  destruct Hk as [Hk|[Hk Hb]].
  - pose proof (read_loop_index script o k Hk Hu) as Hl.
    destruct (read_loop script o k) as [[[closed o'] k'] rest|rest|e]; [|by apply (drop_response c j)|done].
    destruct Hl as [Ho Hk'].
    pose proof (after_reading_safe j o k closed o' k' safe Ho Hk' Hu c (conj Hs Hj)) as Ha.
    destruct (after_reading _ _ _ _ _ _); [done|done|by right; right].
  - assert (read_loop script o k = Crash OutOfRange) as ->
      by (destruct script; cbn [read_loop]; by rewrite (proj2 (N.ltb_lt _ _))).
    by right; left.
Qed.

Lemma response_callback_safe now j soc r W :
  triple (fun c => response_held c j) (ResponseCallback now j soc r) (fun _ => safe) W
    (fun e => e = CheckFailure /\ rf_err r = 0%Z /\ rf_in r = false).
Proof.
  unfold ResponseCallback. destruct (Z.eqb_spec (rf_err r) 0) as [He|He]; simpl;
    [|apply triple_ret; intros c; apply drop_response].
  eapply triple_seq; [by apply triple_CHECK_keep|]. intros _.
  eapply triple_seq.
  { apply (is_purged_safe _ (fun c => response_held c j)). intros c [_ Hj]. apply Hj. }
  intros b. destruct (negb b && (0 <=? soc)%Z); [|apply triple_ret; intros c; apply drop_response].
  eapply triple_pre; [apply forward_response|]. done.
Qed.

End Safe.
(** ** Every operation *)

(** Machine integers of an operation's arguments. *)
Definition op_typed (o : client_op) : Prop :=
  match o with
  | OpGet _ req => is_u32 req
  | OpResponsePass _ header _ => header_typed header
  | _ => True
  end.

(** What the environment did wrong when an operation ends in a fault: the
    application's job, the worker's priority, a partial send, a header, an event
    that is neither an error nor what was asked for, or no origin stage. *)
Definition blame (max : N) (c : client) (o : client_op) (e : fault) : Prop :=
  match o with
  | OpGet job req => e = CheckFailure /\ ~ dispatchable max job req
  | OpConnectPass p => bad_prio max p e
  | OpRequestPass p sent => bad_prio max p e \/ e = CheckFailure /\ sent <> sizeof_Protocol
  | OpResponsePass p header _ => blame_response max (_origin_dstage c) p header e
  | OpFire i soc r => e = CheckFailure /\ rf_err r = 0%Z /\
      exists w, waits c !! i = Some w /\
        (match w with WConnect _ => rf_out r | _ => rf_in r end) = false
  | OpPurgeAll _ | OpRegisterOrigin => False
  end.

(** Firing takes the callback out first. *)
Lemma fire_safe max og refs0 n0 now i soc r c :
  safe max og refs0 n0 c ->
  match Fire now i soc r c with
  | Done _ c' | Wait c' => safe max og refs0 n0 c'
  | Crash e => blame max c (OpFire i soc r) e
  end.
Proof.
  intros Hs. unfold Fire. unM. destruct (waits c !! i) as [w|] eqn:Hi; [|done].
  set (c1 := set_waits (delete i (waits c)) c).
  assert (safe_with max og refs0 n0 (wait_refs w) c1 /\ wait_in max c1 w) as [Hs' Hw].
  { destruct Hs as [(x & [K H1 H2 H3 H4] & Hn & Hb) Hog]. split; [split; [|done]|].
    - exists x. split; [split; try done; [by destruct K|by apply Forall_delete]|].
      split; [done|]. etrans; [|exact Hb]. unfold conn_refs. simpl.
      rewrite (concat_delete wait_refs (waits c) i w Hi). solve_submseteq.
    - exact (Forall_lookup_1 _ _ _ _ H4 Hi). }
  destruct w as [j|j|j].
  1: pose proof (connect_callback_safe max og refs0 n0 now j soc r (safe max og refs0 n0) _ (conj Hs' Hw)) as H.
  2: pose proof (request_callback_safe max og refs0 n0 now j soc r (safe max og refs0 n0) _ (conj Hs' Hw)) as H.
  3: pose proof (response_callback_safe max og refs0 n0 now j soc r (safe max og refs0 n0) _ (conj Hs' Hw)) as H.
  all: case_match; try done; destruct H as (-> & He & Hr); split; [done|]; split; [done|]; eauto.
Qed.

(** One operation, with what it does to the pointers to Connections. *)
Lemma exec_refs max now o c x :
  client_wf max x c -> op_typed o ->
  match exec_client now o c with
  | Done _ c' | Wait c' => exists x', client_wf max x' c' /\
      length (conns c) <= length (conns c') /\
      conn_refs x' (waits c') ⊆+
        conn_refs x (waits c) ++ seq (length (conns c)) (length (conns c') - length (conns c))
  | Crash e => blame max c o e
  end.
Proof.
  intros Hwf Ho. set (refs0 := conn_refs x (waits c)). set (n0 := length (conns c)).
  assert (safe max (_origin_dstage c) refs0 n0 c) as Hs.
  { split; [|done]. exists x. split; [done|]. split; [done|]. by apply submseteq_inserts_r. }
  assert (Hsafe : forall og c', safe max og refs0 n0 c' -> exists x', client_wf max x' c' /\
    n0 <= length (conns c') /\
    conn_refs x' (waits c') ⊆+ refs0 ++ seq n0 (length (conns c') - n0)) by by intros ? ? [].
  destruct o as [job d|p|p sent|p header script|i soc r|id|].
  - pose proof (get_safe max _ refs0 n0 now job d (fun _ => False) Ho c Hs) as H. simpl.
    case_match; [eauto|done|done].
  - pose proof (connect_pass_safe max _ refs0 n0 p c Hs) as H. simpl. case_match; eauto.
  - pose proof (request_pass_safe max _ refs0 n0 p sent c Hs) as H. simpl. case_match; eauto.
  - pose proof (response_pass_safe max _ refs0 n0 p header script Ho c Hs) as H. simpl.
    case_match; eauto.
  - pose proof (fire_safe max _ refs0 n0 now i soc r c Hs) as H. cbn [exec_client].
    case_match; eauto.
  - pose proof (purge_safe max _ refs0 n0 id (fun _ => False) (fun _ => False) c Hs) as H. simpl.
    unM. destruct (ConnectPurge id c); [eauto|done|done].
  - apply (Hsafe true). destruct Hs as [(x' & Hx & Hn & Hb) _]. split; [|done]. exists x'.
    split; [|by split]. apply (client_wf_mono max x' c); try done.
    by destruct Hx as [[] _ _ _ _].
Qed.

Lemma client_exec_safe max now o c :
  well_formed max c -> op_typed o ->
  match exec_client now o c with
  | Done _ c' | Wait c' => well_formed max c'
  | Crash e => blame max c o e
  end.
Proof.
  intros [x Hx] Ho. pose proof (exec_refs max now o c x Hx Ho) as H.
  destruct (exec_client now o c) as [a c'|c'|e]; [..|done]; destruct H as (x' & Hx' & _);
    by exists x'.
Qed.

Lemma client_new_wf max : (max < UINT_MAX)%N -> well_formed max (client_new max).
Proof.
  intros Hm. exists (mkContents (replicate (N.to_nat (max + 1)) [])
    (replicate (N.to_nat (max + 1)) []) (replicate (N.to_nat (max + 1)) [])).
  split; simpl; try (by apply Forall_replicate); [|done].
  split; simpl; split; try done; (split; [by apply repr_new|done]).
Qed.

Lemma client_run_safe max now l c c' :
  well_formed max c -> Forall op_typed l -> run_client now l c = Some c' -> well_formed max c'.
Proof.
  intros Hwf Hl. revert c Hwf. induction Hl as [|o l Ho Hl IH]; intros c Hwf E; simpl in E.
  { by injection E as <-. }
  apply bind_Some in E as (c1 & E1 & E). apply (IH c1); [|done].
  pose proof (client_exec_safe max now o c Hwf Ho) as H.
  destruct (exec_client now o c); simplify_eq/=; done.
Qed.

(** C13. Type safety of the client.  In every state that any sequence of
    operations can reach, each reference in a queue or a waiting callback is
    valid, each job's priority is that of a queue and each response's index is
    inside its object; the next operation, whatever it is, keeps this or stops
    with a fault for which its own arguments are to blame ([blame]): no null or
    dangling reference is ever followed. *)
Theorem client_type_safe max now l c o :
  (max < UINT_MAX)%N -> Forall op_typed l -> run_client now l (client_new max) = Some c ->
  op_typed o ->
  well_formed max c /\
  match exec_client now o c with
  | Done _ c' | Wait c' => well_formed max c'
  | Crash e => blame max c o e
  end.
Proof.
  intros Hm Hl E Ho. pose proof (client_run_safe max now l _ c (client_new_wf max Hm) Hl E) as Hwf.
  split; [done|]. by apply client_exec_safe.
Qed.

Lemma client_type_safe_witness :
  well_formed 1 get_end /\ exec_client (fun _ => 0%Z) (OpPurgeAll 4) get_end <> Crash NullDeref.
Proof.
  destruct (client_type_safe 1 (fun _ => 0%Z) get_run get_end (OpPurgeAll 4)) as [H1 H2].
  - reflexivity.
  - repeat constructor; discriminate.
  - vm_compute. reflexivity.
  - exact I.
  - split; [exact H1|]. intros E. rewrite E in H2. exact H2.
Defined.

End ClientSafe.
