(* ===== verification/ClientOwn.v ===== *)
(** * Who owns the client's Connections

    RequestData and ResponseData hold a std::shared_ptr<Connection>.  The jobs
    that hold one live in the value maps of the two stages' multi-queues and in
    the callbacks that wait in the communication handler; ConnectCallback makes
    the Connection, the later stages move the pointer along.  [owners] lists the
    pointers of a state of Client.v, with repetitions: its length at a Connection
    is the use count of that shared_ptr between two operations. *)

From stdpp Require Import prelude gmap list strings.
From S2P Require Import Prelude Triple Synchronization Job BaseMultiQueue JobTypes MultiQueue.
From S2P Require Import MultiQueueSpec Dispatcher ProxyPipe Client ClientInv ClientFetch ClientSafe.

Module ClientOwn.
Import MQ MQSpec Dispatcher TcpPipe Client ClientInv ClientFetch ClientSafe.

(** ** The jobs a multi-queue owns *)

Section Mapper.
Context {T : Type}.
Implicit Types (vm : gmap N (list (Job T * N))) (Q : list (list (N * Job T))).

(** The unique pointers are in the value map. *)
Definition mapped vm : list (Job T * N) := concat (snd <$> map_to_list vm).

Definition owned_jobs (q : @MultiQueue T) : list (Job T) := (mapped (_value_mapper q)).*1.

Lemma concat_snd_perm (a b : list (N * list (Job T * N))) :
  a ≡ₚ b -> concat (snd <$> a) ≡ₚ concat (snd <$> b).
Proof.
  induction 1 as [|x a b _ IH|x y a|a b d _ IH1 _ IH2]; simpl; try done.
  - by rewrite IH.
  - solve_Permutation.
  - by rewrite IH1.
Qed.

Lemma mapped_insert vm id l :
  vm !! id = None -> mapped (<[id := l]> vm) ≡ₚ l ++ mapped vm.
Proof. intros Hid. exact (concat_snd_perm _ _ (map_to_list_insert vm id l Hid)). Qed.

Lemma filter_split {A} (f : A -> bool) (l : list A) :
  l ≡ₚ filter f l ++ filter (fun x => negb (f x)) l.
Proof.
  induction l as [|x l IH]; [done|]. rewrite !filter_cons_bool.
  destruct (f x); simpl; rewrite IH at 1; [done|]. by rewrite Permutation_middle.
Qed.

Lemma filter_absorb {A} (f g : A -> bool) (l : list A) :
  (forall x, f x = true -> g x = true) -> filter f (filter g l) = filter f l.
Proof.
  intros H. induction l as [|x l IH]; [done|]. rewrite !filter_cons_bool.
  destruct (g x) eqn:Eg; [by rewrite filter_cons_bool, IH|].
  destruct (f x) eqn:Ef; [|done]. by rewrite (H x Ef) in Eg.
Qed.

Lemma concat_filter_split {A} (f : A -> bool) (Q : list (list A)) :
  concat Q ≡ₚ concat (filter f <$> Q) ++ concat (filter (fun x => negb (f x)) <$> Q).
Proof.
  induction Q as [|q Q IH]; [done|]. rewrite !fmap_cons. simpl. rewrite IH.
  rewrite (filter_split f q) at 1. solve_Permutation.
Qed.

(** Entries taken apart by priority. *)
Lemma by_priority (B : list (list (Job T * N))) l :
  (forall e, e ∈ l -> priority e.1 < N.of_nat (length B))%N ->
  (forall p b, vec_get B p = Some b -> filter (at_prio p) l = b) ->
  l ≡ₚ concat B.
Proof.
  revert l. induction B as [|b B IH] using rev_ind; intros l Hr Hf.
  { destruct l as [|e l]; [done|]. specialize (Hr e (list_elem_of_here _ _)). simpl in Hr. lia. }
  set (n := N.of_nat (length B)). rewrite length_app in Hr. simpl in Hr.
  rewrite concat_app. simpl. rewrite app_nil_r.
  rewrite (filter_split (at_prio n) l), (Hf n b), <-(IH (filter (fun x => negb (at_prio n x)) l)).
  - apply Permutation_app_comm.
  - intros e [He Hin]%elem_of_filter_bool. specialize (Hr e Hin).
    unfold at_prio in He. apply negb_true_iff, N.eqb_neq in He. unfold n in *. lia.
  - intros p b' Hb. pose proof (vec_get_Some_lt _ _ _ Hb) as Hp.
    rewrite <-(Hf p b') by (unfold vec_get in *; rewrite lookup_app_l; [done|lia]).
    apply filter_absorb. intros x Hx. unfold at_prio in *. apply N.eqb_eq in Hx.
    apply negb_true_iff, N.eqb_neq. unfold n. lia.
  - unfold vec_get, n. by rewrite Nat2N.id, lookup_app_r, Nat.sub_diag.
Qed.

Lemma entries_of_id vm Q id :
  vm_rel vm Q -> entries vm id ≡ₚ concat ((fun q : list (N * Job T) => flip_pair <$> filter (has_id id) q) <$> Q).
Proof.
  intros [He Hr _]. apply by_priority; [intros e; rewrite length_fmap; apply Hr|].
  intros p b. unfold vec_get. rewrite list_lookup_fmap.
  destruct (Q !! N.to_nat p) as [q|] eqn:Hq; [|done]. intros [= <-]. by apply He.
Qed.

Lemma mapped_jobs vm Q : vm_rel vm Q -> mapped vm ≡ₚ flip_pair <$> concat Q.
Proof.
  revert Q. induction vm as [|id l vm Hid IH] using map_ind; intros Q HR.
  { destruct (concat Q) as [|x r] eqn:E; [done|]. exfalso.
    assert (x ∈ concat Q) as Hx by (rewrite E; apply list_elem_of_here).
    apply list_elem_of_In, in_concat in Hx as (q & Hq & Hx).
    apply list_elem_of_In, list_elem_of_lookup in Hq as [i Hq].
    pose proof (vr_entries _ _ HR (job_id x.2) (N.of_nat i) q) as Hf.
    unfold vec_get in Hf. rewrite Nat2N.id in Hf. specialize (Hf Hq).
    unfold entries in Hf. rewrite lookup_empty in Hf. simpl in Hf.
    assert (x ∈ filter (has_id (job_id x.2)) q) as Hin.
    { apply elem_of_filter_bool. split; [|by apply list_elem_of_In].
      unfold has_id, has_job_id. apply N.eqb_refl. }
    destruct (filter (has_id (job_id x.2)) q); [by apply not_elem_of_nil in Hin|done]. }
  rewrite (mapped_insert vm id l Hid).
  pose proof (entries_of_id _ _ id HR) as Hl. unfold entries in Hl.
  rewrite lookup_insert_eq in Hl. simpl in Hl.
  pose proof (vm_rel_purge _ _ id HR) as HR'. rewrite delete_insert_id in HR' by done.
  rewrite Hl, (IH _ HR'), (concat_filter_split (has_id id) Q), fmap_app. f_equiv.
  clear. induction Q as [|q Q IHQ]; [done|]. rewrite !fmap_cons. simpl.
  by rewrite fmap_app, IHQ.
Qed.

(** The jobs a multi-queue owns are those its queues hold. *)
Lemma owned_jobs_repr (q : @MultiQueue T) A : repr q A -> owned_jobs q ≡ₚ concat A.
Proof.
  intros (Q & -> & HR & _). unfold owned_jobs, jobs_of.
  rewrite (mapped_jobs _ _ (mr_vm _ _ HR)). rewrite <-list_fmap_compose.
  clear. induction Q as [|q' Q IH]; [done|]. rewrite fmap_cons. simpl.
  by rewrite fmap_app, IH.
Qed.

End Mapper.

(** ** The shared pointers *)

(** Every shared pointer to a Connection, with repetitions. *)
Definition owners (c : client) : list conn_ref :=
  (request_ref <$> owned_jobs (request_stage c).2) ++
  (response_ref <$> owned_jobs (response_stage c).2) ++ concat (wait_refs <$> waits c).

(** ** The client only appends Connections, with both flags clear *)

Definition open_conn (x : Connection.Connection) : Prop := x = Connection.new (Connection._socket x).

Definition grown (cs : list Connection.Connection) (c : client) : Prop :=
  exists k, conns c = cs ++ k /\ Forall open_conn k.

Definition grows {A} (m : M client A) : Prop :=
  forall cs, triple (grown cs) m (fun _ => grown cs) (grown cs) (fun _ => True).

Lemma grows_bind {A B} (m : M client A) (k : A -> M client B) :
  grows m -> (forall a, grows (k a)) -> grows (m ≫= k).
Proof. intros Hm Hk cs. eapply triple_bind; [apply Hm|]. intros a. apply Hk. Qed.

Lemma grows_ret {A} (a : A) : grows (mret a).
Proof. intros cs. by apply triple_ret. Qed.

Lemma grows_get : grows get.
Proof. intros cs. by apply triple_get. Qed.

Lemma grows_CHECK b : grows (CHECK b).
Proof. intros cs. by apply triple_CHECK_keep. Qed.

Lemma grows_need {A} e (o : option A) : grows (need e o).
Proof. intros cs. by apply triple_need. Qed.

Lemma grows_crash {A} e : grows (crash (A := A) e).
Proof. by intros cs c _. Qed.

Lemma grows_wait {A} : grows (fun c => Wait (A := A) c).
Proof. by intros cs c H. Qed.

Lemma grows_modify f : (forall c, conns (f c) = conns c) -> grows (modify f).
Proof. intros Hf cs. apply triple_modify. intros c (k & E & Hk). exists k. by rewrite Hf. Qed.

Lemma grows_add_conn soc : grows (modify (add_conn (Connection.new soc))).
Proof.
  intros cs. apply triple_modify. intros c (k & E & Hk). exists (k ++ [Connection.new soc]).
  simpl. rewrite E, app_assoc. split; [done|]. apply Forall_app. split; [done|].
  by apply Forall_singleton.
Qed.

Lemma grows_zoom {S A} (view : client -> S) upd (m : M S A) :
  (forall x c, conns (upd x c) = conns c) -> grows (zoom view upd m).
Proof.
  intros Hu cs c (k & E & Hk). unfold zoom.
  destruct (m (view c)); try done; exists k; by rewrite Hu.
Qed.

(** Proves [grows] of a straight-line computation. *)
Ltac grows_tac :=
  repeat first
    [ apply grows_bind; [|intros ?] | apply grows_ret | apply grows_get | apply grows_CHECK
    | apply grows_need | apply grows_crash | apply grows_wait | apply grows_add_conn
    | (apply grows_modify; done) | (apply grows_zoom; done) | case_match | done ].

Lemma grows_exec now o : grows (exec_client now o).
Proof.
  destruct o; cbn [exec_client];
    unfold Get, ConnectPass, RequestPass, ResponsePass, Fire, ConnectCallback, RequestCallback,
      ResponseCallback, ConnectPurge, RequestPurge, ResponsePurge, RegisterOriginDStage,
      after_reading, complete, read_header, set_purged, is_purged, socket_of, connect_queue,
      request_queue, response_queue, on_connect, on_request, on_response, add_wait; grows_tac.
Qed.

(** ** One owner each *)

Lemma owners_refs max x c : client_wf max x c -> owners c ≡ₚ conn_refs x (waits c).
Proof.
  intros [[_ (_ & R2 & _) (_ & R3 & _)] _ _ _ _]. unfold owners, conn_refs.
  by rewrite (owned_jobs_repr _ _ R2), (owned_jobs_repr _ _ R3).
Qed.

Lemma exec_conns now o c c' :
  out_state (exec_client now o c) = Some c' ->
  exists k, conns c' = conns c ++ k /\ Forall open_conn k.
Proof.
  intros E. apply (triple_out _ _ (grown (conns c)) _ _ _ (grows_exec now o (conns c))
    ltac:(exists []; by rewrite app_nil_r) E).
Qed.

Record owned_ok (max : N) (c : client) : Prop := mk_owned_ok {
  ow_wf : well_formed max c;
  ow_once : NoDup (owners c);
  ow_made : forall r, r ∈ owners c -> r < length (conns c);
  ow_open : Forall open_conn (conns c)
}.

(** The pointers after an operation are pointers from before or point to
    Connections that it made, each once. *)
Lemma owners_step max now o c c' :
  well_formed max c -> op_typed o -> out_state (exec_client now o c) = Some c' ->
  well_formed max c' /\ length (conns c) <= length (conns c') /\
  owners c' ⊆+ owners c ++ seq (length (conns c)) (length (conns c') - length (conns c)).
Proof.
  intros [x Hx] Ho E. pose proof (exec_refs max now o _ x Hx Ho) as H.
  assert (exists x', client_wf max x' c' /\ length (conns c) <= length (conns c') /\
    conn_refs x' (waits c') ⊆+ conn_refs x (waits c) ++
      seq (length (conns c)) (length (conns c') - length (conns c))) as (x' & Hx' & Hn & Hb).
  { destruct (exec_client now o c); simplify_eq/=; done. }
  rewrite <-(owners_refs _ _ _ Hx), <-(owners_refs _ _ _ Hx') in Hb. split; [by exists x'|done].
Qed.

(** A pointer that an operation leaves was there before, or its Connection is
    new. *)
Lemma owners_from max now o c c' r :
  well_formed max c -> op_typed o -> out_state (exec_client now o c) = Some c' ->
  r ∈ owners c' -> r ∈ owners c \/ length (conns c) <= r < length (conns c').
Proof.
  intros Hw Ho E Hr. destruct (owners_step _ _ _ _ _ Hw Ho E) as (_ & Hn & Hb).
  eapply elem_of_submseteq in Hr; [|exact Hb].
  apply elem_of_app in Hr as [?|Hr%elem_of_seq]; [by left|right; lia].
Qed.

Lemma conn_owned_step max now o c c' :
  owned_ok max c -> op_typed o -> out_state (exec_client now o c) = Some c' -> owned_ok max c'.
Proof.
  intros [T1 T2 T3 T4] Ho E. destruct (owners_step _ _ _ _ _ T1 Ho E) as (Hw & Hn & Hb).
  destruct (exec_conns _ _ _ _ E) as (k & Ek & Hk). split; [done|..].
  - apply submseteq_Permutation in Hb as [k' Hk'].
    assert (NoDup (owners c' ++ k')) as Hnd; [|by apply NoDup_app in Hnd as [? _]].
    rewrite <-Hk'. apply NoDup_app. split; [done|]. split; [|apply NoDup_seq].
    intros r Hr%T3 Hs%elem_of_seq. lia.
  - intros r Hr. destruct (owners_from _ _ _ _ _ _ T1 Ho E Hr) as [?%T3|?]; lia.
  - rewrite Ek. by apply Forall_app.
Qed.

Lemma owned_run max now l c c' :
  owned_ok max c -> Forall op_typed l -> run_client now l c = Some c' ->
  owned_ok max c' /\ conns c `prefix_of` conns c' /\
  (forall r, r < length (conns c) -> r ∈ owners c' -> r ∈ owners c).
Proof.
  intros Hc Hl. revert c Hc. induction Hl as [|o l Ho Hl IH]; intros c Hc E; simpl in E.
  { injection E as <-. split; [done|]. by split; [exists []; rewrite app_nil_r|]. }
  apply bind_Some in E as (c1 & E1 & E). destruct (exec_conns _ _ _ _ E1) as (k & Ek & _).
  destruct (IH c1 (conn_owned_step _ _ _ _ _ Hc Ho E1) E) as (Hc' & Hp & Hr). split; [done|]. split.
  - etrans; [|exact Hp]. rewrite Ek. by apply prefix_app_r.
  - intros r Hlt Hin. apply Hr in Hin; [|rewrite Ek, length_app; lia].
    destruct (owners_from _ _ _ _ _ _ (ow_wf _ _ Hc) Ho E1 Hin); [done|lia].
Qed.

Lemma client_new_owned max : (max < UINT_MAX)%N -> owned_ok max (client_new max).
Proof.
  intros Hm. assert (owners (client_new max) = []) as Ho by done. split; rewrite ?Ho.
  - by apply client_new_wf.
  - apply NoDup_nil_2.
  - intros r H. by apply not_elem_of_nil in H.
  - apply Forall_nil_2.
Qed.

(** A connect that fails is dropped before its socket is wrapped: no Connection
    is made for it, so nothing will close it. *)
Theorem failed_connect_leaks now i soc r j c :
  waits c !! i = Some (WConnect j) -> rf_err r <> 0%Z ->
  exists c', exec_client now (OpFire i soc r) c = Done tt c' /\
    conns c' = conns c /\ owners c' ≡ₚ owners c.
Proof.
  intros Hi Hr. exists (set_waits (delete i (waits c)) c). split.
  - cbn [exec_client]. unfold Fire. unM. rewrite Hi. unfold ConnectCallback.
    by rewrite (proj2 (Z.eqb_neq _ _) Hr).
  - split; [done|]. unfold owners. simpl. by rewrite (concat_delete wait_refs _ _ _ Hi).
Qed.

(** C14. The Connections of the client have one owner each.  Whatever sequence of
    calls, passes and events the client goes through, and in whatever order jobs
    are purged, dropped and passed on: every Connection is held by at most one
    job at a time, so its shared_ptr has use count one or is gone; no job holds a
    Connection that was not made; nobody shuts a Connection down or closes it
    while it is held, which leaves that to ~Connection; it keeps its socket; and
    a Connection that no job holds any more is never held again, whatever
    follows. *)
Theorem connections_owned max now l l' c c' :
  (max < UINT_MAX)%N -> Forall op_typed l -> Forall op_typed l' ->
  run_client now l (client_new max) = Some c -> run_client now l' c = Some c' ->
  NoDup (owners c) /\ (forall r, r ∈ owners c -> r < length (conns c)) /\
  Forall open_conn (conns c) /\ conns c `prefix_of` conns c' /\
  (forall r, r < length (conns c) -> r ∉ owners c -> r ∉ owners c').
Proof.
  intros Hm Hl Hl' E E'.
  destruct (owned_run max now l _ c (client_new_owned max Hm) Hl E) as (Hc & _).
  destruct (owned_run max now l' _ c' Hc Hl' E') as (_ & Hp & Hr). destruct Hc as [_ T2 T3 T4].
  repeat (split; [done|]). intros r Hlt Hno Hin. by apply Hno, Hr.
Qed.

(** The run of ClientInv.v, cut after its first five operations. *)
Definition owned_mid : client :=
  default (client_new 1) (run_client (fun _ => 0%Z) (take 5 get_run) (client_new 1)).

Definition owned_end : client :=
  default (client_new 1) (run_client (fun _ => 0%Z) (drop 5 get_run) owned_mid).

Lemma connections_owned_witness :
  owners owned_mid = [0] /\ NoDup (owners owned_mid) /\
  conns owned_mid `prefix_of` conns owned_end.
Proof.
  split; [vm_compute; reflexivity|].
  destruct (connections_owned 1 (fun _ => 0%Z) (take 5 get_run) (drop 5 get_run) owned_mid owned_end)
    as (H1 & _ & _ & H2 & _).
  - reflexivity.
  - repeat constructor; discriminate.
  - repeat constructor; discriminate.
  - vm_compute. reflexivity.
  - vm_compute. reflexivity.
  - split; [exact H1|exact H2].
Defined.

End ClientOwn.
