(* ===== verification/ClientStages.v ===== *)
(** * Start and end of the client's stages: the constructors and destructors of
      ConnectScheduler, RequestScheduler and ResponseScheduler and of their
      DStages (client_connect_handler.{h,cc}, client_request_handler.{h,cc},
      client_response_handler.{h,cc})

    The stages are built from the last to the first, since each holds a pointer
    to the next one; the response stage is told the first one afterwards.  A
    worker tests [_destructing] before each pass; the flag ceases to exist, with
    the other members of the derived scheduler, between the body of its
    destructor and the join of ~Scheduler. *)

From stdpp Require Import prelude gmap list strings.
From S2P Require Import Prelude Synchronization Job BaseMultiQueue JobTypes MultiQueue.
From S2P Require Import MultiQueueSpec MultiQueueRuns Dispatcher Scheduler DStage ProxyPipe.
From S2P Require Import Client ClientFetch ClientGet.

Module ClientStages.
Import MQ MQSpec MQRuns Dispatcher TcpPipe Client ClientFetch ClientGet.

(** ** Construction *)

(** What the three schedulers add to Scheduler<T>; [_destructing] is [None]
    after its lifetime. *)
Record StageScheduler := mkStageScheduler {
  base : Scheduler.Scheduler;
  _destructing : option bool
}.

Definition ConnectScheduler (threads_per_prio : list N) (set_thread_priority : bool) :
    option StageScheduler :=
  s ← Scheduler.new threads_per_prio set_thread_priority;
  Some (mkStageScheduler s (Some false)).

Definition RequestScheduler (threads_per_prio : list N) (set_thread_priority : bool) :
    option StageScheduler :=
  s ← Scheduler.new threads_per_prio set_thread_priority;
  Some (mkStageScheduler s (Some false)).

(** With [_origin_dstage(nullptr)]. *)
Definition ResponseScheduler (threads_per_prio : list N) (set_thread_priority : bool) :
    option (StageScheduler * bool) :=
  s ← Scheduler.new threads_per_prio set_thread_priority;
  Some (mkStageScheduler s (Some false), false).

(** [threads_per_prio.size() - 1], converted to Priority. *)
Definition max_of (threads_per_prio : list N) : N :=
  u32_sub (u32 (N.of_nat (length threads_per_prio))) 1.

Definition done_state {S A} (o : outcome S A) : option S :=
  match o with Done _ s => Some s | _ => None end.

(** The DStage constructor around a scheduler; [None] when a CHECK fails. *)
Definition start_stage {W} (threads_per_prio : list N) (w : W) (sch : StageScheduler) :
    option (DStage.DStage W * StageScheduler) :=
  s ← done_state (DStage.construct (max_of threads_per_prio) w
        (Dispatcher.new (max_of threads_per_prio)) (base sch));
  Some (s, mkStageScheduler (DStage._scheduler s) (_destructing sch)).

Definition ConnectDStage (threads_per_prio : list N) (set_thread_priority : bool) :
    option (DStage.DStage (ConnectQueue * list PurgeState.PurgeState) * StageScheduler) :=
  sch ← ConnectScheduler threads_per_prio set_thread_priority;
  start_stage threads_per_prio (MQ.new (max_of threads_per_prio), []) sch.

Definition RequestDStage (threads_per_prio : list N) (set_thread_priority : bool) :
    option (DStage.DStage (@MultiQueue RequestData) * StageScheduler) :=
  sch ← RequestScheduler threads_per_prio set_thread_priority;
  start_stage threads_per_prio (MQ.new (max_of threads_per_prio)) sch.

Definition ResponseDStage (threads_per_prio : list N) (set_thread_priority : bool) :
    option (DStage.DStage (@MultiQueue ResponseData) * StageScheduler * bool) :=
  sch ← ResponseScheduler threads_per_prio set_thread_priority;
  s ← start_stage threads_per_prio (MQ.new (max_of threads_per_prio)) sch.1;
  Some (s, sch.2).

(** The three stages of a client with their schedulers. *)
Record pipeline := mkPipeline {
  client_of : client;
  connect_scheduler : StageScheduler;
  request_scheduler : StageScheduler;
  response_scheduler : StageScheduler
}.

Definition set_client (c : client) (s : pipeline) : pipeline :=
  mkPipeline c (connect_scheduler s) (request_scheduler s) (response_scheduler s).

Definition on_client {A} (m : M client A) : M pipeline A := zoom client_of set_client m.

(** A client with [threads_per_prio] in every stage, its origin registered. *)
Definition construct (threads_per_prio : list N) (set_thread_priority : bool) :
    option pipeline :=
  rs ← ResponseDStage threads_per_prio set_thread_priority;
  rq ← RequestDStage threads_per_prio set_thread_priority;
  cn ← ConnectDStage threads_per_prio set_thread_priority;
  let stage_of {W} (s : DStage.DStage W) := (DStage._dispatcher s, DStage.world s) in
  done_state (on_client RegisterOriginDStage
    (mkPipeline (mkClient (stage_of cn.1) (stage_of rq.1) (stage_of rs.1.1) [] [] [] [] [] rs.2)
       cn.2 rq.2 rs.1.2)).

(** ** Workers *)

Inductive stage : Type := SConnect | SRequest | SResponse.

Definition scheduler_of (st : stage) (s : pipeline) : StageScheduler :=
  match st with
  | SConnect => connect_scheduler s
  | SRequest => request_scheduler s
  | SResponse => response_scheduler s
  end.

Definition set_scheduler (st : stage) (x : StageScheduler) (s : pipeline) : pipeline :=
  match st with
  | SConnect => mkPipeline (client_of s) x (request_scheduler s) (response_scheduler s)
  | SRequest => mkPipeline (client_of s) (connect_scheduler s) x (response_scheduler s)
  | SResponse => mkPipeline (client_of s) (connect_scheduler s) (request_scheduler s) x
  end.

(** What the kernel answers during a pass: the result of send, the header, the
    reads. *)
Record answers := mkAnswers {
  a_sent : Z;
  a_header : option Protocol;
  a_reads : list read_result
}.

Definition pass_of (st : stage) (prio : N) (a : answers) : M client unit :=
  match st with
  | SConnect => ConnectPass prio
  | SRequest => RequestPass prio (a_sent a)
  | SResponse => ResponsePass prio (a_header a) (a_reads a)
  end.

(** One round of StartScheduling's loop: false when the worker returns. *)
Definition worker_round (st : stage) (prio : N) (a : answers) : M pipeline bool :=
  s ← get;
  destructing ← need UseAfterFree (_destructing (scheduler_of st s));
  if (destructing : bool) then mret false
  else
    _ ← on_client (pass_of st prio a);
    mret true.

(** A worker that waits in Dequeue: it ends its pass and goes on to the test. *)
Definition resume (st : stage) (prio : N) (a : answers) : M pipeline bool :=
  _ ← on_client (pass_of st prio a);
  worker_round st prio a.

(** ** Destruction *)

Definition set_destructing (st : stage) (s : pipeline) : pipeline :=
  set_scheduler st (mkStageScheduler (base (scheduler_of st s)) (Some true)) s.

Definition release (st : stage) : M client unit :=
  match st with
  | SConnect => connect_queue ReleaseQueues
  | SRequest => request_queue ReleaseQueues
  | SResponse => response_queue ReleaseQueues
  end.

(** The bodies of the three destructors differ in their queues only. *)
Definition destroy_scheduler (st : stage) : M pipeline unit :=
  _ ← modify (set_destructing st);
  s ← get;
  if Scheduler._running (base (scheduler_of st s)) then on_client (release st) else mret tt.

Definition destroy_ConnectScheduler : M pipeline unit := destroy_scheduler SConnect.
Definition destroy_RequestScheduler : M pipeline unit := destroy_scheduler SRequest.
Definition destroy_ResponseScheduler : M pipeline unit := destroy_scheduler SResponse.

(** The end of a derived destructor: its members are destroyed. *)
Definition end_members (st : stage) : M pipeline unit :=
  modify (fun s => set_scheduler st (mkStageScheduler (base (scheduler_of st s)) None) s).

(** ~Scheduler, which joins the workers. *)
Definition join_workers (st : stage) : M pipeline unit :=
  modify (fun s => set_scheduler st
    (mkStageScheduler (Scheduler.destroy (base (scheduler_of st s)))
       (_destructing (scheduler_of st s))) s).

(** ** A constructed client *)

Lemma start_stage_Done {W} threads flag sch (w : W) :
  Scheduler.new threads flag = Some sch -> is_u32 (N.of_nat (length threads)) ->
  exists sch', start_stage threads w (mkStageScheduler sch (Some false)) =
      Some (DStage.mkDStage (max_of threads) w (mkDispatcher true (max_of threads) (Some tt)) sch',
            mkStageScheduler sch' (Some false)) /\
    Scheduler._running sch' = true /\
    Scheduler._workers sch' = Scheduler.pools_from 0 threads.
Proof.
  intros Hn Hu. destruct threads as [|n l] eqn:E; [done|]. rewrite <-E in *. clear n l E.
  assert (sch = Scheduler.mkScheduler flag false (max_of threads) None threads [] []) as ->
    by (unfold Scheduler.new in Hn; by destruct threads; simplify_eq).
  unfold start_stage, DStage.construct, DStage.on_scheduler, Scheduler.LinkMultiQ, Scheduler.Run,
    zoom. unM. simpl. rewrite Scheduler.run_loop_Done by done. simpl.
  unfold DStage.on_dispatcher, LinkMultiQ, zoom. unM. simpl.
  eexists. split; [reflexivity|]. by split.
Qed.

Lemma new_linked_to {T} threads :
  threads <> [] -> is_u32 (N.of_nat (length threads)) ->
  linked_to (max_of threads) (mkDispatcher true (max_of threads) (Some tt))
    (@MQ.new T (max_of threads)) (replicate (length threads) []).
Proof.
  intros Hne Hu. destruct threads as [|n l]; [done|].
  assert (max_of (n :: l) = N.of_nat (length l)) as ->.
  { unfold max_of. rewrite u32_small by done. simpl length in *.
    rewrite u32_sub_le by (revert Hu; u32_unfold; lia). lia. }
  split; [done|]. split; [|done].
  pose proof (@repr_new T (N.of_nat (length l))) as H.
  simpl length in *. replace (N.to_nat (N.of_nat (length l) + 1)) with (S (length l)) in H by lia.
  apply H. revert Hu. u32_unfold. lia.
Qed.

(** The workers of a running stage. *)
Definition staffed (threads : list N) (x : StageScheduler) : Prop :=
  _destructing x = Some false /\ Scheduler._running (base x) = true /\
  Scheduler._workers (base x) = Scheduler.pools_from 0 threads.

(** The constructors build a working client: for any non-empty vector of
    thread counts all three stages start their workers, every queue is empty and
    linked to its dispatcher, and the response stage knows the stage to purge, so
    a request of any priority can be served at once; an empty vector aborts. *)
Theorem client_constructs threads flag :
  is_u32 (N.of_nat (length threads)) ->
  construct [] flag = None /\
  (threads <> [] ->
   exists s, construct threads flag = Some s /\
     (forall st, staffed threads (scheduler_of st s)) /\
     forall p, (p < N.of_nat (length threads))%N ->
       idle_at (max_of threads) p (client_of s) (replicate (length threads) [])
         (replicate (length threads) []) (replicate (length threads) [])).
Proof.
  intros Hu. split; [done|]. intros Hne.
  destruct (Scheduler.new threads flag) as [sch|] eqn:E; [|by destruct threads].
  destruct (start_stage_Done threads flag sch (@MQ.new ResponseData (max_of threads)) E Hu)
    as (s3 & E3 & R3).
  destruct (start_stage_Done threads flag sch (@MQ.new RequestData (max_of threads)) E Hu)
    as (s2 & E2 & R2).
  destruct (start_stage_Done threads flag sch
    (@MQ.new ConnectDataInternal (max_of threads), @nil PurgeState.PurgeState) E Hu)
    as (s1 & E1 & R1).
  unfold construct, ResponseDStage, RequestDStage, ConnectDStage, ResponseScheduler,
    RequestScheduler, ConnectScheduler. rewrite E. simpl. rewrite E3. simpl. rewrite E2. simpl.
  rewrite E1. simpl. eexists. split; [reflexivity|]. split; [by intros []|].
  intros p Hp. split; [split; by apply new_linked_to|..|done];
    apply lookup_replicate_2; lia.
Qed.

Lemma client_constructs_witness : exists s, construct [1; 1]%N false = Some s /\
  idle_at 1 1 (client_of s) [[]; []] [[]; []] [[]; []].
Proof.
  destruct (client_constructs [1; 1]%N false) as [_ H]; [reflexivity|].
  destruct H as (s & E & _ & Hi); [discriminate|].
  exists s. split; [exact E|]. apply (Hi 1%N). reflexivity.
Defined.

(** ** Shutdown *)

Lemma release_empty {T} (q : @MultiQueue T) A p :
  repr q A -> vec_get A p = Some [] ->
  exists q', ReleaseQueues q = Done tt q' /\ Dequeue p q' = Done None q'.
Proof.
  intros (Q & -> & H & _ & _ & Hone) Hq.
  apply jobs_of_get in Hq as ([|] & Hq & Heq); simplify_eq/=.
  destruct (ReleaseQueues_spec _ _ H) as (q' & E & H' & _ & Hr & Hro & Hne).
  exists q'. split; [done|].
  assert (vec_get (_not_empty_mutexes q') p = Some false) as Hb
    by (rewrite Hne; unfold empty_at; by rewrite Hq).
  destruct (vec_get_lt (_release_one q') p) as [r Hr1];
    [rewrite (mr_len_ro _ _ H'); by eapply vec_get_Some_lt|].
  assert (r = false) as -> by (apply (Hone p); by rewrite <-Hro).
  pose proof (Dequeue_any _ _ _ _ _ _ H' Hq Hb Hr1) as D. simpl in D. rewrite Hr in D.
  rewrite D. f_equal. destruct q'. simpl in *. unfold set_not_empty. simpl.
  by rewrite vec_set_twice, vec_set_id.
Qed.

(** The queue of priority [p] of a stage is empty. *)
Definition stage_empty (st : stage) (p : N) (Ac : list (list (Job ConnectDataInternal)))
    (Ar : list (list (Job RequestData))) (As : list (list (Job ResponseData))) : Prop :=
  match st with
  | SConnect => vec_get Ac p = Some []
  | SRequest => vec_get Ar p = Some []
  | SResponse => vec_get As p = Some []
  end.

Lemma release_frees st max c Ac Ar As p :
  client_ok max c Ac Ar As -> stage_empty st p Ac Ar As ->
  exists c', release st c = Done tt c' /\ forall a, pass_of st p a c' = Done tt c'.
Proof.
  intros [(_ & Rc & _) (_ & Rr & _) (_ & Rs & _)] He.
  destruct c as [[dc [qc heap]] [dr qr] [ds qs] cs ws cn rq dl og]. simpl in *.
  destruct st; simpl in He.
  1: destruct (release_empty qc Ac p Rc He) as (q' & E & D).
  2: destruct (release_empty qr Ar p Rr He) as (q' & E & D).
  3: destruct (release_empty qs As p Rs He) as (q' & E & D).
  all: unfold release, connect_queue, request_queue, response_queue, on_connect, on_request,
    on_response, zoom; simpl; rewrite E; eexists; split; [reflexivity|]; intros a;
    unfold pass_of, ConnectPass, RequestPass, ResponsePass, connect_queue, request_queue,
    response_queue, on_connect, on_request, on_response, zoom; unM; simpl; by rewrite D.
Qed.

Lemma pass_waits st max c Ac Ar As p a :
  client_ok max c Ac Ar As -> stage_empty st p Ac Ar As ->
  exists c', pass_of st p a c = Wait c'.
Proof.
  intros [(_ & Rc & _) (_ & Rr & _) (_ & Rs & _)] He.
  destruct c as [[dc [qc heap]] [dr qr] [ds qs] cs ws cn rq dl og]. simpl in *.
  destruct st; simpl in He.
  1: destruct (repr_dequeue_empty qc Ac p Rc He) as (q' & E & D).
  2: destruct (repr_dequeue_empty qr Ar p Rr He) as (q' & E & D).
  3: destruct (repr_dequeue_empty qs As p Rs He) as (q' & E & D).
  all: unfold pass_of, ConnectPass, RequestPass, ResponsePass, connect_queue, request_queue,
    response_queue, on_connect, on_request, on_response, zoom; unM; simpl; rewrite E; by eexists.
Qed.

Fixpoint resume_all (st : stage) (p : N) (l : list answers) : M pipeline (list bool) :=
  match l with
  | [] => mret []
  | a :: l' => b ← resume st p a; bs ← resume_all st p l'; mret (b :: bs)
  end.

Lemma resume_freed st p s l :
  _destructing (scheduler_of st s) = Some true ->
  (forall a, pass_of st p a (client_of s) = Done tt (client_of s)) ->
  resume_all st p l s = Done (replicate (length l) false) s.
Proof.
  intros Hd Hp. induction l as [|a l IH]; [done|]. simpl.
  assert (resume st p a s = Done false s) as E.
  { unfold resume, worker_round, on_client, zoom. unM. rewrite Hp.
    assert (set_client (client_of s) s = s) as -> by by destruct s. by rewrite Hd. }
  rewrite (bind_Done _ _ _ _ _ E). by rewrite (bind_Done _ _ _ _ _ IH).
Qed.

Lemma resume_dead st p a s :
  _destructing (scheduler_of st s) = None ->
  pass_of st p a (client_of s) = Done tt (client_of s) -> resume st p a s = Crash UseAfterFree.
Proof.
  intros Hd Hp. unfold resume, worker_round, on_client, zoom. unM. rewrite Hp.
  assert (set_client (client_of s) s = s) as -> by by destruct s. simpl. by rewrite Hd.
Qed.

(** C26. Shutdown of a client stage.  The workers of a priority whose queue is
    empty wait.  The body of the destructor of the stage's scheduler sets
    [_destructing] and releases the queues; from then on each of them, however
    many they are, ends its pass without a job, so none of them is left in
    Dequeue.  A worker that tests the flag before the destructor destroys its
    members returns from StartScheduling; one that comes to the test between
    that and the join of ~Scheduler reads a flag, under a lock, whose lifetime
    has ended. *)
Theorem client_shutdown_releases st max s Ac Ar As p :
  client_ok max (client_of s) Ac Ar As -> stage_empty st p Ac Ar As ->
  Scheduler._running (base (scheduler_of st s)) = true ->
  (forall a, exists s', resume st p a s = Wait s') /\
  exists s1 s2, destroy_scheduler st s = Done tt s1 /\ end_members st s1 = Done tt s2 /\
    (forall a, pass_of st p a (client_of s1) = Done tt (client_of s1)) /\
    client_of s2 = client_of s1 /\
    (forall l, resume_all st p l s1 = Done (replicate (length l) false) s1) /\
    (forall a, resume st p a s2 = Crash UseAfterFree).
Proof.
  intros Hok He Hr. split.
  - intros a. destruct (pass_waits st max (client_of s) Ac Ar As p a Hok He) as (c' & E).
    unfold resume, on_client, zoom. unM. rewrite E. by eexists.
  - destruct (release_frees st max (client_of s) Ac Ar As p Hok He) as (c' & E & Hf).
    assert (client_of (set_destructing st s) = client_of s) as Hc by by destruct st.
    assert (scheduler_of st (set_destructing st s) =
      mkStageScheduler (base (scheduler_of st s)) (Some true)) as Hs by by destruct st.
    assert (destroy_scheduler st s = Done tt (set_client c' (set_destructing st s))) as D.
    { unfold destroy_scheduler. unM. rewrite Hs. simpl. rewrite Hr. unfold on_client, zoom.
      by rewrite Hc, E. }
    eexists _, _. split; [exact D|]. split; [reflexivity|]. split; [exact Hf|].
    split; [by destruct st|]. split.
    + intros l. apply resume_freed; [by destruct st|exact Hf].
    + intros a. apply resume_dead; destruct st; try done; apply Hf.
Qed.

Lemma client_shutdown_releases_witness : exists s s1 s2, construct [1; 1]%N false = Some s /\
  destroy_scheduler SRequest s = Done tt s1 /\
  resume_all SRequest 1 (replicate 3 (mkAnswers 20 None [])) s1 = Done [false; false; false] s1 /\
  end_members SRequest s1 = Done tt s2 /\
  resume SRequest 1 (mkAnswers 20 None []) s2 = Crash UseAfterFree.
Proof.
  destruct (construct [1; 1]%N false) as [s|] eqn:E; [|discriminate E].
  assert (client_ok 1 (client_of s) [[]; []] [[]; []] [[]; []]) as Hok.
  { injection E as <-. split; apply new_linked. }
  assert (Scheduler._running (base (scheduler_of SRequest s)) = true) as Hr.
  { injection E as <-. reflexivity. }
  destruct (client_shutdown_releases SRequest 1 s [[]; []] [[]; []] [[]; []] 1 Hok eq_refl Hr)
    as (_ & s1 & s2 & D & E2 & _ & _ & Hl & Hd).
  exists s, s1, s2. split; [reflexivity|]. split; [exact D|].
  split; [exact (Hl (replicate 3 (mkAnswers 20 None [])))|]. split; [exact E2|apply Hd].
Defined.

End ClientStages.
