(* ===== verification/CommHandler.v ===== *)
(** * LinuxCommunicationHandler (linux_communication_handler.cc) and Callback
      (common/util/callback.hh)

    The epoll set, the heap of dynamically allocated callbacks and the event
    buffer [_events] that the worker threads share.  A worker waits, then runs
    the callbacks of the events it was handed.  What epoll_wait reports of a
    socket, and whether it disarms the socket until the next EPOLL_CTL_MOD,
    depends on the event mask the socket was registered with.  The
    kernel's answers (new descriptors, pending errors, accepted sockets) are
    arguments; what the application does in [done] is a later operation. *)

From stdpp Require Import prelude gmap list.
From S2P Require Import Prelude Synchronization Job JobTypes.

Module CommHandler.

Definition EPOLLIN : N := 1.
Definition EPOLLPRI : N := 2.
Definition EPOLLOUT : N := 4.
Definition EPOLLERR : N := 8.
Definition EPOLLHUP : N := 16.
Definition EPOLLRDHUP : N := 8192.
Definition EPOLLONESHOT : N := 1073741824.

Definition kMaxEvents : nat := 64.
Definition EAGAIN : Z := 11.
Definition EINPROGRESS : Z := 115.

Inductive CallbackDeleteOption : Type := DELETE_AFTER_CALLING | DO_NOTHING.

Inductive ctl : Type := EPOLL_CTL_ADD | EPOLL_CTL_MOD.

(** The member function a callback is bound to. *)
Inductive bound : Type := BMonitorSocketReady | BServeSocketReady.

#[export] Instance bound_eq_dec : EqDecision bound.
Proof. solve_decision. Defined.

(** A Callback: the bound function, its socket, the application's [done] (by
    name) and the delete flag. *)
Record Callback := mkCallback {
  cb_bound : bound;
  cb_soc : Z;
  cb_done : N;
  _delete_after_run : bool
}.

Definition new_callback (b : bound) (soc : Z) (done : N) (option : CallbackDeleteOption) :
    Callback :=
  mkCallback b soc done
    (match option with DELETE_AFTER_CALLING => true | DO_NOTHING => false end).

(** One entry of the epoll set. *)
Record reg := mkReg { r_events : N; r_cb : N; r_armed : bool }.

(** A worker of MonitorAllSockets: in epoll_wait, at event [i] of [n], or
    returned. *)
Inductive worker : Type :=
| WWait
| WHandle (i n : nat)
| WExit.

(** The calls of the application's functions. *)
Inductive call : Type :=
| CallBack2 (done : N) (soc : Z) (ready_for : ReadyFor)
| CallBack1 (done : N) (soc : Z).

Record handler := mkHandler {
  epoll : gmap Z reg;
  heap : gmap N Callback;
  next_cb : N;
  _events : list (N * N);
  workers : list worker;
  calls : list call;
  _servers : list Connection.Connection;
  _destructing : bool;
  syscalls : list Connection.syscall
}.

(** Pointer 0 is nullptr. *)
Definition new (number_of_workers : nat) : handler :=
  mkHandler ∅ ∅ 1 (replicate kMaxEvents (0, 0)%N) (replicate number_of_workers WWait) [] []
    false [].

Definition set_epoll (m : gmap Z reg) (h : handler) : handler :=
  mkHandler m (heap h) (next_cb h) (_events h) (workers h) (calls h) (_servers h)
    (_destructing h) (syscalls h).

Definition set_heap (hp : gmap N Callback) (h : handler) : handler :=
  mkHandler (epoll h) hp (next_cb h) (_events h) (workers h) (calls h) (_servers h)
    (_destructing h) (syscalls h).

Definition set_worker (w : nat) (k : worker) (h : handler) : handler :=
  mkHandler (epoll h) (heap h) (next_cb h) (_events h) (<[w := k]> (workers h)) (calls h)
    (_servers h) (_destructing h) (syscalls h).

Definition add_calls (l : list call) (h : handler) : handler :=
  mkHandler (epoll h) (heap h) (next_cb h) (_events h) (workers h) (calls h ++ l)
    (_servers h) (_destructing h) (syscalls h).

Definition add_syscalls (l : list Connection.syscall) (h : handler) : handler :=
  mkHandler (epoll h) (heap h) (next_cb h) (_events h) (workers h) (calls h) (_servers h)
    (_destructing h) (syscalls h ++ l).

Definition set_servers (l : list Connection.Connection) (h : handler) : handler :=
  mkHandler (epoll h) (heap h) (next_cb h) (_events h) (workers h) (calls h) l
    (_destructing h) (syscalls h).

Definition set_destructing (h : handler) : handler :=
  mkHandler (epoll h) (heap h) (next_cb h) (_events h) (workers h) (calls h) (_servers h)
    true (syscalls h).

(** ** Registration *)

(** epoll_ctl: a failure (EBADF, EEXIST, ENOENT) is only logged by the caller. *)
Definition epoll_ctl (option : ctl) (soc : Z) (r : reg) (m : gmap Z reg) : gmap Z reg :=
  if (soc <? 0)%Z then m else
  match option, m !! soc with
  | EPOLL_CTL_ADD, Some _ => m
  | EPOLL_CTL_MOD, None => m
  | _, _ => <[soc := r]> m
  end.

(** [new Callback(...)] and the epoll_ctl call that publishes its pointer. *)
Definition publish (option : ctl) (soc : Z) (events : N) (cb : Callback) : M handler N :=
  h ← get;
  _ ← modify (fun h => mkHandler
        (epoll_ctl option soc (mkReg events (next_cb h) true) (epoll h))
        (<[next_cb h := cb]> (heap h)) (next_cb h + 1) (_events h) (workers h) (calls h)
        (_servers h) (_destructing h) (syscalls h));
  mret (next_cb h).

(** [events] of MonitorFor's registration. *)
Definition monitor_events (events : N) : N :=
  N.lor (N.lor (N.lor (N.lor EPOLLERR EPOLLRDHUP) EPOLLHUP) EPOLLONESHOT) events.

Definition MonitorFor (option : ctl) (soc : Z) (events done : N)
    (delete_option : CallbackDeleteOption) : M handler N :=
  _ ← CHECK (0 <=? soc)%Z;
  publish option soc (monitor_events events)
    (new_callback BMonitorSocketReady soc done delete_option).

(** The mask Monitor, Monitor2, MonitorNew and MonitorNew2 build. *)
Definition ready_mask (ready_for : ReadyFor) : N :=
  N.lor (if rf_in ready_for then EPOLLIN else 0) (if rf_out ready_for then EPOLLOUT else 0).

Definition Monitor (soc : Z) (ready_for : ReadyFor) (done : N) : M handler N :=
  MonitorFor EPOLL_CTL_MOD soc (ready_mask ready_for) done DELETE_AFTER_CALLING.

Definition Monitor2 (soc : Z) (ready_for : ReadyFor) (done : N)
    (delete_option : CallbackDeleteOption) : M handler N :=
  MonitorFor EPOLL_CTL_MOD soc (ready_mask ready_for) done delete_option.

Definition MonitorNew (soc : Z) (ready_for : ReadyFor) (done : N) : M handler N :=
  MonitorFor EPOLL_CTL_ADD soc (ready_mask ready_for) done DELETE_AFTER_CALLING.

Definition MonitorNew2 (soc : Z) (ready_for : ReadyFor) (done : N)
    (delete_option : CallbackDeleteOption) : M handler N :=
  MonitorFor EPOLL_CTL_ADD soc (ready_mask ready_for) done delete_option.

Definition AddServerSocket (option : ctl) (soc : Z) (done : N) : M handler unit :=
  _ ← publish option soc (monitor_events EPOLLIN)
        (new_callback BServeSocketReady soc done DELETE_AFTER_CALLING);
  mret tt.

(** [soc] is what CreateSocket returned; failures of setsockopt, bind and
    listen are only logged. *)
Definition Serve (soc : Z) (done : N) : M handler unit :=
  _ ← modify (fun h => set_servers (_servers h ++ [Connection.new soc]) h);
  AddServerSocket EPOLL_CTL_ADD soc done.

(** What connect(2) returns at once. *)
Inductive connect_result : Type := Connected | ConnectError (errno : Z).

(** What [done] is called with before Connect2 returns: nothing while the
    connection is in progress, otherwise [ReadyFor{false, false}]. *)
Definition connect_now (r : connect_result) : option ReadyFor :=
  match r with
  | ConnectError e =>
      if (e =? EINPROGRESS)%Z then None else Some (mkReadyFor false false 0 0)
  | Connected => Some (mkReadyFor false false 0 0)
  end.

Definition connect_events : N :=
  N.lor (N.lor (N.lor (N.lor (N.lor EPOLLERR EPOLLRDHUP) EPOLLHUP) EPOLLIN) EPOLLOUT)
    EPOLLONESHOT.

(** [soc] is what CreateSocket returned. *)
Definition Connect2 (soc : Z) (r : connect_result) (done : N)
    (delete_option : CallbackDeleteOption) : M handler (option N) :=
  match connect_now r with
  | Some ready => _ ← modify (add_calls [CallBack2 done soc ready]); mret None
  | None =>
      ptr ← publish EPOLL_CTL_ADD soc connect_events
              (new_callback BMonitorSocketReady soc done delete_option);
      mret (Some ptr)
  end.

Definition Connect (soc : Z) (r : connect_result) (done : N) : M handler (option N) :=
  Connect2 soc r done DELETE_AFTER_CALLING.

(** Closing a descriptor removes it from the epoll set. *)
Definition Close (soc : Z) : M handler unit :=
  if (soc <? 0)%Z then mret tt
  else modify (fun h => add_syscalls [Connection.sys_close soc] (set_epoll (delete soc (epoll h)) h)).

(** ** The bound functions *)

(** What getsockopt(SO_ERROR) answers: a failure of the call with its errno, or
    the pending error of the socket, which the call clears. *)
Inductive sockopt_result : Type := SockoptFailed (errno : Z) | SockoptError (err : Z).

(** The returned [err] and errno afterwards, from errno before. *)
Definition CheckForSocketErrors (r : sockopt_result) (errno : Z) : Z * Z :=
  match r with
  | SockoptFailed e => (0, e)%Z
  | SockoptError err => (err, if negb (err =? 0)%Z then err else errno)
  end.

(** The ReadyFor of MonitorSocketReady: [err] is what CheckForSocketErrors
    returns. *)
Definition socket_ready (events : N) (err : Z) : ReadyFor :=
  if negb (err =? 0)%Z then mkReadyFor false false events err
  else mkReadyFor (negb (N.land events EPOLLIN =? 0)%N) (negb (N.land events EPOLLOUT =? 0)%N)
         events err.

Definition MonitorSocketReady (soc : Z) (done events : N) (err : Z) : M handler unit :=
  modify (add_calls [CallBack2 done soc (socket_ready events err)]).

(** Testing a flag tests its bit. *)
Lemma land_bit events n : negb (N.land events (2 ^ n) =? 0)%N = N.testbit events n.
Proof.
  destruct (N.testbit events n) eqn:E.
  - apply negb_true_iff, N.eqb_neq. intros H0.
    assert (N.testbit (N.land events (2 ^ n)) n = true) as H1
      by (rewrite N.land_spec, E, N.pow2_bits_true; done).
    by rewrite H0, N.bits_0 in H1.
  - apply negb_false_iff, N.eqb_eq. apply N.bits_inj. intros m.
    rewrite N.land_spec, N.pow2_bits_eqb, N.bits_0.
    destruct (N.eqb_spec n m) as [<-|]; [by rewrite E|apply andb_false_r].
Qed.

(** A pending error reaches the callback, which is then told that the socket is
    ready for nothing; when the call itself fails the socket counts as sound
    and the reported events decide. *)
Lemma socket_ready_cases events r errno :
  let err := (CheckForSocketErrors r errno).1 in
  match r with
  | SockoptError (Zpos _ as e) | SockoptError (Zneg _ as e) =>
      socket_ready events err = mkReadyFor false false events e /\
      (CheckForSocketErrors r errno).2 = e
  | _ =>
      socket_ready events err =
        mkReadyFor (N.testbit events 0) (N.testbit events 2) events 0
  end.
Proof.
  destruct r as [e|[|p|p]]; simpl; unfold socket_ready; simpl; try done;
    by rewrite <-(land_bit events 0), <-(land_bit events 2).
Qed.

Inductive accept_result : Type := Accepted (soc : Z) | AcceptErr (errno : Z).

#[export] Instance accept_result_eq_dec : EqDecision accept_result.
Proof. solve_decision. Defined.

(** The sockets handed to [done] before EAGAIN ends the loop; other errors are
    logged and the loop goes on. *)
Fixpoint accept_loop (script : list accept_result) (done : list Z) :
    outcome (list accept_result) (list Z) :=
  match script with
  | [] => Wait []
  | Accepted soc :: rest => accept_loop rest (done ++ [soc])
  | AcceptErr e :: rest =>
      if (e =? EAGAIN)%Z then Done done rest else accept_loop rest done
  end.

Definition ServeSocketReady (soc : Z) (done events : N) (script : list accept_result) :
    M handler unit :=
  if (N.land events EPOLLIN =? 0)%N then mret tt
  else
    _ ← AddServerSocket EPOLL_CTL_MOD soc done;
    match accept_loop script [] with
    | Done l _ => modify (add_calls (CallBack1 done <$> l))
    | _ => block
    end.

(** The application's [delete] of a callback pointer, and [delete this]. *)
Definition delete_callback (ptr : N) : M handler unit :=
  h ← get;
  _ ← need UseAfterFree (heap h !! ptr);
  modify (fun h => set_heap (delete ptr (heap h)) h).

(** Callback::Run through a raw pointer: the bound function, then [delete this]. *)
Definition run_callback (ptr events : N) (err : Z) (script : list accept_result) :
    M handler unit :=
  h ← get;
  cb ← need UseAfterFree (heap h !! ptr);
  _ ← match cb_bound cb with
      | BMonitorSocketReady => MonitorSocketReady (cb_soc cb) (cb_done cb) events err
      | BServeSocketReady => ServeSocketReady (cb_soc cb) (cb_done cb) events script
      end;
  if _delete_after_run cb then delete_callback ptr else mret tt.

(** ** The workers *)

(** A registration with EPOLLONESHOT is disarmed by the event it reports. *)
Definition oneshot (mask : N) : bool := negb (N.land mask EPOLLONESHOT =? 0)%N.

(** What epoll reports of the events [ev] of a socket: those of its mask, and
    EPOLLERR and EPOLLHUP in any case. *)
Definition reported (mask ev : N) : N :=
  N.land ev (N.lor (N.ldiff mask EPOLLONESHOT) (N.lor EPOLLERR EPOLLHUP)).

(** epoll_wait for worker [w]: the kernel goes through the sockets [ready], reports
    the armed ones with an event that their mask asks for, filling the buffer
    from its start, and disarms those registered with EPOLLONESHOT. *)
Fixpoint deliver (ready : list (Z * N)) (k : nat) (m : gmap Z reg) (buf : list (N * N)) :
    nat * gmap Z reg * list (N * N) :=
  match ready with
  | [] => (k, m, buf)
  | (soc, ev) :: ready' =>
      match m !! soc with
      | Some r =>
          let got := reported (r_events r) ev in
          if r_armed r && negb (got =? 0)%N && (k <? length buf)%nat
          then deliver ready' (S k)
                 (<[soc := mkReg (r_events r) (r_cb r) (negb (oneshot (r_events r)))]> m)
                 (<[k := (r_cb r, got)]> buf)
          else deliver ready' k m buf
      | None => deliver ready' k m buf
      end
  end.

Definition epoll_wait (w : nat) (ready : list (Z * N)) : M handler unit := fun h =>
  match workers h !! w with
  | Some WWait =>
      let '(n, m, buf) := deliver ready 0 (epoll h) (_events h) in
      Done tt (mkHandler m (heap h) (next_cb h) buf (<[w := WHandle 0 n]> (workers h))
                 (calls h) (_servers h) (_destructing h) (syscalls h))
  | _ => Wait h
  end.

(** One iteration of the loop over the returned events, or what follows the
    loop. *)
Definition handle_event (w : nat) (err : Z) (script : list accept_result) : M handler unit :=
  h ← get;
  match workers h !! w with
  | Some (WHandle i n) =>
      if (i <? n)%nat then
        e ← need OutOfRange (_events h !! i);
        _ ← run_callback e.1 e.2 err script;
        modify (set_worker w (WHandle (S i) n))
      else if _destructing h && negb (n =? kMaxEvents)%nat then modify (set_worker w WExit)
      else modify (set_worker w WWait)
  | _ => block
  end.

(** ** The destructor, up to the joins *)

Fixpoint shutdown_all (l : list Connection.Connection) :
    list Connection.Connection * list Connection.syscall :=
  match l with
  | [] => ([], [])
  | c :: l' =>
      let '(c', x) := Connection.Shutdown c in
      let '(l'', y) := shutdown_all l' in
      (c' :: l'', x ++ y)
  end.

Definition begin_destruct : M handler unit :=
  modify (fun h =>
    let '(l, x) := shutdown_all (_servers h) in
    set_destructing (add_syscalls x (set_servers l h))).

(** A join returns when its worker has. *)
Definition joined (h : handler) : bool :=
  forallb (fun k => match k with WExit => true | _ => false end) (workers h).

End CommHandler.
