(* ===== verification/CommHandlerInv.v ===== *)
(** * Lifetime of the communication handler's callbacks *)

From stdpp Require Import prelude gmap list.
From S2P Require Import Prelude Synchronization Job JobTypes CommHandler.

Module CommHandlerInv.
Import CommHandler.

(** ** Actions on the handler *)

Inductive action : Type :=
| AMonitor (option : ctl) (soc : Z) (events done : N) (delete_option : CallbackDeleteOption)
| AServe (soc : Z) (done : N)
| AConnect (soc : Z) (r : connect_result) (done : N) (delete_option : CallbackDeleteOption)
| AClose (soc : Z)
| ADelete (ptr : N)
| ADestruct
| AWait (w : nat) (ready : list (Z * N))
| AHandle (w : nat) (err : Z) (script : list accept_result).

Definition exec (a : action) : M handler unit :=
  match a with
  | AMonitor option soc events done del => _ ← MonitorFor option soc events done del; mret tt
  | AServe soc done => Serve soc done
  | AConnect soc r done del => _ ← Connect2 soc r done del; mret tt
  | AClose soc => Close soc
  | ADelete ptr => delete_callback ptr
  | ADestruct => begin_destruct
  | AWait w ready => epoll_wait w ready
  | AHandle w err script => handle_event w err script
  end.

Fixpoint run (l : list action) : M handler unit :=
  match l with
  | [] => mret tt
  | a :: l' => _ ← exec a; run l'
  end.

(** ** What keeps a callback referenced *)

Definition armed (h : handler) (soc : Z) (ptr : N) : Prop :=
  exists r, epoll h !! soc = Some r /\ r_armed r = true /\ r_cb r = ptr.

(** Events [lo .. hi) of the buffer are still to be handled. *)
Definition fetched (buf : list (N * N)) (lo hi : nat) (ptr : N) : Prop :=
  exists x ev, lo <= x < hi /\ buf !! x = Some (ptr, ev).

Record refs_ok (m : gmap Z reg) (hp : gmap N Callback) (nxt : N) (buf : list (N * N))
    (lo hi : nat) : Prop := mk_refs_ok {
  ro_armed : forall soc r, m !! soc = Some r -> r_armed r = true -> is_Some (hp !! r_cb r);
  ro_inj : forall s1 s2 r1 r2, m !! s1 = Some r1 -> m !! s2 = Some r2 ->
    r_armed r1 = true -> r_armed r2 = true -> r_cb r1 = r_cb r2 -> s1 = s2;
  ro_fetched : forall x ptr ev, lo <= x < hi -> buf !! x = Some (ptr, ev) ->
    is_Some (hp !! ptr) /\
    forall soc r, m !! soc = Some r -> r_armed r = true -> r_cb r <> ptr;
  ro_distinct : forall x y ptr e1 e2, lo <= x < hi -> lo <= y < hi ->
    buf !! x = Some (ptr, e1) -> buf !! y = Some (ptr, e2) -> x = y;
  ro_oneshot : forall soc r, m !! soc = Some r -> r_armed r = true ->
    oneshot (r_events r) = true;
  ro_next : forall ptr cb, hp !! ptr = Some cb -> (ptr < nxt)%N;
  ro_len : hi <= length buf
}.

(** The masks the handler registers ask for one event at a time. *)
Lemma oneshot_monitor events : oneshot (monitor_events events) = true.
Proof.
  unfold oneshot, monitor_events. change EPOLLONESHOT with (2 ^ 30)%N at 2.
  rewrite land_bit, !N.lor_spec. reflexivity.
Qed.

Lemma oneshot_connect : oneshot connect_events = true.
Proof. reflexivity. Qed.

#[local] Hint Resolve oneshot_monitor oneshot_connect : core.

Lemma deliver_ok ready hp nxt k m buf n m' buf' :
  refs_ok m hp nxt buf 0 k -> deliver ready k m buf = (n, m', buf') ->
  refs_ok m' hp nxt buf' 0 n.
Proof.
  revert k m buf. induction ready as [|[soc ev] ready IH]; intros k m buf Hok; simpl.
  - by intros [= <- <- <-].
  - destruct (m !! soc) as [r|] eqn:Er; [|by apply IH].
    destruct (r_armed r) eqn:Ea; simpl; [|by apply IH].
    set (got := reported (r_events r) ev). destruct (negb (got =? 0)%N); simpl; [|by apply IH].
    destruct (Nat.ltb_spec k (length buf)) as [Hk|]; [|by apply IH].
    rewrite (ro_oneshot _ _ _ _ _ _ Hok soc r Er Ea). simpl. apply IH. destruct Hok as [O1 O2 O3 O4 Os O5 O6].
    assert (forall s r0, <[soc := mkReg (r_events r) (r_cb r) false]> m !! s = Some r0 ->
      r_armed r0 = true -> s <> soc /\ m !! s = Some r0) as Hm.
    { intros s r0 [[<- <-]|[? ?]]%lookup_insert_Some Har; [done|auto]. }
    assert (forall x p e, x < k -> <[k := (r_cb r, got)]> buf !! x = Some (p, e) ->
      buf !! x = Some (p, e)) as Hb.
    { intros x p e Hx. by rewrite list_lookup_insert_ne by lia. }
    assert (forall p e, <[k := (r_cb r, got)]> buf !! k = Some (p, e) -> p = r_cb r) as Hbk.
    { intros p e. rewrite list_lookup_insert_eq by done. congruence. }
    split.
    + intros s r0 H1 H2. destruct (Hm s r0 H1 H2). eauto.
    + intros s1 s2 r1 r2 H1 H2 A1 A2. destruct (Hm _ _ H1 A1), (Hm _ _ H2 A2). eauto.
    + intros x p e Hx Hp. destruct (decide (x = k)) as [->|Hne].
      * apply Hbk in Hp as ->. split; [eauto|]. intros s r0 H1 H2 Heq.
        destruct (Hm s r0 H1 H2) as [Hs H3]. by apply Hs, (O2 s soc r0 r).
      * apply Hb in Hp; [|lia]. destruct (O3 x p e ltac:(lia) Hp) as [Hh Hn].
        split; [done|]. intros s r0 H1 H2. destruct (Hm s r0 H1 H2). eauto.
    + intros x y p e1 e2 Hx Hy H1 H2.
      destruct (decide (x = k)) as [->|Hnx], (decide (y = k)) as [->|Hny]; [done| | |].
      * apply Hbk in H1 as ->. apply Hb in H2; [|lia].
        by destruct (proj2 (O3 y _ _ ltac:(lia) H2) soc r Er Ea).
      * apply Hbk in H2 as ->. apply Hb in H1; [|lia].
        by destruct (proj2 (O3 x _ _ ltac:(lia) H1) soc r Er Ea).
      * apply Hb in H1; [|lia]. apply Hb in H2; [|lia].
        by apply (O4 x y p e1 e2); [lia|lia|..].
    + intros s r0 H1 H2. destruct (Hm s r0 H1 H2). eauto.
    + done.
    + rewrite length_insert. lia.
Qed.

(** Running the event at [lo], freeing its callback or not. *)
Lemma handle_ok m hp nxt buf lo hi ptr ev hp' :
  refs_ok m hp nxt buf lo hi -> lo < hi -> buf !! lo = Some (ptr, ev) ->
  hp' = hp \/ hp' = delete ptr hp -> refs_ok m hp' nxt buf (S lo) hi.
Proof.
  intros [O1 O2 O3 O4 Os O5 O6] Hlt Hb Hhp. destruct (O3 lo ptr ev ltac:(lia) Hb) as [_ Hn].
  assert (forall p, p <> ptr -> is_Some (hp !! p) -> is_Some (hp' !! p)) as Hk.
  { intros p Hp Hs. destruct Hhp as [-> | ->]; [done|]. by rewrite lookup_delete_ne. }
  split; try done.
  - intros s r H1 H2. apply Hk; eauto.
  - intros x p e Hx Hp. destruct (O3 x p e ltac:(lia) Hp) as [Hh Hn'].
    split; [|done]. apply Hk; [|done]. intros ->.
    assert (x = lo) by (by apply (O4 x lo ptr e ev); [lia|lia|..]). lia.
  - intros x y p e1 e2 Hx Hy. apply O4; lia.
  - intros p cb Hp. apply (O5 p cb). destruct Hhp as [-> | ->]; [done|].
    by apply lookup_delete_Some in Hp as [_ ?].
Qed.

Lemma monitor_ok m hp nxt buf lo hi option soc ev cb :
  oneshot ev = true -> refs_ok m hp nxt buf lo hi ->
  refs_ok (epoll_ctl option soc (mkReg ev nxt true) m) (<[nxt := cb]> hp) (nxt + 1) buf lo hi.
Proof.
  intros Hev [O1 O2 O3 O4 Os O5 O6].
  assert (forall p, is_Some (hp !! p) -> p <> nxt /\ is_Some (<[nxt := cb]> hp !! p)) as Hk.
  { intros p [c Hc]. pose proof (O5 p c Hc). split; [lia|]. by rewrite lookup_insert_ne by lia. }
  assert (forall s r, epoll_ctl option soc (mkReg ev nxt true) m !! s = Some r ->
    r_armed r = true -> (s = soc /\ r_cb r = nxt /\ r_events r = ev) \/ m !! s = Some r) as Hm.
  { intros s r H1 _. unfold epoll_ctl in H1. destruct (soc <? 0)%Z; [by right|].
    destruct option, (m !! soc); try (by right);
      apply lookup_insert_Some in H1 as [[<- <-]|[_ ?]]; auto. }
  split; try done.
  - intros s r H1 H2. destruct (Hm s r H1 H2) as [(_ & -> & _)|H3].
    + rewrite lookup_insert_eq. eauto.
    + apply Hk; eauto.
  - intros s1 s2 r1 r2 H1 H2 A1 A2 E.
    destruct (Hm _ _ H1 A1) as [(-> & E1 & _)|H3], (Hm _ _ H2 A2) as [(-> & E2 & _)|H4]; try done.
    + destruct (Hk (r_cb r2)) as [? _]; [eauto|congruence].
    + destruct (Hk (r_cb r1)) as [? _]; [eauto|congruence].
    + eauto.
  - intros x p e Hx Hp. destruct (O3 x p e Hx Hp) as [Hh Hn].
    split; [by apply Hk|]. intros s r H1 H2. destruct (Hm s r H1 H2) as [(_ & -> & _)|H3]; [|eauto].
    destruct (Hk p Hh). congruence.
  - intros s r H1 H2. destruct (Hm s r H1 H2) as [(_ & _ & ->)|H3]; eauto.
  - intros p c [[<- _]|[_ Hc]]%lookup_insert_Some; [lia|]. specialize (O5 p c Hc). lia.
Qed.

Lemma delete_ok m hp nxt buf lo hi ptr :
  refs_ok m hp nxt buf lo hi ->
  (forall soc r, m !! soc = Some r -> r_armed r = true -> r_cb r <> ptr) ->
  ~ fetched buf lo hi ptr -> refs_ok m (delete ptr hp) nxt buf lo hi.
Proof.
  intros [O1 O2 O3 O4 Os O5 O6] Ha Hf.
  assert (forall p, p <> ptr -> is_Some (hp !! p) -> is_Some (delete ptr hp !! p)) as Hk.
  { intros p Hp Hs. by rewrite lookup_delete_ne. }
  split; try done.
  - intros s r H1 H2. apply Hk; eauto.
  - intros x p e Hx Hp. destruct (O3 x p e Hx Hp) as [Hh Hn]. split; [|done].
    apply Hk; [|done]. intros ->. apply Hf. by exists x, e.
  - intros p cb [_ Hp]%lookup_delete_Some. eauto.
Qed.

Lemma close_ok m hp nxt buf lo hi soc :
  refs_ok m hp nxt buf lo hi -> refs_ok (delete soc m) hp nxt buf lo hi.
Proof.
  intros [O1 O2 O3 O4 Os O5 O6].
  assert (forall s r, delete soc m !! s = Some r -> m !! s = Some r) as Hm
    by (by intros s r [_ ?]%lookup_delete_Some).
  split; try done; eauto. intros x p e Hx Hp. destruct (O3 x p e Hx Hp). eauto.
Qed.

Lemma refs_empty m hp nxt buf lo hi : refs_ok m hp nxt buf lo hi -> refs_ok m hp nxt buf 0 0.
Proof. intros [O1 O2 O3 O4 Os O5 O6]. split; try done; intros; lia. Qed.

(** ** The accept loop *)

(** The sockets of the successful accepts. *)
Definition accepted (l : list accept_result) : list Z :=
  omap (fun r => match r with Accepted s => Some s | AcceptErr _ => None end) l.

Lemma accept_loop_eagain pre rest out :
  AcceptErr EAGAIN ∉ pre ->
  accept_loop (pre ++ AcceptErr EAGAIN :: rest) out = Done (out ++ accepted pre) rest.
Proof.
  revert out. induction pre as [|[s|e] pre IH]; intros out Hpre; simpl;
    [by rewrite app_nil_r| |]; apply not_elem_of_cons in Hpre as [Hne Hpre].
  - rewrite IH by done. unfold accepted. simpl. by rewrite <-app_assoc.
  - rewrite (proj2 (Z.eqb_neq _ _)) by congruence. by apply IH.
Qed.

Lemma accept_loop_done script : AcceptErr EAGAIN ∈ script ->
  exists l rest, accept_loop script [] = Done l rest.
Proof.
  intros (pre & rest & -> & Hpre)%list_elem_of_split_l. rewrite accept_loop_eagain; eauto.
Qed.

(** ** Running a callback *)

(** What running the callback [cb] at [ptr] leaves in the epoll set and the heap. *)
Definition ran_epoll (h : handler) (cb : Callback) (ev : N) : gmap Z reg :=
  match cb_bound cb with
  | BServeSocketReady =>
      if (N.land ev EPOLLIN =? 0)%N then epoll h
      else epoll_ctl EPOLL_CTL_MOD (cb_soc cb) (mkReg (monitor_events EPOLLIN) (next_cb h) true)
             (epoll h)
  | BMonitorSocketReady => epoll h
  end.

Definition ran_heap (h : handler) (cb : Callback) (ptr ev : N) : gmap N Callback :=
  let hp := match cb_bound cb with
    | BServeSocketReady =>
        if (N.land ev EPOLLIN =? 0)%N then heap h
        else <[next_cb h := new_callback BServeSocketReady (cb_soc cb) (cb_done cb)
                 DELETE_AFTER_CALLING]> (heap h)
    | BMonitorSocketReady => heap h
    end in
  if _delete_after_run cb then delete ptr hp else hp.

Lemma run_callback_ok h lo hi ptr ev cb err script :
  refs_ok (epoll h) (heap h) (next_cb h) (_events h) lo hi -> lo < hi ->
  _events h !! lo = Some (ptr, ev) -> heap h !! ptr = Some cb -> AcceptErr EAGAIN ∈ script ->
  exists h', run_callback ptr ev err script h = Done tt h' /\
    refs_ok (epoll h') (heap h') (next_cb h') (_events h) (S lo) hi /\
    epoll h' = ran_epoll h cb ev /\ heap h' = ran_heap h cb ptr ev /\
    _events h' = _events h /\ workers h' = workers h /\ _destructing h' = _destructing h.
Proof.
  intros Hr Hlt He Hcb Hs.
  destruct (accept_loop_done script Hs) as (l & rest & Hl).
  assert (next_cb h <> ptr) as Hne by (pose proof (ro_next _ _ _ _ _ _ Hr _ _ Hcb); lia).
  assert (forall m hp nxt, refs_ok m hp nxt (_events h) lo hi ->
    refs_ok m (if _delete_after_run cb then delete ptr hp else hp) nxt (_events h) (S lo) hi)
    as Hfree.
  { intros m hp nxt Ho. eapply handle_ok; [done|done|done|].
    destruct (_delete_after_run cb); auto. }
  unfold run_callback, ran_epoll, ran_heap, MonitorSocketReady, ServeSocketReady,
    AddServerSocket, publish, delete_callback. unM. rewrite Hcb.
  destruct (cb_bound cb); [|destruct (N.land ev EPOLLIN =? 0)%N]; simpl.
  1,2: specialize (Hfree _ _ _ Hr); destruct (_delete_after_run cb); simpl; rewrite ?Hcb;
    eexists; (split; [reflexivity|]); done.
  pose proof (Hfree _ _ _ (monitor_ok _ _ _ _ _ _ EPOLL_CTL_MOD (cb_soc cb)
    (monitor_events EPOLLIN)
    (new_callback BServeSocketReady (cb_soc cb) (cb_done cb) DELETE_AFTER_CALLING)
    (oneshot_monitor _) Hr)) as Hm.
  rewrite Hl. destruct (_delete_after_run cb); simpl; [rewrite lookup_insert_ne, Hcb by done|];
    (eexists; split; [reflexivity|]); done.
Qed.

(** ** One worker *)

(** The events the worker still has to handle. *)
Definition todo (h : handler) : nat * nat :=
  match workers h with [WHandle i n] => (i, n) | _ => (0, 0) end.

(** What the application may do: monitor non-negative sockets, and delete only
    callbacks that are allocated and neither armed nor fetched.  The kernel's
    part: accept(2) ends with EAGAIN. *)
Definition allowed (h : handler) (a : action) : Prop :=
  match a with
  | AMonitor _ soc _ _ _ => (0 <= soc)%Z
  | ADelete ptr => is_Some (heap h !! ptr) /\ (forall soc, ~ armed h soc ptr) /\
      ~ fetched (_events h) (todo h).1 (todo h).2 ptr
  | AHandle _ _ script => AcceptErr EAGAIN ∈ script
  | _ => True
  end.

Record handler_ok (h : handler) : Prop := mk_handler_ok {
  ho_refs : refs_ok (epoll h) (heap h) (next_cb h) (_events h) (todo h).1 (todo h).2;
  ho_one : exists k, workers h = [k]
}.

Lemma handler_ok_new : handler_ok (new 1).
Proof.
  split; [|by exists WWait]. split; simpl; try done; try (intros; lia).
Qed.

Lemma publish_ok h option soc ev cb :
  oneshot ev = true -> handler_ok h -> exists ptr h', publish option soc ev cb h = Done ptr h' /\ handler_ok h'.
Proof.
  intros Hev [Hr Hw]. eexists _, _. split; [done|]. split; [|done].
  unfold todo in *. simpl. by apply monitor_ok.
Qed.

(** An operation that leaves the epoll set, the heap and the buffer alone. *)
Lemma handler_ok_same h h' :
  handler_ok h -> epoll h' = epoll h -> heap h' = heap h -> next_cb h' = next_cb h ->
  _events h' = _events h -> workers h' = workers h -> handler_ok h'.
Proof.
  intros [Hr Hw] E1 E2 E3 E4 E5. split; [|by rewrite E5].
  unfold todo in *. by rewrite E1, E2, E3, E4, E5.
Qed.

(** The worker handles its next event. *)
Lemma handle_next h i n err script :
  handler_ok h -> workers h = [WHandle i n] -> i < n -> AcceptErr EAGAIN ∈ script ->
  exists ptr ev cb h', _events h !! i = Some (ptr, ev) /\ heap h !! ptr = Some cb /\
    handle_event 0 err script h = Done tt h' /\ handler_ok h' /\
    epoll h' = ran_epoll h cb ev /\ heap h' = ran_heap h cb ptr ev /\
    _events h' = _events h /\ workers h' = [WHandle (S i) n] /\
    _destructing h' = _destructing h.
Proof.
  intros [Hr _] Hw Hlt Hs. unfold todo in Hr. rewrite Hw in Hr. simpl in Hr.
  destruct (lookup_lt_is_Some_2 (_events h) i) as [[ptr ev] He];
    [pose proof (ro_len _ _ _ _ _ _ Hr); lia|].
  destruct (ro_fetched _ _ _ _ _ _ Hr i ptr ev ltac:(lia) He) as [[cb Hcb] _].
  destruct (run_callback_ok h i n ptr ev cb err script Hr Hlt He Hcb Hs)
    as (h' & Hrun & Hr' & E1 & E2 & E3 & E4 & E5).
  exists ptr, ev, cb, (set_worker 0 (WHandle (S i) n) h').
  assert (workers (set_worker 0 (WHandle (S i) n) h') = [WHandle (S i) n]) as Ew
    by (unfold set_worker; cbn [workers]; by rewrite E4, Hw).
  do 2 (split; [done|]). split.
  { unfold handle_event. unM. rewrite Hw. simpl. rewrite (proj2 (Nat.ltb_lt _ _) Hlt), He. simpl.
    by rewrite Hrun. }
  split; [|done]. split; [|by eexists]. unfold todo. rewrite Ew. simpl. by rewrite <-E3 in Hr'.
Qed.

Lemma set_idle_ok h k :
  handler_ok h -> k = WWait \/ k = WExit ->
  handler_ok (set_worker 0 k h) /\ workers (set_worker 0 k h) = [k].
Proof.
  intros [Hr [k0 Hw]] Hk.
  assert (workers (set_worker 0 k h) = [k]) as Ew
    by (unfold set_worker; cbn [workers]; by rewrite Hw).
  split; [|done]. split; [|by eexists]. unfold todo. rewrite Ew.
  destruct Hk as [-> | ->]; simpl; by eapply refs_empty.
Qed.

Lemma handle_event_ok h w err script :
  handler_ok h -> AcceptErr EAGAIN ∈ script ->
  exists h', handler_ok h' /\
    (handle_event w err script h = Done tt h' \/ handle_event w err script h = Wait h').
Proof.
  intros Hok Hs. pose proof Hok as [Hr [k Hw]].
  destruct w as [|w]; [destruct k as [|i n|]|]; unfold handle_event; unM; rewrite Hw; simpl;
    try (exists h; by auto).
  destruct (Nat.ltb_spec i n) as [Hlt|Hge].
  - destruct (handle_next h i n err script Hok Hw Hlt Hs)
      as (ptr & ev & cb & h' & _ & _ & Hh & Hok' & _).
    exists h'. split; [done|left]. revert Hh. unfold handle_event. unM. rewrite Hw. simpl.
    by rewrite (proj2 (Nat.ltb_lt _ _) Hlt).
  - destruct (_destructing h && negb (n =? kMaxEvents)%nat); eexists; (split; [|by left]);
      apply set_idle_ok; auto.
Qed.

Lemma exec_ok a h :
  handler_ok h -> allowed h a ->
  exists h', handler_ok h' /\ (exec a h = Done tt h' \/ exec a h = Wait h').
Proof.
  intros Hok Ha. pose proof Hok as [Hr [k Hw]].
  destruct a as [option soc ev dn del|soc dn|soc r dn del|soc|ptr| |w ready|w err script];
    simpl in *.
  - destruct (publish_ok h option soc (monitor_events ev)
      (new_callback BMonitorSocketReady soc dn del) (oneshot_monitor _) Hok) as (p & h' & E & Hok').
    exists h'. split; [done|left]. unfold MonitorFor. unM.
    by rewrite (proj2 (Z.leb_le _ _) Ha), E.
  - unfold Serve, AddServerSocket. unM.
    destruct (publish_ok (set_servers (_servers h ++ [Connection.new soc]) h) EPOLL_CTL_ADD soc
      (monitor_events EPOLLIN) (new_callback BServeSocketReady soc dn DELETE_AFTER_CALLING))
      as (p & h' & E & Hok'); [done|by apply (handler_ok_same h)|].
    rewrite E. eauto.
  - unfold Connect2. destruct (connect_now r); unM.
    + eexists. split; [|by left]. by apply (handler_ok_same h).
    + destruct (publish_ok h EPOLL_CTL_ADD soc connect_events
        (new_callback BMonitorSocketReady soc dn del) oneshot_connect Hok) as (p & h' & E & Hok').
      rewrite E. eauto.
  - unfold Close. destruct (soc <? 0)%Z; unM; eexists; (split; [|by left]); [done|].
    split; simpl; [|eauto]. unfold todo in *. simpl. by apply close_ok.
  - destruct Ha as ([cb Hcb] & Hna & Hnf). unfold delete_callback. unM. rewrite Hcb.
    eexists. split; [|by left]. split; simpl; [|eauto]. unfold todo in *. simpl.
    apply delete_ok; [done| |done]. intros soc r H1 H2 H3. apply (Hna soc). by exists r.
  - unfold begin_destruct. unM. destruct (shutdown_all (_servers h)) as [l x].
    eexists. split; [|by left]. by apply (handler_ok_same h).
  - unfold epoll_wait. rewrite Hw.
    destruct w as [|w]; simpl; [|exists h; by auto].
    destruct k; try (exists h; by auto).
    destruct (deliver ready 0 (epoll h) (_events h)) as [[n m'] buf'] eqn:Ed.
    eexists. split; [|by left]. split; simpl; [|eauto]. unfold todo. simpl.
    eapply deliver_ok; [|done]. by eapply refs_empty.
  - by apply handle_event_ok.
Qed.

(** States reached by actions that [ok] permits. *)
Inductive reaches (ok : handler -> action -> Prop) (h0 : handler) : handler -> Prop :=
| reaches_refl : reaches ok h0 h0
| reaches_done h a h' : reaches ok h0 h -> ok h a -> exec a h = Done tt h' -> reaches ok h0 h'
| reaches_wait h a h' : reaches ok h0 h -> ok h a -> exec a h = Wait h' -> reaches ok h0 h'.

Lemma reaches_ok h : reaches allowed (new 1) h -> handler_ok h.
Proof.
  induction 1 as [|h a h' Hr IH Ha He|h a h' Hr IH Ha He]; [apply handler_ok_new| |];
    destruct (exec_ok a h IH Ha) as (h1 & Hok & [E|E]); congruence.
Qed.

(** C23. Callback lifetime with one worker (the default): whatever is served,
    connected, monitored and closed, as long as the application deletes only
    callbacks that are neither armed nor fetched, no event ever runs a freed
    callback, no callback is freed twice and no access to the event buffer is
    out of range. *)
Theorem callbacks_never_dangle h a :
  reaches allowed (new 1) h -> allowed h a -> forall e, exec a h <> Crash e.
Proof.
  intros Hr Ha e. destruct (exec_ok a h (reaches_ok h Hr) Ha) as (h' & _ & [-> | ->]); done.
Qed.

(** ** Serving *)

Definition serve_callback (soc : Z) (done : N) : Callback :=
  new_callback BServeSocketReady soc done DELETE_AFTER_CALLING.

Definition has_in (ev : N) : Prop := N.land ev EPOLLIN <> 0%N.

Lemma has_in_bit ev : has_in ev <-> N.testbit ev 0 = true.
Proof.
  rewrite <-land_bit. unfold has_in. change (2 ^ 0)%N with EPOLLIN.
  by rewrite negb_true_iff, N.eqb_neq.
Qed.

(** A connection is reported to whoever asks for connections. *)
Lemma has_in_reported mask ev : has_in mask -> has_in ev -> has_in (reported mask ev).
Proof.
  rewrite !has_in_bit. intros Hm He. unfold reported.
  by rewrite N.land_spec, N.lor_spec, N.ldiff_spec, Hm, He.
Qed.

Lemma has_in_nonzero ev : has_in ev -> negb (ev =? 0)%N = true.
Proof. intros H. apply negb_true_iff, N.eqb_neq. by intros ->. Qed.

#[export] Instance has_in_dec ev : Decision (has_in ev).
Proof. unfold has_in. apply _. Defined.

Lemma epoll_ctl_mod soc r m r0 :
  (0 <= soc)%Z -> m !! soc = Some r0 -> epoll_ctl EPOLL_CTL_MOD soc r m = <[soc := r]> m.
Proof. intros Hs H. unfold epoll_ctl. rewrite (proj2 (Z.ltb_ge _ _)) by done. by rewrite H. Qed.

Lemma epoll_ctl_other option s r m soc :
  s <> soc -> epoll_ctl option s r m !! soc = m !! soc.
Proof.
  intros Hne. unfold epoll_ctl. destruct (s <? 0)%Z; [done|].
  destruct option, (m !! s); by rewrite ?lookup_insert_ne.
Qed.

(** A connection event of a listening socket: every pending connection is
    handed to the application exactly once and in order, failed accepts are
    skipped, the loop stops at the first EAGAIN, the old callback is freed and
    the socket is armed again with a callback of the same kind. *)
Theorem serve_accepts_all h ptr ev soc done err pre rest r :
  heap h !! ptr = Some (serve_callback soc done) -> (ptr < next_cb h)%N -> has_in ev ->
  (0 <= soc)%Z -> epoll h !! soc = Some r -> AcceptErr EAGAIN ∉ pre ->
  exists h', run_callback ptr ev err (pre ++ AcceptErr EAGAIN :: rest) h = Done tt h' /\
    calls h' = calls h ++ (CallBack1 done <$> accepted pre) /\ heap h' !! ptr = None /\
    armed h' soc (next_cb h) /\ heap h' !! next_cb h = Some (serve_callback soc done).
Proof.
  intros Hcb Hlt Hev Hs Hr Hpre. unfold run_callback, ServeSocketReady, AddServerSocket, publish.
  unM. rewrite Hcb. simpl. rewrite (proj2 (N.eqb_neq _ _) Hev). simpl.
  rewrite accept_loop_eagain by done. simpl. unfold delete_callback. unM. simpl.
  rewrite lookup_insert_ne, Hcb by lia. eexists. split; [reflexivity|]. simpl.
  split; [done|]. split; [apply lookup_delete_eq|]. split.
  - eexists. simpl. rewrite (epoll_ctl_mod _ _ _ r) by done. rewrite lookup_insert_eq. done.
  - rewrite lookup_delete_ne by lia. apply lookup_insert_eq.
Qed.

(** The socket is armed with that callback and asks for connections. *)
Definition listening (h : handler) (soc : Z) (ptr : N) : Prop :=
  exists r, epoll h !! soc = Some r /\ r_armed r = true /\ r_cb r = ptr /\ has_in (r_events r).

(** Somebody will run ServeSocketReady for [soc]: the socket is listening with
    such a callback, or a connection event with one is waiting for the worker. *)
Definition serving (h : handler) (soc : Z) : Prop :=
  is_Some (epoll h !! soc) /\
  exists ptr done, heap h !! ptr = Some (serve_callback soc done) /\
    (listening h soc ptr \/
     exists x ev, (todo h).1 <= x < (todo h).2 /\ _events h !! x = Some (ptr, ev) /\ has_in ev).

(** Nobody else registers or closes [soc], and its events are connections. *)
Definition untouched (soc : Z) (h : handler) (a : action) : Prop :=
  allowed h a /\
  match a with
  | AMonitor _ s _ _ _ | AServe s _ | AConnect s _ _ _ | AClose s => s <> soc
  | AWait _ ready => Forall (fun x => x.1 = soc -> has_in x.2) ready
  | _ => True
  end.

Lemma deliver_keeps ready k m buf n m' buf' :
  deliver ready k m buf = (n, m', buf') ->
  k <= n /\ (forall x, x < k -> buf' !! x = buf !! x).
Proof.
  revert k m buf. induction ready as [|[s ev] ready IH]; intros k m buf; simpl.
  - by intros [= <- <- <-].
  - destruct (m !! s) as [r|]; [|by apply IH].
    destruct (r_armed r && _ && _); [|by apply IH]. intros [H1 H2]%IH. split; [lia|].
    intros x Hx. rewrite H2 by lia. by rewrite list_lookup_insert_ne by lia.
Qed.

Lemma deliver_count ready k m buf n m' buf' :
  deliver ready k m buf = (n, m', buf') -> n <= k + length ready.
Proof.
  revert k m buf. induction ready as [|[s ev] ready IH]; intros k m buf; simpl.
  - intros [= <- <- <-]. lia.
  - destruct (m !! s) as [r|]; [destruct (r_armed r && _ && _)|]; intros H%IH; lia.
Qed.

Lemma deliver_serving soc ready k m buf n m' buf' r :
  deliver ready k m buf = (n, m', buf') -> Forall (fun x => x.1 = soc -> has_in x.2) ready ->
  m !! soc = Some r ->
  is_Some (m' !! soc) /\
  (r_armed r = true -> has_in (r_events r) -> m' !! soc = Some r \/
    exists x ev, k <= x < n /\ buf' !! x = Some (r_cb r, ev) /\ has_in ev).
Proof.
  revert k m buf r. induction ready as [|[s ev] ready IH]; intros k m buf r; simpl.
  - intros [= <- <- <-] _ Hr. split; [by eexists|by left].
  - intros H [Hev Hall]%Forall_cons Hr. simpl in Hev.
    destruct (m !! s) as [r0|] eqn:Es; [|by eapply IH].
    destruct (r_armed r0 && _ && (k <? length buf)%nat) eqn:Ea; [|by eapply IH].
    apply andb_prop in Ea as [_ Hk%Nat.ltb_lt].
    destruct (deliver_keeps _ _ _ _ _ _ _ H) as [Hn Hkeep].
    destruct (decide (s = soc)) as [->|Hne].
    + simplify_eq. destruct (IH _ _ _ _ H Hall (lookup_insert_eq _ _ _)) as [Hs _].
      split; [done|]. intros _ Hin. right. eexists k, _. split; [lia|].
      split; [|by apply has_in_reported; [exact Hin|apply Hev]].
      rewrite Hkeep by lia. by apply list_lookup_insert_eq.
    + destruct (IH _ _ _ r H Hall) as [Hs Hor]; [by rewrite lookup_insert_ne|].
      split; [done|]. intros Har Hin. destruct (Hor Har Hin) as [?|(x & e & ? & ? & ?)]; [by left|].
      right. exists x, e. split; [lia|done].
Qed.

(** A registration of another socket. *)
Lemma serving_publish h option s ev cb soc ptr h' :
  handler_ok h -> publish option s ev cb h = Done ptr h' -> s <> soc ->
  serving h soc -> serving h' soc.
Proof.
  intros [Hr _] E Hne ([r Hm] & p & dn & Hp & Hor). injection E as <- <-.
  pose proof (ro_next _ _ _ _ _ _ Hr _ _ Hp) as Hlt.
  split; simpl; [rewrite epoll_ctl_other by done; by eexists|].
  exists p, dn. simpl. rewrite lookup_insert_ne by lia. split; [done|].
  destruct Hor as [(r' & Hr' & ?)|?]; [left|by right].
  exists r'. simpl. by rewrite epoll_ctl_other.
Qed.

Lemma serving_same h h' soc :
  serving h soc -> epoll h' !! soc = epoll h !! soc -> heap h' = heap h ->
  _events h' = _events h -> workers h' = workers h -> serving h' soc.
Proof.
  unfold serving, listening, todo. intros Hs E1 E2 E3 E4. by rewrite E1, E2, E3, E4.
Qed.

(** The worker's next event. *)
Lemma serving_next h i n err script soc h' :
  handler_ok h -> workers h = [WHandle i n] -> i < n -> AcceptErr EAGAIN ∈ script ->
  (0 <= soc)%Z -> handle_event 0 err script h = Done tt h' -> serving h soc -> serving h' soc.
Proof.
  intros Hok Hw Hlt Hs Hsoc Hh ([r Hm] & p & dn & Hp & Hor).
  destruct (handle_next h i n err script Hok Hw Hlt Hs)
    as (ptr & ev & cb & h1 & He & Hcb & Hh' & Hok' & E1 & E2 & E3 & E4 & _).
  assert (h1 = h') as -> by congruence.
  pose proof (ro_next _ _ _ _ _ _ (ho_refs _ Hok)) as Hnext.
  assert (forall q, (cb_bound cb = BServeSocketReady /\ has_in ev /\ cb_soc cb = soc) ->
    q = next_cb h -> serving h' soc) as Hagain.
  { intros q (Hb & Hin & Hcs) ->. unfold serving, listening. rewrite E1, E2.
    unfold ran_epoll, ran_heap. rewrite Hb, (proj2 (N.eqb_neq _ _) Hin), Hcs.
    rewrite (epoll_ctl_mod _ _ _ r) by done. rewrite lookup_insert_eq. split; [by eexists|].
    exists (next_cb h), (cb_done cb). pose proof (Hnext _ _ Hcb). split; [|by left; eexists].
    destruct (_delete_after_run cb); rewrite ?lookup_delete_ne by lia; apply lookup_insert_eq. }
  destruct (decide (cb_bound cb = BServeSocketReady /\ has_in ev /\ cb_soc cb = soc)) as [Hyes|Hno].
  { by apply (Hagain (next_cb h)). }
  assert (epoll h' !! soc = epoll h !! soc) as Esoc.
  { rewrite E1. unfold ran_epoll. destruct (cb_bound cb) eqn:Eb; [done|].
    destruct (N.eqb_spec (N.land ev EPOLLIN) 0) as [|Hin]; [done|]. apply epoll_ctl_other.
    intros Hc. by apply Hno. }
  assert (forall q c, q <> ptr -> heap h !! q = Some c -> heap h' !! q = Some c) as Hkeep.
  { intros q c Hq Hc. pose proof (Hnext _ _ Hc). rewrite E2. unfold ran_heap.
    destruct (_delete_after_run cb); rewrite ?lookup_delete_ne by done;
      destruct (cb_bound cb); try done; destruct (_ =? 0)%N; try done;
      by rewrite lookup_insert_ne by lia. }
  split; [rewrite Esoc; by eexists|]. unfold todo in Hor. rewrite Hw in Hor. simpl in Hor.
  assert (p <> ptr) as Hpne.
  { intros ->. rewrite Hp in Hcb. injection Hcb as <-. destruct Hor as [(r' & Hr' & Ha & Hc & _)|H].
    - destruct (ro_fetched _ _ _ _ _ _ (ho_refs _ Hok) i ptr ev) as [_ Hn]; [|done|by apply (Hn soc r')].
      unfold todo. rewrite Hw. simpl. lia.
    - destruct H as (x & e & Hx & Hxe & Hin). assert (x = i) as ->.
      { apply (ro_distinct _ _ _ _ _ _ (ho_refs _ Hok) x i ptr e ev); try done;
          unfold todo; rewrite Hw; simpl; lia. }
      apply Hno. split; [done|]. split; [|done]. by simplify_eq. }
  exists p, dn. split; [by apply Hkeep|]. unfold listening, todo. rewrite Esoc, E3, E4. simpl.
  destruct Hor as [?|(x & e & Hx & Hxe & Hin)]; [by left|right]. exists x, e.
  split; [|done]. destruct (decide (x = i)) as [->|]; [|lia]. congruence.
Qed.



Lemma serving_exec h a soc h' :
  handler_ok h -> untouched soc h a -> (0 <= soc)%Z ->
  exec a h = Done tt h' \/ exec a h = Wait h' -> serving h soc -> serving h' soc.
Proof.
  intros Hok [Ha Hu] Hsoc He Hs. pose proof Hok as [Hr [k Hw]].
  destruct a as [option s ev dn del|s dn|s r dn del|s|ptr| |w ready|w err script]; simpl in *.
  - revert He. unfold MonitorFor. unM. rewrite (proj2 (Z.leb_le _ _) Ha). simpl.
    intros [[= <-]|[=]]. by eapply (serving_publish h option s _ _ soc).
  - revert He. unfold Serve, AddServerSocket. unM. intros [[= <-]|[=]].
    eapply (serving_publish (set_servers (_servers h ++ [Connection.new s]) h) EPOLL_CTL_ADD s);
      [by apply (handler_ok_same h)|done|done|done].
  - revert He. unfold Connect2. destruct (connect_now r); unM; intros [[= <-]|[=]].
    + by apply (serving_same h).
    + by eapply (serving_publish h EPOLL_CTL_ADD s _ _ soc).
  - revert He. unfold Close. destruct (s <? 0)%Z; unM; intros [[= <-]|[=]]; [done|].
    apply (serving_same h); try done. simpl. by rewrite lookup_delete_ne.
  - destruct Ha as ([cb Hcb] & Hna & Hnf). revert He. unfold delete_callback. unM. rewrite Hcb.
    intros [[= <-]|[=]]. destruct Hs as (Hm & p & d & Hp & Hor). split; [done|].
    exists p, d. split; [|done]. simpl. rewrite lookup_delete_ne; [done|]. intros ->.
    destruct Hor as [(r & Hr1 & Hr2 & Hr3 & _)|(x & e & Hx & Hxe & _)];
      [by apply (Hna soc); exists r|]. apply Hnf. by exists x, e.
  - revert He. unfold begin_destruct. unM. destruct (shutdown_all (_servers h)) as [l x].
    intros [[= <-]|[=]]. by apply (serving_same h).
  - revert He. unfold epoll_wait. rewrite Hw. destruct w as [|w]; simpl; [|by intros [[=]|[= <-]]].
    destruct k; [|by intros [[=]|[= <-]]..].
    destruct (deliver ready 0 (epoll h) (_events h)) as [[n m'] buf'] eqn:Ed.
    intros [[= <-]|[=]]. destruct Hs as ([r Hm] & p & d & Hp & Hor).
    destruct (deliver_serving _ _ _ _ _ _ _ _ _ Ed Hu Hm) as [Hm' Hdel].
    split; [done|]. exists p, d. split; [done|]. unfold todo in *. rewrite Hw in Hor. simpl in *.
    destruct Hor as [(r' & Hr' & Har & <- & Hin)|(x & ? & ? & _)]; [|lia]. simplify_eq.
    destruct (Hdel Har Hin) as [?|(x & e & ? & ? & ?)]; [left; by eexists|right; by exists x, e].
  - destruct w as [|w];
      [|revert He; unfold handle_event; unM; rewrite Hw; simpl; intros [[=]|[= <-]]; done].
    destruct k as [|i n|]; try (revert He; unfold handle_event; unM; rewrite Hw; simpl;
      intros [[=]|[= <-]]; done).
    destruct (Nat.ltb_spec i n) as [Hlt|Hge].
    + destruct (handle_next h i n err script Hok Hw Hlt Ha) as (_ & _ & _ & h1 & _ & _ & Hh & _).
      assert (h1 = h') as -> by (destruct He as [He|He]; congruence).
      by eapply serving_next.
    + assert (exists k', (k' = WWait \/ k' = WExit) /\ h' = set_worker 0 k' h) as (k' & Hk' & ->).
      { revert He. unfold handle_event. unM. rewrite Hw. simpl.
        rewrite (proj2 (Nat.ltb_ge _ _) Hge).
        destruct (_destructing h && _); intros [[= <-]|[=]]; eauto. }
      destruct Hs as (Hm & p & d & Hp & Hor). split; [done|]. exists p, d. split; [done|].
      unfold todo in Hor. rewrite Hw in Hor. simpl in Hor.
      destruct Hor as [?|(x & ? & ? & _)]; [by left|lia].
Qed.

(** C24. A server never goes deaf: once Serve has registered its socket, and as
    long as nobody else registers or closes that socket and its events are
    connections, in every state a handler with one worker reaches the socket is
    armed with EPOLLIN in its mask, so that the next connection is reported, or a
    connection event of it is waiting for the worker. *)
Theorem server_never_deaf h soc done h1 h2 :
  reaches allowed (new 1) h -> (0 <= soc)%Z -> epoll h !! soc = None ->
  exec (AServe soc done) h = Done tt h1 -> reaches (untouched soc) h1 h2 -> serving h2 soc.
Proof.
  intros Hr Hsoc Hnone He Hr2. pose proof (reaches_ok h Hr) as Hok.
  assert (handler_ok h1 /\ serving h1 soc) as [Hok1 Hs1].
  { destruct (exec_ok (AServe soc done) h Hok I) as (h' & Hok' & [E|E]); [|congruence].
    assert (h' = h1) as -> by congruence. split; [done|]. revert He. simpl.
    unfold Serve, AddServerSocket, publish, epoll_ctl. unM.
    rewrite (proj2 (Z.ltb_ge _ _)) by done. simpl. rewrite Hnone. intros [= <-].
    unfold serving, listening. simpl. rewrite lookup_insert_eq. split; [by eexists|].
    exists (next_cb h), done. rewrite lookup_insert_eq. split; [done|left]. by eexists. }
  clear He. assert (handler_ok h2 /\ serving h2 soc) as [_ ?]; [|done].
  induction Hr2 as [|h' a h'' _ [Hok' Hs'] Ha He|h' a h'' _ [Hok' Hs'] Ha He]; [done| |];
    (split; [destruct (exec_ok a h' Hok' (proj1 Ha)) as (h0 & Hok0 & [E|E]); congruence
            |eapply serving_exec; eauto]).
Qed.

(** ** Shutdown *)

Lemma drain_worker j h i n err script :
  handler_ok h -> workers h = [WHandle i n] -> n = i + j -> AcceptErr EAGAIN ∈ script ->
  _destructing h = true -> n < kMaxEvents ->
  exists h', run (replicate (S j) (AHandle 0 err script)) h = Done tt h' /\ joined h' = true.
Proof.
  revert h i. induction j as [|j IH]; intros h i Hok Hw Hn Hs Hd Hlt.
  - exists (set_worker 0 WExit h). simpl. unfold handle_event. unM. rewrite Hw. simpl.
    rewrite (proj2 (Nat.ltb_ge _ _)) by lia. rewrite Hd. simpl.
    rewrite (proj2 (Nat.eqb_neq _ _)) by lia. simpl. split; [done|].
    unfold joined. by rewrite (proj2 (set_idle_ok h WExit Hok (or_intror eq_refl))).
  - destruct (handle_next h i n err script Hok Hw ltac:(lia) Hs)
      as (_ & _ & _ & h1 & _ & _ & Hh & Hok1 & _ & _ & _ & Hw1 & Hd1).
    destruct (IH h1 (S i)) as (h' & Hrun & Hj); try done; [lia|congruence|].
    exists h'. split; [|done]. change (replicate (S (S j)) (AHandle 0 err script))
      with (AHandle 0 err script :: replicate (S j) (AHandle 0 err script)).
    cbn [run]. unfold mbind, M_bind. simpl exec. rewrite Hh. done.
Qed.

(** C25. Shutdown ends: once the destructor has set [_destructing], a worker that
    comes back from epoll_wait with fewer than [kMaxEvents] events runs their
    callbacks and returns, after one step per event and one more, so the
    destructor's join returns. *)
Theorem shutdown_joins_worker h ready err script :
  reaches allowed (new 1) h -> workers h = [WWait] -> _destructing h = true ->
  length ready < kMaxEvents -> AcceptErr EAGAIN ∈ script ->
  exists m h', m <= S (length ready) /\
    run (AWait 0 ready :: replicate m (AHandle 0 err script)) h = Done tt h' /\ joined h' = true.
Proof.
  intros Hr Hw Hd Hlen Hs. pose proof (reaches_ok h Hr) as Hok.
  destruct (exec_ok (AWait 0 ready) h Hok I) as (h1 & Hok1 & E).
  assert (exists n, exec (AWait 0 ready) h = Done tt h1 /\ workers h1 = [WHandle 0 n] /\
    n <= length ready /\ _destructing h1 = true) as (n & E1 & Hw1 & Hn & Hd1).
  { simpl in *. unfold epoll_wait in *. rewrite Hw in *. simpl in *.
    destruct (deliver ready 0 (epoll h) (_events h)) as [[n m'] buf'] eqn:Ed.
    exists n. destruct E as [[= <-]|[=]]. pose proof (deliver_count _ _ _ _ _ _ _ Ed). done. }
  destruct (drain_worker n h1 0 n err script) as (h' & Hrun & Hj); try done; [lia|].
  exists (S n), h'. split; [lia|]. split; [|done].
  cbn [run]. unfold mbind, M_bind. rewrite E1. done.
Qed.

(** Deleting a callback after its socket was re-armed is not enough: the
    event may already be in the worker's buffer.  This is the order in which
    ConnectCallback of the proxy re-monitors the client and then deletes
    [second_cb]. *)
Theorem delete_after_fetch_race :
  run [AMonitor EPOLL_CTL_ADD 5 0 1 DELETE_AFTER_CALLING;
       AWait 0 [(5%Z, EPOLLHUP)];
       AMonitor EPOLL_CTL_MOD 5 EPOLLIN 2 DELETE_AFTER_CALLING;
       ADelete 1;
       AHandle 0 0 []] (new 1) = Crash UseAfterFree.
Proof. vm_compute. reflexivity. Qed.

(** The workers share one event buffer: with two workers, the second
    epoll_wait overwrites the event the first was given, the event of socket 5
    is lost and the callback of socket 6 is run twice. *)
Theorem shared_event_buffer_race :
  run [AMonitor EPOLL_CTL_ADD 5 EPOLLIN 1 DELETE_AFTER_CALLING;
       AMonitor EPOLL_CTL_ADD 6 EPOLLIN 2 DELETE_AFTER_CALLING;
       AWait 0 [(5%Z, EPOLLIN)]; AWait 1 [(6%Z, EPOLLIN)];
       AHandle 0 0 []; AHandle 1 0 []] (new 2) = Crash UseAfterFree.
Proof. vm_compute. reflexivity. Qed.

Definition h_registered : handler :=
  default (new 1) (out_state (exec (AMonitor EPOLL_CTL_ADD 5 EPOLLIN 1 DELETE_AFTER_CALLING) (new 1))).

Definition h_fetched : handler :=
  default (new 1) (out_state (exec (AWait 0 [(5%Z, EPOLLIN)]) h_registered)).

Lemma h_fetched_reached : reaches allowed (new 1) h_fetched.
Proof.
  apply (reaches_done _ _ h_registered (AWait 0 [(5%Z, EPOLLIN)])); [|exact I|reflexivity].
  apply (reaches_done _ _ (new 1) (AMonitor EPOLL_CTL_ADD 5 EPOLLIN 1 DELETE_AFTER_CALLING));
    [apply reaches_refl|discriminate|reflexivity].
Qed.

Lemma callbacks_never_dangle_witness :
  workers h_fetched = [WHandle 0 1] /\
  exec (AHandle 0 0 [AcceptErr EAGAIN]) h_fetched <> Crash UseAfterFree.
Proof.
  split; [reflexivity|].
  apply callbacks_never_dangle; [exact h_fetched_reached|apply list_elem_of_here].
Defined.

(** A listening socket, and its first connection event fetched. *)
Definition h_serving : handler :=
  default (new 1) (out_state (exec (AServe 4 7) (new 1))).

Definition h_incoming : handler :=
  default (new 1) (out_state (exec (AWait 0 [(4%Z, EPOLLIN)]) h_serving)).

Lemma serve_accepts_all_witness : exists h',
  run_callback 1 EPOLLIN 0 [Accepted 8; AcceptErr 103; Accepted 9; AcceptErr EAGAIN] h_incoming =
    Done tt h' /\ calls h' = [CallBack1 7 8; CallBack1 7 9].
Proof.
  destruct (serve_accepts_all h_incoming 1 EPOLLIN 4 7 0 [Accepted 8; AcceptErr 103; Accepted 9] []
    (mkReg (monitor_events EPOLLIN) 1 false)) as (h' & E & Hc & _).
  - reflexivity.
  - reflexivity.
  - discriminate.
  - discriminate.
  - reflexivity.
  - intros H. repeat (apply elem_of_cons in H as [H|H]; [discriminate|]).
    by apply elem_of_nil in H.
  - exists h'. split; [exact E|]. rewrite Hc. reflexivity.
Defined.

Lemma server_never_deaf_witness :
  workers h_incoming = [WHandle 0 1] /\ serving h_incoming 4.
Proof.
  split; [reflexivity|]. apply (server_never_deaf (new 1) 4 7 h_serving).
  - apply reaches_refl.
  - discriminate.
  - reflexivity.
  - reflexivity.
  - apply (reaches_done _ _ h_serving (AWait 0 [(4%Z, EPOLLIN)]));
      [apply reaches_refl| |reflexivity].
    split; [exact I|]. apply Forall_cons. split; [discriminate|apply Forall_nil; exact I].
Defined.

Definition h_destructing : handler :=
  default (new 1) (out_state (exec ADestruct h_serving)).

Lemma h_destructing_reached : reaches allowed (new 1) h_destructing.
Proof.
  apply (reaches_done _ _ h_serving ADestruct); [|exact I|reflexivity].
  apply (reaches_done _ _ (new 1) (AServe 4 7)); [apply reaches_refl|exact I|reflexivity].
Qed.

Lemma shutdown_joins_worker_witness : exists m h',
  m <= 2 /\
  run (AWait 0 [(4%Z, EPOLLHUP)] :: replicate m (AHandle 0 0 [AcceptErr EAGAIN])) h_destructing =
    Done tt h' /\ joined h' = true.
Proof.
  apply (shutdown_joins_worker h_destructing [(4%Z, EPOLLHUP)]).
  - exact h_destructing_reached.
  - reflexivity.
  - reflexivity.
  - unfold kMaxEvents. simpl. lia.
  - apply list_elem_of_here.
Defined.

(** ReceivedConnection's callback can fire between MonitorNew and the assignment
    of its pointer to first_cb: the pointer that is stored then, and that the
    proxy's scheduler deletes, is already free. *)
Theorem first_callback_double_free :
  exists h0 h, MonitorNew 5 (mkReadyFor false false 0 0) 1 (new 1) = Done 1%N h0 /\
    run [AWait 0 [(5%Z, EPOLLRDHUP)]; AHandle 0 0 [AcceptErr EAGAIN]] h0 = Done tt h /\
    calls h = [CallBack2 1 5 (mkReadyFor false false EPOLLRDHUP 0)] /\
    delete_callback 1 h = Crash UseAfterFree.
Proof. vm_compute. eexists _, _. repeat split. Qed.

End CommHandlerInv.
