(* ===== verification/CommContract.v ===== *)
(** * The contract of CommunicationHandlerInterface
      (communication_handler_interface.h) and LinuxCommunicationHandler

    Seen from the stages, the handler is a bag of registrations, each a [done]
    with its socket: Connect and Monitor add one, the handler takes one out and
    calls it, or forgets it when its socket is closed or registered again.  A
    registration is called at most once, and with its own socket. *)

From stdpp Require Import prelude gmap list sorting.
From S2P Require Import Prelude Synchronization Job JobTypes CommHandler CommHandlerInv.

Module CommContract.
Import CommHandler CommHandlerInv.

(** ** The abstract handler *)

(** A registration: the name of [done] and its socket. *)
Abbreviation registration := (N * Z)%type (only parsing).

Record bag := mkBag { pending : list registration; called : list registration }.

(** What the handler does on its own. *)
Inductive bag_step : bag -> bag -> Prop :=
| step_call r p b : pending b ≡ₚ r :: p -> bag_step b (mkBag p (called b ++ [r]))
| step_forget p b : p ⊆+ pending b -> bag_step b (mkBag p (called b)).

(** ** What the concrete handler holds *)

(** The registration behind a callback pointer. *)
Definition name_of (hp : gmap N Callback) (ptr : N) : list registration :=
  match hp !! ptr with
  | Some cb => match cb_bound cb with
               | BMonitorSocketReady => [(cb_done cb, cb_soc cb)]
               | BServeSocketReady => []
               end
  | None => []
  end.

Definition reg_name (hp : gmap N Callback) (r : reg) : list registration :=
  if r_armed r then name_of hp (r_cb r) else [].

(** The armed registrations of the epoll set, and those of the fetched events
    [lo .. hi). *)
Definition armed_names (hp : gmap N Callback) (m : gmap Z reg) : list registration :=
  mjoin ((fun x => reg_name hp x.2) <$> map_to_list m).

Definition fetched_names (hp : gmap N Callback) (buf : list (N * N)) (lo hi : nat) :
    list registration :=
  mjoin ((fun e => name_of hp e.1) <$> take (hi - lo) (drop lo buf)).

Definition held (h : handler) : list registration :=
  armed_names (heap h) (epoll h) ++
  fetched_names (heap h) (_events h) (todo h).1 (todo h).2.

(** The calls of application callbacks so far. *)
Definition calls2 (l : list call) : list registration :=
  omap (fun c => match c with CallBack2 d s _ => Some (d, s) | CallBack1 _ _ => None end) l.

(** What an action registers. *)
Definition registers (a : action) : list registration :=
  match a with
  | AMonitor _ soc _ done _ | AConnect soc _ done _ => [(done, soc)]
  | _ => []
  end.

(** ** Names under changes of the epoll set and the heap *)

Lemma mjoin_perm {A B} (f : A -> list B) l k :
  l ≡ₚ k -> mjoin (f <$> l) ≡ₚ mjoin (f <$> k).
Proof.
  induction 1 as [|x l k _ IH|x y l|l k n _ IH1 _ IH2]; csimpl.
  - done.
  - change (f x ++ mjoin (f <$> l) ≡ₚ f x ++ mjoin (f <$> k)). by rewrite IH.
  - change (f y ++ f x ++ mjoin (f <$> l) ≡ₚ f x ++ f y ++ mjoin (f <$> l)).
    by rewrite !(assoc_L (++)), (comm (++) (f y)).
  - by rewrite IH1.
Qed.

Lemma mjoin_ext {A B} (f g : A -> list B) l :
  (forall x, x ∈ l -> f x = g x) -> mjoin (f <$> l) = mjoin (g <$> l).
Proof.
  induction l as [|x l IH]; intros H; [done|].
  change (f x ++ mjoin (f <$> l) = g x ++ mjoin (g <$> l)).
  rewrite (H x) by apply list_elem_of_here. f_equal. apply IH. intros y Hy. apply H.
  by apply list_elem_of_further.
Qed.

Lemma armed_names_fresh hp m soc r :
  m !! soc = None -> armed_names hp (<[soc := r]> m) ≡ₚ reg_name hp r ++ armed_names hp m.
Proof.
  intros Hn. unfold armed_names. by rewrite (mjoin_perm _ _ _ (map_to_list_insert m soc r Hn)).
Qed.

(** An entry and the rest. *)
Lemma armed_names_split hp m soc r :
  m !! soc = Some r -> armed_names hp m ≡ₚ reg_name hp r ++ armed_names hp (delete soc m).
Proof.
  intros Hr. rewrite <-(insert_delete_id m soc r Hr) at 1.
  apply armed_names_fresh, lookup_delete_eq.
Qed.

Lemma armed_names_insert hp m soc r :
  armed_names hp (<[soc := r]> m) ≡ₚ reg_name hp r ++ armed_names hp (delete soc m).
Proof.
  rewrite <-insert_delete_eq. apply armed_names_fresh, lookup_delete_eq.
Qed.

Lemma armed_names_delete hp m soc : armed_names hp (delete soc m) ⊆+ armed_names hp m.
Proof.
  destruct (m !! soc) as [r|] eqn:Hr; [|by rewrite delete_id].
  rewrite (armed_names_split hp m soc r Hr). apply submseteq_inserts_l. done.
Qed.

Lemma armed_names_ctl hp option soc r m :
  armed_names hp (epoll_ctl option soc r m) ⊆+ reg_name hp r ++ armed_names hp m.
Proof.
  assert (armed_names hp m ⊆+ reg_name hp r ++ armed_names hp m) as H0
    by (by apply submseteq_inserts_l).
  assert (armed_names hp (<[soc := r]> m) ⊆+ reg_name hp r ++ armed_names hp m) as H1.
  { rewrite armed_names_insert. apply submseteq_app; [done|apply armed_names_delete]. }
  unfold epoll_ctl. destruct (soc <? 0)%Z; [done|]. by destruct option, (m !! soc).
Qed.

(** Only what the referenced pointers point to matters. *)
Lemma armed_names_heap hp hp' m :
  (forall soc r, m !! soc = Some r -> r_armed r = true -> hp' !! r_cb r = hp !! r_cb r) ->
  armed_names hp' m = armed_names hp m.
Proof.
  intros H. apply mjoin_ext. intros [soc r] Hx%elem_of_map_to_list. unfold reg_name, name_of. simpl.
  destruct (r_armed r) eqn:Ea; [|done]. by rewrite (H soc r Hx Ea).
Qed.

Lemma fetched_names_heap hp hp' buf lo hi :
  (forall x ptr ev, lo <= x < hi -> buf !! x = Some (ptr, ev) -> hp' !! ptr = hp !! ptr) ->
  fetched_names hp' buf lo hi = fetched_names hp buf lo hi.
Proof.
  intros H. apply mjoin_ext. intros [ptr ev] Hx. apply list_elem_of_lookup in Hx as [i Hi].
  apply lookup_take_Some in Hi as [Hi Hlt]. rewrite lookup_drop in Hi.
  unfold name_of. simpl. by rewrite (H (lo + i) ptr ev); [|lia|].
Qed.

Lemma fetched_names_none hp buf lo hi : hi <= lo -> fetched_names hp buf lo hi = [].
Proof. intros H. unfold fetched_names. by replace (hi - lo) with 0 by lia. Qed.

Lemma fetched_names_next hp buf lo hi ptr ev :
  lo < hi -> buf !! lo = Some (ptr, ev) ->
  fetched_names hp buf lo hi = name_of hp ptr ++ fetched_names hp buf (S lo) hi.
Proof.
  intros Hlt Hb. unfold fetched_names. rewrite (drop_S _ (ptr, ev) lo Hb).
  by replace (hi - lo) with (S (hi - S lo)) by lia.
Qed.

Lemma fetched_names_last hp buf k ptr ev :
  k < length buf ->
  fetched_names hp (<[k := (ptr, ev)]> buf) 0 (S k) ≡ₚ
    name_of hp ptr ++ fetched_names hp buf 0 k.
Proof.
  intros Hk. unfold fetched_names. rewrite !drop_0, !Nat.sub_0_r.
  rewrite (take_S_r _ k (ptr, ev)) by (by apply list_lookup_insert_eq).
  rewrite take_insert_ge by lia.
  rewrite (mjoin_perm _ _ _ (Permutation_app_comm _ _)). done.
Qed.

(** epoll_wait moves armed registrations to the buffer. *)
Lemma deliver_names hp ready k m buf n m' buf' :
  deliver ready k m buf = (n, m', buf') -> k <= length buf ->
  (forall soc r, m !! soc = Some r -> r_armed r = true -> oneshot (r_events r) = true) ->
  armed_names hp m' ++ fetched_names hp buf' 0 n ≡ₚ armed_names hp m ++ fetched_names hp buf 0 k.
Proof.
  revert k m buf. induction ready as [|[soc ev] ready IH]; intros k m buf; simpl.
  { by intros [= <- <- <-]. }
  destruct (m !! soc) as [r|] eqn:Er; [|apply IH].
  destruct (r_armed r) eqn:Ea; simpl; [|apply IH].
  destruct (negb _); simpl; [|apply IH].
  destruct (Nat.ltb_spec k (length buf)) as [Hk|]; [|apply IH]. intros E _ Hone.
  rewrite (Hone soc r Er Ea) in E. simpl in E. rewrite (IH _ _ _ E); [|rewrite length_insert; lia|].
  2:{ intros s r0 [[<- <-]|[? ?]]%lookup_insert_Some Har; [done|eauto]. }
  rewrite armed_names_insert, fetched_names_last, (armed_names_split hp m soc r Er) by done.
  unfold reg_name. simpl. rewrite Ea. solve_Permutation.
Qed.

(** ** Every action accounts for its calls *)

(** The calls made by [a] and what is held afterwards come from what was held and
    what [a] registers. *)
Definition accounts (a : action) (h h' : handler) : Prop :=
  exists new, calls2 (calls h') = calls2 (calls h) ++ new /\
    new ++ held h' ⊆+ registers a ++ held h.

Lemma accounts_same a h h' :
  epoll h' = epoll h -> heap h' = heap h -> _events h' = _events h -> workers h' = workers h ->
  calls h' = calls h -> accounts a h h'.
Proof.
  intros E1 E2 E3 E4 E5. exists []. rewrite E5, app_nil_r. split; [done|].
  unfold held, todo. rewrite E1, E2, E3, E4. by apply submseteq_inserts_l.
Qed.

(** A new callback is known to nobody yet. *)
Lemma publish_held h option soc ev cb ptr h' :
  handler_ok h -> publish option soc ev cb h = Done ptr h' ->
  calls h' = calls h /\
  held h' ⊆+ (match cb_bound cb with BMonitorSocketReady => [(cb_done cb, cb_soc cb)]
              | BServeSocketReady => [] end) ++ held h.
Proof.
  intros [[O1 O2 O3 O4 _ O5 O6] _] [= <- <-]. split; [done|]. unfold held, todo. simpl.
  set (lo := _.1). set (hi := _.2).
  assert (forall p, is_Some (heap h !! p) -> <[next_cb h := cb]> (heap h) !! p = heap h !! p) as Hk.
  { intros p [c Hc]. pose proof (O5 p c Hc). by rewrite lookup_insert_ne by lia. }
  rewrite (fetched_names_heap (heap h) _ _ lo hi)
    by (intros x p e Hx Hp; apply Hk; by apply (O3 x p e)).
  rewrite (assoc_L (++)). apply submseteq_app; [|done].
  etrans; [apply armed_names_ctl|]. unfold reg_name, name_of at 1. simpl.
  rewrite lookup_insert_eq. apply submseteq_app; [by destruct (cb_bound cb)|].
  rewrite (armed_names_heap (heap h)); [done|]. intros s r H1 H2. apply Hk. eauto.
Qed.

Lemma calls2_accepted done l : calls2 (CallBack1 done <$> l) = [].
Proof. induction l as [|s l IH]; [done|exact IH]. Qed.

Lemma calls2_app l k : calls2 (l ++ k) = calls2 l ++ calls2 k.
Proof. apply omap_app. Qed.

(** Running the next event of the worker. *)
Lemma run_calls h ptr ev cb err script h' :
  heap h !! ptr = Some cb -> (ptr < next_cb h)%N -> AcceptErr EAGAIN ∈ script ->
  run_callback ptr ev err script h = Done tt h' ->
  calls2 (calls h') = calls2 (calls h) ++ name_of (heap h) ptr.
Proof.
  intros Hcb Hlt Hs. destruct (accept_loop_done script Hs) as (l & rest & Hl).
  unfold run_callback, MonitorSocketReady, ServeSocketReady, AddServerSocket, publish,
    delete_callback, name_of. unM. rewrite Hcb.
  destruct (cb_bound cb); [|destruct (N.land ev EPOLLIN =? 0)%N]; simpl.
  1,2: destruct (_delete_after_run cb); simpl; rewrite ?Hcb; intros [= <-]; simpl;
    by rewrite ?calls2_app, ?app_nil_r.
  rewrite Hl. destruct (_delete_after_run cb); simpl; [rewrite lookup_insert_ne, Hcb by lia|];
    intros [= <-]; simpl; by rewrite calls2_app, calls2_accepted.
Qed.

(** What a run leaves: the callback that ran is no longer referenced, and a
    server's new callback is no registration. *)
Lemma ran_heap_other h cb ptr ev p :
  p <> ptr -> (p < next_cb h)%N -> ran_heap h cb ptr ev !! p = heap h !! p.
Proof.
  intros Hne Hlt. unfold ran_heap.
  destruct (cb_bound cb); [|destruct (N.land ev EPOLLIN =? 0)%N]; destruct (_delete_after_run cb);
    by rewrite ?lookup_delete_ne, ?lookup_insert_ne by (done || lia).
Qed.

Lemma ran_armed h lo hi ptr ev cb :
  refs_ok (epoll h) (heap h) (next_cb h) (_events h) lo hi -> lo < hi ->
  _events h !! lo = Some (ptr, ev) -> heap h !! ptr = Some cb ->
  armed_names (ran_heap h cb ptr ev) (ran_epoll h cb ev) ⊆+ armed_names (heap h) (epoll h).
Proof.
  intros [O1 O2 O3 O4 _ O5 O6] Hlt He Hcb. destruct (O3 lo ptr ev ltac:(lia) He) as [_ Hn].
  pose proof (O5 _ _ Hcb) as Hp.
  assert (armed_names (ran_heap h cb ptr ev) (epoll h) = armed_names (heap h) (epoll h)) as Eh.
  { apply armed_names_heap. intros s r H1 H2. destruct (O1 s r H1 H2) as [c Hc].
    apply ran_heap_other; [by apply (Hn s)|by apply (O5 _ c)]. }
  unfold ran_epoll. destruct (cb_bound cb) eqn:Eb; [by rewrite Eh|].
  destruct (N.land ev EPOLLIN =? 0)%N eqn:El; [by rewrite Eh|].
  etrans; [apply armed_names_ctl|]. rewrite Eh. unfold reg_name, name_of, ran_heap. simpl.
  rewrite Eb, El. destruct (_delete_after_run cb);
    by rewrite ?lookup_delete_ne, lookup_insert_eq by lia.
Qed.

Lemma handle_accounts h w err script h' :
  handler_ok h -> AcceptErr EAGAIN ∈ script ->
  handle_event w err script h = Done tt h' -> accounts (AHandle w err script) h h'.
Proof.
  intros Hok Hs E. pose proof Hok as [Hr [k Hw]].
  destruct w as [|w]; [destruct k as [|i n|]|]; revert E; unfold handle_event; unM; rewrite Hw;
    simpl; try done.
  destruct (Nat.ltb_spec i n) as [Hlt|Hge].
  - destruct (handle_next h i n err script Hok Hw Hlt Hs)
      as (ptr & ev & cb & h1 & He & Hcb & Hh & Hok1 & E1 & E2 & E3 & E4 & E5).
    intros E. assert (h' = h1) as ->.
    { revert Hh. unfold handle_event. unM. rewrite Hw. simpl.
      rewrite (proj2 (Nat.ltb_lt _ _) Hlt), E. by intros [= <-]. }
    exists (name_of (heap h) ptr). rewrite He in E. simpl in E.
    destruct (run_callback ptr ev err script h) as [[] h2| |] eqn:Er; try done.
    injection E as E. split; [rewrite <-E; apply (run_calls h ptr ev cb err script h2); try done;
      by apply (ro_next _ _ _ _ _ _ Hr ptr cb)|].
    unfold held, todo in *. rewrite Hw in *. rewrite E1, E2, E3, E4. simpl in *.
    rewrite (fetched_names_next _ _ i n ptr ev Hlt He).
    rewrite (fetched_names_heap (heap h) (ran_heap h cb ptr ev)).
    + rewrite (assoc_L (++)), (comm (++) (name_of _ _)), <-(assoc_L (++)).
      apply submseteq_app; [by eapply ran_armed|done].
    + intros x p e Hx Hp. destruct (ro_fetched _ _ _ _ _ _ Hr x p e ltac:(lia) Hp) as [[c Hc] _].
      apply ran_heap_other; [|by apply (ro_next _ _ _ _ _ _ Hr p c)]. intros ->.
      assert (x = i) by (apply (ro_distinct _ _ _ _ _ _ Hr x i ptr e ev); try done; lia). lia.
  - intros E. assert (exists k', h' = set_worker 0 k' h /\ (k' = WExit \/ k' = WWait))
      as (k' & -> & Hk') by (destruct (_destructing h && _); injection E as <-; eauto).
    exists []. split; [by rewrite app_nil_r|]. unfold held, todo. simpl. rewrite Hw. simpl.
    rewrite (fetched_names_none _ _ i n Hge).
    destruct Hk' as [-> | ->]; simpl; by rewrite fetched_names_none.
Qed.

(** ** Runs *)

(** What an action leaves behind when it returns or blocks. *)
Definition left_by (a : action) (h h' : handler) : Prop :=
  exec a h = Done tt h' \/ exec a h = Wait h'.

(** A served port is no registration of the contract. *)
Lemma serve_accounts soc dn h h' :
  handler_ok h -> allowed h (AServe soc dn) -> left_by (AServe soc dn) h h' ->
  accounts (AServe soc dn) h h'.
Proof.
  intros Hok Ha He. pose proof Hok as [Hr [k Hw]]. unfold left_by in He. simpl in He, Ha.
  unfold Serve, AddServerSocket in He. revert He. unM. intros He.
  set (h0 := set_servers (_servers h ++ [Connection.new soc]) h) in *.
  destruct (publish EPOLL_CTL_ADD soc (monitor_events EPOLLIN)
    (new_callback BServeSocketReady soc dn DELETE_AFTER_CALLING) h0) as [p h1| |] eqn:E; try done.
  assert (h' = h1) as -> by (destruct He; congruence).
  destruct (publish_held h0 _ _ _ _ _ _ (handler_ok_same h h0 Hok eq_refl eq_refl eq_refl eq_refl
    eq_refl) E) as [Ec Eh]. exists []. split; [by rewrite Ec, app_nil_r|]. exact Eh.
Qed.

(** A connect that ends at once calls back at once. *)
Lemma connect_accounts soc r dn del h h' :
  handler_ok h -> allowed h (AConnect soc r dn del) -> left_by (AConnect soc r dn del) h h' ->
  accounts (AConnect soc r dn del) h h'.
Proof.
  intros Hok Ha He. pose proof Hok as [Hr [k Hw]]. unfold left_by in He. simpl in He, Ha.
  unfold Connect2 in He. destruct (connect_now r) as [rd|]; revert He; unM; intros He.
  + assert (h' = add_calls [CallBack2 dn soc rd] h) as -> by (destruct He; congruence).
    exists [(dn, soc)]. simpl. rewrite calls2_app. by split.
  + destruct (publish EPOLL_CTL_ADD soc connect_events
      (new_callback BMonitorSocketReady soc dn del) h) as [p h1| |] eqn:E; try done.
    assert (h' = h1) as -> by (destruct He; congruence).
    destruct (publish_held h _ _ _ _ _ _ Hok E) as [Ec Eh]. exists [].
    split; [by rewrite Ec, app_nil_r|]. exact Eh.
Qed.

(** An owner deletes its callback. *)
Lemma delete_accounts ptr h h' :
  handler_ok h -> allowed h (ADelete ptr) -> left_by (ADelete ptr) h h' ->
  accounts (ADelete ptr) h h'.
Proof.
  intros Hok Ha He. pose proof Hok as [Hr [k Hw]]. unfold left_by in He. simpl in He, Ha.
  destruct Ha as ([cb Hcb] & Hna & Hnf). revert He. unfold delete_callback. unM. rewrite Hcb.
  intros He. assert (h' = set_heap (delete ptr (heap h)) h) as -> by (destruct He; congruence).
  exists []. split; [by rewrite app_nil_r|]. unfold held, todo in *. simpl.
  rewrite (armed_names_heap (heap h)), (fetched_names_heap (heap h)); [done|..].
  + intros x p e Hx Hp. apply lookup_delete_ne. intros <-. apply Hnf. by exists x, e.
  + intros s r H1 H2. apply lookup_delete_ne. intros E. apply (Hna s). by exists r.
Qed.

(** Events that are fetched stay held until they are handled. *)
Lemma wait_accounts w ready h h' :
  handler_ok h -> allowed h (AWait w ready) -> left_by (AWait w ready) h h' ->
  accounts (AWait w ready) h h'.
Proof.
  intros Hok Ha He. pose proof Hok as [Hr [k Hw]]. unfold left_by in He. simpl in He, Ha.
  revert He. unfold epoll_wait. rewrite Hw.
  destruct w as [|w]; simpl.
  2:{ intros He. assert (h' = h) as -> by (destruct He; congruence). by apply accounts_same. }
  destruct k as [|i n|].
  2,3: intros He; (assert (h' = h) as -> by (destruct He; congruence)); by apply accounts_same.
  destruct (deliver ready 0 (epoll h) (_events h)) as [[n m'] buf'] eqn:Ed.
  intros He. exists []. destruct He as [[= <-]|[=]]. split; [by rewrite app_nil_r|].
  unfold held, todo. simpl. rewrite Hw. simpl.
  rewrite (deliver_names _ _ _ _ _ _ _ _ Ed); [done|lia|]. apply (ro_oneshot _ _ _ _ _ _ Hr).
Qed.

(** A worker handles an event, or has none to handle. *)
Lemma handle_event_accounts w err script h h' :
  handler_ok h -> allowed h (AHandle w err script) -> left_by (AHandle w err script) h h' ->
  accounts (AHandle w err script) h h'.
Proof.
  intros Hok Ha He. pose proof Hok as [Hr [k Hw]]. unfold left_by in He. simpl in He, Ha.
  destruct He as [He|He]; [by apply handle_accounts|].
  assert (h' = h) as ->; [|by apply accounts_same].
  destruct w as [|w]; [destruct k as [|i n|]|]; revert He; unfold handle_event, block; unM; rewrite Hw;
    simpl; try congruence.
  destruct (Nat.ltb_spec i n) as [Hlt|Hge]; [|by destruct (_destructing h && _)].
  destruct (handle_next h i n err script Hok Hw Hlt Ha) as (p & e & cb & h1 & _ & _ & Hh & _).
  revert Hh. unfold handle_event. unM. rewrite Hw. simpl.
  rewrite (proj2 (Nat.ltb_lt _ _) Hlt). congruence.
Qed.

Lemma exec_accounts a h h' :
  handler_ok h -> allowed h a -> left_by a h h' -> accounts a h h'.
Proof.
  intros Hok Ha He.
  destruct a as [option soc ev dn del|soc dn|soc r dn del|soc|ptr| |w ready|w err script].
  2: by apply serve_accounts.
  2: by apply connect_accounts.
  3: by apply delete_accounts.
  4: by apply wait_accounts.
  4: by apply handle_event_accounts.
  all: unfold left_by in He; simpl in He, Ha.
  - destruct (publish option soc (monitor_events ev) (new_callback BMonitorSocketReady soc dn del) h)
      as [p h1| |] eqn:E; try done.
    assert (h' = h1) as ->.
    { revert He. unfold MonitorFor. unM. rewrite (proj2 (Z.leb_le _ _) Ha), E. intros []; congruence. }
    destruct (publish_held h _ _ _ _ _ _ Hok E) as [Ec Eh]. exists [].
    split; [by rewrite Ec, app_nil_r|]. exact Eh.
  - unfold Close in He. destruct (soc <? 0)%Z; revert He; unM; intros He.
    + assert (h' = h) as -> by (destruct He; congruence). by apply accounts_same.
    + assert (h' = add_syscalls [Connection.sys_close soc] (set_epoll (delete soc (epoll h)) h))
        as -> by (destruct He; congruence).
      exists []. split; [by rewrite app_nil_r|]. unfold held, todo. simpl.
      apply submseteq_app; [apply armed_names_delete|done].
  - revert He. unfold begin_destruct. unM. destruct (shutdown_all (_servers h)) as [l x].
    intros He. assert (exists y, h' = set_destructing (add_syscalls x (set_servers y h)))
      as [y ->] by (exists l; destruct He; congruence). by apply accounts_same.
Qed.

(** The actions of a run and the state it has reached. *)
Inductive traced : list action -> handler -> Prop :=
| traced_nil : traced [] (new 1)
| traced_snoc l h a h' : traced l h -> allowed h a ->
    exec a h = Done tt h' \/ exec a h = Wait h' -> traced (l ++ [a]) h'.

Lemma traced_ok l h : traced l h -> handler_ok h.
Proof.
  induction 1 as [|l h a h' _ IH Ha He]; [apply handler_ok_new|].
  destruct (exec_ok a h IH Ha) as (h1 & Hok & [E|E]); destruct He; congruence.
Qed.

(** ** Refinement of the abstract handler *)

(** Runs of the abstract handler, with what they register. *)
Inductive bag_runs : list registration -> bag -> Prop :=
| runs_nil : bag_runs [] (mkBag [] [])
| runs_register l b r : bag_runs l b -> bag_runs (l ++ [r]) (mkBag (r :: pending b) (called b))
| runs_step l b b' : bag_runs l b -> bag_step b b' -> bag_runs l b'.

Lemma runs_registers l rs p c :
  bag_runs l (mkBag p c) -> exists p', p' ≡ₚ rs ++ p /\ bag_runs (l ++ rs) (mkBag p' c).
Proof.
  revert l p. induction rs as [|r rs IH]; intros l p H; simpl.
  { exists p. by rewrite app_nil_r. }
  destruct (IH (l ++ [r]) (r :: p)) as (p' & Hp & H'); [exact (runs_register l (mkBag p c) r H)|].
  exists p'. rewrite <-(assoc_L (++)) in H'. split; [|done]. by rewrite Hp, Permutation_middle.
Qed.

Lemma runs_calls l new q p c :
  bag_runs l (mkBag p c) -> p ≡ₚ new ++ q -> bag_runs l (mkBag q (c ++ new)) .
Proof.
  revert p c. induction new as [|r new IH]; intros p c H Hp; simpl in *.
  - rewrite app_nil_r. eapply runs_step; [exact H|].
    apply (step_forget q (mkBag p c)). simpl. by rewrite Hp.
  - rewrite cons_middle, (assoc_L (++)). eapply IH; [|done].
    eapply runs_step; [exact H|]. apply (step_call r (new ++ q) (mkBag p c)). done.
Qed.

(** One action is registrations, then calls, then registrations forgotten. *)
Lemma runs_account l a h h' :
  bag_runs l (mkBag (held h) (calls2 (calls h))) -> accounts a h h' ->
  bag_runs (l ++ registers a) (mkBag (held h') (calls2 (calls h'))).
Proof.
  intros H (new & -> & Hsub). destruct (runs_registers l (registers a) _ _ H) as (p & Hp & H').
  apply submseteq_Permutation in Hsub as [lost Hl]. eapply runs_step.
  - eapply (runs_calls _ new (held h' ++ lost)); [exact H'|].
    by rewrite Hp, Hl, <-(assoc_L (++)).
  - apply (step_forget (held h') (mkBag (held h' ++ lost) _)). simpl. by apply submseteq_inserts_r.
Qed.

(** In the abstract handler nothing is called that was not registered, and no
    registration is called twice. *)
Lemma bag_accounts l b : bag_runs l b -> called b ++ pending b ⊆+ l.
Proof.
  induction 1 as [|l b r _ IH|l b b' _ IH Hs]; [done|..]; simpl.
  - rewrite <-Permutation_middle, (comm (++) l [r]). simpl. by apply submseteq_skip.
  - etrans; [|exact IH]. destruct Hs as [r p b Hp|p b Hp]; simpl in *.
    + by rewrite Hp, <-(assoc_L (++)).
    + by apply submseteq_app.
Qed.

(** C22. LinuxCommunicationHandler with one worker, the default, keeps the contract
    of its interface.  Every run of registrations, events, closes and deletions by
    the application, of callbacks that are neither armed nor fetched, is a run of
    the abstract handler with the same registrations, whose pending ones are the
    armed and the fetched ones; hence each call of a [done] answers a
    registration of its own, with the same socket, and no registration is called
    twice.  (Two workers share one event buffer, and then a registration can be
    called twice: [shared_event_buffer_race].) *)
Theorem handler_keeps_contract l h :
  traced l h ->
  bag_runs (mjoin (registers <$> l)) (mkBag (held h) (calls2 (calls h))) /\
  calls2 (calls h) ++ held h ⊆+ mjoin (registers <$> l).
Proof.
  intros Ht.
  assert (bag_runs (mjoin (registers <$> l)) (mkBag (held h) (calls2 (calls h)))) as H.
  { induction Ht as [|l h a h' Ht IH Ha He]; [constructor|].
    rewrite fmap_app, join_app. simpl.
    change (mjoin [registers a]) with (registers a ++ []). rewrite app_nil_r.
    apply (runs_account _ a h h' IH). apply exec_accounts; [by eapply traced_ok|done|done]. }
  split; [done|]. exact (bag_accounts _ _ H).
Qed.

(** A registration whose event is reported is called: the other half of "exactly
    once", for a worker that is idle. *)
Lemma reported_is_called h soc r cb ev err script :
  handler_ok h -> workers h = [WWait] -> epoll h !! soc = Some r -> r_armed r = true ->
  reported (r_events r) ev <> 0%N -> heap h !! r_cb r = Some cb -> cb_bound cb = BMonitorSocketReady -> AcceptErr EAGAIN ∈ script -> 0 < length (_events h) ->
  exists h', run [AWait 0 [(soc, ev)]; AHandle 0 err script] h = Done tt h' /\
    calls h' = calls h ++ [CallBack2 (cb_done cb) (cb_soc cb) (socket_ready (reported (r_events r) ev) err)].
Proof.
  intros Hok Hw Hr Har Hev Hcb Hb Hs Hlen.
  unfold run, exec, epoll_wait. unM. rewrite Hw. simpl. rewrite Hr, Har. simpl.
  rewrite (proj2 (N.eqb_neq _ _) Hev), (proj2 (Nat.ltb_lt _ _) Hlen). simpl. unfold handle_event. unM. simpl.
  rewrite list_lookup_insert_eq by done. simpl. unfold run_callback, MonitorSocketReady. unM. simpl.
  rewrite Hcb, Hb. simpl. unfold delete_callback. unM. simpl.
  destruct (_delete_after_run cb); simpl; rewrite ?Hcb; by eexists.
Qed.

(** Two sockets are monitored; the event of one is reported. *)
Definition after (a : action) (h : handler) : handler := default h (out_state (exec a h)).

Definition m1 : action := AMonitor EPOLL_CTL_ADD 5 EPOLLIN 1 DELETE_AFTER_CALLING.
Definition m2 : action := AMonitor EPOLL_CTL_ADD 6 EPOLLOUT 2 DO_NOTHING.
Definition w1 : action := AWait 0 [(6%Z, EPOLLOUT)].
Definition e1 : action := AHandle 0 0 [AcceptErr EAGAIN].

Lemma two_monitors :
  traced [m1; m2; w1; e1] (after e1 (after w1 (after m2 (after m1 (new 1))))).
Proof.
  apply (traced_snoc [m1; m2; w1] (after w1 (after m2 (after m1 (new 1)))));
    [|apply list_elem_of_here|left; reflexivity].
  apply (traced_snoc [m1; m2] (after m2 (after m1 (new 1)))); [|exact I|left; reflexivity].
  apply (traced_snoc [m1] (after m1 (new 1))); [|discriminate|left; reflexivity].
  apply (traced_snoc [] (new 1)); [constructor|discriminate|left; reflexivity].
Qed.

Lemma handler_keeps_contract_witness : exists h,
  calls2 (calls h) = [(2%N, 6%Z)] /\ calls2 (calls h) ++ held h ⊆+ [(1%N, 5%Z); (2%N, 6%Z)].
Proof.
  exists (after e1 (after w1 (after m2 (after m1 (new 1))))).
  split; [reflexivity|].
  apply (handler_keeps_contract [m1; m2; w1; e1]). exact two_monitors.
Defined.

End CommContract.
