(* ===== verification/Describe.v ===== *)
(** * The Describe functions (job.h, multiqueue.hh, throttler.hh, proxy_dstage.cc)

    Every component prints its state for the log.  [std::to_string] of a number
    is stdpp's [pretty] (decimal, no leading zeros, a dash for negatives).  What
    a printed line promises its reader is that it says which state was printed:
    a printer is *self delimiting* when a text that starts with its output
    determines both what was printed and the rest.  The combinators below prove
    this compositionally, and [multiqueue_describe_faithful] obtains it for the
    whole of MultiQueue<T>::Describe. *)

From Stdlib Require Import Ascii.
From stdpp Require Import prelude gmap list pretty.
From S2P Require Import Prelude Synchronization Job BaseMultiQueue MultiQueue.
From S2P Require Import Throttler ProxyPipe CommHandler.

Module Describe.

Import MQ TcpPipe.

Open Scope string_scope.

#[local] Arguments String.append !_ _ / : simpl nomatch.

(** [std::to_string(unsigned)] and [std::to_string(int)]. *)
Abbreviation to_string := pretty (only parsing).

(** An [std::ostringstream] after a loop that writes [f x] for each element. *)
Fixpoint stream {A} (f : A -> string) (l : list A) : string :=
  match l with
  | [] => ""
  | x :: l' => f x +:+ stream f l'
  end.

(** ** Job<T>::Describe

    [now] is what high_resolution_clock::now() returns, in nanoseconds as
    [start_time] is; duration_cast truncates towards zero. *)
Definition job_Describe {T} (now : Z) (j : Job T) : string :=
  "job_id=" +:+ to_string (job_id j) +:+ " prio=" +:+ to_string (priority j) +:+
  " duration=" +:+ to_string (Z.quot (now - start_time j) 1000000) +:+ "ms".

(** ** MultiQueue<T> *)

Section Queue.
Context {T : Type}.

Definition describe_id (id : N) : string := "j" +:+ to_string id +:+ "<-".

Definition describe_ids (prio : N) (ids : list N) : string :=
  "prio=" +:+ to_string prio +:+ "(" +:+ stream describe_id ids +:+ ")".

Definition DescribeQ (mq : @MultiQueue T) (prio : N) : option string :=
  q ← vec_get (_priority_qs mq) prio;
  Some (describe_ids prio q.*2).

Definition describe_item (item : Job T * N) : string :=
  "p" +:+ to_string (priority item.1) +:+ ",".

Definition describe_entry (entry : N * list (Job T * N)) : string :=
  "j" +:+ to_string entry.1 +:+ "(" +:+ stream describe_item entry.2 +:+ ") ".

(** [_value_mapper] is an std::unordered_map: [order] is the sequence in which
    it is iterated, one of the permutations of its entries. *)
Definition DescribeMapper (order : list (N * list (Job T * N))) : string :=
  "mapper={" +:+ stream describe_entry order +:+ "}".

(** The loop over [i < _priority_qs.size()]; [None] is an index out of range. *)
Fixpoint describe_queues (mq : @MultiQueue T) (i : N) (n : nat) : option string :=
  match n with
  | O => Some ""
  | S n' =>
      d ← DescribeQ mq i;
      rest ← describe_queues mq (i + 1) n';
      Some (d +:+ " " +:+ rest)
  end.

Definition mq_Describe (order : list (N * list (Job T * N))) (mq : @MultiQueue T) :
    option string :=
  qs ← describe_queues mq 0 (length (_priority_qs mq));
  Some (qs +:+ "while " +:+ DescribeMapper order).

End Queue.

(** ** Throttler<T>::Describe *)
Definition throttler_Describe (t : Throttler.Throttler) : string :=
  "Jobs_Scheduled=(" +:+
  stream (fun c : Z => to_string c +:+ "_")
    [Throttler.at0 (Throttler._scheduled_counts t);
     Throttler.at1 (Throttler._scheduled_counts t)] +:+ ") ".

(** ** TcpPipe::Describe

    [show_ptr] is what the stream prints for a pointer, which the language
    leaves to the implementation. *)
Section Pipe.
Context (show_ptr : option N -> string).

Definition describe_half (h : option HalfPipe) : string :=
  match h with
  | Some h' =>
      match connection h' with
      | Some c => to_string (Connection.Socket c)
      | None => "?"
      end
  | None => "?"
  end.

Definition pipe_Describe (p : TcpPipe) : string :=
  "client_socket=" +:+ describe_half (pipe_in p) +:+
  " server_socket=" +:+ describe_half (pipe_out p) +:+
  " first_cb=" +:+ show_ptr (first_cb p) +:+
  " second_cb=" +:+ show_ptr (second_cb p).

End Pipe.

(** ** LinuxCommunicationHandler::PrintEpollEvents

    Each flag is printed as the value of the masked bit. *)
Definition EPOLLET : N := 2147483648.
Definition EPOLLWAKEUP : N := 536870912.

Definition print_flags (masked : N -> N) : string :=
  let flag (name : string) (mask : N) := name +:+ to_string (masked mask) in
  flag "Events: EPOLLIN=" CommHandler.EPOLLIN +:+ flag " EPOLLOUT=" CommHandler.EPOLLOUT +:+
  flag " EPOLLRDHUP=" CommHandler.EPOLLRDHUP +:+ flag " EPOLLPRI=" CommHandler.EPOLLPRI +:+
  flag " EPOLLERR=" CommHandler.EPOLLERR +:+ flag " EPOLLHUP=" CommHandler.EPOLLHUP +:+
  flag " EPOLLET=" EPOLLET +:+ flag " EPOLLONESHOT=" CommHandler.EPOLLONESHOT +:+
  flag " EPOLLWAKEUP=" EPOLLWAKEUP.

Definition PrintEpollEvents (events : N) : string :=
  print_flags (fun mask => N.land mask events).

(** ** Self-delimiting printers *)

Definition delimits {A} (f : A -> string) : Prop :=
  forall a b s t, f a +:+ s = f b +:+ t -> a = b /\ s = t.

(** The characters of a printed number: the digits and the dash. *)
Definition digit (c : ascii) : bool :=
  let n := N_of_ascii c in ((48 <=? n) && (n <=? 57) || (n =? 45))%N.

Fixpoint digits (s : string) : bool :=
  match s with
  | EmptyString => true
  | String c s' => digit c && digits s'
  end.

(** The text does not go on with another such character. *)
Definition stops (s : string) : Prop :=
  match s with
  | EmptyString => True
  | String c _ => digit c = false
  end.

Lemma app_assoc_str (a b c : string) : (a +:+ b) +:+ c = a +:+ b +:+ c.
Proof. induction a as [|x a IH]; [done|]. simpl. f_equal. exact IH. Qed.

Lemma digit_char x : digit (pretty_N_char x) = true.
Proof. unfold pretty_N_char. by repeat case_match. Qed.

Lemma digits_go x s : digits s = true -> digits (pretty_N_go x s) = true.
Proof.
  revert s. induction (N.lt_wf_0 x) as [x _ IH]; intros s Hs.
  assert (x = 0 \/ 0 < x)%N as [->|Hx] by lia; [done|].
  rewrite pretty_N_go_step by done. apply IH; [by apply N.div_lt|].
  simpl. by rewrite digit_char.
Qed.

Lemma digits_pretty (x : N) : digits (pretty x) = true.
Proof. unfold pretty, pretty_N. case_decide; [done|]. by apply digits_go. Qed.

Lemma digits_split a b s t :
  digits a = true -> digits b = true -> stops s -> stops t ->
  a +:+ s = b +:+ t -> a = b /\ s = t.
Proof.
  revert b. induction a as [|x a IH]; intros [|y b] Ha Hb Hs Ht E; simpl in *.
  - done.
  - subst s. simpl in Hs. rewrite Hs in Hb. done.
  - subst t. simpl in Ht. rewrite Ht in Ha. done.
  - apply andb_prop in Ha as [_ Ha]. apply andb_prop in Hb as [_ Hb].
    injection E as -> E. destruct (IH b Ha Hb Hs Ht E) as [-> ->]. done.
Qed.

(** A number delimits itself as soon as something other than a digit follows. *)
Lemma number_split (x y : N) s t :
  stops s -> stops t -> pretty x +:+ s = pretty y +:+ t -> x = y /\ s = t.
Proof.
  intros Hs Ht E.
  destruct (digits_split _ _ _ _ (digits_pretty x) (digits_pretty y) Hs Ht E) as [E' ->].
  split; [|done]. by apply (inj pretty).
Qed.

Lemma digits_pretty_Z (x : Z) : digits (pretty x) = true.
Proof.
  destruct x as [|p|p]; [done|apply (digits_pretty (Npos p))|].
  apply (digits_pretty (Npos p)).
Qed.

Lemma integer_split (x y : Z) s t :
  stops s -> stops t -> pretty x +:+ s = pretty y +:+ t -> x = y /\ s = t.
Proof.
  intros Hs Ht E.
  destruct (digits_split _ _ _ _ (digits_pretty_Z x) (digits_pretty_Z y) Hs Ht E)
    as [E' ->].
  split; [|done]. by apply (inj pretty).
Qed.

Lemma pretty_go_cons x c s : exists d r, pretty_N_go x (String c s) = String d r.
Proof.
  revert c s. induction (N.lt_wf_0 x) as [x _ IH]; intros c s.
  assert (x = 0 \/ 0 < x)%N as [->|Hx] by lia; [by do 2 eexists|].
  rewrite pretty_N_go_step by done. by apply IH, N.div_lt.
Qed.

Lemma pretty_cons (x : N) : exists d r, pretty x = String d r.
Proof.
  unfold pretty, pretty_N. case_decide; [by do 2 eexists|].
  rewrite pretty_N_go_step by lia. apply pretty_go_cons.
Qed.

Lemma pretty_Z_head (z : Z) : exists d r, pretty z = String d r /\ digit d = true.
Proof.
  assert (exists d r, pretty z = String d r) as (d & r & E).
  { destruct z as [|p|p]; [by do 2 eexists|apply (pretty_cons (Npos p))|by do 2 eexists]. }
  exists d, r. split; [done|]. pose proof (digits_pretty_Z z) as H. rewrite E in H.
  by apply andb_prop in H as [H _].
Qed.

(** A loop delimits itself when its elements do, and the character after it
    starts no element. *)
Lemma stream_split {A} (f : A -> string) (c : ascii) :
  delimits f -> (forall a s t, f a +:+ s <> String c t) ->
  forall l m s t, stream f l +:+ String c s = stream f m +:+ String c t ->
    l = m /\ s = t.
Proof.
  intros Hf Hc l. induction l as [|a l IH]; intros [|b m] s t E; simpl in E.
  - by injection E.
  - rewrite app_assoc_str in E. by destruct (Hc _ _ _ (eq_sym E)).
  - rewrite app_assoc_str in E. by destruct (Hc _ _ _ E).
  - rewrite !app_assoc_str in E. destruct (Hf _ _ _ _ E) as [-> E'].
    destruct (IH m s t E') as [-> ->]. done.
Qed.

(** ** What each printed part determines *)

Lemma stream_fmap {A B} (g : A -> B) (f : B -> string) l :
  stream f (g <$> l) = stream (fun a => f (g a)) l.
Proof. induction l as [|a l IH]; [done|]. rewrite fmap_cons. simpl. by rewrite IH. Qed.

(** Literals on both sides cancel, a number and the literal after it cancel. *)
Ltac cancel_literal E :=
  repeat first [rewrite app_assoc_str in E | progress simpl in E]; repeat (injection E as E).

Ltac cancel_number E :=
  let Hn := fresh in
  (apply number_split in E as [Hn E] || apply integer_split in E as [Hn E]);
  [|done|done]; simpl in Hn;
  try subst; cancel_literal E.

Lemma describe_id_delimits : delimits describe_id.
Proof. intros a b s t E. unfold describe_id in E. cancel_literal E. by cancel_number E. Qed.

Lemma describe_ids_split p p' ids ids' s t :
  describe_ids p ids +:+ s = describe_ids p' ids' +:+ t -> (p, ids) = (p', ids') /\ s = t.
Proof.
  intros E. unfold describe_ids in E. cancel_literal E. cancel_number E.
  apply stream_split in E as [-> E]; [by cancel_literal E|apply describe_id_delimits|done].
Qed.

(** What the mapper's line shows of an entry: the id and the priorities of the
    duplicates filed under it. *)
Definition shown {T} (e : N * list (Job T * N)) : N * list N :=
  (e.1, (fun it => priority it.1) <$> e.2).

Definition show_prio (p : N) : string := "p" +:+ pretty p +:+ ",".

Definition show_entry (e : N * list N) : string :=
  "j" +:+ pretty e.1 +:+ "(" +:+ stream show_prio e.2 +:+ ") ".

Lemma describe_entry_shown {T} (e : N * list (Job T * N)) :
  describe_entry e = show_entry (shown e).
Proof. unfold describe_entry, show_entry, shown. simpl. by rewrite stream_fmap. Qed.

Lemma show_prio_delimits : delimits show_prio.
Proof. intros a b s t E. unfold show_prio in E. cancel_literal E. by cancel_number E. Qed.

Lemma show_entry_delimits : delimits show_entry.
Proof.
  intros [i l] [j m] s t E. unfold show_entry in E. cancel_literal E. cancel_number E.
  apply stream_split in E as [-> E]; [by cancel_literal E|apply show_prio_delimits|done].
Qed.

Lemma DescribeMapper_inj {T} (o o' : list (N * list (Job T * N))) :
  DescribeMapper o = DescribeMapper o' -> shown <$> o = shown <$> o'.
Proof.
  assert (Hs : forall l : list (N * list (Job T * N)),
    stream describe_entry l = stream show_entry (shown <$> l)).
  { intros l. rewrite stream_fmap. induction l as [|e l IH]; [done|].
    cbn [stream]. by rewrite IH, describe_entry_shown. }
  unfold DescribeMapper. rewrite !Hs. intros E. cancel_literal E.
  apply stream_split in E as [E _]; [done|apply show_entry_delimits|done].
Qed.

(** The throttler's line shows both counts, a job's line its id, its priority
    and how many whole milliseconds it has lived. *)
Lemma throttler_Describe_inj t t' :
  throttler_Describe t = throttler_Describe t' ->
  Throttler._scheduled_counts t = Throttler._scheduled_counts t'.
Proof.
  unfold throttler_Describe. intros E.
  destruct (Throttler._scheduled_counts t) as [a b], (Throttler._scheduled_counts t') as [a' b'].
  cancel_literal E. cancel_number E. by cancel_number E.
Qed.

Lemma job_Describe_inj {T} now now' (j j' : Job T) :
  job_Describe now j = job_Describe now' j' ->
  job_id j = job_id j' /\ priority j = priority j' /\
  Z.quot (now - start_time j) 1000000 = Z.quot (now' - start_time j') 1000000.
Proof.
  unfold job_Describe. intros E. cancel_literal E.
  apply number_split in E as [Hi E]; [|done..]. cancel_literal E.
  apply number_split in E as [Hp E]; [|done..]. cancel_literal E.
  by apply integer_split in E as [Hd _].
Qed.

(** A half pipe prints its socket, or a question mark for one that has none. *)
Lemma describe_half_socket h :
  describe_half h =
    match Connection.Socket <$> conn_of h with Some z => pretty z | None => "?" end.
Proof. by destruct h as [[[c|]]|]. Qed.

Lemma integer_not_unknown (z : Z) s t : pretty z +:+ s <> String "?"%char t.
Proof.
  intros E. destruct (pretty_Z_head z) as (d & r & Ez & Hd).
  rewrite Ez in E. injection E as -> _. done.
Qed.

Lemma describe_half_split h h' s t :
  stops s -> stops t -> describe_half h +:+ s = describe_half h' +:+ t ->
  Connection.Socket <$> conn_of h = Connection.Socket <$> conn_of h' /\ s = t.
Proof.
  intros Hs Ht. rewrite !describe_half_socket.
  destruct (Connection.Socket <$> conn_of h) as [z|],
    (Connection.Socket <$> conn_of h') as [z'|]; intros E.
  - apply integer_split in E as [-> ->]; done.
  - by destruct (integer_not_unknown z s t).
  - by destruct (integer_not_unknown z' t s).
  - by injection E.
Qed.

Lemma pipe_Describe_sockets show_ptr p p' :
  pipe_Describe show_ptr p = pipe_Describe show_ptr p' ->
  Connection.Socket <$> conn_of (pipe_in p) = Connection.Socket <$> conn_of (pipe_in p') /\
  Connection.Socket <$> conn_of (pipe_out p) = Connection.Socket <$> conn_of (pipe_out p').
Proof.
  unfold pipe_Describe. intros E. cancel_literal E.
  apply describe_half_split in E as [Hi E]; [|done..]. cancel_literal E.
  by apply describe_half_split in E as [Ho _].
Qed.

(** The line of PrintEpollEvents shows every flag it names. *)
Definition named_flags : list N :=
  [CommHandler.EPOLLIN; CommHandler.EPOLLOUT; CommHandler.EPOLLRDHUP; CommHandler.EPOLLPRI;
   CommHandler.EPOLLERR; CommHandler.EPOLLHUP; EPOLLET; CommHandler.EPOLLONESHOT; EPOLLWAKEUP].

Lemma print_flags_inj v v' :
  print_flags v = print_flags v' -> Forall (fun mask => v mask = v' mask) named_flags.
Proof.
  unfold print_flags. intros E. cancel_literal E.
  do 8 (let Hn := fresh in apply number_split in E as [Hn E]; [|done..]; cancel_literal E).
  apply (inj pretty) in E. by repeat constructor.
Qed.

Lemma PrintEpollEvents_inj e e' :
  PrintEpollEvents e = PrintEpollEvents e' ->
  Forall (fun mask => N.land mask e = N.land mask e') named_flags.
Proof. apply print_flags_inj. Qed.

(** ** The whole of MultiQueue<T>::Describe *)

Section Faithful.
Context {T : Type}.
Implicit Types mq : @MultiQueue T.

Definition show_queue (e : N * list N) : string := describe_ids e.1 e.2 +:+ " ".

Lemma show_queue_delimits : delimits show_queue.
Proof.
  intros [p l] [p' l'] s t E. unfold show_queue in E. cbn [fst snd] in E.
  rewrite !app_assoc_str in E. apply describe_ids_split in E as [-> E].
  by cancel_literal E.
Qed.

(** The queues' ids, each queue with its index. *)
Fixpoint numbered (i : N) (qs : list (list (N * N))) : list (N * list N) :=
  match qs with
  | [] => []
  | q :: qs' => (i, q.*2) :: numbered (i + 1) qs'
  end.

Lemma numbered_inj i qs qs' :
  numbered i qs = numbered i qs' -> (fun q => q.*2) <$> qs = (fun q => q.*2) <$> qs'.
Proof.
  revert i qs'. induction qs as [|q qs IH]; intros i [|q' qs'] E; try done.
  injection E as Eq E. rewrite !fmap_cons. f_equal; [done|]. by eapply IH.
Qed.

Lemma describe_queues_stream mq n i :
  N.to_nat i + n = length (_priority_qs mq) ->
  describe_queues mq i n =
    Some (stream show_queue (numbered i (drop (N.to_nat i) (_priority_qs mq)))).
Proof.
  revert i. induction n as [|n IH]; intros i Hi; simpl.
  { by rewrite drop_ge by lia. }
  destruct (vec_get_lt (_priority_qs mq) i) as [q Hq]; [lia|].
  unfold DescribeQ. rewrite Hq. cbn [mbind option_bind]. rewrite (IH (i + 1)%N) by lia.
  replace (N.to_nat (i + 1)) with (S (N.to_nat i)) by lia.
  rewrite (drop_S (_priority_qs mq) q (N.to_nat i)) by exact Hq.
  cbn [mbind option_bind numbered stream]. unfold show_queue at 2.
  by rewrite app_assoc_str.
Qed.

Lemma mq_Describe_text o mq :
  mq_Describe o mq =
    Some (stream show_queue (numbered 0 (_priority_qs mq)) +:+ "while " +:+ DescribeMapper o).
Proof. unfold mq_Describe. by rewrite describe_queues_stream. Qed.

(** What the log shows of the mapper: the priorities filed under each id. *)
Definition filed (vm : gmap N (list (Job T * N))) : gmap N (list N) :=
  fmap (fun l : list (Job T * N) => (fun it => priority it.1) <$> l) vm.

Lemma filed_order o (vm : gmap N (list (Job T * N))) :
  o ≡ₚ map_to_list vm -> list_to_map (shown <$> o) = filed vm.
Proof.
  intros Ho. unfold filed. rewrite <-(list_to_map_to_list vm), <-list_to_map_fmap.
  apply list_to_map_proper.
  - rewrite <-list_fmap_compose. rewrite Ho. apply NoDup_fst_map_to_list.
  - rewrite Ho. done.
Qed.

(** C40. The log line of a multi-queue can be read back: MultiQueue<T>::Describe
    returns a text for every state and every order in which the hash map is
    iterated, and two states that print the same text have the same ids in the
    same order in every priority's queue and, under every job id, duplicates of
    the same priorities filed in the same order. *)
Theorem multiqueue_describe_faithful mq mq' (o o' : list (N * list (Job T * N))) :
  o ≡ₚ map_to_list (_value_mapper mq) -> o' ≡ₚ map_to_list (_value_mapper mq') ->
  (exists text, mq_Describe o mq = Some text) /\
  (mq_Describe o mq = mq_Describe o' mq' ->
    (fun q => q.*2) <$> _priority_qs mq = (fun q => q.*2) <$> _priority_qs mq' /\
    filed (_value_mapper mq) = filed (_value_mapper mq')).
Proof.
  intros Ho Ho'. rewrite !mq_Describe_text. split; [by eexists|]. intros [= E].
  apply stream_split in E as [Eq E]; [|apply show_queue_delimits|done].
  split; [by eapply numbered_inj|]. cancel_literal E.
  rewrite <-(filed_order o), <-(filed_order o') by done.
  f_equal. apply DescribeMapper_inj. unfold DescribeMapper. by rewrite E.
Qed.

End Faithful.

(** A queue with two duplicates of job 7 and one of job 12 beside an equal one
    whose nodes and start times differ. *)
Definition sample (node0 : N) (t : Z) : @MultiQueue unit :=
  mkMultiQueue 1 false [false; false]
    [[(node0, 7%N)]; [(node0 + 1, 12); (node0 + 2, 7)]%N] [false; false]
    (list_to_map
      [(7%N, [(mkJob 7 0 1 t tt, node0); (mkJob 7 1 1 t tt, node0 + 2)%N]);
       (12%N, [(mkJob 12 1 1 t tt, node0 + 1)%N])]) (node0 + 3).

Definition sample_order (node0 : N) (t : Z) : list (N * list (Job unit * N)) :=
  map_to_list (_value_mapper (sample node0 t)).

Example sample_text :
  mq_Describe (sample_order 0 5) (sample 0 5) =
    Some "prio=0(j7<-) prio=1(j12<-j7<-) while mapper={j12(p1,) j7(p0,p1,) }".
Proof. vm_compute. reflexivity. Qed.

Lemma multiqueue_describe_faithful_witness :
  (exists text, mq_Describe (sample_order 0 5) (sample 0 5) = Some text) /\
  filed (_value_mapper (sample 0 5)) = filed (_value_mapper (sample 9 6)).
Proof.
  destruct (multiqueue_describe_faithful (sample 0 5) (sample 9 6)
    (sample_order 0 5) (sample_order 9 6)) as [Ht Hs]; [reflexivity..|].
  split; [exact Ht|]. apply Hs. vm_compute. reflexivity.
Defined.

End Describe.
