(* ===== verification/Proxy.v ===== *)
(** * The proxy's scheduler (ProxyScheduler of common/dstage/proxy_dstage.cc and
      ReceivedConnection of dans_throttling_proxy.cc and dans_proxy.cc)

    One proxied job: its pipe, the callbacks it has registered with the
    communication handler, the events whose callbacks the handler's worker has
    fetched and not yet run, the tasks its wrappers have submitted to the worker
    Executor, and the statements that a thread has still to execute after it has
    published a callback's pointer: the assignments of that pointer to [first_cb]
    and [second_cb], and their deletion.  Between those, ReceivedConnection,
    StartScheduling and the callbacks are atomic; the kernel's answers are
    arguments. *)

From stdpp Require Import prelude gmap list strings.
From S2P Require Import Prelude Synchronization Job BaseMultiQueue JobTypes.
From S2P Require Import ProxyPipe ThrottlerStats CommHandler.

Module Proxy.
Import Connection TcpPipe.

(** The callbacks of a job: the application's lambda of ReceivedConnection and
    the three wrappers. *)
Inductive cb_kind : Type := KFirst | KConnect | KMonitor | KCliClosed.

#[export] Instance cb_kind_eq_dec : EqDecision cb_kind.
Proof. solve_decision. Defined.

(** An armed registration: what it runs, whether it asks for input, and the
    callback's pointer. *)
Record preg := mkPreg { pr_kind : cb_kind; pr_in : bool; pr_ptr : N }.

(** A closure submitted to [_worker_exec] (or, for [KFirst], to the
    application's executor). *)
Record task := mkTask { tk_kind : cb_kind; tk_soc : Z; tk_ready : ReadyFor }.

(** An event that epoll_wait has returned, with the callback pointer of the
    registration it disarmed: it waits in the worker's buffer. *)
Record fetched_event := mkFetched { fe_reg : preg; fe_soc : Z; fe_ready : ReadyFor }.

(** What a thread has still to do: [first_cb = MonitorNew(...)] of
    ReceivedConnection and [second_cb = Monitor(...)] of StartScheduling once the
    right-hand side has registered the callback at [ptr], and the two blocks that
    delete a callback. *)
Inductive pstep : Type :=
| AssignFirst (ptr : N)
| AssignSecond (ptr : N)
| DeleteFirst
| DeleteSecond.

#[export] Instance pstep_eq_dec : EqDecision pstep.
Proof. solve_decision. Defined.

(** A ThrottleJob over a pipe. *)
Record proxy_job := mkProxyJob {
  pj_id : N;
  pj_priority : N;
  pj_pipe : TcpPipe;
  pj_total : N
}.

Record pworld := mkPworld {
  pw_job : proxy_job;
  pw_calls : list syscall;
  regs : gmap Z preg;
  fetched : list fetched_event;
  pending : list pstep;
  live : gset N;
  next_ptr : N;
  connects : list (string * string);
  tasks : list task;
  moved : list (Z * Z)
}.

Definition set_job (j : proxy_job) (w : pworld) : pworld :=
  mkPworld j (pw_calls w) (regs w) (fetched w) (pending w) (live w) (next_ptr w) (connects w)
    (tasks w) (moved w).

Definition set_pipe (x : TcpPipe) (w : pworld) : pworld :=
  set_job (mkProxyJob (pj_id (pw_job w)) (pj_priority (pw_job w)) x (pj_total (pw_job w))) w.

Definition set_total (n : N) (w : pworld) : pworld :=
  set_job (mkProxyJob (pj_id (pw_job w)) (pj_priority (pw_job w)) (pj_pipe (pw_job w)) n) w.

Definition set_calls (l : list syscall) (w : pworld) : pworld :=
  mkPworld (pw_job w) l (regs w) (fetched w) (pending w) (live w) (next_ptr w) (connects w)
    (tasks w) (moved w).

Definition set_regs (m : gmap Z preg) (w : pworld) : pworld :=
  mkPworld (pw_job w) (pw_calls w) m (fetched w) (pending w) (live w) (next_ptr w) (connects w)
    (tasks w) (moved w).

Definition set_fetched (l : list fetched_event) (w : pworld) : pworld :=
  mkPworld (pw_job w) (pw_calls w) (regs w) l (pending w) (live w) (next_ptr w) (connects w)
    (tasks w) (moved w).

Definition set_pending (l : list pstep) (w : pworld) : pworld :=
  mkPworld (pw_job w) (pw_calls w) (regs w) (fetched w) l (live w) (next_ptr w) (connects w)
    (tasks w) (moved w).

Definition set_live (s : gset N) (w : pworld) : pworld :=
  mkPworld (pw_job w) (pw_calls w) (regs w) (fetched w) (pending w) s (next_ptr w) (connects w)
    (tasks w) (moved w).

Definition set_tasks (l : list task) (w : pworld) : pworld :=
  mkPworld (pw_job w) (pw_calls w) (regs w) (fetched w) (pending w) (live w) (next_ptr w)
    (connects w) l (moved w).

Definition add_connect (x : string * string) (w : pworld) : pworld :=
  mkPworld (pw_job w) (pw_calls w) (regs w) (fetched w) (pending w) (live w) (next_ptr w)
    (connects w ++ [x]) (tasks w) (moved w).

(** Bytes sent, each with the descriptor it was sent to. *)
Definition add_moved (bytes : list (Z * Z)) (w : pworld) : pworld :=
  mkPworld (pw_job w) (pw_calls w) (regs w) (fetched w) (pending w) (live w) (next_ptr w)
    (connects w) (tasks w) (moved w ++ bytes).

(** The rest of what the current thread does. *)
Definition later (p : pstep) : M pworld unit :=
  modify (fun w => set_pending (pending w ++ [p]) w).

(** [_comm_interface->Monitor]: a new callback replaces the registration of the
    socket; the pointer is returned. *)
Definition monitor (soc : Z) (rf_in : bool) (kind : cb_kind) : M pworld N :=
  _ ← CHECK (0 <=? soc)%Z;
  w ← get;
  _ ← modify (fun w => mkPworld (pw_job w) (pw_calls w)
        (<[soc := mkPreg kind rf_in (next_ptr w)]> (regs w)) (fetched w) (pending w)
        ({[next_ptr w]} ∪ live w) (next_ptr w + 1) (connects w) (tasks w) (moved w));
  mret (next_ptr w).

(** [delete ptr]. *)
Definition free (ptr : N) : M pworld unit :=
  w ← get;
  if decide (ptr ∈ live w) then modify (set_live (live w ∖ {[ptr]})) else crash UseAfterFree.

Definition submit (kind : cb_kind) (soc : Z) (ready_for : ReadyFor) : M pworld unit :=
  modify (fun w => set_tasks (tasks w ++ [mkTask kind soc ready_for]) w).

Definition pipe_of (w : pworld) : TcpPipe := pj_pipe (pw_job w).

Definition socket_in : M pworld Z :=
  w ← get;
  c ← need NullDeref (conn_of (pipe_in (pipe_of w)));
  mret (Socket c).

Definition socket_out : M pworld Z :=
  w ← get;
  c ← need NullDeref (conn_of (pipe_out (pipe_of w)));
  mret (Socket c).

Definition with_first (x : option N) (p : TcpPipe) : TcpPipe :=
  mkTcpPipe (pipe_in p) (pipe_out p) x (second_cb p).

Definition with_second (x : option N) (p : TcpPipe) : TcpPipe :=
  mkTcpPipe (pipe_in p) (pipe_out p) (first_cb p) x.

Definition with_out (x : option HalfPipe) (p : TcpPipe) : TcpPipe :=
  mkTcpPipe (pipe_in p) x (first_cb p) (second_cb p).

Definition update (f : TcpPipe -> TcpPipe) : M pworld unit :=
  modify (fun w => set_pipe (f (pipe_of w)) w).

(** [job->job_data->ShutdownOther(soc)]. *)
Definition shutdown_other (soc : Z) : M pworld unit :=
  zoom (fun w => (pipe_of w, pw_calls w)) (fun x w => set_calls x.2 (set_pipe x.1 w))
    (ShutdownOther soc).

(** [if (cb != nullptr) { delete cb; cb = nullptr; }]. *)
Definition delete_first : M pworld unit :=
  w ← get;
  match first_cb (pipe_of w) with
  | Some ptr => _ ← free ptr; update (with_first None)
  | None => mret tt
  end.

Definition delete_second : M pworld unit :=
  w ← get;
  match second_cb (pipe_of w) with
  | Some ptr => _ ← free ptr; update (with_second None)
  | None => mret tt
  end.

(** ** The wrappers: they run in the communication handler's worker and hand the
    work to the executor *)

Definition ConnectCallbackWrapper (soc : Z) (ready_for : ReadyFor) : M pworld unit :=
  submit KConnect soc ready_for.

Definition MonitorCallbackWrapper (soc : Z) (ready_for : ReadyFor) : M pworld unit :=
  submit KMonitor soc ready_for.

Definition CliClosedCallbackWrapper (soc : Z) (ready_for : ReadyFor) : M pworld unit :=
  _ ← update (with_second None);
  submit KCliClosed soc ready_for.

(** The lambda of ReceivedConnection: [*memory_ptr = nullptr], then a Purge of
    the job's id is submitted. *)
Definition FirstCallback (soc : Z) (ready_for : ReadyFor) : M pworld unit :=
  _ ← update (with_first None);
  submit KFirst soc ready_for.

(** ** The callbacks *)

(** The deletion of [second_cb] at its end is a step of its own. *)
Definition ConnectCallback (soc : Z) (ready_for : ReadyFor) : M pworld unit :=
  w ← get;
  _ ← need NullDeref (pipe_out (pipe_of w));
  _ ← update (with_out (Some (mkHalfPipe (Some (Connection.new soc)))));
  if negb (rf_out ready_for) || negb (rf_err ready_for =? 0)%Z then shutdown_other soc
  else
    s_in ← socket_in;
    _ ← monitor s_in true KMonitor;
    s_out ← socket_out;
    _ ← monitor s_out true KMonitor;
    later DeleteSecond.

(** [x]: what read and send answer; [stack]: the buffer's first content. *)
Definition MonitorCallback (stack : list Z) (x : io) (soc : Z) (ready_for : ReadyFor) :
    M pworld unit :=
  if negb (rf_err ready_for =? 0)%Z then shutdown_other soc
  else if negb (rf_in ready_for) then shutdown_other soc
  else
    w0 ← get;
    match Pipe (pipe_of w0) soc stack x with
    | Crash e => crash e
    | Wait _ => block
    | Done bytes_piped x' =>
        _ ← modify (add_moved (drop (length (delivered x)) (delivered x')));
        if (bytes_piped <? 0)%Z && negb (bytes_piped =? - TRY_LATER)%Z then
          if (bytes_piped =? - soc)%Z then shutdown_other soc else mret tt
        else if (bytes_piped =? 0)%Z then shutdown_other soc
        else
          w ← get;
          _ ← modify (set_total (ThrottlerStats.ReportThroughput (pj_total (pw_job w))
                        (u32_of_Z bytes_piped)));
          _ ← monitor soc true KMonitor;
          mret tt
    end.

Definition CliClosedCallback (soc : Z) (ready_for : ReadyFor) : M pworld unit :=
  if negb (rf_err ready_for =? 0)%Z then shutdown_other soc
  else if negb (rf_in ready_for) then shutdown_other soc
  else mret tt.

Section Handlers.
(** The command-line flags. *)
Context (_server_ip _primary_prio_port_out _secondary_prio_port_out : string).

(** [_comm_interface->Connect]: CreateSocket returns [srv]; while the connection
    is in progress the socket is registered, otherwise [done] runs at once. *)
Definition connect (ip port : string) (srv : Z) (r : CommHandler.connect_result) :
    M pworld unit :=
  _ ← modify (add_connect (ip, port));
  match CommHandler.connect_now r with
  | Some ready => ConnectCallbackWrapper srv ready
  | None => _ ← monitor srv true KConnect; mret tt
  end.

(** The body of ProxyScheduler::StartScheduling for a dequeued job, up to the
    return of Monitor: the callback is registered, its pointer not yet stored. *)
Definition schedule_monitor : M pworld unit :=
  soc ← socket_in;
  ptr ← monitor soc false KCliClosed;
  later (AssignSecond ptr).

(** From the assignment to [second_cb] to the return of Connect; the deletion of
    [first_cb] follows. *)
Definition schedule_connect (ptr : N) (srv : Z) (r : CommHandler.connect_result) : M pworld unit :=
  _ ← update (with_second (Some ptr));
  _ ← update (with_out (Some (mkHalfPipe None)));
  w ← get;
  _ ← connect _server_ip
        (if (pj_priority (pw_job w) =? 0)%N then _primary_prio_port_out
         else _secondary_prio_port_out) srv r;
  later DeleteFirst.

(** A thread goes on; [srv] and [r] are what CreateSocket and connect answer. *)
Definition exec_step (i : nat) (srv : Z) (r : CommHandler.connect_result) : M pworld unit :=
  w ← get;
  match pending w !! i with
  | None => block
  | Some p =>
      _ ← modify (set_pending (delete i (pending w)));
      match p with
      | AssignFirst ptr => update (with_first (Some ptr))
      | AssignSecond ptr => schedule_connect ptr srv r
      | DeleteFirst => delete_first
      | DeleteSecond => delete_second
      end
  end.

(** ** What can happen to a job *)

Inductive pevent : Type :=
| PSchedule
| PStep (i : nat) (srv : Z) (r : CommHandler.connect_result)
| PFetch (soc : Z) (ready_for : ReadyFor)
| PHandle (i : nat)
| PRun (i : nat) (stack : list Z) (x : io).

(** epoll_wait reports an event of an armed socket: the registration is disarmed
    and its callback pointer is in the worker's buffer. *)
Definition fetch (soc : Z) (ready_for : ReadyFor) : M pworld unit :=
  w ← get;
  match regs w !! soc with
  | None => block
  | Some p =>
      _ ← modify (set_regs (delete soc (regs w)));
      modify (fun w => set_fetched (fetched w ++ [mkFetched p soc ready_for]) w)
  end.

(** The worker runs the callback of a fetched event, through the pointer: the
    wrapper, then [delete this]. *)
Definition handle (i : nat) : M pworld unit :=
  w ← get;
  match fetched w !! i with
  | None => block
  | Some f =>
      _ ← modify (set_fetched (delete i (fetched w)));
      let p := fe_reg f in
      _ ← (if decide (pr_ptr p ∈ live w) then mret tt else crash UseAfterFree);
      _ ← match pr_kind p with
          | KFirst => FirstCallback (fe_soc f) (fe_ready f)
          | KConnect => ConnectCallbackWrapper (fe_soc f) (fe_ready f)
          | KMonitor => MonitorCallbackWrapper (fe_soc f) (fe_ready f)
          | KCliClosed => CliClosedCallbackWrapper (fe_soc f) (fe_ready f)
          end;
      free (pr_ptr p)
  end.

(** A worker takes the [i]-th task.  The Purge that [KFirst] submits finds
    nothing once the job is scheduled; a job that it takes out of its queue is
    the subject of ProxyApp.v. *)
Definition run_task (i : nat) (stack : list Z) (x : io) : M pworld unit :=
  w ← get;
  match tasks w !! i with
  | None => block
  | Some t =>
      _ ← modify (set_tasks (delete i (tasks w)));
      match tk_kind t with
      | KFirst => mret tt
      | KConnect => ConnectCallback (tk_soc t) (tk_ready t)
      | KMonitor => MonitorCallback stack x (tk_soc t) (tk_ready t)
      | KCliClosed => CliClosedCallback (tk_soc t) (tk_ready t)
      end
  end.

Definition pexec (e : pevent) : M pworld unit :=
  match e with
  | PSchedule => schedule_monitor
  | PStep i srv r => exec_step i srv r
  | PFetch soc ready_for => fetch soc ready_for
  | PHandle i => handle i
  | PRun i stack x => run_task i stack x
  end.

(** A job in ReceivedConnection, right after MonitorNew has registered the
    callback that watches the client: the pointer is not yet in [first_cb], and
    the job is dispatched after that. *)
Definition received (id prio : N) (soc : Z) : pworld :=
  mkPworld
    (mkProxyJob id prio
       (mkTcpPipe (Some (mkHalfPipe (Some (Connection.new soc)))) None None None) 0)
    [] {[soc := mkPreg KFirst false 1]} [] [AssignFirst 1%N] {[1%N]} 2 [] [] [].

(** A run of events from a state, as far as all of them return. *)
Fixpoint pruns (es : list pevent) (w : pworld) : outcome pworld unit :=
  match es with
  | [] => Done tt w
  | e :: es' => (_ ← pexec e; pruns es') w
  end.

End Handlers.
End Proxy.
