(* ===== verification/ProxyLife.v ===== *)
(** * The life of a proxied job

    The callbacks of a job are allocated by Monitor and freed either by the
    epoll worker that runs them or by the scheduler through [first_cb] and
    [second_cb].  Both sides run without a lock between them: the examples at the
    end are the orders in which the code uses freed memory.  Outside of those, in
    every order in which the job's events are fetched and handled, its tasks run
    and its threads go on, nothing dangles, nothing is freed twice or lost, and
    the pipe makes at most one shutdown(2) call. *)

From stdpp Require Import prelude gmap list strings.
From S2P Require Import Prelude Synchronization Job BaseMultiQueue JobTypes.
From S2P Require Import ProxyPipe ThrottlerStats CommHandler Proxy.

Set Warnings "-clear-no-such-hyp".

Module ProxyLife.
Import Connection TcpPipe Proxy.

(** ** Who refers to a callback *)

Definition fe_ptr (f : fetched_event) : N := pr_ptr (fe_reg f).

(** A callback of kind [k] at [p] is registered with epoll, or fetched and not
    yet run. *)
Definition owns (m : gmap Z preg) (l : list fetched_event) (k : cb_kind) (p : N) : Prop :=
  (exists s r, m !! s = Some r /\ pr_kind r = k /\ pr_ptr r = p) \/
  (exists f, f ∈ l /\ pr_kind (fe_reg f) = k /\ fe_ptr f = p).

(** No pointer is referred to twice. *)
Record uniq (m : gmap Z preg) (l : list fetched_event) : Prop := mk_uniq {
  un_regs : forall s1 s2 r1 r2, m !! s1 = Some r1 -> m !! s2 = Some r2 ->
    pr_ptr r1 = pr_ptr r2 -> s1 = s2;
  un_fetched : NoDup (fe_ptr <$> l);
  un_apart : forall s r f, m !! s = Some r -> f ∈ l -> pr_ptr r <> fe_ptr f
}.

Lemma owns_reg m l s r : m !! s = Some r -> owns m l (pr_kind r) (pr_ptr r).
Proof. intros H. left. eauto. Qed.

Lemma owns_fetched m l f : f ∈ l -> owns m l (pr_kind (fe_reg f)) (fe_ptr f).
Proof. intros H. right. eauto. Qed.

(** Registering at [s]. *)
Lemma owns_insert_inv m l s k b nx k' p :
  owns (<[s := mkPreg k b nx]> m) l k' p -> (k' = k /\ p = nx) \/ owns m l k' p.
Proof.
  intros [(s' & r & [[<- <-]|[_ H]]%lookup_insert_Some & <- & <-)|H]; [by left| |].
  - right. by eapply owns_reg.
  - right. by right.
Qed.

Lemma owns_insert_old m l s r' k' p :
  owns m l k' p -> (forall r, m !! s = Some r -> pr_ptr r <> p) -> owns (<[s := r']> m) l k' p.
Proof.
  intros [(s' & r & H & Hk & <-)|H] Hne; [left; exists s', r|by right].
  split; [|done]. rewrite lookup_insert_ne; [done|]. intros ->. by eapply Hne.
Qed.

Lemma uniq_insert m l s k b nx :
  uniq m l -> (forall k' p, owns m l k' p -> (p < nx)%N) -> uniq (<[s := mkPreg k b nx]> m) l.
Proof.
  intros [U1 U2 U3] Hlt.
  assert (forall s r, m !! s = Some r -> nx <> pr_ptr r) as Hne.
  { intros s' r H ->. specialize (Hlt _ _ (owns_reg _ l _ _ H)). lia. }
  split; [|done|].
  - intros s1 s2 r1 r2 [[<- <-]|[_ H1]]%lookup_insert_Some [[<- <-]|[_ H2]]%lookup_insert_Some;
      simpl; [done|intros E; by destruct (Hne _ _ H2)|intros E; by destruct (Hne _ _ H1)|by apply U1].
  - intros s' r f [[<- <-]|[_ H]]%lookup_insert_Some Hf; [|by eapply U3]. simpl. intros ->.
    specialize (Hlt _ _ (owns_fetched m _ _ Hf)). lia.
Qed.

(** Fetching the event of [s]. *)
Lemma owns_fetch m l s r ready k p :
  m !! s = Some r ->
  owns (delete s m) (l ++ [mkFetched r s ready]) k p <-> owns m l k p.
Proof.
  intros Hs. unfold owns. split.
  - intros [(s' & r' & [_ H]%lookup_delete_Some & ?)|(f & [Hf| ->%list_elem_of_singleton]%elem_of_app & Hk)];
      [left; eauto|right; eauto|left; eauto].
  - intros [(s' & r' & H & Hk)|(f & Hf & Hk)]; [|right; exists f; set_solver].
    destruct (decide (s = s')) as [<-|Hne].
    + rewrite Hs in H. injection H as <-. right. exists (mkFetched r s ready). split; [set_solver|exact Hk].
    + left. exists s', r'. by rewrite lookup_delete_ne.
Qed.

Lemma uniq_fetch m l s r ready :
  uniq m l -> m !! s = Some r -> uniq (delete s m) (l ++ [mkFetched r s ready]).
Proof.
  intros [U1 U2 U3] Hs. split.
  - intros s1 s2 r1 r2 [_ H1]%lookup_delete_Some [_ H2]%lookup_delete_Some. by apply U1.
  - rewrite fmap_app, NoDup_app. split; [done|]. split; [|apply NoDup_singleton].
    intros p (f & -> & Hf)%list_elem_of_fmap Hp%list_elem_of_singleton.
    by destruct (U3 _ _ _ Hs Hf).
  - intros s' r' f [Hne H]%lookup_delete_Some [Hf| ->%list_elem_of_singleton]%elem_of_app;
      [by eapply U3|]. intros E. apply Hne. by eapply (U1 s s').
Qed.

(** Handling the [i]-th fetched event. *)
Lemma uniq_handle m l i f :
  uniq m l -> l !! i = Some f ->
  uniq m (delete i l) /\
  (forall k p, owns m (delete i l) k p <-> owns m l k p /\ p <> fe_ptr f).
Proof.
  intros [U1 U2 U3] Hi. pose proof (delete_Permutation _ _ _ Hi) as Hp.
  assert (f ∈ l) as Hf by (by eapply list_elem_of_lookup_2).
  rewrite Hp in U2. simpl in U2. apply NoDup_cons in U2 as [U2 U2'].
  assert (forall g, g ∈ delete i l -> fe_ptr g <> fe_ptr f) as Hne.
  { intros g Hg E. apply U2. rewrite <-E. by apply list_elem_of_fmap_2. }
  split; [split; [done..|]|].
  - intros s r g Hs Hg. eapply U3; [done|]. rewrite Hp. by right.
  - intros k p. unfold owns. split.
    + intros [(s & r & Hs & <- & <-)|(g & Hg & <- & <-)].
      * split; [left; eauto|]. by apply (U3 s).
      * split; [|by apply Hne]. right. exists g. rewrite Hp. set_solver.
    + intros [[H|(g & Hg & Hk & <-)] Hpf]; [by left|]. right. exists g. split; [|done].
      rewrite Hp in Hg. apply elem_of_cons in Hg as [->|Hg]; done.
Qed.

(** ** Allocated callbacks *)

(** [h1], [h2]: the pointers that [first_cb] and [second_cb] hold or are about to
    be assigned. *)
Record mem_ok (O : cb_kind -> N -> Prop) (h1 h2 : option N) (lv : gset N) (nx : N) : Prop :=
  mk_mem_ok {
  me_live : forall p, p ∈ lv <-> (exists k, O k p) \/ h1 = Some p \/ h2 = Some p;
  me_next : forall p, p ∈ lv -> (p < nx)%N;
  me_first : forall k p, O k p -> (h1 = Some p <-> k = KFirst);
  me_second : forall k p, O k p -> (h2 = Some p <-> k = KCliClosed);
  me_apart : forall p, h1 = Some p -> h2 <> Some p
}.

Lemma mem_ext (O O' : cb_kind -> N -> Prop) h1 h2 lv nx :
  mem_ok O h1 h2 lv nx -> (forall k p, O' k p <-> O k p) -> mem_ok O' h1 h2 lv nx.
Proof.
  intros [M1 M2 M3 M4 M5] E. split; try done.
  - intros p. rewrite M1. by setoid_rewrite E.
  - intros k p H%E. by apply M3.
  - intros k p H%E. by apply M4.
Qed.

Definition after_monitor (k : cb_kind) (nx : N) (h2 : option N) : option N :=
  if decide (k = KCliClosed) then Some nx else h2.

(** A new callback; one that it displaces is still held. *)
Lemma mem_register (O O' : cb_kind -> N -> Prop) h1 h2 lv nx k :
  mem_ok O h1 h2 lv nx -> k <> KFirst -> (k = KCliClosed -> h2 = None) -> O' k nx ->
  (forall k' p, O' k' p -> (k' = k /\ p = nx) \/ O k' p) ->
  (forall k' p, O k' p -> O' k' p \/ h1 = Some p \/ h2 = Some p) ->
  mem_ok O' h1 (after_monitor k nx h2) ({[nx]} ∪ lv) (nx + 1).
Proof.
  intros [M1 M2 M3 M4 M5] Hk Hh Hnew Hinv Hold. unfold after_monitor.
  assert (forall h, h = h1 \/ h = h2 -> h <> Some nx) as Hf.
  { intros h Hor ->. assert (nx ∈ lv) as H%M2 by (apply M1; naive_solver). lia. }
  assert (forall k' p, O k' p -> p <> nx) as Hlt.
  { intros k' p H ->. assert (nx ∈ lv) as H'%M2 by (apply M1; eauto). lia. }
  split.
  - intros p. rewrite elem_of_union, elem_of_singleton, M1. split.
    + intros [->|[[k' H]|[H|H]]]; [by eauto| |by auto|].
      * destruct (Hold _ _ H) as [H'|[H'|H']]; [by eauto|by auto|].
        rewrite decide_False; [by auto|]. intros ->. by rewrite Hh in H'.
      * rewrite decide_False; [by auto|]. intros ->. by rewrite Hh in H.
    + intros [[k' [[_ ->]|H]%Hinv]|[H|H]]; [by left|by eauto|by auto|].
      case_decide; [left; congruence|by auto].
  - intros p [->%elem_of_singleton|H%M2]%elem_of_union; lia.
  - intros k' p [[-> ->]|H]%Hinv; [|by apply M3]. split; [|done]. intros H. by destruct (Hf h1); auto.
  - intros k' p [[-> ->]|H]%Hinv; case_decide as Ed.
    + done.
    + split; [|done]. intros H. by destruct (Hf h2); auto.
    + rewrite <-(M4 _ _ H), (Hh Ed). split; [|done]. intros [= <-]. by destruct (Hlt _ _ H).
    + by apply M4.
  - intros p H. case_decide; [|by apply M5]. intros [= <-]. by destruct (Hf h1); auto.
Qed.

Definition without (q : N) (h : option N) : option N := if decide (h = Some q) then None else h.

Lemma without_ne q h : h <> Some q -> without q h = h.
Proof. intros H. unfold without. by rewrite decide_False. Qed.

Lemma without_eq q h : h = Some q -> without q h = None.
Proof. intros H. unfold without. by rewrite decide_True. Qed.

Lemma without_Some q h p : without q h = Some p <-> h = Some p /\ p <> q.
Proof. unfold without. case_decide; naive_solver congruence. Qed.

(** The callback at [q] is freed and every reference to it is gone. *)
Lemma mem_release (O O' : cb_kind -> N -> Prop) h1 h2 lv nx q :
  mem_ok O h1 h2 lv nx -> (forall k p, O' k p <-> O k p /\ p <> q) ->
  mem_ok O' (without q h1) (without q h2) (lv ∖ {[q]}) nx.
Proof.
  intros [M1 M2 M3 M4 M5] E. split.
  - intros p. rewrite elem_of_difference, elem_of_singleton, M1, !without_Some.
    setoid_rewrite E. naive_solver.
  - intros p [H _]%elem_of_difference. by apply M2.
  - intros k p [H Hne]%E. rewrite without_Some, (M3 _ _ H). naive_solver.
  - intros k p [H Hne]%E. rewrite without_Some, (M4 _ _ H). naive_solver.
  - intros p [H _]%without_Some [H' _]%without_Some. by eapply M5.
Qed.

(** ** The two ends *)

(** Neither end is shut down, or both are marked and one call was made. *)
Definition ends_ok (ci co : Connection) (calls : list syscall) : Prop :=
  (_shutdown ci = false /\ _shutdown co = false /\ calls = []) \/
  (_shutdown ci = true /\ _shutdown co = true /\
   (calls = [sys_shutdown (Socket ci)] \/ calls = [sys_shutdown (Socket co)])).

(** In its queue; watched for a client that hangs up; with a server's connection
    under way; and with two ends. *)
Inductive phase : Type := Queued | Watching | Connecting (srv : Z) | Connected (srv : Z).

#[local] Instance phase_eq_dec : EqDecision phase.
Proof. solve_decision. Defined.

(** The pipe of each phase. *)
Definition pipe_ok (cli : Z) (ph : phase) (x : TcpPipe) (calls : list syscall) : Prop :=
  exists ci, pipe_in x = Some (mkHalfPipe (Some ci)) /\ Socket ci = cli /\
  match ph with
  | Queued | Watching => pipe_out x = None /\ _shutdown ci = false /\ calls = []
  | Connecting srv => pipe_out x = Some (mkHalfPipe None) /\ srv <> cli /\
      _shutdown ci = false /\ calls = []
  | Connected srv => exists co, pipe_out x = Some (mkHalfPipe (Some co)) /\ Socket co = srv /\
      srv <> cli /\ ends_ok ci co calls
  end.

Lemma ShutdownOther_ends ci co f s calls soc :
  Socket co <> Socket ci -> soc = Socket ci \/ soc = Socket co -> ends_ok ci co calls ->
  exists ci' co' l, ShutdownOther soc (joined ci co f s, calls) = Done tt (joined ci' co' f s, l) /\
    Socket ci' = Socket ci /\ Socket co' = Socket co /\ ends_ok ci' co' l.
Proof.
  unfold ends_ok. intros Hne [-> | ->] He;
    [rewrite ShutdownOther_client by done|rewrite ShutdownOther_server by done];
    (eexists _, _, _; split; [done|]); unfold Shutdown, SetShutdown, Socket in *;
    [destruct (_shutdown co) eqn:Es|destruct (_shutdown ci) eqn:Es]; simpl;
    (destruct He as [(? & ? & ->)|(? & ? & ?)]; [|rewrite ?app_nil_r]; try congruence; auto 10).
Qed.

(** ShutdownOther is safe for the client's socket, and for the server's once it
    is connected. *)
Lemma shutdown_other_ok cli ph soc w :
  pipe_ok cli ph (pipe_of w) (pw_calls w) -> soc = cli \/ ph = Connected soc ->
  exists x l, shutdown_other soc w = Done tt (set_calls l (set_pipe x w)) /\
    pipe_ok cli ph x l /\ first_cb x = first_cb (pipe_of w) /\
    second_cb x = second_cb (pipe_of w).
Proof.
  intros (ci & Hi & Hc & Hp) Hsoc. unfold shutdown_other, zoom.
  destruct (pipe_of w) as [pin pout f s] eqn:Ep. simpl in *. subst pin.
  assert (ph <> Connected soc -> conn_of pout = None -> exists x l,
    match ShutdownOther soc
      (mkTcpPipe (Some (mkHalfPipe (Some ci))) pout f s, pw_calls w) with
    | Done a s' => Done a (set_calls s'.2 (set_pipe s'.1 w))
    | Wait s' => Wait (set_calls s'.2 (set_pipe s'.1 w))
    | Crash e => Crash e
    end = Done tt (set_calls l (set_pipe x w)) /\ x = mkTcpPipe (Some (mkHalfPipe (Some ci))) pout f s /\
      l = pw_calls w) as Hhalf.
  { intros Hnc Hn. destruct Hsoc as [->|?]; [|done]. unfold ShutdownOther, shutdown_other_out. unM.
    simpl. rewrite Hc, Z.eqb_refl. simpl. rewrite Hn. simpl. by eexists _, _. }
  destruct ph as [| |srv|srv].
  4:{ destruct Hp as (co & -> & Hco & Hne & He).
    destruct (ShutdownOther_ends ci co f s (pw_calls w) soc) as (ci' & co' & l & E & Hc' & Hco' & He');
      [congruence|destruct Hsoc as [->|[= ->]]; auto|done|].
    unfold joined in E. rewrite E. eexists _, _. split; [done|]. split; [|done].
    exists ci'. simpl. split; [done|]. split; [congruence|]. exists co'. split_and!; congruence. }
  all: destruct Hhalf as (x & l & E & -> & ->); [done|by destruct Hp as (-> & _)|];
    eexists _, _; (split; [exact E|]); (split; [|done]); exists ci; done.
Qed.

(** ** Events and tasks under way *)

Definition task_of (f : fetched_event) : task := mkTask (pr_kind (fe_reg f)) (fe_soc f) (fe_ready f).

(** A fetched event is a task to be. *)
Definition works (w : pworld) : list task := tasks w ++ (task_of <$> fetched w).

Definition is_connect (t : task) : bool :=
  match tk_kind t with KConnect => true | _ => false end.

Definition monitors (soc : Z) (t : task) : bool :=
  match tk_kind t with KMonitor => (tk_soc t =? soc)%Z | _ => false end.

Definition connect_armed (m : gmap Z preg) (ph : phase) : bool :=
  match ph with
  | Connecting srv =>
      match m !! srv with Some r => bool_decide (pr_kind r = KConnect) | None => false end
  | _ => false
  end.

(** Which callbacks a phase has. *)
Definition kind_ok (cli : Z) (ph : phase) (k : cb_kind) (soc : Z) : Prop :=
  match k with
  | KFirst => ph = Queued /\ soc = cli
  | KConnect => ph = Connecting soc
  | KMonitor => exists srv, ph = Connected srv /\ (soc = cli \/ soc = srv)
  | KCliClosed => ph <> Queued /\ soc = cli
  end.

(** At most one connect, and at most one monitor per socket. *)
Record works_ok (cli : Z) (ph : phase) (m : gmap Z preg) (ws : list task) : Prop := mk_works_ok {
  wk_kind : forall t, t ∈ ws -> tk_kind t <> KFirst ->
    kind_ok cli ph (tk_kind t) (tk_soc t) /\
    (tk_kind t = KMonitor \/ rf_out (tk_ready t) = true -> (0 <= tk_soc t)%Z);
  wk_connect : count is_connect ws + b2n (connect_armed m ph) <= 1;
  wk_monitor : forall s, count (monitors s) ws <= 1 /\
    (0 < count (monitors s) ws -> m !! s = None)
}.

Lemma works_perm cli ph m ws ws' : works_ok cli ph m ws -> ws ≡ₚ ws' -> works_ok cli ph m ws'.
Proof.
  intros [W1 W2 W3] E. split.
  - intros t. rewrite <-E. apply W1.
  - by rewrite <-(count_perm is_connect ws ws').
  - intros s. rewrite <-(count_perm (monitors s) ws ws') by done. apply W3.
Qed.

Lemma works_add cli ph m ws t :
  works_ok cli ph m ws -> (tk_kind t <> KFirst -> kind_ok cli ph (tk_kind t) (tk_soc t)) ->
  (tk_kind t = KMonitor \/ rf_out (tk_ready t) = true -> (0 <= tk_soc t)%Z) ->
  (is_connect t = true -> count is_connect ws = 0 /\ connect_armed m ph = false) ->
  (tk_kind t = KMonitor -> count (monitors (tk_soc t)) ws = 0 /\ m !! tk_soc t = None) ->
  works_ok cli ph m (ws ++ [t]).
Proof.
  intros [W1 W2 W3] Hk Hpos Hc Hm. split.
  - intros t' [Ht|Ht]%elem_of_app Hf; [by apply W1|].
    apply list_elem_of_singleton in Ht as ->. auto.
  - rewrite count_app. simpl. destruct (is_connect t); [|lia].
    destruct (Hc eq_refl) as [-> ->]. simpl. lia.
  - intros s. rewrite count_app. simpl. destruct (W3 s) as [H1 H2].
    destruct (monitors s t) eqn:E; [|rewrite !Nat.add_0_r; auto].
    unfold monitors in E. destruct (tk_kind t); try done. apply Z.eqb_eq in E as <-.
    destruct (Hm eq_refl) as [-> ?]. split; [lia|done].
Qed.

Lemma works_drop cli ph m ws i t :
  works_ok cli ph m ws -> ws !! i = Some t -> works_ok cli ph m (delete i ws).
Proof.
  intros [W1 W2 W3] Ht. split.
  - intros t' Ht'. apply W1. by eapply elem_of_sublist, sublist_delete.
  - pose proof (count_delete is_connect _ _ _ Ht). lia.
  - intros s. pose proof (count_delete (monitors s) _ _ _ Ht). destruct (W3 s) as [? Hr].
    split; [lia|]. intros Hpos. apply Hr. lia.
Qed.

(** A registration that goes makes room. *)
Lemma works_unreg cli ph m ws s : works_ok cli ph m ws -> works_ok cli ph (delete s m) ws.
Proof.
  intros [W1 W2 W3]. split; [done| |].
  - assert (b2n (connect_armed (delete s m) ph) <= b2n (connect_armed m ph)); [|lia].
    destruct ph as [| |srv|srv]; simpl; try lia. destruct (decide (s = srv)) as [->|Hne].
    + rewrite lookup_delete_eq. simpl. lia.
    + by rewrite lookup_delete_ne.
  - intros s'. destruct (W3 s') as [? H]. split; [done|]. intros Hp.
    apply lookup_delete_None. auto.
Qed.

(** A registration on a socket that no monitor is busy with. *)
Lemma works_reg cli ph m ws s r :
  works_ok cli ph m ws -> count (monitors s) ws = 0 ->
  (ph = Connecting s -> count is_connect ws = 0) ->
  works_ok cli ph (<[s := r]> m) ws.
Proof.
  intros [W1 W2 W3] Hm Hc. split; [done| |].
  - destruct (decide (ph = Connecting s)) as [E|Hne].
    + rewrite Hc by done. destruct (connect_armed (<[s := r]> m) ph); simpl; lia.
    + assert (connect_armed (<[s := r]> m) ph = connect_armed m ph) as ->; [|done].
      destruct ph as [| |srv|srv]; simpl; try done. by rewrite lookup_insert_ne by congruence.
  - intros s'. destruct (W3 s') as [? H]. split; [done|]. intros Hp.
    rewrite lookup_insert_ne; [auto|]. intros ->. lia.
Qed.

(** ** The invariant *)

(** The pointers that [first_cb] and [second_cb] hold, an assignment that is due
    included. *)
Definition held_first (x : TcpPipe) (pd : list pstep) : option N :=
  match pd with AssignFirst p :: _ => Some p | _ => first_cb x end.

Definition held_second (x : TcpPipe) (pd : list pstep) : option N :=
  match pd with AssignSecond p :: _ => Some p | _ => second_cb x end.

(** The deletions that are due. *)
Definition deletion (ph : phase) (d : pstep) : Prop :=
  d = DeleteFirst \/ d = DeleteSecond /\ exists srv, ph = Connected srv.

(** What the threads have still to do in each phase. *)
Definition pend_ok (ph : phase) (x : TcpPipe) (pd : list pstep) (O : cb_kind -> N -> Prop) : Prop :=
  match ph with
  | Queued => pd = [] \/ exists p, pd = [AssignFirst p] /\ first_cb x = None /\ O KFirst p
  | Watching => exists p, pd = [AssignSecond p] /\ second_cb x = None /\ O KCliClosed p
  | _ => Forall (deletion ph) pd
  end.

Record life_ok (cli : Z) (ph : phase) (w : pworld) : Prop := mk_life_ok {
  lf_pipe : pipe_ok cli ph (pipe_of w) (pw_calls w);
  lf_uniq : uniq (regs w) (fetched w);
  lf_mem : mem_ok (owns (regs w) (fetched w)) (held_first (pipe_of w) (pending w))
    (held_second (pipe_of w) (pending w)) (live w) (next_ptr w);
  lf_regs : forall s r, regs w !! s = Some r -> kind_ok cli ph (pr_kind r) s /\ (0 <= s)%Z;
  lf_pend : pend_ok ph (pipe_of w) (pending w) (owns (regs w) (fetched w));
  lf_first : forall p, first_cb (pipe_of w) = Some p ->
    owns (regs w) (fetched w) KFirst p \/ ph = Watching \/ DeleteFirst ∈ pending w;
  lf_second : forall p, second_cb (pipe_of w) = Some p ->
    owns (regs w) (fetched w) KCliClosed p \/ DeleteSecond ∈ pending w;
  lf_gone : DeleteSecond ∈ pending w -> forall s r, regs w !! s = Some r -> pr_kind r <> KCliClosed;
  lf_works : works_ok cli ph (regs w) (works w)
}.

Lemma held_deletions ph x pd :
  Forall (deletion ph) pd -> held_first x pd = first_cb x /\ held_second x pd = second_cb x.
Proof. by intros [|d l [-> |[-> _]] _]. Qed.

(** What a field holds is held. *)
Lemma first_held ph x pd O p : pend_ok ph x pd O -> first_cb x = Some p -> held_first x pd = Some p.
Proof.
  intros H E. destruct ph as [| |s|s]; simpl in H; try by rewrite (proj1 (held_deletions _ x _ H)).
  - destruct H as [->|(q & -> & Hn & _)]; [done|congruence].
  - by destruct H as (q & -> & _).
Qed.

Lemma second_held ph x pd O p :
  pend_ok ph x pd O -> second_cb x = Some p -> held_second x pd = Some p.
Proof.
  intros H E. destruct ph as [| |s|s]; simpl in H; try by rewrite (proj2 (held_deletions _ x _ H)).
  - by destruct H as [->|(q & -> & _)].
  - destruct H as (q & -> & Hn & _). congruence.
Qed.

(** What is held is in the field, or referred to. *)
Lemma held_inv ph x pd O p :
  pend_ok ph x pd O ->
  (held_first x pd = Some p -> first_cb x = Some p \/ O KFirst p) /\
  (held_second x pd = Some p -> second_cb x = Some p \/ O KCliClosed p).
Proof.
  intros H. destruct ph as [| |s|s]; simpl in H.
  - destruct H as [->|(q & -> & _ & ?)]; simpl; naive_solver.
  - destruct H as (q & -> & _ & ?); simpl; naive_solver.
  - destruct (held_deletions _ x _ H) as [-> ->]. auto.
  - destruct (held_deletions _ x _ H) as [-> ->]. auto.
Qed.

(** What the kernel and the rest of the program guarantee: a job is dispatched
    after its [first_cb] is assigned and is scheduled once, the server's
    descriptor is new, and read and send answer as Pipe expects. *)
Definition env_ok (cli : Z) (w : pworld) (e : pevent) : Prop :=
  match e with
  | PSchedule => pipe_out (pipe_of w) = None /\ pending w = []
  | PStep i srv r =>
      match pending w !! i with
      | Some (AssignSecond _) =>
          srv <> cli /\ (CommHandler.connect_now r = None -> (0 <= srv)%Z)
      | _ => True
      end
  | PRun _ _ x => answers_ok x
  | _ => True
  end.

(** The orders that the code does not prevent and does not survive: a callback
    that runs before its pointer is assigned, and one that is deleted while the
    epoll worker has it in its buffer. *)
Definition no_race (w : pworld) (e : pevent) : Prop :=
  match e with
  | PStep i _ _ =>
      match pending w !! i with
      | Some DeleteFirst =>
          forall f, f ∈ fetched w -> first_cb (pipe_of w) <> Some (fe_ptr f)
      | Some DeleteSecond =>
          forall f, f ∈ fetched w -> second_cb (pipe_of w) <> Some (fe_ptr f)
      | _ => True
      end
  | PHandle i =>
      match fetched w !! i with
      | Some f =>
          match pr_kind (fe_reg f) with
          | KFirst => forall p, AssignFirst p ∉ pending w
          | KCliClosed => forall p, AssignSecond p ∉ pending w
          | _ => True
          end
      | None => True
      end
  | _ => True
  end.

Lemma life_received id prio cli : (0 <= cli)%Z -> life_ok cli Queued (received id prio cli).
Proof.
  intros Hc. assert (forall k p, owns {[cli := mkPreg KFirst false 1]} [] k p <-> k = KFirst /\ p = 1%N) as Ho.
  { intros k p. split.
    - intros [(s & r & [<- <-]%lookup_singleton_Some & <- & <-)|(f & Hf & _)]; [done|].
      by apply elem_of_nil in Hf.
    - intros [-> ->]. left. exists cli. eexists. by rewrite lookup_singleton_eq. }
  split; simpl.
  - eexists. done.
  - split; [|apply NoDup_nil_2|intros s r f _ Hf; by apply elem_of_nil in Hf].
    intros s1 s2 r1 r2 [<- _]%lookup_singleton_Some [<- _]%lookup_singleton_Some. done.
  - split; simpl.
    + intros p. rewrite elem_of_singleton. split; [intros ->; auto|].
      intros [[k [_ ->]%Ho]|[[= <-]|?]]; done.
    + intros p ->%elem_of_singleton. lia.
    + intros k p [-> ->]%Ho. done.
    + intros k p [-> ->]%Ho. done.
    + done.
  - intros s r [<- <-]%lookup_singleton_Some. done.
  - right. exists 1%N. split; [done|]. split; [done|]. by apply Ho.
  - done.
  - done.
  - intros H%list_elem_of_singleton. done.
  - split; [intros t Ht; by apply elem_of_nil in Ht|simpl; lia|intros s; simpl; lia].
Qed.

(** ** Parts of a step *)

(** Worlds that differ in the pipe's connections, the system calls, the
    throughput, the bytes moved. *)
Lemma life_same cli ph w w' :
  life_ok cli ph w -> pipe_ok cli ph (pipe_of w') (pw_calls w') ->
  first_cb (pipe_of w') = first_cb (pipe_of w) -> second_cb (pipe_of w') = second_cb (pipe_of w) ->
  regs w' = regs w -> fetched w' = fetched w -> pending w' = pending w -> live w' = live w ->
  next_ptr w' = next_ptr w -> tasks w' = tasks w -> life_ok cli ph w'.
Proof.
  intros [L1 L2 L3 L4 L5 L6 L7 L8 L9] Hp E1 E2 E3 E4 E5 E6 E7 E8.
  assert (held_first (pipe_of w') (pending w) = held_first (pipe_of w) (pending w)) as H1
    by (unfold held_first; by rewrite E1).
  assert (held_second (pipe_of w') (pending w) = held_second (pipe_of w) (pending w)) as H2
    by (unfold held_second; by rewrite E2).
  split; unfold works in *; rewrite ?E1, ?E2, ?E3, ?E4, ?E5, ?E6, ?E7, ?E8, ?H1, ?H2; try done.
  unfold pend_ok in *. by rewrite E1, E2.
Qed.

Lemma life_moved cli ph w w' :
  life_ok cli ph w -> pipe_of w' = pipe_of w -> pw_calls w' = pw_calls w ->
  regs w' = regs w -> fetched w' = fetched w -> pending w' = pending w -> live w' = live w ->
  next_ptr w' = next_ptr w -> tasks w' = tasks w -> life_ok cli ph w'.
Proof.
  intros Hl E1 E2. intros. apply (life_same cli ph w); try done; rewrite ?E1, ?E2; try done.
  apply Hl.
Qed.

Lemma life_shutdown cli ph w soc :
  life_ok cli ph w -> soc = cli \/ ph = Connected soc ->
  exists w', shutdown_other soc w = Done tt w' /\ life_ok cli ph w'.
Proof.
  intros Hl Hs.
  destruct (shutdown_other_ok cli ph soc w (lf_pipe _ _ _ Hl) Hs) as (x & l & E & Hp & Hf & Hs2).
  eexists. split; [exact E|]. by apply (life_same cli ph w).
Qed.

(** The tasks change, the work under way does not grow beyond what is allowed. *)
Lemma life_tasks cli ph w l :
  life_ok cli ph w -> works_ok cli ph (regs w) (l ++ (task_of <$> fetched w)) ->
  life_ok cli ph (set_tasks l w).
Proof. intros [L1 L2 L3 L4 L5 L6 L7 L8 L9] Hw. by split. Qed.

(** The world after [monitor]. *)
Definition registered (soc : Z) (b : bool) (k : cb_kind) (w : pworld) : pworld :=
  mkPworld (pw_job w) (pw_calls w) (<[soc := mkPreg k b (next_ptr w)]> (regs w)) (fetched w)
    (pending w) ({[next_ptr w]} ∪ live w) (next_ptr w + 1) (connects w) (tasks w) (moved w).

Lemma monitor_Done soc b k w :
  (0 <= soc)%Z -> monitor soc b k w = Done (next_ptr w) (registered soc b k w).
Proof. intros H. unfold monitor. unM. by rewrite (proj2 (Z.leb_le _ _) H). Qed.

(** References after a registration: a displaced callback is still held. *)
Lemma registered_mem cli ph w soc k b h1 h2 :
  life_ok cli ph w -> mem_ok (owns (regs w) (fetched w)) h1 h2 (live w) (next_ptr w) ->
  k <> KFirst -> (k = KCliClosed -> h2 = None) ->
  (forall r, regs w !! soc = Some r -> h1 = Some (pr_ptr r) \/ h2 = Some (pr_ptr r)) ->
  uniq (<[soc := mkPreg k b (next_ptr w)]> (regs w)) (fetched w) /\
  mem_ok (owns (<[soc := mkPreg k b (next_ptr w)]> (regs w)) (fetched w)) h1
    (after_monitor k (next_ptr w) h2) ({[next_ptr w]} ∪ live w) (next_ptr w + 1).
Proof.
  intros Hl Hm Hk Hh Hd. split.
  - apply uniq_insert; [by eapply lf_uniq|]. intros k' p Ho. apply (me_next _ _ _ _ _ Hm).
    apply (me_live _ _ _ _ _ Hm). eauto.
  - apply (mem_register (owns (regs w) (fetched w))); try done.
    + left. exists soc. eexists. by rewrite lookup_insert_eq.
    + intros k' p. by apply owns_insert_inv.
    + intros k' p Ho. destruct (regs w !! soc) as [r|] eqn:Er.
      * destruct (decide (pr_ptr r = p)) as [<-|Hne]; [right; by apply Hd|].
        left. apply owns_insert_old; [done|]. intros r' Hr'. congruence.
      * left. apply owns_insert_old; [done|]. intros r' Hr'. congruence.
Qed.

(** A new registration on a free socket of a connected job. *)
Lemma life_monitor cli srv w soc :
  life_ok cli (Connected srv) w -> regs w !! soc = None ->
  count (monitors soc) (works w) = 0 -> soc = cli \/ soc = srv -> (0 <= soc)%Z ->
  life_ok cli (Connected srv) (registered soc true KMonitor w).
Proof.
  intros Hl Hn Hc Hs Hpos.
  destruct (registered_mem _ _ w soc KMonitor true _ _ Hl (lf_mem _ _ _ Hl)) as [Hu Hm];
    [done|done|congruence|].
  assert (forall k p, owns (regs w) (fetched w) k p ->
    owns (regs (registered soc true KMonitor w)) (fetched w) k p) as Ho
    by (intros k p H; apply owns_insert_old; [done|congruence]).
  destruct Hl as [L1 L2 L3 L4 L5 L6 L7 L8 L9]. split; try done; simpl.
  - intros s r [[<- <-]|[_ Hr]]%lookup_insert_Some; [|by apply L4]. split; [|done].
    by exists srv.
  - intros p [H|H]%L6; auto.
  - intros p [H|H]%L7; auto.
  - intros H s r [[<- <-]|[_ Hr]]%lookup_insert_Some; [done|by eapply L8].
  - by apply works_reg.
Qed.

Lemma CliClosed_life cli ph w soc ready :
  life_ok cli ph w -> kind_ok cli ph KCliClosed soc ->
  exists w', CliClosedCallback soc ready w = Done tt w' /\ life_ok cli ph w'.
Proof.
  intros Hl [Hq ->]. unfold CliClosedCallback.
  destruct (negb (rf_err ready =? 0)%Z); [by apply life_shutdown; auto|].
  destruct (negb (rf_in ready)); [by apply life_shutdown; auto|]. eexists. by unM.
Qed.

Lemma Monitor_life cli ph w soc ready stack x :
  life_ok cli ph w -> kind_ok cli ph KMonitor soc -> regs w !! soc = None ->
  count (monitors soc) (works w) = 0 -> (0 <= soc)%Z -> answers_ok x ->
  exists w', MonitorCallback stack x soc ready w = Done tt w' /\ life_ok cli ph w'.
Proof.
  intros Hl (srv & -> & Hs) Hn Hc Hpos Hx.
  destruct (Pipe_returns (pipe_of w) soc stack x Hx) as (n & x' & Hp).
  assert (forall w', life_ok cli (Connected srv) w' ->
    exists w'', shutdown_other soc w' = Done tt w'' /\ life_ok cli (Connected srv) w'') as Hsd
    by (intros w' Hw'; apply life_shutdown; naive_solver).
  unfold MonitorCallback. destruct (negb (rf_err ready =? 0)%Z); [by apply Hsd|].
  destruct (negb (rf_in ready)); [by apply Hsd|]. unM. rewrite Hp. unM.
  set (w1 := add_moved _ w).
  assert (life_ok cli (Connected srv) w1) as Hl1 by (by apply (life_moved _ _ w)).
  destruct (_ && _); [destruct (n =? - soc)%Z; [by apply Hsd|by exists w1]|].
  destruct (n =? 0)%Z; [by apply Hsd|].
  rewrite monitor_Done by done. eexists. split; [done|].
  apply life_monitor; try done. by apply (life_moved _ _ w1).
Qed.

(** No task of the kinds that a phase excludes. *)
Lemma no_connect_task l t : count is_connect l = 0 -> t ∈ l -> tk_kind t <> KConnect.
Proof.
  intros Hc (i & Hi)%list_elem_of_lookup_1 Hk. pose proof (count_zero_inv _ _ _ _ Hc Hi) as Hz.
  unfold is_connect in Hz. by rewrite Hk in Hz.
Qed.

Lemma no_monitors cli ph m ws s :
  works_ok cli ph m ws -> (forall srv, ph <> Connected srv) -> count (monitors s) ws = 0.
Proof.
  intros [W1 _ _] Hph. apply count_zero. intros i t Hi. unfold monitors.
  destruct (tk_kind t) eqn:E; try done. destruct (W1 t) as [Hk _];
    [by eapply list_elem_of_lookup_2|by rewrite E|]. rewrite E in Hk.
  destruct Hk as (srv & Hs & _). by destruct (Hph srv).
Qed.

Lemma no_connects cli ph m ws :
  works_ok cli ph m ws -> (forall srv, ph <> Connecting srv) -> count is_connect ws = 0.
Proof.
  intros [W1 _ _] Hph. apply count_zero. intros i t Hi. unfold is_connect.
  destruct (tk_kind t) eqn:E; try done. destruct (W1 t) as [Hk _];
    [by eapply list_elem_of_lookup_2|by rewrite E|]. rewrite E in Hk. by destruct (Hph (tk_soc t)).
Qed.

(** The work under way stays allowed in the next phase when only the client's
    callbacks are left. *)
Lemma works_next cli ph ph' m m' ws :
  works_ok cli ph m ws -> count is_connect ws = 0 -> (forall s, count (monitors s) ws = 0) ->
  ph' <> Queued -> works_ok cli ph' m' ws.
Proof.
  intros [W1 W2 W3] Hc Hm Hq. split.
  - intros t Ht Hk. destruct (W1 t Ht Hk) as [Hko Hpos]. split; [|done].
    destruct (tk_kind t) eqn:E; simpl in *; [done|by destruct (no_connect_task _ _ Hc Ht)| |by destruct Hko].
    apply list_elem_of_lookup_1 in Ht as [i Hi].
    pose proof (count_zero_inv _ _ _ _ (Hm (tk_soc t)) Hi) as Hz.
    unfold monitors in Hz. by rewrite E, Z.eqb_refl in Hz.
  - rewrite Hc. destruct (connect_armed m' ph'); simpl; lia.
  - intros s. rewrite Hm. lia.
Qed.

(** The server's connection arrives. *)
Lemma life_connected cli srv w :
  life_ok cli (Connecting srv) w -> count is_connect (works w) = 0 ->
  connect_armed (regs w) (Connecting srv) = false ->
  life_ok cli (Connected srv)
    (set_pipe (with_out (Some (mkHalfPipe (Some (Connection.new srv)))) (pipe_of w)) w) /\
  (forall s r, regs w !! s = Some r -> s = cli /\ pr_kind r = KCliClosed) /\
  (forall s, count (monitors s) (works w) = 0) /\ DeleteSecond ∉ pending w.
Proof.
  intros [(ci & Hin & Hci & Hout & Hne & Hf & Hl) L2 L3 L4 L5 L6 L7 L8 L9] Hc Ha.
  assert (forall s r, regs w !! s = Some r -> s = cli /\ pr_kind r = KCliClosed) as Hr.
  { intros s r H. destruct (L4 s r H) as [Hk _]. destruct (pr_kind r) eqn:E; simpl in Hk.
    - by destruct Hk.
    - injection Hk as <-. simpl in Ha. rewrite H, E in Ha. by rewrite bool_decide_true in Ha.
    - by destruct Hk as (? & ? & _).
    - by destruct Hk. }
  assert (forall s, count (monitors s) (works w) = 0) as Hm by (intros s; by eapply no_monitors).
  simpl in L5. assert (DeleteSecond ∉ pending w) as Hd.
  { intros H. rewrite Forall_forall in L5. by destruct (L5 _ H) as [?|[_ [? ?]]]. }
  split; [|done]. split; try done; simpl.
  - exists ci. split; [done|]. split; [done|]. exists (Connection.new srv). repeat split; try done.
    by left.
  - intros s r H. destruct (Hr s r H) as [-> ->]. split; [done|]. by apply (L4 cli r).
  - eapply Forall_impl; [exact L5|]. intros d [->|[-> [? ?]]]; [by left|done].
  - intros p [H|[H|H]]%L6; [by auto|done|by auto].
  - by eapply works_next.
Qed.

(** A callback of the client that was replaced is only held. *)
Lemma mem_shrink (O O' : cb_kind -> N -> Prop) h1 h2 lv nx :
  mem_ok O h1 h2 lv nx -> (forall k p, O' k p -> O k p) ->
  (forall k p, O k p -> O' k p \/ h1 = Some p \/ h2 = Some p) -> mem_ok O' h1 h2 lv nx.
Proof.
  intros [M1 M2 M3 M4 M5] H1 H2. split; try done.
  - intros p. rewrite M1. naive_solver.
  - intros k p H%H1. by apply M3.
  - intros k p H%H1. by apply M4.
Qed.

Definition unwatched (cli : Z) (w : pworld) : pworld :=
  set_pending (pending w ++ [DeleteSecond]) (set_regs (delete cli (regs w)) w).

Lemma life_unwatched cli srv w :
  life_ok cli (Connected srv) w ->
  (forall s r, regs w !! s = Some r -> s = cli /\ pr_kind r = KCliClosed) ->
  life_ok cli (Connected srv) (unwatched cli w).
Proof.
  intros [L1 L2 L3 L4 L5 L6 L7 L8 L9] Hr. simpl in L5.
  assert (Forall (deletion (Connected srv)) (pending w ++ [DeleteSecond])) as Hd.
  { apply Forall_app. split; [done|]. apply Forall_singleton. right. eauto. }
  assert (forall k p, owns (delete cli (regs w)) (fetched w) k p -> owns (regs w) (fetched w) k p)
    as Ho1.
  { intros k p [(s & r & [_ H]%lookup_delete_Some & ?)|H]; [left; eauto|by right]. }
  assert (forall k p, owns (regs w) (fetched w) k p ->
    owns (delete cli (regs w)) (fetched w) k p \/ k = KCliClosed) as Ho2.
  { intros k p [(s & r & H & <- & <-)|H]; [right; by eapply Hr|left; by right]. }
  split; simpl; try done.
  - destruct L2 as [U1 U2 U3]. split; [|done|].
    + intros s1 s2 r1 r2 [_ H1]%lookup_delete_Some [_ H2]%lookup_delete_Some. by apply U1.
    + intros s r f [_ H]%lookup_delete_Some. by apply (U3 s).
  - change (pipe_of (unwatched cli w)) with (pipe_of w).
    destruct (held_deletions _ (pipe_of w) _ Hd) as [-> ->].
    destruct (held_deletions _ (pipe_of w) _ L5) as [E1 E2]. rewrite E1, E2 in L3.
    eapply mem_shrink; [exact L3|done|]. intros k p H. destruct (Ho2 k p H) as [?|Hk]; [by auto|].
    right. right. by apply (me_second _ _ _ _ _ L3 _ _ H).
  - intros s r [_ H]%lookup_delete_Some. by apply L4.
  - intros p [H|[H|H]]%L6; [|done|right; right; set_solver].
    left. by destruct (Ho2 _ _ H).
  - intros p _. right. set_solver.
  - intros _ s r [Hne H]%lookup_delete_Some. by destruct (Hr _ _ H) as [-> _].
  - by apply works_unreg.
Qed.

Lemma Connect_life cli srv w ready :
  life_ok cli (Connecting srv) w -> count is_connect (works w) = 0 ->
  connect_armed (regs w) (Connecting srv) = false -> (0 <= cli)%Z ->
  (rf_out ready = true -> (0 <= srv)%Z) ->
  exists w', ConnectCallback srv ready w = Done tt w' /\ life_ok cli (Connected srv) w'.
Proof.
  intros Hl Hc Ha Hpos Hsrv.
  destruct (life_connected cli srv w Hl Hc Ha) as (Hl1 & Hr & Hm & Hd).
  pose proof (lf_pipe _ _ _ Hl) as (ci & Hin & Hci & Hout & Hne & _).
  unfold ConnectCallback, update. unM. rewrite Hout. simpl.
  set (w1 := set_pipe _ w) in *.
  destruct (negb (rf_out ready) || negb (rf_err ready =? 0)%Z) eqn:E;
    [by apply life_shutdown; auto|].
  apply orb_false_elim in E as [Ho%negb_false_iff _].
  pose proof (lf_pipe _ _ _ Hl1) as (ci' & Hin' & Hci' & co & Hout' & Hco & _).
  unfold socket_in, socket_out. unM. rewrite Hin'. simpl. rewrite Hci', monitor_Done by done.
  assert (pipe_of (registered cli true KMonitor w1) = pipe_of w1) as Ep by done.
  rewrite Ep, Hout'. simpl. rewrite Hco, monitor_Done by auto. unfold later. unM.
  eexists. split; [done|].
  assert (regs w !! srv = None) as Hsn.
  { destruct (regs w !! srv) eqn:Er; [|done]. by destruct (Hr _ _ Er) as [? _]. }
  assert (life_ok cli (Connected srv)
    (registered srv true KMonitor (registered cli true KMonitor (unwatched cli w1)))) as H.
  { apply life_monitor; simpl; auto; [apply life_monitor; simpl; auto| ].
    - by apply life_unwatched.
    - by rewrite lookup_delete_eq.
    - by rewrite lookup_insert_ne, lookup_delete_ne. }
  unfold registered in H. simpl in H. rewrite insert_delete_eq in H. exact H.
Qed.

(** ** Scheduling *)

Lemma connect_now_out r ready : CommHandler.connect_now r = Some ready -> rf_out ready = false.
Proof. destruct r; simpl; [|destruct (_ =? _)%Z]; by intros [= <-]. Qed.

(** A callback that a phase does not have is not referred to. *)
Lemma owns_kind cli ph w k p :
  life_ok cli ph w -> owns (regs w) (fetched w) k p -> k <> KFirst -> exists s, kind_ok cli ph k s.
Proof.
  intros Hl [(s & r & Hr & <- & <-)|(f & Hf & <- & <-)] Hk.
  - exists s. by apply (lf_regs _ _ _ Hl).
  - exists (fe_soc f). apply (wk_kind _ _ _ _ (lf_works _ _ _ Hl) (task_of f)); [|done].
    apply elem_of_app. right. by apply list_elem_of_fmap_2.
Qed.

Lemma schedule_life cli w :
  life_ok cli Queued w -> pending w = [] -> (0 <= cli)%Z ->
  exists w', schedule_monitor w = Done tt w' /\ life_ok cli Watching w'.
Proof.
  intros Hok Hpd Hpos. pose proof (lf_pipe _ _ _ Hok) as (ci & Hin & Hci & Hout & _).
  unfold schedule_monitor, socket_in, later. unM. rewrite Hin. simpl.
  rewrite Hci, monitor_Done by done. simpl. eexists. split; [done|].
  assert (second_cb (pipe_of w) = None) as Hn.
  { destruct (second_cb (pipe_of w)) as [p|] eqn:E; [|done].
    destruct (lf_second _ _ _ Hok _ E) as [H|H]; [|rewrite Hpd in H; by apply elem_of_nil in H].
    by destruct (owns_kind _ _ _ _ _ Hok H) as (s & Hq & _). }
  assert (forall s r, regs w !! s = Some r -> s = cli /\ pr_kind r = KFirst) as Hr.
  { intros s r H. destruct (lf_regs _ _ _ Hok s r H) as [Hk _].
    destruct (pr_kind r); simpl in Hk; [by destruct Hk|done|by destruct Hk as (? & ? & _)|by destruct Hk]. }
  pose proof (lf_mem _ _ _ Hok) as Hm. rewrite Hpd in Hm. simpl in Hm.
  destruct (registered_mem _ _ w cli KCliClosed false _ _ Hok Hm) as [Hu Hm']; [done|done| |].
  { intros r H. left. apply (me_first _ _ _ _ _ Hm (pr_kind r)); [by eapply owns_reg|by eapply Hr]. }
  destruct Hok as [L1 L2 L3 L4 L5 L6 L7 L8 L9].
  split; simpl; rewrite ?Hpd; simpl; try done.
  - intros s r [[<- <-]|[Hne H]]%lookup_insert_Some; [done|]. by destruct (Hr _ _ H).
  - eexists. split; [done|]. split; [done|]. left. exists cli. eexists. by rewrite lookup_insert_eq.
  - auto.
  - intros p H. change (second_cb (pipe_of w) = Some p) in H. congruence.
  - intros H%list_elem_of_singleton. done.
  - eapply works_next; [exact L9|by eapply no_connects|intros s; by eapply no_monitors|done].
Qed.

(** The server's half is made, before Connect. *)
Definition half_open (x : string * string) (ptr : N) (w : pworld) : pworld :=
  set_pending [DeleteFirst] (add_connect x
    (set_pipe (with_out (Some (mkHalfPipe None)) (with_second (Some ptr) (pipe_of w))) w)).

Lemma life_half_open cli srv x ptr w :
  life_ok cli Watching w -> pending w = [AssignSecond ptr] -> srv <> cli ->
  life_ok cli (Connecting srv) (half_open x ptr w) /\
  (forall s r, regs w !! s = Some r -> s = cli) /\
  count is_connect (works w) = 0 /\ (forall s, count (monitors s) (works w) = 0).
Proof.
  intros [(ci & Hin & Hci & Hout & Hf & Hl) L2 L3 L4 L5 L6 L7 L8 L9] Hpd Hne.
  assert (forall s r, regs w !! s = Some r -> s = cli /\ pr_kind r = KCliClosed) as Hr.
  { intros s r H. destruct (L4 s r H) as [Hk _].
    destruct (pr_kind r); simpl in Hk; [by destruct Hk|done|by destruct Hk as (? & ? & _)|by destruct Hk]. }
  assert (count is_connect (works w) = 0) as Hc by (by eapply no_connects).
  assert (forall s, count (monitors s) (works w) = 0) as Hm by (intros s; by eapply no_monitors).
  rewrite Hpd in *. simpl in L3, L5. destruct L5 as (q & [= <-] & Hn & Ho).
  split; [|split; [intros s r H; by eapply Hr|done]]. split; simpl; try done.
  - exists ci. done.
  - intros s r H. destruct (Hr s r H) as [-> ->]. split; [done|]. by apply (L4 cli r).
  - repeat constructor.
  - intros p _. right. right. set_solver.
  - intros p [= <-]. by left.
  - intros H%list_elem_of_singleton. done.
  - by eapply works_next.
Qed.

Lemma life_connecting cli srv w :
  life_ok cli (Connecting srv) w -> count is_connect (works w) = 0 -> regs w !! srv = None ->
  srv <> cli -> (0 <= srv)%Z -> (forall s, count (monitors s) (works w) = 0) ->
  life_ok cli (Connecting srv) (registered srv true KConnect w).
Proof.
  intros Hl Hc Hn Hne Hpos Hm.
  destruct (registered_mem _ _ w srv KConnect true _ _ Hl (lf_mem _ _ _ Hl)) as [Hu Hm'];
    [done|done|congruence|].
  assert (forall k p, owns (regs w) (fetched w) k p ->
    owns (regs (registered srv true KConnect w)) (fetched w) k p) as Ho
    by (intros k p H; apply owns_insert_old; [done|congruence]).
  destruct Hl as [L1 L2 L3 L4 L5 L6 L7 L8 L9]. split; try done; simpl.
  - intros s r [[<- <-]|[_ Hr]]%lookup_insert_Some; [done|by apply L4].
  - intros p [H|H]%L6; auto.
  - intros p [H|H]%L7; auto.
  - intros H s r [[<- <-]|[_ Hr]]%lookup_insert_Some; [done|by eapply L8].
  - by apply works_reg.
Qed.

Lemma schedule_connect_life ip p1 p2 cli ptr srv r w :
  life_ok cli Watching w -> pending w = [AssignSecond ptr] -> srv <> cli ->
  (CommHandler.connect_now r = None -> (0 <= srv)%Z) ->
  exists w', schedule_connect ip p1 p2 ptr srv r (set_pending [] w) = Done tt w' /\
    life_ok cli (Connecting srv) w'.
Proof.
  intros Hok Hpd Hne Hsrv.
  set (x := (ip, if (pj_priority (pw_job w) =? 0)%N then p1 else p2)).
  destruct (life_half_open cli srv x ptr w Hok Hpd Hne) as (Hh & Hr & Hc & Hm).
  assert (regs w !! srv = None) as Hn.
  { destruct (regs w !! srv) as [r'|] eqn:E; [|done]. by destruct Hne; eapply Hr. }
  unfold schedule_connect, connect, update, later. unM. simpl.
  destruct (CommHandler.connect_now r) as [ready|] eqn:E.
  - unfold ConnectCallbackWrapper, submit. unM. eexists. split; [done|].
    assert (life_ok cli (Connecting srv)
      (set_tasks (tasks w ++ [mkTask KConnect srv ready]) (half_open x ptr w))) as H; [|exact H].
    apply life_tasks; [done|]. eapply works_perm; [apply (works_add _ _ _ (works w) (mkTask KConnect srv ready)); try done|].
    + apply (lf_works _ _ _ Hh).
    + simpl. intros [?|Ho]; [done|]. by rewrite (connect_now_out _ _ E) in Ho.
    + intros _. simpl. by rewrite Hn.
    + unfold works. simpl. solve_Permutation.
  - rewrite monitor_Done by auto. simpl. eexists. split; [done|].
    assert (life_ok cli (Connecting srv) (registered srv true KConnect (half_open x ptr w))) as H;
      [|exact H]. apply life_connecting; auto.
Qed.

(** ** The deletions *)

Lemma in_delete {A} (l : list A) i x y : l !! i = Some x -> y ∈ l -> y <> x -> y ∈ delete i l.
Proof.
  intros Hi Hy Hne. rewrite (delete_Permutation _ _ _ Hi) in Hy. set_solver.
Qed.

Lemma pending_delete ph x pd O i d :
  pend_ok ph x pd O -> pd !! i = Some d -> deletion ph d ->
  Forall (deletion ph) pd /\ Forall (deletion ph) (delete i pd) /\
  ((exists srv, ph = Connecting srv) \/ exists srv, ph = Connected srv).
Proof.
  intros H Hi Hd. apply list_elem_of_lookup_2 in Hi. destruct ph as [| |s|s]; simpl in H.
  - destruct H as [->|(q & -> & _)]; [by apply elem_of_nil in Hi|].
    apply list_elem_of_singleton in Hi as ->. by destruct Hd as [|[]].
  - destruct H as (q & -> & _). apply list_elem_of_singleton in Hi as ->. by destruct Hd as [|[]].
  - split; [done|]. split; [by apply Forall_delete|eauto].
  - split; [done|]. split; [by apply Forall_delete|eauto].
Qed.

Lemma delete_first_life cli ph w i :
  life_ok cli ph w -> pending w !! i = Some DeleteFirst ->
  (forall f, f ∈ fetched w -> first_cb (pipe_of w) <> Some (fe_ptr f)) ->
  exists w', delete_first (set_pending (delete i (pending w)) w) = Done tt w' /\ life_ok cli ph w'.
Proof.
  intros [L1 L2 L3 L4 L5 L6 L7 L8 L9] Hi Hrace.
  destruct (pending_delete _ _ _ _ _ _ L5 Hi (or_introl eq_refl)) as (Hf & Hf' & Hph).
  destruct (held_deletions _ (pipe_of w) _ Hf) as [E1 E2].
  assert (forall x, pend_ok ph x (delete i (pending w)) (owns (regs w) (fetched w))) as Hpend
    by (destruct Hph as [[? ->]|[? ->]]; done).
  assert (forall p, second_cb (pipe_of w) = Some p -> owns (regs w) (fetched w) KCliClosed p \/
    DeleteSecond ∈ delete i (pending w)) as Hs
    by (intros p [H|H]%L7; [by left|right; by eapply in_delete]).
  assert (DeleteSecond ∈ delete i (pending w) ->
    forall s r, regs w !! s = Some r -> pr_kind r <> KCliClosed) as Hgone
    by (intros H; apply L8; by eapply elem_of_sublist, sublist_delete).
  rewrite E1, E2 in L3. unfold delete_first, free, update. unM.
  change (pipe_of (set_pending (delete i (pending w)) w)) with (pipe_of w).
  destruct (first_cb (pipe_of w)) as [p|] eqn:Ep.
  - assert (p ∈ live w) as Hlive by (apply (me_live _ _ _ _ _ L3); auto).
    assert (forall k, ~ owns (regs w) (fetched w) k p) as Hno.
    { intros k Ho. pose proof (proj1 (me_first _ _ _ _ _ L3 _ _ Ho) eq_refl) as ->.
      destruct Ho as [(s & r & Hr & Hk & _)|(f & Hfe & _ & Hp)]; [|by destruct (Hrace f Hfe); rewrite Hp].
      destruct (L4 _ _ Hr) as [Hko _]. rewrite Hk in Hko. destruct Hko as [-> _].
      by destruct Hph as [[? ?]|[? ?]]. }
    simpl. rewrite decide_True by done. eexists. split; [done|]. split; simpl; try done; auto.
    destruct (held_deletions _ (with_first None (pipe_of w)) _ Hf') as [E1' E2'].
    change (mem_ok (owns (regs w) (fetched w))
      (held_first (with_first None (pipe_of w)) (delete i (pending w)))
      (held_second (with_first None (pipe_of w)) (delete i (pending w))) (live w ∖ {[p]}) (next_ptr w)).
    rewrite E1', E2'. simpl. rewrite <-(without_eq p (Some p)) by done.
    rewrite <-(without_ne p (second_cb (pipe_of w))) by (by apply (me_apart _ _ _ _ _ L3)).
    eapply mem_release; [exact L3|]. intros k q. split; [|by intros [? _]].
    intros Ho. split; [done|]. intros ->. by destruct (Hno k).
  - eexists. split; [done|]. split; simpl; auto; try done.
    + change (pipe_of (set_pending (delete i (pending w)) w)) with (pipe_of w).
      destruct (held_deletions _ (pipe_of w) _ Hf') as [-> ->]. by rewrite Ep.
    + intros p H. change (first_cb (pipe_of w) = Some p) in H. congruence.
Qed.

Lemma delete_second_life cli ph w i :
  life_ok cli ph w -> pending w !! i = Some DeleteSecond ->
  (forall f, f ∈ fetched w -> second_cb (pipe_of w) <> Some (fe_ptr f)) ->
  exists w', delete_second (set_pending (delete i (pending w)) w) = Done tt w' /\ life_ok cli ph w'.
Proof.
  intros [L1 L2 L3 L4 L5 L6 L7 L8 L9] Hi Hrace.
  assert (DeleteSecond ∈ pending w) as Hin by (by eapply list_elem_of_lookup_2).
  assert (deletion ph DeleteSecond) as Hd.
  { destruct ph as [| |s|s]; simpl in L5.
    - destruct L5 as [E|(q & E & _)]; rewrite E in Hin; set_solver.
    - destruct L5 as (q & E & _); rewrite E in Hin; set_solver.
    - rewrite Forall_forall in L5. auto.
    - rewrite Forall_forall in L5. auto. }
  destruct (pending_delete _ _ _ _ _ _ L5 Hi Hd) as (Hf & Hf' & Hph).
  destruct (held_deletions _ (pipe_of w) _ Hf) as [E1 E2].
  assert (forall x, pend_ok ph x (delete i (pending w)) (owns (regs w) (fetched w))) as Hpend
    by (destruct Hph as [[? ->]|[? ->]]; done).
  assert (forall p, first_cb (pipe_of w) = Some p -> owns (regs w) (fetched w) KFirst p \/
    ph = Watching \/ DeleteFirst ∈ delete i (pending w)) as Hs
    by (intros p [H|[H|H]]%L6; [by left|by auto|right; right; by eapply in_delete]).
  pose proof (L8 Hin) as Hgone.
  rewrite E1, E2 in L3. unfold delete_second, free, update. unM.
  change (pipe_of (set_pending (delete i (pending w)) w)) with (pipe_of w).
  destruct (second_cb (pipe_of w)) as [p|] eqn:Ep.
  - assert (p ∈ live w) as Hlive by (apply (me_live _ _ _ _ _ L3); auto).
    assert (forall k, ~ owns (regs w) (fetched w) k p) as Hno.
    { intros k Ho. pose proof (proj1 (me_second _ _ _ _ _ L3 _ _ Ho) eq_refl) as ->.
      destruct Ho as [(s & r & Hr & Hk & _)|(f & Hfe & _ & Hp)]; [|by destruct (Hrace f Hfe); rewrite Hp].
      by destruct (Hgone _ _ Hr). }
    simpl. rewrite decide_True by done. eexists. split; [done|]. split; simpl; try done; auto.
    destruct (held_deletions _ (with_second None (pipe_of w)) _ Hf') as [E1' E2'].
    change (mem_ok (owns (regs w) (fetched w))
      (held_first (with_second None (pipe_of w)) (delete i (pending w)))
      (held_second (with_second None (pipe_of w)) (delete i (pending w))) (live w ∖ {[p]}) (next_ptr w)).
    rewrite E1', E2'. simpl. rewrite <-(without_eq p (Some p)) by done.
    rewrite <-(without_ne p (first_cb (pipe_of w))) by (intros H; by destruct (me_apart _ _ _ _ _ L3 p H)).
    eapply mem_release; [exact L3|]. intros k q. split; [|by intros [? _]].
    intros Ho. split; [done|]. intros ->. by destruct (Hno k).
  - eexists. split; [done|]. split; simpl; auto; try done.
    + change (pipe_of (set_pending (delete i (pending w)) w)) with (pipe_of w).
      destruct (held_deletions _ (pipe_of w) _ Hf') as [-> ->]. by rewrite Ep.
    + intros p H. change (second_cb (pipe_of w) = Some p) in H. congruence.
Qed.

Lemma assign_first_life cli w ptr :
  life_ok cli Queued w -> pending w = [AssignFirst ptr] ->
  life_ok cli Queued (set_pipe (with_first (Some ptr) (pipe_of w)) (set_pending [] w)).
Proof.
  intros [L1 L2 L3 L4 L5 L6 L7 L8 L9] Hpd. rewrite Hpd in *. simpl in L3, L5.
  destruct L5 as [?|(q & [= <-] & Hn & Ho)]; [done|]. split; simpl; try done; auto.
  - intros p [= <-]. by left.
  - intros p [H|H]%L7; [by left|]. by apply list_elem_of_singleton in H.
  - intros H. by apply elem_of_nil in H.
Qed.

(** An assignment is alone. *)
Lemma pending_assign ph x pd O i p :
  pend_ok ph x pd O ->
  (pd !! i = Some (AssignFirst p) -> ph = Queued /\ pd = [AssignFirst p] /\ i = 0) /\
  (pd !! i = Some (AssignSecond p) -> ph = Watching /\ pd = [AssignSecond p] /\ i = 0).
Proof.
  intros H. destruct ph as [| |s|s]; simpl in H.
  - destruct H as [->|(q & -> & _)]; [done|]. destruct i; [|done]. simpl. naive_solver.
  - destruct H as (q & -> & _). destruct i; [|done]. simpl. naive_solver.
  - rewrite Forall_lookup in H. split; intros Hi; by destruct (H _ _ Hi) as [|[]].
  - rewrite Forall_lookup in H. split; intros Hi; by destruct (H _ _ Hi) as [|[]].
Qed.

Lemma step_life ip p1 p2 cli ph w i srv r :
  life_ok cli ph w -> env_ok cli w (PStep i srv r) -> no_race w (PStep i srv r) ->
  exists ph' w', life_ok cli ph' w' /\
    (exec_step ip p1 p2 i srv r w = Done tt w' \/ exec_step ip p1 p2 i srv r w = Wait w').
Proof.
  intros Hok He Hr. simpl in He, Hr. unfold exec_step. unM.
  destruct (pending w !! i) as [d|] eqn:Hi; [|exists ph, w; auto]. simpl.
  pose proof (lf_pend _ _ _ Hok) as Hp. destruct d as [ptr|ptr| |].
  - destruct (proj1 (pending_assign _ _ _ _ _ _ Hp) Hi) as (-> & Hpd & ->). rewrite Hpd. simpl.
    exists Queued. eexists. split; [by apply assign_first_life|by left].
  - destruct (proj2 (pending_assign _ _ _ _ _ _ Hp) Hi) as (-> & Hpd & ->). rewrite Hpd. simpl.
    destruct He as [Hne Hsrv].
    destruct (schedule_connect_life ip p1 p2 cli ptr srv r w) as (w' & E & Hw'); try done.
    rewrite E. eauto.
  - destruct (delete_first_life cli ph w i) as (w' & E & Hw'); try done. rewrite E. eauto.
  - destruct (delete_second_life cli ph w i) as (w' & E & Hw'); try done. rewrite E. eauto.
Qed.

(** ** Events *)

Lemma pend_mono ph x pd (O O' : cb_kind -> N -> Prop) :
  pend_ok ph x pd O -> (forall k p, O k p -> O' k p) -> pend_ok ph x pd O'.
Proof. intros H HO. destruct ph; simpl in *; naive_solver. Qed.

Lemma fetch_life cli ph w soc ready :
  life_ok cli ph w ->
  exists w', life_ok cli ph w' /\ (fetch soc ready w = Done tt w' \/ fetch soc ready w = Wait w').
Proof.
  intros Hok. unfold fetch. unM. destruct (regs w !! soc) as [r|] eqn:Hr; [|exists w; auto].
  eexists. split; [|by left]. destruct Hok as [L1 L2 L3 L4 L5 L6 L7 L8 L9].
  destruct (L4 _ _ Hr) as [Hk Hpos].
  pose proof (fun k p => owns_fetch (regs w) (fetched w) soc r ready k p Hr) as Ho.
  split; simpl; try done.
  - by apply uniq_fetch.
  - by eapply mem_ext.
  - intros s r' [_ H]%lookup_delete_Some. by apply L4.
  - eapply pend_mono; [exact L5|]. intros k p. apply Ho.
  - intros p [H|H]%L6; [left; by apply Ho|by auto].
  - intros p [H|H]%L7; [left; by apply Ho|by auto].
  - intros H s r' [_ Hr']%lookup_delete_Some. by eapply L8.
  - unfold works. simpl. rewrite fmap_app, app_assoc. apply works_add; simpl; try done.
    + by apply works_unreg.
    + intros Hc. unfold is_connect in Hc. simpl in Hc. destruct (pr_kind r) eqn:E; try done.
      simpl in Hk. subst ph. simpl in *. pose proof (wk_connect _ _ _ _ L9) as W. simpl in W.
      rewrite Hr, E, bool_decide_true in W by done. simpl in W. rewrite lookup_delete_eq.
      split; [unfold works in W; lia|done].
    + intros E. rewrite lookup_delete_eq. split; [|done].
      destruct (wk_monitor _ _ _ _ L9 soc) as [_ H]. unfold works in H.
      destruct (count (monitors soc) _); [done|]. rewrite H in Hr by lia. done.
Qed.

(** The field that the wrapper clears. *)
Definition cleared (k : cb_kind) (x : TcpPipe) : TcpPipe :=
  match k with
  | KFirst => with_first None x
  | KCliClosed => with_second None x
  | _ => x
  end.

Definition handled (i : nat) (f : fetched_event) (w : pworld) : pworld :=
  set_live (live w ∖ {[fe_ptr f]})
    (set_tasks (tasks w ++ [task_of f])
      (set_pipe (cleared (pr_kind (fe_reg f)) (pipe_of w))
        (set_fetched (delete i (fetched w)) w))).

(** The pointer of a callback that has run is nowhere any more. *)
Lemma cleared_held cli ph w f i :
  life_ok cli ph w -> fetched w !! i = Some f -> no_race w (PHandle i) ->
  let x := cleared (pr_kind (fe_reg f)) (pipe_of w) in
  held_first x (pending w) = without (fe_ptr f) (held_first (pipe_of w) (pending w)) /\
  held_second x (pending w) = without (fe_ptr f) (held_second (pipe_of w) (pending w)).
Proof.
  intros Hl Hi Hr. simpl in Hr. rewrite Hi in Hr.
  assert (owns (regs w) (fetched w) (pr_kind (fe_reg f)) (fe_ptr f)) as Ho
    by (apply owns_fetched; by eapply list_elem_of_lookup_2).
  pose proof (me_first _ _ _ _ _ (lf_mem _ _ _ Hl) _ _ Ho) as H1.
  pose proof (me_second _ _ _ _ _ (lf_mem _ _ _ Hl) _ _ Ho) as H2.
  set (pd := pending w) in *. set (x := pipe_of w) in *.
  destruct (pr_kind (fe_reg f)); simpl.
  2,3: rewrite !without_ne by naive_solver; done.
  - rewrite (without_eq _ _ (proj2 H1 eq_refl)), without_ne by naive_solver.
    destruct pd as [|[p|p| |] pd]; simpl in *; try done. by destruct (Hr p); left.
  - rewrite (without_eq _ _ (proj2 H2 eq_refl)), without_ne by naive_solver.
    destruct pd as [|[p|p| |] pd]; simpl in *; try done. by destruct (Hr p); left.
Qed.

Lemma life_handled cli ph w i f :
  life_ok cli ph w -> fetched w !! i = Some f -> no_race w (PHandle i) ->
  life_ok cli ph (handled i f w).
Proof.
  intros Hl Hi Hr. destruct (cleared_held cli ph w f i Hl Hi Hr) as [E1 E2].
  destruct (uniq_handle _ _ _ _ (lf_uniq _ _ _ Hl) Hi) as [Hu Ho].
  assert (f ∈ fetched w) as Hf by (by eapply list_elem_of_lookup_2).
  pose proof Hl as [L1 L2 L3 L4 L5 L6 L7 L8 L9].
  set (k := pr_kind (fe_reg f)) in *.
  assert (owns (regs w) (fetched w) k (fe_ptr f)) as Hof by (by apply owns_fetched).
  assert (forall p, first_cb (cleared k (pipe_of w)) = Some p ->
    first_cb (pipe_of w) = Some p /\ p <> fe_ptr f) as Hc1.
  { intros p H. assert (first_cb (pipe_of w) = Some p) as H' by (by destruct k). split; [done|].
    intros ->. pose proof (first_held _ _ _ _ _ L5 H') as Hh.
    apply (me_first _ _ _ _ _ L3 _ _ Hof) in Hh. by rewrite Hh in H. }
  assert (forall p, second_cb (cleared k (pipe_of w)) = Some p ->
    second_cb (pipe_of w) = Some p /\ p <> fe_ptr f) as Hc2.
  { intros p H. assert (second_cb (pipe_of w) = Some p) as H' by (by destruct k). split; [done|].
    intros ->. pose proof (second_held _ _ _ _ _ L5 H') as Hh.
    apply (me_second _ _ _ _ _ L3 _ _ Hof) in Hh. by rewrite Hh in H. }
  split; simpl; try done.
  - change (pipe_ok cli ph (cleared k (pipe_of w)) (pw_calls w)). by destruct k.
  - change (pipe_of (handled i f w)) with (cleared k (pipe_of w)). rewrite E1, E2.
    by eapply mem_release.
  - change (pipe_of (handled i f w)) with (cleared k (pipe_of w)).
    destruct ph as [| |s|s]; simpl in *; try done.
    + destruct L5 as [?|(p & Hpd & Hn & Hp)]; [by left|]. right. exists p. split; [done|].
      split; [by destruct k|]. apply Ho. split; [done|]. intros ->.
      rewrite Hpd in E1, L3. simpl in E1, L3. by rewrite without_eq in E1.
    + destruct L5 as (p & Hpd & Hn & Hp). exists p. split; [done|].
      split; [by destruct k|]. apply Ho. split; [done|]. intros ->.
      rewrite Hpd in E2, L3. simpl in E2, L3. by rewrite without_eq in E2.
  - intros p [H Hne]%Hc1. destruct (L6 p H) as [H'|H']; [left; by apply Ho|by right].
  - intros p [H Hne]%Hc2. destruct (L7 p H) as [H'|H']; [left; by apply Ho|by right].
  - eapply works_perm; [exact L9|]. unfold works. simpl.
    rewrite (delete_Permutation _ _ _ Hi) at 1. simpl. solve_Permutation.
Qed.

Lemma done_ext w w' :
  pw_job w = pw_job w' -> pw_calls w = pw_calls w' -> regs w = regs w' ->
  fetched w = fetched w' -> pending w = pending w' -> live w = live w' ->
  next_ptr w = next_ptr w' -> connects w = connects w' -> tasks w = tasks w' ->
  moved w = moved w' -> Done tt w = Done tt w'.
Proof. destruct w, w'. simpl. congruence. Qed.

Lemma handle_life cli ph w i :
  life_ok cli ph w -> no_race w (PHandle i) ->
  exists w', life_ok cli ph w' /\ (handle i w = Done tt w' \/ handle i w = Wait w').
Proof.
  intros Hok Hr. unfold handle. unM. destruct (fetched w !! i) as [f|] eqn:Hi; [|exists w; auto].
  exists (handled i f w). split; [by apply life_handled|]. left.
  assert (fe_ptr f ∈ live w) as Hlive.
  { apply (me_live _ _ _ _ _ (lf_mem _ _ _ Hok)). left. eexists. apply owns_fetched.
    by eapply list_elem_of_lookup_2. }
  unfold fe_ptr in Hlive. rewrite decide_True by done.
  destruct f as [[k b p] soc ready]. destruct k; simpl in *;
    unfold FirstCallback, ConnectCallbackWrapper, MonitorCallbackWrapper,
      CliClosedCallbackWrapper, submit, update, free; unM; simpl;
    rewrite decide_True by done; apply done_ext; simpl; try done; by destruct w as [[]].
Qed.

Lemma run_task_life cli ph w i stack x :
  life_ok cli ph w -> (0 <= cli)%Z -> answers_ok x ->
  exists ph' w', life_ok cli ph' w' /\
    (run_task i stack x w = Done tt w' \/ run_task i stack x w = Wait w').
Proof.
  intros Hok Hpos Hx. unfold run_task. unM. destruct (tasks w !! i) as [t|] eqn:Ht;
    [|exists ph, w; auto].
  pose proof (lf_works _ _ _ Hok) as Hw.
  assert (works w !! i = Some t) as Hi by (by apply lookup_app_l_Some).
  set (w1 := set_tasks (delete i (tasks w)) w).
  assert (works w1 = delete i (works w)) as Ew.
  { unfold works. simpl. rewrite delete_take_drop, delete_take_drop.
    apply lookup_lt_Some in Ht. rewrite take_app_le, drop_app_le by lia. by rewrite app_assoc. }
  assert (life_ok cli ph w1) as Hd.
  { apply life_tasks; [done|]. change (works_ok cli ph (regs w) (works w1)). rewrite Ew.
    by eapply works_drop. }
  assert (forall g, count g (works w1) + b2n (g t) = count g (works w)) as Hcnt
    by (intros g; rewrite Ew; by apply count_delete).
  pose proof (wk_kind _ _ _ _ Hw t (list_elem_of_lookup_2 _ _ _ Hi)) as Hk.
  destruct t as [k soc ready]. simpl in *. destruct k; simpl in *.
  - exists ph, w1. split; [exact Hd|by left].
  - destruct (Hk ltac:(done)) as [-> Hsoc]. specialize (Hcnt is_connect). simpl in Hcnt.
    pose proof (wk_connect _ _ _ _ Hw) as Hc.
    assert (connect_armed (regs w) (Connecting soc) = false) as Ha
      by (destruct (connect_armed (regs w) (Connecting soc)); simpl in Hc; [lia|done]).
    destruct (Connect_life cli soc w1 ready) as (w' & E & Hw'); try done; [lia|auto|rewrite E; eauto].
  - destruct (Hk ltac:(done)) as [Hko Hsoc].
    specialize (Hcnt (monitors soc)). unfold monitors in Hcnt at 2. simpl in Hcnt.
    rewrite Z.eqb_refl in Hcnt. simpl in Hcnt. destruct (wk_monitor _ _ _ _ Hw soc) as [H1 H2].
    destruct (Monitor_life cli ph w1 soc ready stack x)
      as (w' & E & Hw'); try done; [apply H2; lia|lia|auto|rewrite E; eauto].
  - destruct (Hk ltac:(done)) as [Hko _].
    destruct (CliClosed_life cli ph w1 soc ready) as (w' & E & Hw'); try done. rewrite E. eauto.
Qed.

(** ** The theorem *)

(** A callback at [p] is registered with epoll or in the worker's buffer. *)
Definition referred (w : pworld) (p : N) : Prop := exists k, owns (regs w) (fetched w) k p.

Section Life.
Context (ip port1 port2 : string) (cli : Z).

Inductive reached (w0 : pworld) : pworld -> Prop :=
| reached_refl : reached w0 w0
| reached_step w e w' : reached w0 w -> env_ok cli w e -> no_race w e ->
    pexec ip port1 port2 e w = Done tt w' -> reached w0 w'.

(** That each event of a run may happen. *)
Fixpoint may_run (es : list pevent) (w : pworld) : Prop :=
  match es with
  | [] => True
  | e :: es' => (env_ok cli w e /\ no_race w e) /\
      match pexec ip port1 port2 e w with Done _ w' => may_run es' w' | _ => False end
  end.

Lemma reached_run es w0 w w' :
  reached w0 w -> may_run es w -> pruns ip port1 port2 es w = Done tt w' -> reached w0 w'.
Proof.
  revert w. induction es as [|e es IH]; intros w Hr; simpl.
  - intros _ [= <-]. done.
  - unM. intros [[He Hn] Hm]. destruct (pexec _ _ _ e w) as [[] w1| |] eqn:E; try done.
    apply IH; [|done]. by eapply reached_step.
Qed.

Lemma pexec_life ph w e :
  life_ok cli ph w -> (0 <= cli)%Z -> env_ok cli w e -> no_race w e ->
  exists ph' w', life_ok cli ph' w' /\
    (pexec ip port1 port2 e w = Done tt w' \/ pexec ip port1 port2 e w = Wait w').
Proof.
  intros Hok Hpos He Hr. destruct e as [|i srv r|soc ready|i|i stack x]; simpl pexec.
  - destruct He as (Hout & Hpd). assert (ph = Queued) as ->.
    { destruct (lf_pipe _ _ _ Hok) as (ci & _ & _ & H). destruct ph as [| |s|s]; [done| | |].
      - by destruct (lf_pend _ _ _ Hok) as (p & E & _); rewrite Hpd in E.
      - destruct H as [H _]. congruence.
      - destruct H as (co & H & _). congruence. }
    destruct (schedule_life cli w) as (w' & E & Hw'); eauto.
  - by apply (step_life _ _ _ cli ph).
  - destruct (fetch_life cli ph w soc ready Hok) as (w' & Hw' & E). eauto.
  - destruct (handle_life cli ph w i Hok Hr) as (w' & Hw' & E). eauto.
  - by apply (run_task_life cli ph).
Qed.

Lemma reached_life id prio w : (0 <= cli)%Z -> reached (received id prio cli) w ->
  exists ph, life_ok cli ph w.
Proof.
  intros Hpos. induction 1 as [|w e w' _ [ph Hok] He Hn E].
  - exists Queued. by apply life_received.
  - destruct (pexec_life ph w e Hok Hpos He Hn) as (ph' & w1 & Hw1 & [E'|E']); [|congruence].
    exists ph'. congruence.
Qed.

(** What is allocated, and what is left when no thread is in the middle of
    something. *)
Lemma life_live ph w : life_ok cli ph w ->
  (forall p, p ∈ live w <->
    referred w p \/ first_cb (pipe_of w) = Some p \/ second_cb (pipe_of w) = Some p) /\
  (pending w = [] -> forall p, p ∈ live w <-> referred w p).
Proof.
  intros Hok. pose proof (lf_mem _ _ _ Hok) as Hm. pose proof (lf_pend _ _ _ Hok) as Hp.
  assert (forall p, p ∈ live w <->
    referred w p \/ first_cb (pipe_of w) = Some p \/ second_cb (pipe_of w) = Some p) as Hlive.
  { intros p. rewrite (me_live _ _ _ _ _ Hm). unfold referred. split.
    - intros [?|[H|H]]; [by left| |]; apply (held_inv _ _ _ _ _ Hp) in H as [?|?]; eauto.
    - intros [?|[H|H]]; [by left|right; left; by eapply first_held|right; right; by eapply second_held]. }
  split; [done|]. intros Hpd p. rewrite Hlive. split; [|by left]. unfold referred.
  intros [H|[H|H]]; [done| |].
  - apply (lf_first _ _ _ Hok) in H as [H|[-> |H]]; [by eauto| |].
    + destruct Hp as (q & E & _). congruence.
    + rewrite Hpd in H. by apply elem_of_nil in H.
  - apply (lf_second _ _ _ Hok) in H as [H|H]; [by eauto|]. rewrite Hpd in H.
    by apply elem_of_nil in H.
Qed.

Lemma life_calls ph w : life_ok cli ph w ->
  pw_calls w = [] \/ pw_calls w = [sys_shutdown cli] \/
  exists co, pipe_out (pipe_of w) = Some (mkHalfPipe (Some co)) /\
    pw_calls w = [sys_shutdown (Socket co)].
Proof.
  intros Hok. destruct (lf_pipe _ _ _ Hok) as (ci & _ & <- & H). destruct ph as [| |s|s].
  - left. by destruct H as (_ & _ & ->).
  - left. by destruct H as (_ & _ & ->).
  - left. by destruct H as (_ & _ & _ & ->).
  - destruct H as (co & -> & _ & _ & [(_ & _ & ->)|(_ & _ & [-> | ->])]); eauto.
Qed.

(** C18. The life of a proxied job, from ReceivedConnection on.  The job is
    scheduled, its epoll events are fetched and later handled, its tasks are run
    and its threads go on, in any order except for four races that the code does
    not exclude and that this theorem leaves out: the callback of [first_cb] or
    of [second_cb] runs before the pointer that Monitor returned is assigned to
    that field, and [first_cb] or [second_cb] is deleted while the epoll worker
    has its event in its buffer (the four examples below show each of them end in
    a use of freed memory).  The server's descriptor is assumed new, the job to
    be dispatched after the assignment of [first_cb] and dequeued once, and read
    and send to answer so that Pipe returns; each callback, and each test and
    deletion of a field, is one step.  Then no step goes through a null or
    dangling pointer, frees a callback twice or monitors an invalid socket; a
    callback is allocated exactly as long as epoll, the worker's buffer,
    [first_cb] or [second_cb] refers to it, and only epoll and the buffer do once
    no thread has an assignment or a deletion to do, so none leaks; and the pipe
    has made no shutdown(2) call or a single one, of the client's socket or of
    the server's. *)
Theorem proxied_job_lifecycle id prio w e :
  (0 <= cli)%Z -> reached (received id prio cli) w -> env_ok cli w e -> no_race w e ->
  (forall f, pexec ip port1 port2 e w <> Crash f) /\
  (forall p, p ∈ live w <->
    referred w p \/ first_cb (pipe_of w) = Some p \/ second_cb (pipe_of w) = Some p) /\
  (pending w = [] -> forall p, p ∈ live w <-> referred w p) /\
  (pw_calls w = [] \/ pw_calls w = [sys_shutdown cli] \/
   exists co, pipe_out (pipe_of w) = Some (mkHalfPipe (Some co)) /\
     pw_calls w = [sys_shutdown (Socket co)]).
Proof.
  intros Hpos Hr He Hn. destruct (reached_life id prio w Hpos Hr) as [ph Hok].
  destruct (pexec_life ph w e Hok Hpos He Hn) as (ph' & w' & _ & E).
  split; [by intros f Hf; destruct E as [E|E]; rewrite E in Hf|].
  destruct (life_live ph w Hok) as [H1 H2]. split; [done|]. split; [done|].
  by apply (life_calls ph).
Qed.

End Life.

(** ReceivedConnection's assignment, then StartScheduling up to the return of
    Connect, for a server on descriptor 6. *)
Definition scheduling : list pevent :=
  [PStep 0 0 CommHandler.Connected; PSchedule; PStep 0 6 (CommHandler.ConnectError 115)].

Definition hung_up : ReadyFor := mkReadyFor false false 16 0.
Definition writable : ReadyFor := mkReadyFor false true 4 0.

Definition go_on (i : nat) : pevent := PStep i 0 CommHandler.Connected.
Definition run_it (i : nat) : pevent := PRun i [] (mkIo [Closed] [] []).

(** A job that is scheduled, whose connect completes, whose replaced callbacks
    are deleted and whose ends are both monitored: the client's data is about to
    be piped. *)
Lemma proxied_job_lifecycle_witness : exists w,
  reached "10.0.0.2" "5011" "5010" 5 (received 1 0 5) w /\ tasks w <> [] /\ pending w = [] /\
  let e := PRun 0 [] (mkIo [Data [7; 8]%Z; ReadErr EAGAIN] [Room 1; Room 1] []) in
  (forall f, pexec "10.0.0.2" "5011" "5010" e w <> Crash f) /\
  (forall p, p ∈ live w <->
    referred w p \/ first_cb (pipe_of w) = Some p \/ second_cb (pipe_of w) = Some p) /\
  (pending w = [] -> forall p, p ∈ live w <-> referred w p) /\
  (pw_calls w = [] \/ pw_calls w = [sys_shutdown 5] \/
   exists co, pipe_out (pipe_of w) = Some (mkHalfPipe (Some co)) /\
     pw_calls w = [sys_shutdown (Socket co)]).
Proof.
  set (es := scheduling ++ [go_on 0; PFetch 6 writable; PHandle 0; run_it 0; go_on 0;
    PFetch 5 (mkReadyFor true false 1 0); PHandle 0]).
  assert (may_run "10.0.0.2" "5011" "5010" 5 es (received 1 0 5)) as Hm.
  { vm_compute. split_and!; try done; try (intros f Hf; by apply elem_of_nil in Hf). }
  assert (exists w, pruns "10.0.0.2" "5011" "5010" es (received 1 0 5) = Done tt w /\ tasks w <> [] /\
    pending w = []) as (w & E & Ht & Hpd)
    by (vm_compute; eexists; split; [reflexivity|split; [discriminate|reflexivity]]).
  assert (reached "10.0.0.2" "5011" "5010" 5 (received 1 0 5) w) as Hr
    by (eapply reached_run; [apply reached_refl|exact Hm|exact E]).
  exists w. split; [done|]. split; [done|]. split; [done|].
  apply (proxied_job_lifecycle _ _ _ 5 1 0); [done|exact Hr| |done].
  split; [done|repeat constructor; simpl; lia|simpl; lia|simpl; unfold INT_MAX; lia].
Defined.

(** ** The races *)

Definition job_runs (es : list pevent) : outcome pworld unit :=
  pruns "10.0.0.2" "5011" "5010" es (received 1 0 5).

(** The client hangs up between MonitorNew and the assignment of its result:
    [first_cb] is left with a freed pointer, which the scheduler deletes again. *)
Theorem first_cb_assigned_late :
  job_runs ([PFetch 5 hung_up; PHandle 0] ++ scheduling ++ [go_on 0]) = Crash UseAfterFree.
Proof. reflexivity. Qed.

(** The scheduler deletes [first_cb] while the epoll worker has its event. *)
Theorem first_cb_deleted_fetched :
  job_runs ([go_on 0; PFetch 5 hung_up; PSchedule; PStep 0 6 (CommHandler.ConnectError 115);
    go_on 0; PHandle 0]) = Crash UseAfterFree.
Proof. reflexivity. Qed.

(** The client hangs up between Monitor and the assignment of [second_cb]:
    ConnectCallback deletes a freed pointer. *)
Theorem second_cb_assigned_late :
  job_runs ([go_on 0; PSchedule; PFetch 5 hung_up; PHandle 0;
    PStep 0 6 (CommHandler.ConnectError 115); go_on 0; PFetch 6 writable; PHandle 0; run_it 1;
    go_on 0]) = Crash UseAfterFree.
Proof. reflexivity. Qed.

(** ConnectCallback deletes [second_cb] while the epoll worker has its event. *)
Theorem second_cb_deleted_fetched :
  job_runs (scheduling ++ [go_on 0; PFetch 5 hung_up; PFetch 6 writable; PHandle 1; run_it 0;
    go_on 0; PHandle 0]) = Crash UseAfterFree.
Proof. reflexivity. Qed.

End ProxyLife.
