(* ===== verification/ProxyFlow.v ===== *)
(** * What the proxy's callbacks do with a pipe's result

    MonitorCallback on a ready socket: the bytes are copied, counted and the
    socket is armed again; and the results for which it does something else than
    the log messages of proxy_dstage.cc say. *)

From stdpp Require Import prelude gmap list strings.
From S2P Require Import Prelude Synchronization ProxyPipe ThrottlerStats CommHandler Proxy.
From S2P Require Import JobTypes.

Module ProxyFlow.
Import Connection TcpPipe Proxy.

(** The end of MonitorCallback once Pipe has returned a count or -TRY_LATER. *)
Definition piped (soc : Z) (n : Z) (bytes : list (Z * Z)) (w : pworld) : pworld :=
  let w1 := set_total (ThrottlerStats.ReportThroughput (pj_total (pw_job w)) (u32_of_Z n))
              (add_moved bytes w) in
  mkPworld (pw_job w1) (pw_calls w1) (<[soc := mkPreg KMonitor true (next_ptr w)]> (regs w1))
    (fetched w1) (pending w1) ({[next_ptr w]} ∪ live w1) (next_ptr w1 + 1) (connects w1) (tasks w1) (moved w1).

Lemma MonitorCallback_piped stack x soc ready n x' w :
  rf_err ready = 0%Z -> rf_in ready = true -> (0 <= soc)%Z ->
  Pipe (pipe_of w) soc stack x = Done n x' -> (0 < n)%Z \/ n = (- TRY_LATER)%Z ->
  MonitorCallback stack x soc ready w =
    Done tt (piped soc n (drop (length (delivered x)) (delivered x')) w).
Proof.
  intros He Hi Hs Hp Hn. unfold MonitorCallback. rewrite He, Hi. change (negb (0 =? 0)%Z) with false. unM.
  change (negb true) with false. cbv beta iota. rewrite Hp. simpl.
  assert ((n <? 0)%Z && negb (n =? - TRY_LATER)%Z = false) as ->.
  { destruct Hn as [H| ->]; [|done]. by rewrite (proj2 (Z.ltb_ge _ _)) by lia. }
  assert ((n =? 0)%Z = false) as ->
    by (apply Z.eqb_neq; unfold TRY_LATER in *; lia).
  unfold monitor, CHECK. unM. rewrite (proj2 (Z.leb_le _ _) Hs). simpl. done.
Qed.

(** Each end of a joined pipe sends to the other. *)
Lemma other_end ci co f s soc dst :
  Socket ci <> Socket co ->
  (soc = Socket ci /\ dst = Socket co) \/ (soc = Socket co /\ dst = Socket ci) ->
  OtherSocket (joined ci co f s) soc = dst.
Proof.
  intros Hne [[-> ->]|[-> ->]]; unfold OtherSocket, other_out; simpl.
  - rewrite Z.eqb_refl. simpl. by rewrite (proj2 (Z.eqb_neq _ _)) by congruence.
  - by rewrite (proj2 (Z.eqb_neq _ _)).
Qed.

(** C37. The data path of the proxy: when one end of a job whose client and
    server are both connected is ready with the given chunks, at most INT_MAX
    bytes followed by EAGAIN, and every send makes progress, MonitorCallback
    sends exactly those bytes, in order, to the other end, adds their number to
    the job's throughput modulo 2^32, shuts nothing down, and arms the end it has
    read from again for input. *)
Theorem monitor_copies_and_rearms stack chunks snd ci co f s soc dst ready w :
  pipe_of w = joined ci co f s -> Socket ci <> Socket co ->
  (0 <= Socket ci)%Z -> (0 <= Socket co)%Z ->
  (soc = Socket ci /\ dst = Socket co) \/ (soc = Socket co /\ dst = Socket ci) ->
  rf_err ready = 0%Z -> rf_in ready = true -> chunks <> [] ->
  Forall chunk_ok chunks -> Forall progresses snd ->
  length (mjoin chunks) <= length snd ->
  (Z.of_nat (length (mjoin chunks)) <= INT_MAX)%Z ->
  exists w', MonitorCallback stack (mkIo ((Data <$> chunks) ++ [ReadErr EAGAIN]) snd []) soc ready w
      = Done tt w' /\
    moved w' = moved w ++ sent_to dst (mjoin chunks) /\
    pj_total (pw_job w') =
      u32_add (pj_total (pw_job w)) (N.of_nat (length (mjoin chunks))) /\
    regs w' = <[soc := mkPreg KMonitor true (next_ptr w)]> (regs w) /\
    pw_calls w' = pw_calls w /\ pipe_of w' = pipe_of w.
Proof.
  intros Hw Hne Hci Hco Hends He Hi Hch Hc Hp Hlen Hmax.
  pose proof (other_end ci co f s soc dst Hne Hends) as Ho. rewrite <-Hw in Ho.
  assert (0 <= soc /\ 0 <= dst)%Z as [Hs Hd] by (destruct Hends as [[-> ->]|[-> ->]]; done).
  destruct (pipe_loop_data dst chunks (ReadErr EAGAIN) [] stack 0 snd []) as (buf & snd' & _ & E);
    try done; try lia.
  assert (0 < Z.of_nat (length (mjoin chunks)))%Z as Hpos.
  { destruct Hc as [|d chunks Hd' _]; [done|]. unfold chunk_ok in Hd'.
    change (mjoin (d :: chunks)) with (d ++ mjoin chunks). rewrite length_app. lia. }
  eexists. split.
  - apply (MonitorCallback_piped _ _ _ _ (Z.of_nat (length (mjoin chunks)))
      (mkIo [] snd' (sent_to dst (mjoin chunks)))); try done; [|by left].
    unfold Pipe. simpl. rewrite Ho, E. simpl. by rewrite (proj2 (Z.eqb_neq _ _)) by lia.
  - simpl. rewrite drop_0. split_and!; try done. unfold ThrottlerStats.ReportThroughput. f_equal.
    u32_unfold. rewrite Z.mod_small by lia. lia.
Qed.

(** A job between a client on 5 and a server on 6, both ends monitored. *)
Definition job_5_6 : pworld :=
  mkPworld (mkProxyJob 1 0 pipe_5_6 0) [] {[6%Z := mkPreg KMonitor true 4]} [] [] {[4%N]} 5
    [("10.0.0.2", "5011")]%string [] [].

Lemma monitor_copies_and_rearms_witness :
  exists w', MonitorCallback [] (mkIo [Data [7; 8]%Z; ReadErr EAGAIN] [Room 1; Room 1] []) 5
      (mkReadyFor true false 1 0) job_5_6 = Done tt w' /\
    moved w' = sent_to 6 [7; 8]%Z /\ pj_total (pw_job w') = 2%N /\
    regs w' = <[5%Z := mkPreg KMonitor true 5]> (regs job_5_6) /\
    pw_calls w' = [] /\ pipe_of w' = pipe_5_6.
Proof.
  apply (monitor_copies_and_rearms [] [[7; 8]%Z] [Room 1; Room 1] (Connection.new 5)
    (Connection.new 6) None None 5 6 (mkReadyFor true false 1 0) job_5_6);
    [done|discriminate|done|done|by left|done|done|discriminate| | |simpl; lia|simpl; unfold INT_MAX; lia].
  - apply Forall_singleton. unfold chunk_ok, kBufSize. simpl. lia.
  - apply Forall_cons; split; [simpl; lia|]. apply Forall_singleton. simpl. lia.
Defined.

(** A send that fails for good ends the job's monitoring without shutting
    either end down: Pipe returns -SEND_FAIL, which MonitorCallback compares
    with the negated socket. *)
Theorem send_failure_leaves_peer_open stack x soc ready x' w :
  rf_err ready = 0%Z -> rf_in ready = true -> soc <> SEND_FAIL ->
  Pipe (pipe_of w) soc stack x = Done (- SEND_FAIL)%Z x' ->
  exists w', MonitorCallback stack x soc ready w = Done tt w' /\
    regs w' = regs w /\ pw_calls w' = pw_calls w /\ pipe_of w' = pipe_of w.
Proof.
  intros He Hi Hs Hp. unfold MonitorCallback. rewrite He, Hi. change (negb (0 =? 0)%Z) with false. unM.
  change (negb true) with false. cbv beta iota. rewrite Hp.
  assert ((- SEND_FAIL =? - soc)%Z = false) as E by (apply Z.eqb_neq; lia).
  change (- SEND_FAIL <? 0)%Z with true. change (- SEND_FAIL =? - TRY_LATER)%Z with false.
  cbv beta iota. rewrite E. eexists. split; [by unM|done].
Qed.

(** A spurious wake-up is reported as -TRY_LATER completed units: the unsigned
    total loses two. *)
Theorem try_later_corrupts_throughput stack x soc ready x' w :
  rf_err ready = 0%Z -> rf_in ready = true -> (0 <= soc)%Z ->
  Pipe (pipe_of w) soc stack x = Done (- TRY_LATER)%Z x' -> is_u32 (pj_total (pw_job w)) ->
  exists w', MonitorCallback stack x soc ready w = Done tt w' /\
    pj_total (pw_job w') = u32_sub (pj_total (pw_job w)) 2.
Proof.
  intros He Hi Hs Hp Hu. eexists. split; [by apply (MonitorCallback_piped _ _ _ _ (- TRY_LATER)%Z x'); auto|].
  simpl. unfold ThrottlerStats.ReportThroughput, TRY_LATER. u32_unfold.
  change (Z.to_N (- (2) mod 4294967296)) with 4294967294%N. f_equal. lia.
Qed.


(** A connect(2) that succeeds at once is reported like one that fails at once:
    the server is connected, and the proxy shuts the client down. *)
Theorem connect_immediate_shuts_client_down :
  exists w, pruns "10.0.0.2" "5011" "5010"
      [PStep 0 0 CommHandler.Connected; PSchedule; PStep 0 6 CommHandler.Connected;
       PRun 0 [] (mkIo [] [] [])] (received 1 0 5) = Done tt w /\
    connects w = [("10.0.0.2", "5011")]%string /\ pw_calls w = [Connection.sys_shutdown 5].
Proof. vm_compute. eexists. repeat split. Qed.

End ProxyFlow.
