(* ===== verification/ProxyStage.v ===== *)
(** * The proxy as a whole: DStageProxy and ProxyScheduler (proxy_dstage.h, .cc),
      DansThrottlingProxy (dans_throttling_proxy.cc) and dans_proxy.cc

    A job's data is a unique_ptr to a TcpPipe: a reference into the heap of
    pipes.  The application owns the id factory, the communication handler, the
    executor that runs purges and the proxy stage with its throttler.  What a
    scheduled job does afterwards is in Proxy.v. *)

From stdpp Require Import prelude gmap list strings pretty.
From S2P Require Import Prelude Synchronization Job BaseMultiQueue JobTypes MultiQueue.
From S2P Require Import MultiQueueSpec Dispatcher Scheduler DStage Throttler ThrottlerStats.
From S2P Require Import ThrottlerTimer ProxyPipe CommHandler.

Module ProxyStage.
Import MQ MQSpec.

(** The command-line flags. *)
Record Flags := mkFlags {
  server_ip : string;
  primary_prio_port_out : N;
  secondary_prio_port_out : N;
  worker_threads : N;
  primary_priority_throttle : N;
  secondary_priority_throttle : N;
  set_thread_priority : bool
}.

Definition default_flags : Flags := mkFlags "192.168.137.127" 5012 5013 2 1000 1000 false.

(** A job's unique_ptr to its pipe. *)
Abbreviation pipe_ref := N (only parsing).

Definition Queue : Type := @MultiQueue pipe_ref.

(** [_updater] has the members of the Throttler that RunEveryT works on;
    [_destructing] is [None] after its lifetime. *)
Record DStageProxy := mkDStageProxy {
  stage : DStage.DStage Queue;
  _destructing : option bool;
  _worker_exec : Executor.Executor;
  _primary_prio_port_out : string;
  _secondary_prio_port_out : string;
  _server_ip : string;
  _throttler : option Throttler.Throttler;
  _updater : ThrottlerTimer.timer
}.

Definition set_stage (x : DStage.DStage Queue) (s : DStageProxy) : DStageProxy :=
  mkDStageProxy x (_destructing s) (_worker_exec s) (_primary_prio_port_out s)
    (_secondary_prio_port_out s) (_server_ip s) (_throttler s) (_updater s).

Definition set_throttler (t : option Throttler.Throttler) (s : DStageProxy) : DStageProxy :=
  mkDStageProxy (stage s) (_destructing s) (_worker_exec s) (_primary_prio_port_out s)
    (_secondary_prio_port_out s) (_server_ip s) t (_updater s).

Definition set_updater (u : ThrottlerTimer.timer) (s : DStageProxy) : DStageProxy :=
  mkDStageProxy (stage s) (_destructing s) (_worker_exec s) (_primary_prio_port_out s)
    (_secondary_prio_port_out s) (_server_ip s) (_throttler s) u.

Definition set_destructing (s : DStageProxy) : DStageProxy :=
  mkDStageProxy (stage s) (Some true) (_worker_exec s) (_primary_prio_port_out s)
    (_secondary_prio_port_out s) (_server_ip s) (_throttler s) (_updater s).

(** The Throttler and the flag are gone. *)
Definition end_members (s : DStageProxy) : DStageProxy :=
  mkDStageProxy (stage s) None (_worker_exec s) (_primary_prio_port_out s)
    (_secondary_prio_port_out s) (_server_ip s) None (_updater s).

Definition on_stage {A} (m : M (DStage.DStage Queue) A) : M DStageProxy A :=
  zoom stage set_stage m.

Definition on_queue {A} (m : M Queue A) : M DStageProxy A :=
  on_stage (DStage.on_multi_q (fun q => q) (fun q _ => q) m).

Definition queue_of (s : DStageProxy) : Queue := DStage.world (stage s).

(** A call through [_throttler]: the pointer is set by LinkMultiQ and freed with
    the scheduler's members. *)
Definition on_throttler {A} (m : M (Throttler.Throttler * Queue) A) : M DStageProxy A := fun s =>
  match _throttler s with
  | None => Crash UseAfterFree
  | Some t =>
      let put x := set_throttler (Some x.1)
        (set_stage (DStage.mkDStage (DStage._max_priority (stage s)) x.2
           (DStage._dispatcher (stage s)) (DStage._scheduler (stage s))) s) in
      match m (t, queue_of s) with
      | Done a x => Done a (put x)
      | Wait x => Wait (put x)
      | Crash e => Crash e
      end
  end.

(** The uint64 flags are stored into ints. *)
Definition throttle_targets (f : Flags) : Throttler.two Z :=
  Throttler.Two (i32 (Z.of_N (primary_priority_throttle f)))
    (i32 (Z.of_N (secondary_priority_throttle f))).

(** ProxyScheduler::LinkMultiQ, then the base class's. *)
Definition LinkMultiQ (f : Flags) (multi_q_p : option unit) : M DStageProxy unit :=
  _ ← need CheckFailure multi_q_p;
  s ← get;
  t ← need CheckFailure (Throttler.new (MaxPriority (queue_of s)) (throttle_targets f));
  _ ← modify (set_throttler (Some t));
  on_stage (DStage.on_scheduler (Scheduler.LinkMultiQ multi_q_p)).

(** ProxyScheduler's constructor and its members. *)
Definition new_scheduler (f : Flags) (threads_per_prio : list N) :
    outcome (Scheduler.Scheduler * Executor.Executor) unit :=
  match Scheduler.new threads_per_prio (set_thread_priority f) with
  | None => Crash CheckFailure
  | Some sch =>
      match Executor.construct (u32 (worker_threads f)) with
      | Done _ ex => Done tt (sch, ex)
      | Wait ex => Wait (sch, ex)
      | Crash e => Crash e
      end
  end.

(** DStageProxy's constructor: DStage's, with the scheduler's own LinkMultiQ. *)
Definition construct (f : Flags) (threads_per_prio : list N) : outcome DStageProxy unit :=
  let max := u32_sub (u32 (N.of_nat (length threads_per_prio))) 1 in
  let start sch ex := mkDStageProxy
    (DStage.mkDStage max (MQ.new max) (Dispatcher.new max) sch) (Some false) ex
    (pretty (primary_prio_port_out f)) (pretty (secondary_prio_port_out f)) (server_ip f)
    None ThrottlerTimer.idle in
  match new_scheduler f threads_per_prio with
  | Crash e => Crash e
  | Wait (sch, ex) => Wait (start sch ex)
  | Done _ (sch, ex) =>
      (_ ← LinkMultiQ f (Some tt);
       _ ← on_stage (DStage.on_scheduler Scheduler.Run);
       on_stage (DStage.on_dispatcher (Dispatcher.LinkMultiQ (Some tt)))) (start sch ex)
  end.

Definition Dispatch (job_p : option (Job pipe_ref)) (requested_duplication : N) :
    M DStageProxy unit :=
  on_stage (DStage.Dispatch (ForwardingDispatcher.Forward Dispatcher.MoveLast) job_p
              requested_duplication).

Definition Purge (job_id : N) : M DStageProxy N :=
  on_stage (DStage.Purge (T := pipe_ref) (fun q => q) (fun q _ => q)
              (fun id => mret (Scheduler.Purge id)) job_id).

Definition GetThrottler (s : DStageProxy) : option Throttler.Throttler := _throttler s.

(** What a pass of StartScheduling's loop ends with: the worker returns, goes
    round again, or goes on with a job (Proxy.schedule_monitor) and then round. *)
Inductive pass : Type := Return | Continue | Schedule (job : Job pipe_ref).

Definition test_destructing : M DStageProxy bool :=
  s ← get;
  need UseAfterFree (_destructing s).

Definition take_job (prio : N) : M DStageProxy pass :=
  job ← on_throttler (Throttler.Dequeue prio);
  match job with
  | None => mret Continue
  | Some j => mret (Schedule j)
  end.

Definition worker_pass (prio : N) : M DStageProxy pass :=
  test_destructing ≫= fun b : bool => if b then mret Return else take_job prio.

(** The body of ~ProxyScheduler. *)
Definition destroy_scheduler : M DStageProxy unit :=
  _ ← modify set_destructing;
  s ← get;
  if Scheduler._running (DStage._scheduler (stage s)) then on_queue ReleaseQueues else mret tt.

(** Then its members are destroyed, the Throttler first; ~Scheduler joins the
    workers after that. *)
Definition destroy_members : M DStageProxy unit :=
  _ ← zoom _updater set_updater ThrottlerTimer.StopRunningEveryT;
  modify end_members.

Definition join_workers : M DStageProxy unit :=
  on_stage (DStage.on_scheduler (modify Scheduler.destroy)).

End ProxyStage.

Module ThrottlingProxy.
Import MQ MQSpec ProxyStage TcpPipe.

Definition kMaxPrio : N := 1.
Definition kThreadsPerPrio : N := 1.
Definition kPurgeThreadPoolThreads : N := 2.
Definition kPrimaryPriority : N := 0.
Definition kSecondaryPriority : N := 1.

(** The members of DansThrottlingProxy; the pipes and the lambdas that
    ReceivedConnection has allocated (a lambda is known by the pipe whose
    [first_cb] it captures, and holds the job's id); the system calls made by the
    destructors of pipes. *)
Record Proxy := mkProxy {
  _jid_factory : Counter.Counter;
  _comm_handler : CommHandler.handler;
  _exec : Executor.Executor;
  _proxy : DStageProxy;
  pipes : gmap N TcpPipe;
  next_pipe : N;
  lambdas : gmap N N;
  syscalls : list Connection.syscall
}.

Definition set_proxy (x : DStageProxy) (s : Proxy) : Proxy :=
  mkProxy (_jid_factory s) (_comm_handler s) (_exec s) x (pipes s) (next_pipe s) (lambdas s)
    (syscalls s).

Definition set_comm (x : CommHandler.handler) (s : Proxy) : Proxy :=
  mkProxy (_jid_factory s) x (_exec s) (_proxy s) (pipes s) (next_pipe s) (lambdas s)
    (syscalls s).

Definition set_exec (x : Executor.Executor) (s : Proxy) : Proxy :=
  mkProxy (_jid_factory s) (_comm_handler s) x (_proxy s) (pipes s) (next_pipe s) (lambdas s)
    (syscalls s).

Definition set_factory (x : Counter.Counter) (s : Proxy) : Proxy :=
  mkProxy x (_comm_handler s) (_exec s) (_proxy s) (pipes s) (next_pipe s) (lambdas s)
    (syscalls s).

Definition set_pipes (x : gmap N TcpPipe) (s : Proxy) : Proxy :=
  mkProxy (_jid_factory s) (_comm_handler s) (_exec s) (_proxy s) x (next_pipe s) (lambdas s)
    (syscalls s).

Definition on_proxy {A} (m : M DStageProxy A) : M Proxy A := zoom _proxy set_proxy m.
Definition on_comm {A} (m : M CommHandler.handler A) : M Proxy A := zoom _comm_handler set_comm m.
Definition on_exec {A} (m : M Executor.Executor A) : M Proxy A := zoom _exec set_exec m.
Definition on_factory {A} (m : M Counter.Counter A) : M Proxy A := zoom _jid_factory set_factory m.

(** [std::make_unique<TcpPipe>(soc)]. *)
Definition make_pipe (soc : Z) : M Proxy N :=
  s ← get;
  _ ← modify (fun s => mkProxy (_jid_factory s) (_comm_handler s) (_exec s) (_proxy s)
        (<[next_pipe s := TcpPipe.new soc]> (pipes s)) (next_pipe s + 1) (lambdas s)
        (syscalls s));
  mret (next_pipe s).

(** [pipe->first_cb = cb] through a pointer to the pipe. *)
Definition set_first_cb (ref : N) (cb : option N) : M Proxy unit :=
  s ← get;
  p ← need UseAfterFree (pipes s !! ref);
  modify (set_pipes (<[ref := mkTcpPipe (pipe_in p) (pipe_out p) cb (second_cb p)]> (pipes s))).

(** The lambda captures the id and the address of [first_cb]. *)
Definition make_lambda (ref jid : N) : M Proxy unit :=
  modify (fun s => mkProxy (_jid_factory s) (_comm_handler s) (_exec s) (_proxy s) (pipes s)
    (next_pipe s) (<[ref := jid]> (lambdas s)) (syscalls s)).

(** [now]: the clock's reading. *)
Definition ReceivedConnection (priority : N) (now soc : Z) : M Proxy unit :=
  jid ← on_factory JobIdFactory.CreateJobId;
  ref ← make_pipe soc;
  _ ← make_lambda ref jid;
  cb ← on_comm (CommHandler.MonitorNew soc (mkReadyFor false false 0 0) ref);
  _ ← set_first_cb ref (Some cb);
  on_proxy (Dispatch (Some (mkJob jid priority 0 now ref)) 0).

(** The lambda's body: [*memory_ptr = nullptr], and a purge is submitted. *)
Definition first_callback (ref : N) (now : Z) : M Proxy unit :=
  s ← get;
  match lambdas s !! ref with
  | None => mret tt
  | Some jid =>
      _ ← set_first_cb ref None;
      on_exec (Executor.Submit now (Executor.mkExecutorCallback jid jid))
  end.

(** The calls the communication handler makes. *)
Definition called (now : Z) (c : CommHandler.call) : M Proxy unit :=
  match c with
  | CommHandler.CallBack1 priority soc => ReceivedConnection priority now soc
  | CommHandler.CallBack2 ref _ _ => first_callback ref now
  end.

Fixpoint called_all (now : Z) (l : list CommHandler.call) : M Proxy unit :=
  match l with
  | [] => mret tt
  | c :: l' => _ ← called now c; called_all now l'
  end.

(** The pipes of the jobs that a purge destroys. *)
Definition refs_of (jid : N) (q : Queue) : list N :=
  (fun e => job_data e.1) <$> default [] (_value_mapper q !! jid).

Definition conns (p : TcpPipe) : list Connection.Connection :=
  omap conn_of [pipe_in p; pipe_out p].

(** ~TcpPipe: the connections are shut down and closed, which takes their
    sockets out of the epoll set. *)
Definition destroy_pipe (ref : N) : M Proxy unit :=
  s ← get;
  p ← need UseAfterFree (pipes s !! ref);
  _ ← modify (set_pipes (delete ref (pipes s)));
  _ ← on_comm (modify (fun h => CommHandler.set_epoll
        (foldr (fun c m => delete (Connection.Socket c) m) (CommHandler.epoll h) (conns p)) h));
  modify (fun s => mkProxy (_jid_factory s) (_comm_handler s) (_exec s) (_proxy s) (pipes s)
    (next_pipe s) (lambdas s)
    (syscalls s ++ mjoin ((fun c => (Connection.destroy c).2) <$> conns p))).

Fixpoint destroy_pipes (refs : list N) : M Proxy unit :=
  match refs with
  | [] => mret tt
  | ref :: refs' => _ ← destroy_pipe ref; destroy_pipes refs'
  end.

(** [proxy_p->Purge(jid)]. *)
Definition Purge (jid : N) : M Proxy N :=
  s ← get;
  n ← on_proxy (ProxyStage.Purge jid);
  _ ← destroy_pipes (refs_of jid (queue_of (_proxy s)));
  mret n.

(** A pass of one of [_exec]'s workers, and the closure it runs. *)
Definition exec_pass : M Proxy bool :=
  s ← get;
  b ← on_exec (Executor.worker_pass 0);
  s' ← get;
  match drop (length (Executor.ran (_exec s))) (Executor.ran (_exec s')) with
  | t :: _ => _ ← Purge (Executor.closure t); mret b
  | [] => mret b
  end.

Definition start (f : Flags) (ex : Executor.Executor) (p : DStageProxy) : Proxy :=
  mkProxy (JobIdFactory.new 0) (CommHandler.new 1) ex p ∅ 1 ∅ [].

(** DansThrottlingProxy(): the members in their order, then both ports;
    [soc1] and [soc2] are the sockets Serve creates.  Executor's constructor
    never waits (Executor.construct_ok). *)
Definition construct (f : Flags) (soc1 soc2 : Z) : outcome Proxy unit :=
  match Executor.construct kPurgeThreadPoolThreads with
  | Crash e => Crash e
  | Wait _ => Crash CheckFailure
  | Done _ ex =>
      match ProxyStage.construct f (replicate (N.to_nat (kMaxPrio + 1)) kThreadsPerPrio) with
      | Crash e => Crash e
      | Wait p => Wait (start f ex p)
      | Done _ p =>
          (_ ← on_comm (CommHandler.Serve soc1 kPrimaryPriority);
           on_comm (CommHandler.Serve soc2 kSecondaryPriority)) (start f ex p)
      end
  end.

(** [_proxy.GetThrottler()->SetThrottle(prio, threshold)]. *)
Definition SetThrottle (prio : N) (threshold : Z) : M Proxy unit :=
  on_proxy (fun p =>
    match GetThrottler p with
    | None => Crash NullDeref
    | Some t =>
        match Throttler.SetThrottle prio threshold t with
        | Done _ t' => Done tt (set_throttler (Some t') p)
        | Wait t' => Wait (set_throttler (Some t') p)
        | Crash e => Crash e
        end
    end).

(** The constructor that sets both throttles and starts the updater. *)
Definition construct_with (f : Flags) (soc1 soc2 primary_throttle secondary_throttle : Z) :
    outcome Proxy unit :=
  match construct f soc1 soc2 with
  | Done _ s =>
      (_ ← SetThrottle kPrimaryPriority primary_throttle;
       _ ← SetThrottle kSecondaryPriority secondary_throttle;
       on_proxy (zoom _updater set_updater ThrottlerTimer.RunEveryT)) s
  | o => o
  end.

End ThrottlingProxy.
