(* ===== verification/ProxyApp.v ===== *)
(** * From an accepted connection to a queued job

    The composition of the communication handler, the id factory, the proxy
    stage and the purging executor in DansThrottlingProxy. *)

From stdpp Require Import prelude gmap list strings pretty.
From S2P Require Import Prelude Synchronization Job BaseMultiQueue JobTypes MultiQueue.
From S2P Require Import MultiQueueSpec Dispatcher Scheduler DStage Throttler ThrottlerStats.
From S2P Require Import ThrottlerTimer ProxyPipe CommHandler ProxyStage.

Set Warnings "-clear-no-such-hyp".

Module ProxyApp.
Import MQ MQSpec ProxyStage TcpPipe ThrottlingProxy.

(** ** The stage *)

Definition stage_ok (p : DStageProxy) (A : list (list (Job N))) : Prop :=
  DStage.running_stage (T := N) (fun q => q) (stage p) /\ repr (queue_of p) A.

Lemma dispatch_ok p A job :
  stage_ok p A -> (priority job < N.of_nat (length A))%N -> is_u32 (priority job) ->
  exists x, Dispatch (Some job) 0 p = Done tt (set_stage x p) /\
    stage_ok (set_stage x p) (abs_enqueue job A).
Proof.
  intros [[Hl Hrun] HA] Hp Hu. change (mq_repr (queue_of p) A) in HA.
  pose proof (mq_repr_max _ _ HA) as Hlen.
  destruct (ForwardingDispatcher.forward_enqueues (T := N) (DStage._dispatcher (stage p))
    (queue_of p) A job 0 Hl HA) as (q' & E & HA' & Hl').
  - destruct Hl as (_ & _ & ->). unfold queue_of in *. lia.
  - by rewrite N.add_0_r.
  - unfold Dispatch, on_stage, DStage.Dispatch, DStage.on_dispatcher, zoom. simpl.
    unfold queue_of in E. rewrite E. eexists. split; [reflexivity|]. split; [by split|exact HA'].
Qed.

Lemma purge_ok p A id :
  stage_ok p A ->
  exists x, ProxyStage.Purge id p = Done (u32 (N.of_nat (abs_count id A))) (set_stage x p) /\
    stage_ok (set_stage x p) (abs_purge id A).
Proof.
  intros [[(Hr & Hk & Hm) Hrun] HA]. change (mq_repr (queue_of p) A) in HA.
  destruct (mq_purge_spec (queue_of p) A id HA) as (q' & E & HA').
  unfold ProxyStage.Purge, on_stage, DStage.Purge, DStage.on_multi_q, zoom. unM.
  unfold queue_of in E. rewrite E. simpl. eexists. split.
  - f_equal. unfold u32_add, Scheduler.Purge. rewrite N.add_0_r. apply u32_small, u32_lt.
  - split; [split; [|exact Hrun]|exact HA']. split; [done|]. split; [done|].
    simpl. rewrite Hm. pose proof (mq_repr_max _ _ HA) as H1. pose proof (mq_repr_max _ _ HA') as H2.
    unfold abs_purge in H2. rewrite length_fmap in H2. unfold queue_of in H1. simpl in *. lia.
Qed.

Lemma construct_stage_ok f :
  Throttler.targets_ok (throttle_targets f) = true ->
  exists p t, ProxyStage.construct f [1; 1]%N = Done tt p /\ stage_ok p [[]; []] /\
    _throttler p = Some t /\ Throttler.new 1 (throttle_targets f) = Some t /\
    ProxyStage._destructing p = Some false /\
    Scheduler._workers (DStage._scheduler (stage p)) = [[0]; [1]]%N.
Proof.
  intros Ht. unfold ProxyStage.construct, new_scheduler. simpl.
  destruct (Executor.construct_ok (u32 (worker_threads f))) as (ex & -> & _ & _).
  assert (exists t, Throttler.new 1 (throttle_targets f) = Some t) as [t Et].
  { unfold Throttler.new. rewrite Ht. by eexists. }
  unfold LinkMultiQ, on_stage, DStage.on_scheduler, zoom. unM. simpl.
  change (u32_sub (u32 (N.of_nat 2)) 1) with 1%N. rewrite Et. simpl.
  unfold Scheduler.LinkMultiQ, Scheduler.Run. unM. simpl.
  destruct (set_thread_priority f); simpl;
  unfold DStage.on_dispatcher, Dispatcher.LinkMultiQ, zoom; unM; simpl;
    eexists _, t; (split; [reflexivity|]); (split; [|done]); (split; [by repeat split|]);
    by apply (repr_new 1).
Qed.

(** ** One connection *)

(** A job that waits in a queue: its pipe has the client's connection and no
    server, its socket is registered and armed, the registered callback is the
    one [first_cb] points to, and it runs the job's lambda. *)
Definition queued (s : Proxy) (j : Job N) (soc : Z) : Prop :=
  exists ptr,
    pipes s !! job_data j =
      Some (mkTcpPipe (Some (mkHalfPipe (Some (Connection.new soc)))) None (Some ptr) None) /\
    CommHandler.epoll (_comm_handler s) !! soc =
      Some (CommHandler.mkReg (CommHandler.monitor_events 0) ptr true) /\
    CommHandler.heap (_comm_handler s) !! ptr =
      Some (CommHandler.new_callback CommHandler.BMonitorSocketReady soc (job_data j)
              CommHandler.DELETE_AFTER_CALLING) /\
    lambdas s !! job_data j = Some (job_id j) /\
    (job_data j < next_pipe s)%N /\ (ptr < CommHandler.next_cb (_comm_handler s))%N.

Lemma received_ok s A p now soc :
  stage_ok (_proxy s) A -> (p < N.of_nat (length A))%N -> is_u32 p ->
  (0 <= Counter._count (_jid_factory s) < INT_MAX)%Z -> (0 <= soc)%Z ->
  CommHandler.epoll (_comm_handler s) !! soc = None ->
  exists s' j, ReceivedConnection p now soc s = Done tt s' /\
    stage_ok (_proxy s') (abs_enqueue j A) /\ priority j = p /\
    job_id j = Z.to_N (Counter._count (_jid_factory s) + 1) /\ job_data j = next_pipe s /\
    queued s' j soc /\ _exec s' = _exec s /\
    Counter._count (_jid_factory s') = (Counter._count (_jid_factory s) + 1)%Z /\
    (forall soc', soc' <> soc -> CommHandler.epoll (_comm_handler s') !! soc' =
       CommHandler.epoll (_comm_handler s) !! soc') /\
    (forall j' soc', soc' <> soc -> queued s j' soc' -> queued s' j' soc').
Proof.
  intros Hst Hp Hu Hc Hs He.
  set (jid := Z.to_N (Counter._count (_jid_factory s) + 1)).
  destruct (dispatch_ok (_proxy s) A (mkJob jid p 0 now (next_pipe s)) Hst) as (x & E & Hst');
    [done|done|].
  unfold ReceivedConnection. erewrite bind_Done; last first.
  { unfold on_factory, zoom. rewrite JobIdFactory.CreateJobId_ok by done. reflexivity. }
  fold jid. unfold make_pipe, make_lambda, on_comm, CommHandler.MonitorNew, CommHandler.MonitorFor,
    CommHandler.publish, set_first_cb, on_proxy, zoom. unM. simpl.
  rewrite (proj2 (Z.leb_le _ _) Hs). simpl. rewrite lookup_insert_eq. simpl. rewrite E.
  eexists _, (mkJob jid p 0 now (next_pipe s)). split; [reflexivity|]. simpl.
  unfold CommHandler.epoll_ctl. rewrite (proj2 (Z.ltb_ge _ _)) by lia. rewrite He.
  split; [exact Hst'|]. split_and!; try done.
  - exists (CommHandler.next_cb (_comm_handler s)). simpl. rewrite !lookup_insert_eq.
    split_and!; try done; lia.
  - intros soc' Hne. by rewrite lookup_insert_ne.
  - intros j' soc' Hne (ptr & H1 & H2 & H3 & H4 & H5 & H6). exists ptr. simpl.
    rewrite !lookup_insert_ne by (done || lia). split_and!; try done; lia.
Qed.

(** Sockets that accept has just returned. *)
Definition fresh_sockets (s : Proxy) (l : list Z) : Prop :=
  NoDup l /\ Forall (fun soc => 0 <= soc /\ CommHandler.epoll (_comm_handler s) !! soc = None)%Z l.

Lemma accept_all now p l s A q :
  stage_ok (_proxy s) A -> vec_get A p = Some q -> is_u32 p ->
  (0 <= Counter._count (_jid_factory s))%Z ->
  (Counter._count (_jid_factory s) + Z.of_nat (length l) <= INT_MAX)%Z ->
  fresh_sockets s l ->
  exists s' jobs, called_all now (CommHandler.CallBack1 p <$> l) s = Done tt s' /\
    stage_ok (_proxy s') (vec_set p (q ++ jobs) A) /\
    Forall2 (queued s') jobs l /\ NoDup (job_id <$> jobs) /\
    Forall (fun j => priority j = p /\
      (Counter._count (_jid_factory s) < Z.of_N (job_id j))%Z) jobs /\
    _exec s' = _exec s /\
    (forall j' soc', soc' ∉ l -> queued s j' soc' -> queued s' j' soc').
Proof.
  revert s A q. induction l as [|soc l IH]; intros s A q Hst Hq Hu Hc Hm [Hnd Hf]; simpl in *.
  - exists s, []. rewrite app_nil_r. unfold vec_set. rewrite list_insert_id by exact Hq.
    split_and!; try done; constructor.
  - apply NoDup_cons in Hnd as [Hni Hnd]. apply Forall_cons in Hf as [[Hs He] Hf].
    pose proof (vec_get_Some_lt _ _ _ Hq) as Hlt.
    destruct (received_ok s A p now soc Hst Hlt Hu) as
      (s1 & j & E & Hst1 & Hp & Hid & _ & Hj & Hx1 & Hc1 & He1 & Hfr); [lia|done|done|].
    assert (abs_enqueue j A = vec_set p (q ++ [j]) A) as EA
      by (unfold abs_enqueue; rewrite Hp, Hq; done).
    rewrite EA in Hst1.
    destruct (IH s1 (vec_set p (q ++ [j]) A) (q ++ [j])) as
      (s' & jobs & E' & Hst' & Hjobs & Hids & Hall & Hx & Hfr'); try done; [|lia..| |].
    { by rewrite vec_get_set_eq. }
    { split; [done|]. apply Forall_forall. intros soc' Hin.
      rewrite Forall_forall in Hf. destruct (Hf _ Hin) as [? Hno]. split; [done|].
      rewrite He1; [done|]. by intros ->. }
    exists s', (j :: jobs). unfold called. rewrite (bind_Done _ _ _ _ _ E).
    split; [done|]. split; [by rewrite vec_set_twice, <-app_assoc in Hst'|].
    rewrite Hc1 in Hall. split_and!.
    + constructor; [by apply Hfr'|done].
    + simpl. constructor; [|done]. intros (j' & Ej & Hj')%list_elem_of_fmap.
      rewrite Forall_forall in Hall. destruct (Hall _ Hj') as [_ Hgt]. lia.
    + constructor; [split; [done|lia]|]. eapply Forall_impl; [exact Hall|]. intros x [? ?].
      split; [done|lia].
    + congruence.
    + intros j' soc' Hnin Hq'. apply Hfr'; [set_solver|]. apply Hfr; [set_solver|done].
Qed.

(** C19. From accept to the queue: when the communication handler hands over the
    connections accepted on the port of a priority, each becomes one job, at the
    end of the queue of that priority and in the order of acceptance; the ids are
    pairwise distinct and new, every job has its own pipe with the accepted
    socket, and the socket is watched by the callback the pipe refers to. *)
Theorem accepted_connections_queued now p l s A q :
  stage_ok (_proxy s) A -> vec_get A p = Some q -> is_u32 p ->
  (0 <= Counter._count (_jid_factory s))%Z ->
  (Counter._count (_jid_factory s) + Z.of_nat (length l) <= INT_MAX)%Z ->
  fresh_sockets s l ->
  exists s' jobs, called_all now (CommHandler.CallBack1 p <$> l) s = Done tt s' /\
    stage_ok (_proxy s') (vec_set p (q ++ jobs) A) /\
    Forall2 (queued s') jobs l /\ NoDup (job_id <$> jobs) /\
    Forall (fun j => priority j = p /\
      (Counter._count (_jid_factory s) < Z.of_N (job_id j))%Z) jobs.
Proof.
  intros H1 H2 H3 H4 H5 H6.
  destruct (accept_all now p l s A q H1 H2 H3 H4 H5 H6) as (s' & jobs & ? & ? & ? & ? & ? & _).
  by exists s', jobs.
Qed.

(** ** A client that goes away while its job is queued *)

(** The value map knows the pipe of the only job with an id. *)
Lemma refs_of_one (q : Queue) A p (l : list (Job N)) j :
  repr q A -> vec_get A p = Some l -> j ∈ l -> abs_count (job_id j) A = 1 ->
  refs_of (job_id j) q = [job_data j].
Proof.
  intros (Q & -> & H & _) Hl Hj Hc. pose proof (mr_vm _ _ H) as Hvm.
  rewrite <-(length_entries _ _ _ Hvm) in Hc.
  unfold jobs_of in Hl. rewrite vec_get_fmap in Hl.
  destruct (vec_get Q p) as [q0|] eqn:Eq; [|done]. injection Hl as <-.
  apply list_elem_of_fmap in Hj as ([n j0] & -> & Hin). simpl in *.
  assert ((j0, n) ∈ entries (_value_mapper q) (job_id j0)) as Hmem.
  { assert ((j0, n) ∈ filter (at_prio p) (entries (_value_mapper q) (job_id j0))) as Hf.
    { rewrite (vr_entries _ _ Hvm _ _ _ Eq). apply list_elem_of_fmap. exists (n, j0).
      split; [done|]. apply elem_of_filter_bool. split; [|done]. unfold has_id. by apply N.eqb_refl. }
    by apply elem_of_filter_bool in Hf as [_ ?]. }
  unfold refs_of, entries in *.
  destruct (default [] (_value_mapper q !! job_id j0)) as [|e [|? ?]]; try done.
  apply list_elem_of_singleton in Hmem as <-. done.
Qed.

Lemma destroy_queued s ref soc ptr :
  pipes s !! ref =
    Some (mkTcpPipe (Some (mkHalfPipe (Some (Connection.new soc)))) None ptr None) ->
  destroy_pipes [ref] s = Done tt
    (mkProxy (_jid_factory s)
       (CommHandler.set_epoll (delete soc (CommHandler.epoll (_comm_handler s))) (_comm_handler s))
       (_exec s) (_proxy s) (delete ref (pipes s)) (next_pipe s) (lambdas s)
       (syscalls s ++ [Connection.sys_shutdown soc; Connection.sys_close soc])).
Proof.
  intros Hp. unfold destroy_pipes, destroy_pipe, on_comm, zoom. unM. rewrite Hp. done.
Qed.

(** C20. A client that closes its connection while its job waits: the callback
    that watches the socket resets the job's first_cb to nullptr, so that nobody
    deletes the callback a second time, and submits a purge; the job still waits
    with everything else of its pipe unchanged.  The next
    pass of an idle executor takes the job, and only it, out of its queue,
    destroys its pipe exactly once, shuts its socket down and closes it; every
    other waiting job keeps its pipe and its registration. *)
Theorem client_gone_purged now s A p l j soc ready :
  stage_ok (_proxy s) A -> vec_get A p = Some l -> j ∈ l -> abs_count (job_id j) A = 1 ->
  queued s j soc -> Executor.exec_ok (_exec s) [] 1 ->
  exists s1 s2, called now (CommHandler.CallBack2 (job_data j) soc ready) s = Done tt s1 /\
    stage_ok (_proxy s1) A /\
    (exists p0, pipes s !! job_data j = Some p0 /\
       pipes s1 = <[job_data j := mkTcpPipe (pipe_in p0) (pipe_out p0) None (second_cb p0)]> (pipes s)) /\
    exec_pass s1 = Done true s2 /\
    stage_ok (_proxy s2) (abs_purge (job_id j) A) /\
    pipes s2 = delete (job_data j) (pipes s) /\
    CommHandler.epoll (_comm_handler s2) = delete soc (CommHandler.epoll (_comm_handler s)) /\
    syscalls s2 = syscalls s ++ [Connection.sys_shutdown soc; Connection.sys_close soc] /\
    (forall j' soc', soc' <> soc -> job_data j' <> job_data j ->
       queued s j' soc' -> queued s2 j' soc').
Proof.
  intros Hst Hl Hj Hc (ptr & Hp & He & Hh & Hlam & Hlt & Hpl) Hex.
  set (t := Executor.mkExecutorCallback (job_id j) (job_id j)).
  destruct (Executor.submit_ok _ _ 0 now t Hex) as (e1 & E1 & Hex1 & Hr1).
  destruct (Executor.worker_runs e1 t [] 0 Hex1) as (e2 & E2 & _ & Hr2).
  destruct (purge_ok (_proxy s) A (job_id j) Hst) as (x & E3 & Hst3).
  pose proof (refs_of_one _ _ _ _ _ (proj2 Hst) Hl Hj Hc) as Href.
  eexists _, _. split.
  { unfold called, first_callback, set_first_cb, on_exec, zoom. unM. rewrite Hlam, Hp. simpl.
    fold t. rewrite E1. reflexivity. }
  split; [exact Hst|]. split; [by eexists|]. split.
  { unfold exec_pass, on_exec, zoom. unM. simpl. rewrite E2. simpl.
    rewrite Hr2, drop_app_length. simpl.
    unfold Purge, on_proxy, zoom. unM. simpl. rewrite E3. simpl. rewrite Href.
    erewrite destroy_queued by (simpl; by rewrite lookup_insert_eq). reflexivity. }
  simpl. split; [exact Hst3|]. split_and!; try done.
  - by rewrite delete_insert_eq.
  - intros j' soc' Hs' Hd' (ptr' & H1 & H2 & H3 & H4 & H5 & H6). exists ptr'. simpl.
    rewrite delete_insert_eq, !lookup_delete_ne by congruence. done.
Qed.

End ProxyApp.
