(* ===== verification/ProxyMain.v ===== *)
(** * Start and end of the proxy: the constructors of DansThrottlingProxy, main of
      dans_proxy.cc, the callback of throttling_proxy_example.cc, and the
      destruction of ProxyScheduler *)

From stdpp Require Import prelude gmap list strings pretty.
From S2P Require Import Prelude Synchronization Job BaseMultiQueue JobTypes MultiQueue.
From S2P Require Import MultiQueueSpec MultiQueueRuns Dispatcher Scheduler DStage Throttler.
From S2P Require Import ThrottlerStats ThrottlerTimer ProxyPipe CommHandler ProxyStage ProxyApp.

Set Warnings "-clear-no-such-hyp".

Module DansProxy.
Import ProxyStage ThrottlingProxy.

Definition kHighPriority : N := 0.
Definition kLowPriority : N := 1.

(** dans_proxy.cc has its own copy of ReceivedConnection. *)
Definition ReceivedConnection (priority : N) (now soc : Z) : M Proxy unit :=
  jid ← on_factory JobIdFactory.CreateJobId;
  ref ← make_pipe soc;
  _ ← make_lambda ref jid;
  cb ← on_comm (CommHandler.MonitorNew soc (mkReadyFor false false 0 0) ref);
  _ ← set_first_cb ref (Some cb);
  on_proxy (Dispatch (Some (mkJob jid priority 0 now ref)) 0).

(** main up to the wait: the stage is built before the executor.  [soc1] and
    [soc2] are the sockets that Serve listens with on FLAGS_primary_prio_port_in
    and FLAGS_secondary_prio_port_in; the port numbers go into bind(2) and are
    not part of the state. *)
Definition main_setup (f : Flags) (soc1 soc2 : Z) : outcome Proxy unit :=
  match ProxyStage.construct f (replicate (N.to_nat (kMaxPrio + 1)) kThreadsPerPrio) with
  | Crash e => Crash e
  | Wait _ => Crash CheckFailure
  | Done _ p =>
      match Executor.construct kPurgeThreadPoolThreads with
      | Crash e => Crash e
      | Wait ex => Wait (start f ex p)
      | Done _ ex =>
          (_ ← on_comm (CommHandler.Serve soc1 kHighPriority);
           on_comm (CommHandler.Serve soc2 kLowPriority)) (start f ex p)
      end
  end.

Definition lock : M mutex unit := fun m => if m then Wait m else Done tt true.

(** The end of both main functions: [wait_forever] is locked by this thread
    before the last lock unless a run time was given. *)
Definition wait_forever (run_time : Z) : M mutex unit :=
  _ ← lock;
  _ ← (if (0 <=? run_time)%Z then modify unlock else mret tt);
  lock.

End DansProxy.

Module Example.
Import Throttler.

(** RunThisFunctionEveryT on [your_persistant_state] and the throttler. *)
Definition RunThisFunctionEveryT : M (bool * Throttler) unit :=
  let set p z : M (bool * Throttler) unit := zoom snd (fun t s => (s.1, t)) (SetThrottle p z) in
  get ≫= fun s : bool * Throttler =>
  if s.1 then
    _ ← set kPrimaryPriority 1%Z;
    _ ← set kSecondaryPriority 1%Z;
    modify (fun s => (false, s.2))
  else
    _ ← set kPrimaryPriority 1000%Z;
    _ ← set kSecondaryPriority 1000%Z;
    modify (fun s => (true, s.2)).

Definition kGenericThrottleValue : Z := 1000.

(** main up to the wait, which is that of dans_proxy.cc. *)
Definition main_setup (f : ProxyStage.Flags) (soc1 soc2 : Z) :
    outcome ThrottlingProxy.Proxy unit :=
  ThrottlingProxy.construct_with f soc1 soc2 kGenericThrottleValue kGenericThrottleValue.

Fixpoint runs (n : nat) : M (bool * Throttler) unit :=
  match n with
  | O => mret tt
  | S n' => _ ← RunThisFunctionEveryT; runs n'
  end.

Lemma run_once b t :
  RunThisFunctionEveryT (b, t) = Done tt (negb b, set_targets
    (if b then Two 1 1 else Two 1000 1000)%Z t).
Proof. unfold RunThisFunctionEveryT, SetThrottle, zoom. unM. destruct b, t as [[] ? ? ? ?]; reflexivity. Qed.

(** The example's callback never trips SetThrottle's check, whatever the targets
    were, and alternates between 1000 and 1. *)
Lemma example_alternates n b t :
  runs (S n) (b, t) = Done tt (xorb b (Nat.odd (S n)), set_targets
    (if xorb b (Nat.odd (S n)) then Two 1000 1000 else Two 1 1)%Z t).
Proof.
  revert b t. induction n as [|n IH]; intros b t.
  - simpl. rewrite (bind_Done _ _ _ _ _ (run_once b t)). by destruct b.
  - change (runs (S (S n))) with (RunThisFunctionEveryT ≫= fun _ => runs (S n)).
    rewrite (bind_Done _ _ _ _ _ (run_once b t)), IH.
    rewrite (Nat.odd_succ (S n)), <-Nat.negb_odd.
    by destruct b, (Nat.odd (S n)), t as [[] ? ? ? ?].
Qed.

End Example.

Module ProxyMain.
Import MQ MQSpec ProxyStage TcpPipe ThrottlingProxy ProxyApp.

(** A port that is served: its socket is armed, and a connection event runs
    accept for the given priority. *)
Definition serves (h : CommHandler.handler) (soc : Z) (priority : N) : Prop :=
  exists ptr, CommHandler.epoll h !! soc =
      Some (CommHandler.mkReg (CommHandler.monitor_events CommHandler.EPOLLIN) ptr true) /\
    CommHandler.heap h !! ptr =
      Some (CommHandler.new_callback CommHandler.BServeSocketReady soc priority
              CommHandler.DELETE_AFTER_CALLING).

(** A proxy that is ready for its first connection. *)
Record ready (f : Flags) (soc1 soc2 : Z) (s : Proxy) : Prop := mk_ready {
  rd_stage : stage_ok (_proxy s) [[]; []];
  rd_serves1 : serves (_comm_handler s) soc1 kPrimaryPriority;
  rd_serves2 : serves (_comm_handler s) soc2 kSecondaryPriority;
  rd_only : forall soc, soc <> soc1 -> soc <> soc2 ->
    CommHandler.epoll (_comm_handler s) !! soc = None;
  rd_count : Counter._count (_jid_factory s) = 0%Z;
  rd_exec : forall n, (Z.of_nat n < INT_MAX)%Z -> Executor.exec_ok (_exec s) [] n;
  rd_throttler : _throttler (_proxy s) = Throttler.new 1 (throttle_targets f);
  rd_pipes : pipes s = ∅
}.

Lemma construct_eq f soc1 soc2 ex p :
  Executor.construct kPurgeThreadPoolThreads = Done tt ex ->
  ProxyStage.construct f [1; 1]%N = Done tt p ->
  construct f soc1 soc2 =
    (_ ← on_comm (CommHandler.Serve soc1 kPrimaryPriority);
     on_comm (CommHandler.Serve soc2 kSecondaryPriority)) (start f ex p).
Proof.
  intros E1 E2. unfold construct.
  change (replicate (N.to_nat (kMaxPrio + 1)) kThreadsPerPrio) with [1; 1]%N.
  by rewrite E1, E2.
Qed.

Lemma serve_both f soc1 soc2 ex p :
  soc1 <> soc2 -> (0 <= soc1)%Z -> (0 <= soc2)%Z ->
  stage_ok p [[]; []] -> _throttler p = Throttler.new 1 (throttle_targets f) ->
  (forall n, (Z.of_nat n < INT_MAX)%Z -> Executor.exec_ok ex [] n) ->
  exists s, (_ ← on_comm (CommHandler.Serve soc1 kPrimaryPriority);
     on_comm (CommHandler.Serve soc2 kSecondaryPriority)) (start f ex p) = Done tt s /\
    ready f soc1 soc2 s.
Proof.
  intros Hne H1 H2 Hst Ht Hex.
  unfold on_comm, CommHandler.Serve, CommHandler.AddServerSocket, CommHandler.publish, zoom. unM.
  simpl. eexists. split; [reflexivity|]. unfold CommHandler.epoll_ctl.
  rewrite (proj2 (Z.ltb_ge soc1 0)), (proj2 (Z.ltb_ge soc2 0)) by lia.
  rewrite lookup_empty, lookup_insert_ne, lookup_empty by done.
  split; simpl; try done.
  - exists 1%N. simpl. rewrite lookup_insert_ne, lookup_insert_eq by done.
    by rewrite lookup_insert_ne, lookup_insert_eq by done.
  - exists 2%N. simpl. by rewrite !lookup_insert_eq.
  - intros soc Hn1 Hn2. by rewrite !lookup_insert_ne by done.
Qed.

Lemma start_ready f soc1 soc2 :
  Throttler.targets_ok (throttle_targets f) = true ->
  soc1 <> soc2 -> (0 <= soc1)%Z -> (0 <= soc2)%Z ->
  exists s, construct f soc1 soc2 = Done tt s /\ ready f soc1 soc2 s.
Proof.
  intros Ht Hne H1 H2. destruct (construct_stage_ok f Ht) as (p & t & E & Hst & Hp & Hnew & _).
  destruct (Executor.construct_ok kPurgeThreadPoolThreads) as (ex & Ex & _ & Hex).
  rewrite (construct_eq f soc1 soc2 ex p Ex E). apply serve_both; try done. congruence.
Qed.

(** The proxy starts: unless both throttles are 0, the constructor of
    DansThrottlingProxy returns with both ports served, each for its priority,
    with empty queues, running workers, an idle executor and the throttles of the
    flags, ready for connections. *)
Theorem construct_ready f soc1 soc2 :
  Throttler.targets_ok (throttle_targets f) = true ->
  soc1 <> soc2 -> (0 <= soc1)%Z -> (0 <= soc2)%Z ->
  exists s, construct f soc1 soc2 = Done tt s /\ ready f soc1 soc2 s.
Proof. apply start_ready. Qed.

Lemma construct_ready_witness : exists s,
  construct default_flags 3 4 = Done tt s /\ ready default_flags 3 4 s.
Proof. apply construct_ready; [reflexivity|discriminate|discriminate|discriminate]. Defined.

(** dans_proxy.cc starts in the same condition, although main builds the stage
    before the executor. *)
Theorem dans_proxy_ready f soc1 soc2 :
  Throttler.targets_ok (throttle_targets f) = true ->
  soc1 <> soc2 -> (0 <= soc1)%Z -> (0 <= soc2)%Z ->
  exists s, DansProxy.main_setup f soc1 soc2 = Done tt s /\ ready f soc1 soc2 s.
Proof.
  intros Ht Hne H1 H2. destruct (construct_stage_ok f Ht) as (p & t & E & Hst & Hp & Hnew & _).
  destruct (Executor.construct_ok kPurgeThreadPoolThreads) as (ex & Ex & _ & Hex).
  unfold DansProxy.main_setup.
  change (replicate (N.to_nat (kMaxPrio + 1)) kThreadsPerPrio) with [1; 1]%N.
  rewrite E, Ex. apply serve_both; try done. congruence.
Qed.

(** The example starts with both targets at 1000 and its updater running. *)
Example example_starts : exists s t, Example.main_setup default_flags 3 4 = Done tt s /\
  _throttler (_proxy s) = Some t /\
  Throttler._throttle_targets t = Throttler.Two 1000%Z 1000%Z /\
  ThrottlerTimer._updater_thread (_updater (_proxy s)) = Some (0, true) /\
  ThrottlerTimer.runners (_updater (_proxy s)) = [ThrottlerTimer.RStart].
Proof. eexists _, _. split; [vm_compute; reflexivity|]. by repeat split. Qed.

(** main returns exactly when a run time was given. *)
Lemma main_waits run_time :
  DansProxy.wait_forever run_time false = (if (0 <=? run_time)%Z then Done tt true else Wait true).
Proof. unfold DansProxy.wait_forever. unM. by destruct (0 <=? run_time)%Z. Qed.

(** ** End to end *)

Lemma accepted_connections_queued_witness : exists s s' jobs,
  construct default_flags 3 4 = Done tt s /\
  called_all 7 [CommHandler.CallBack1 0 8; CommHandler.CallBack1 0 9] s = Done tt s' /\
  stage_ok (_proxy s') [jobs; []] /\ Forall2 (queued s') jobs [8; 9]%Z.
Proof.
  destruct (start_ready default_flags 3 4) as (s & E & [R1 _ _ R4 R5 _ _ _]);
    [reflexivity|discriminate|discriminate|discriminate|].
  destruct (accepted_connections_queued 7 0 [8; 9]%Z s [[]; []] [])
    as (s' & jobs & E' & Hst & Hq & _); try done.
  - by rewrite R5.
  - rewrite R5. unfold INT_MAX. simpl. lia.
  - split; [repeat constructor; set_solver|]. repeat constructor; try done; by apply R4.
  - by exists s, s', jobs.
Defined.

Lemma client_gone_purged_witness : exists s j s1 s2,
  queued s j 8 /\ stage_ok (_proxy s) [[j]; []] /\
  called 9 (CommHandler.CallBack2 (job_data j) 8 (mkReadyFor false false 8192 0)) s = Done tt s1 /\
  exec_pass s1 = Done true s2 /\
  syscalls s2 = syscalls s ++ [Connection.sys_shutdown 8; Connection.sys_close 8].
Proof.
  destruct (start_ready default_flags 3 4) as (s0 & E & [R1 _ _ R4 R5 R6 _ _]);
    [reflexivity|discriminate|discriminate|discriminate|].
  destruct (accept_all 7 0 [8]%Z s0 [[]; []] []) as (s & jobs & _ & Hst & Hq & _ & _ & Hx & _);
    try done.
  { by rewrite R5. }
  { rewrite R5. unfold INT_MAX. simpl. lia. }
  { split; [repeat constructor; set_solver|]. repeat constructor; try done; by apply R4. }
  apply Forall2_cons_inv_r in Hq as (j & jobs' & Hj & Hnil & ->).
  apply Forall2_nil_inv_r in Hnil as ->. change (stage_ok (_proxy s) [[j]; []]) in Hst.
  destruct (client_gone_purged 9 s [[j]; []] 0 [j] j 8 (mkReadyFor false false 8192 0))
    as (s1 & s2 & E1 & _ & _ & E2 & _ & _ & _ & Hs & _); try done.
  - apply list_elem_of_here.
  - simpl. unfold has_job_id. by rewrite N.eqb_refl.
  - rewrite Hx. by apply R6.
  - exists s, j, s1, s2. done.
Defined.

(** ** The end of ProxyScheduler *)

(** ~ProxyScheduler's body on any running stage. *)
Lemma destroy_scheduler_ok p A :
  stage_ok p A -> exists p', destroy_scheduler p = Done tt p' /\ _destructing p' = Some true /\
    _throttler p' = _throttler p /\ _updater p' = _updater p.
Proof.
  intros [[_ Hrun] (Q & -> & H & _)].
  destruct (MQRuns.ReleaseQueues_spec _ _ H) as (q' & E & _).
  unfold destroy_scheduler, on_queue, on_stage, DStage.on_multi_q, zoom. unM. simpl.
  change (Scheduler._running (DStage._scheduler (stage (set_destructing p)))) with
    (Scheduler._running (DStage._scheduler (stage p))). rewrite Hrun. simpl.
  unfold queue_of in E. rewrite E. by eexists.
Qed.

(** A worker that waits for a throttle permit stays blocked: the destructor
    releases the queues but not the throttler's blocks, so ~Scheduler's join does
    not return. *)
Theorem throttled_worker_not_released p A t prio :
  stage_ok p A -> _throttler p = Some t ->
  Throttler.get2 (Throttler._throttle_blocks t) prio = Some true ->
  exists p' p'', destroy_scheduler p = Done tt p' /\ take_job prio p' = Wait p''.
Proof.
  intros Hst Ht Hb. destruct (destroy_scheduler_ok p A Hst) as (p' & E & _ & Ht' & _).
  exists p'. unfold take_job, on_throttler, Throttler.Dequeue, Throttler.on_throttler,
    Throttler.lock_block, zoom. unM. rewrite Ht', Ht. simpl. rewrite Hb. by eexists.
Qed.

(** The Throttler is a member of the derived class: it is freed before ~Scheduler
    joins the workers, and a worker that has passed its test of [_destructing]
    calls through the freed pointer; one that comes to the test later reads a
    flag whose lifetime has ended. *)
Theorem throttler_freed_before_join p A prio :
  stage_ok p A -> _destructing p = Some false -> ThrottlerTimer._updater_thread (_updater p) = None ->
  test_destructing p = Done false p /\
  exists p1 p2, destroy_scheduler p = Done tt p1 /\ destroy_members p1 = Done tt p2 /\
    take_job prio p2 = Crash UseAfterFree /\ worker_pass prio p2 = Crash UseAfterFree.
Proof.
  intros Hst Hd Hu. split; [unfold test_destructing; unM; by rewrite Hd|].
  destruct (destroy_scheduler_ok p A Hst) as (p1 & E & _ & _ & Hu1). exists p1.
  unfold destroy_members, ThrottlerTimer.StopRunningEveryT, ThrottlerTimer.join, zoom. unM. simpl.
  rewrite Hu1, Hu. eexists. split; [done|]. split; [reflexivity|done].
Qed.

(** The constructor that sets both throttles sets them one after the other: a
    valid pair can fail the check in between. *)
Theorem construct_with_order_aborts :
  construct_with (mkFlags "" 5012 5013 2 5 0 false) 3 4 0 7 = Crash CheckFailure /\
  Throttler.targets_ok (Throttler.Two 0 7)%Z = true.
Proof. split; vm_compute; reflexivity. Qed.

End ProxyMain.
